(* ===== verification/_CoqProject ===== *)
-Q . S2P
Prelude.v
Jammdb.v
Effects.v
Run.v
RustStd.v
Common.v
Buckets.v
Slices.v
Access.v
Inode.v
Create.v
FsType.v
Link.v
Truncate.v
File.v
Rename.v
Attr.v
Readdir.v
Rvfs.v
Extend.v
Safe.v
Typed.v
Atomic.v
Samples.v
Namespace.v
Moves.v
Exchange.v
Listing.v
Data.v
CopyRange.v
Metadata.v
Refusals.v
Xattrs.v
Mount.v
ExtendSafe.v
ExtendEffects.v
Storage.v
StorageEffects.v
SpecialRead.v
RvfsRules.v
RvfsEffects.v
RvfsReaddir.v
Fuse.v
System.v
RvfsSystem.v
FuseSystem.v
FuseEffects.v
Listxattr.v
Tree.v
TreeInv.v
TreeRefine.v
TreeSystem.v
FuseTree.v
Abstract.v
Locks.v
Concur.v
Serial.v
Buffers.v
Examples.v
