(* ===== verification/Prelude.v ===== *)
(** * DBFS: a verification development

    DBFS is a file system whose storage is an embedded key-value database.
    Every inode is a bucket of the database, named by its number; its
    attributes, its directory entries ([data:<name>] -> inode number in
    decimal), its file data ([zdata:<slice number>] -> one slice of
    [SLICE_SIZE] bytes), its link target and its extended attributes are
    key-value pairs of that bucket; a super-block bucket keeps the free space,
    the block size, a magic number and the inode counter of the last unmount.
    The operations ([dbfs_common_*]) are called by two adapters: one for the
    [rvfs] virtual file system of a kernel, one for FUSE.  Each call runs in
    one or more database transactions and returns a [DbfsResult] or panics.

    ** How the program is modelled

    The database and the buffer allocator are third-party code.  They are the
    class [Platform] of [Jammdb.v]: one field per library function the sources
    call and, as laws, what these functions are documented to do to the view
    of a transaction (a finite map from bucket paths to buckets).  A platform
    may fail to start or to commit any transaction and run out of memory;
    [Reliable] platforms do not.  [map_platform] is an executable reliable
    instance: every witness runs on it or on a view it produced.

    A Rust function is a [Prog] ([Effects.v]): a tree of commands (database
    operations, the inode counter [DBFS_INODE_NUMBER], the readdir table, the
    allocator) with [Ok], [Err] or [Panic] at its leaves, written with a monad
    notation.  [with_tx] opens a transaction and drops it on every way out, so
    that what was not committed is lost.  [Run.v] executes programs on any
    platform ([run]) and has the logic used by all the proofs: [wp rel p Q s]
    says that every run of [p] from the abstract state [s] (committed view,
    open transactions, inode counter, readdir table), on every platform or on
    every reliable one, ends with an outcome and a state that satisfy [Q].  As
    runs are total functions, these are total-correctness statements: the call
    returns, and does so with that result.

    Integers are [Z]; the arithmetic of the sources is [add64], [sub64],
    [mul64], ..., which panic on overflow when [overflow_checks] and wrap
    otherwise; stored integers are big-endian bytes of their width ([to_be]).
    [Config] holds the build options: the slice size, one of the five values
    the Cargo features allow, and the overflow checks.  Theorems are for every
    configuration.

    Fuel.  [to_dec] (formatting of a [usize]) has 20 digits, enough for every
    [u64] ([parse_fmt_usize]).  [write_loop] has one unit of fuel per slice the
    buffer can touch ([write_fuel], [blen buf / SLICE_SIZE + 2]); running out
    is a panic of the model, and [Data.write_effect] shows that it does not
    happen.  The loops of the two listings take their fuel as an argument ([fe_rounds] for
    FUSE): the theorems on what they list hold for every fuel from 2 on
    ([FuseEffects], [RvfsReaddir]).  The recursive copy of a user bucket
    needs one unit per level of nesting ([ExtendEffects.rename_moves_bucket]),
    [special_loop] one per slice ([special_fuel], [SpecialRead]).  All other
    loops are structural.

    ** Files

    - [Prelude] (this file): bytes, big-endian encodings, bit lemmas, tactics.
    - [Jammdb]: the platform class, its laws, and [map_platform].
    - [Effects], [Run]: programs, runs and the [wp] logic.
    - [RustStd]: decimal numbers, prefixes, slices, UTF-8 validity.
    - [Common]: [common.rs] (errors, permissions, file types, times,
      attributes, keys, the readdir table) and the decoding macros of [lib.rs].
    - [Buckets]: what an inode bucket holds; symbolic execution of programs.
    - [Slices]: the order of keys, the slices of a file, its bytes.
    - [Access]: [checkout_access], [creation_gid], [permission_from_mode]
      ([inode.rs]); [clear_suid_sgid], [parse_xattr_namespace],
      [xattr_access_check] ([attr.rs]).
    - [Inode]: [dbfs_common_attr], [_lookup], [_access] ([inode.rs]), [_open]
      ([file.rs]); [Stat], the attributes as one record.
    - [Create]: [dbfs_common_create] ([inode.rs]), for files, directories,
      symbolic links and devices.
    - [FsType]: [init_db] ([fuse/mkfs.rs]); the root inode, the super block,
      sync, unmount and statfs ([fs_type.rs]).
    - [Link]: [dbfs_common_link], [_rmdir] ([inode.rs]), [_unlink],
      [_readlink] ([link.rs]).
    - [Truncate]: [dbfs_common_truncate], [_fallocate] ([inode.rs]).
    - [File]: [dbfs_common_read], [_write], [_copy_file_range] ([file.rs]),
      [copy_data] ([lib.rs]).
    - [Rename]: [dbfs_common_rename] ([inode.rs]), split into its two lookups,
      the exchange and the move.
    - [Attr]: extended attributes, chmod, chown, utimens ([attr.rs]).
    - [Readdir]: [dbfs_common_readdir] ([file.rs]).
    - [Safe]: a program logic for what every command of a run keeps;
      [Typed], [Atomic]: its instance for the typing of stored values, and a
      logic for failure atomicity.
    - [Samples]: a concrete file system, built by running the model.
    - [Namespace], [Moves], [Listing], [Data], [Metadata], [Mount], [System]:
      the theorems.
    - [Fuse]: the FUSE adapter, [fuse/inode.rs], [fuse/attr.rs],
      [fuse/file.rs], [fuse/link.rs], [fuse/sblk.rs] and the handlers of
      [fuse/mod.rs] ([fuse_lookup] for [DbfsFuse::lookup], and so on), with the
      conversions of [common.rs] to the types of the [fuser] crate; the reply a
      handler sends is its result.
    - [FuseSystem], [FuseEffects]: the theorems on FUSE requests.
    - [SpecialRead]: [dbfs_fuse_special_read] ([fuse/file.rs]).
    - [Rvfs]: the [rvfs] adapter, the functions of [inode.rs], [file.rs] and
      [fs_type.rs] in its operation tables.  They work on shared objects; an
      [Arc] is a handle into the store [VfsMem] of inodes, dentries and super
      blocks, so that aliases are told apart.  What the sources call of the
      crate is the class [Rvfs], with the laws they rely on.
    - [RvfsRules], [RvfsEffects], [RvfsReaddir], [RvfsSystem]: its rules and
      theorems.
    - [Extend]: [extend.rs], the interpreter of operation sets on user buckets,
      which may be nested; [ExtendSafe]: the logic of programs that stay below
      one bucket, and copies of nested buckets; [ExtendEffects]: the theorems.
    - [Storage]: [fuse/mkfs.rs] and the database handle of [lib.rs]: the file
      that holds the database, its memory map, opening.  The host file system
      is modelled as a file with a position, where every call may be refused or
      shortened; [StorageEffects]: the theorems.
    - [CopyRange], [Exchange], [Listxattr]: what [copy_file_range], a rename with
      [RENAME_EXCHANGE] and the listing of extended attributes do.
    - [Refusals]: the calls that an access check or the sticky bit refuses;
      [Xattrs]: which keys of an inode are extended attributes, and what
      leaves them alone.
    - [Tree]: the abstract specification, a tree of nodes (attributes, entries,
      bytes, link target, extended attributes), the inode counter and the free
      space, and a step relation for the calls, refused ones included;
      [TreeInv]: its invariant; [TreeRefine]: the representation of a tree by
      a database and the simulation of each call; [TreeSystem]: the refinement
      of sequences of calls; [FuseTree]: the specification of FUSE requests on
      top of it, and its refinement by the handlers.
    - [Abstract]: what platforms can do, from both sides: the answers any
      platform may give and a platform for every sequence of answers, and
      [eval], what every reliable platform does.
    - [Locks]: programs that use transactions without waiting for themselves;
      [Concur]: any number of threads that make calls on the shared database
      ([lib.rs], [SafeDb] and [DB]), the atomic inode counter and the locked
      readdir table, one command at a time; [Serial]: the log of their commits
      and the calls along it.
    - [Buffers]: the blocks a call takes from the allocator, by address and
      size.
    - [Examples]: [examples/operate.rs], [examples/test.rs], the mount options
      of [examples/fuse.rs], the super block of every example.

    ** What is proved

    - [TreeSystem]: refinement.  On a new file system, every sequence of calls
      for which the specification of [Tree] says what each call does returns
      what the specification says, never panics, and ends in a database that
      represents the tree the specification ends in ([dbfs_refines_tree]); in
      these databases link counts, parent entries and directory sizes are right
      ([database_is_tree]).  The specification is partial: it does not say
      what the calls do where the code deviates (a read at an unaligned offset,
      a rename onto an existing name), and it leaves open the bytes that a
      write makes appear next to its range.
    - [FuseTree]: the same for FUSE requests.  A request stands for a call of
      the tree ([tcall]) and its reply is a function of the result of the call
      ([reply_of]); every sequence of requests this specification defines, on
      a file system that was just mounted, is served as it says
      ([fuse_refines_tree]).
    - [System]: the calls are the steps of a transition system.  In every
      state that any sequence of calls, failures and restarts can reach, all
      stored values have the type their key demands, so that decoding one
      never panics ([reachable_typed]); a call that does not
      return [Ok] leaves the committed database as it was
      ([failed_call_changes_nothing]), for every call but the few that are
      named in [call_atomic].
    - [Data]: after a write the file has the written bytes at the offset, the
      new size, and all it stored outside the range as before; a read in the
      first slice or from the start of a slice, over stored slices, returns the
      bytes of the file, and there what is written is read back; truncate
      keeps exactly the bytes below the new size and accounts for the space;
      fallocate; [copy_data] is a byte copy for every alignment.  [CopyRange]:
      a copy between files carries over exactly the bytes of the range, under
      the conditions of a read ([copy_file_range_effect]).
    - [Namespace], [Moves], [Listing]: create, lookup, link, unlink, rmdir,
      symlink/readlink and rename as changes of the directory entries and
      attributes, each with a frame ([frame]: no other bucket changes); a
      listing has every entry once.  [Exchange]: an exchange between two
      directories, the second one sticky, swaps two entries
      ([rename_exchange_effect]), but not when it moves a directory.
    - [Metadata], [Listxattr]: the access check is the POSIX rule; chmod, open,
      extended attributes and their listing; the file type is recovered from
      the mode.
    - [Mount]: the state after mkfs, the inode counter across mounts, statfs.
    - [FuseSystem]: the same two results for the transition system whose steps
      are FUSE requests, mounts and unmounts ([fuse_reachable_typed],
      [fuse_error_changes_nothing]).  [FuseEffects]: data written by one
      request is read by the next, where reads are right; the first listing
      request of a directory replies with all of it, and its loop ends.
    - [RvfsSystem]: the transition system of the [rvfs] operations, mounts and
      restarts keeps the stored values typed and the object store sound
      ([vfs_reachable_ok]); a failed operation changes nothing, when the work
      on the objects after its commit cannot fail
      ([vfs_error_changes_nothing]).  [RvfsEffects], [RvfsReaddir]: creation,
      lookup and links keep the objects coherent with the database; attributes
      are a map; remounting restores the counter and the root; a listing is
      complete when its records fit in the caller's buffer and stays inside it
      when the structures of the records do, and passes its end when they do
      not ([vfs_readdir_bounded]).
    - [ExtendEffects]: operations on a user bucket cannot touch anything outside
      it ([operate_confined]), are applied as a whole or not at all, and a
      rename of a bucket moves the whole nested tree.
    - [StorageEffects]: as long as the database writes below the recorded size,
      this size is that of the file and every mapped page is backed by it,
      whatever the host refuses; pages outside the map are refused, unless
      their offset wraps; a page that is written is the page that is read.
    - [Concur], [Serial]: threads that make calls at the same time.  Whatever
      the schedule, all calls end and none waits for good ([calls_complete]);
      stored values keep their types at every moment ([concurrent_typed]); the
      committed contents are the end of a log of commits along which every
      thread makes its calls, each commit on the contents its transaction
      began with, and calls with one transaction take place at one moment of
      it ([calls_serialize]).
    - [Buffers]: a call that succeeds gives back every block it took from the
      allocator, by address and size, and none twice ([calls_return_blocks]).
    - [Examples]: the result of the example program on every reliable platform
      ([operate_example_result]), and that it agrees with the same operations
      written out by hand ([equal_is_operate]).
    - Where the code does not do what it should, the theorem states what it
      does: [read_unaligned], [read_stops_at_hole],
      [write_stores_allocator_memory], [rename_replace_panics],
      [rename_leaks_target], [exchange_breaks_dot], [exchange_needs_sticky],
      [truncate_creates_space], [removexattr_no_effect],
      [listxattr_size_zero], [access_of_root_inode],
      [remove_missing_panics], [symlink_size_zero], [fuse_readlink_padded],
      [fuse_readdir_continue_panics], [fuse_readdir_again_panics],
      [readdir_stores_past_end], [index_wraps], [write_past_size_unbacks],
      [fuse_remount_create_fails],
      [vfs_rename_across_corrupts], [vfs_rename_within_wrong],
      [vfs_unlink_stale], [rename_keeps_old_key], [map_never_grows],
      [open_resizes], [special_read_past_end], [truncate_write_race],
      [failed_write_leaks], [bench_panics].

    ** What is not modelled

    - The sync of the host file that ends [dbfs_fuse_destroy]; [show_dbfs],
      [show_bucket] and [test_dbfs], which only print, through the tables of
      the formatting of strings for debugging; [FakePath], a path string;
      [lock_exclusive] and [unlock], which do nothing.
    - The allocator set-up ([init_cache]), a call of a third-party crate;
      logging; the [main] functions of [link.rs], [rwt.rs], [dbfs2.rs] and
      [hugewrite.rs] of the examples, which go through the path functions of
      the [rvfs] crate, and [serde.rs], which shows the serde crate.
    - The threads of [Concur] make the common calls; the handlers of the
      adapters are run one at a time.  [DB::tx(true)] waits for the one write
      transaction, as the database documents; a read transaction waits for
      nothing.  A panic ends the call and drops its transactions.
    - Reading uninitialised allocator memory is modelled as arbitrary bytes
      ([Platform]'s allocator); reading past the end of a stored slice and
      storing a directory record past the end of the caller's buffer, which are
      undefined behaviour, are panics.  The address of that buffer, and so the
      alignment of the records in it, is not modelled.

    - The specification of the tree has no listings, no removal or listing of
      extended attributes, no copies between files, no exchanges, no devices and
      no unmounting; these have theorems of their own ([Listing], [Metadata],
      [Listxattr], [CopyRange], [Exchange], [Mount]).  Coherence of the [rvfs]
      objects with the database is shown operation by operation and does not
      hold in all reachable states ([vfs_unlink_stale]). *)

From Stdlib Require Import ZArith Lia.
From Stdlib Require Import Strings.Byte.
From Stdlib Require String.
From stdpp Require Export base numbers option list gmap countable.
Export Strings.Byte.
Export String.StringSyntax.

#[global] Open Scope Z_scope.

(** ** Tactics and hint databases shared by the development *)

(** Rewrite rules that evaluate lengths. *)
Create Rewrite HintDb len.

(** Machine-word facts ([u64], [u32], ...) closed by [eauto]. *)
Create HintDb word.

Ltac len := autorewrite with len in *; try lia.

(** Decide a closed disequality of byte strings by computation. *)
Ltac ne_compute := let H := fresh in intros H; vm_compute in H; discriminate H.

(** Split every [match]/[if] of the goal, discarding impossible branches. *)
Ltac split_cases :=
  repeat (case_match; simplify_eq/=; try done).

(** ** Bytes

    A Rust [u8] is a [byte]; a [&[u8]], a [Vec<u8>] and the UTF-8 content of a
    [&str] are lists of bytes. *)

Abbreviation bytes := (list byte).

Definition Z_of_byte (b : byte) : Z := Z.of_N (Byte.to_N b).

Definition byte_of_Z (z : Z) : byte :=
  default x00 (Byte.of_N (Z.to_N (z `mod` 256))).

(** A string literal as the byte string Rust sees ([b"..."] or ["..."]). *)
Definition bs (s : String.string) : bytes := String.list_byte_of_string s.
Arguments bs s%_string_scope.

#[global] Instance byte_eq_dec : EqDecision byte := Byte.byte_eq_dec.

#[global] Program Instance byte_countable : Countable byte := {|
  encode b := N.succ_pos (Byte.to_N b);
  decode p := Byte.of_N (Pos.pred_N p)
|}.
Next Obligation. intros b. simpl. rewrite N.pos_pred_succ. apply Byte.of_to_N. Qed.

Lemma Z_of_byte_range b : 0 <= Z_of_byte b < 256.
Proof. unfold Z_of_byte. pose proof (Byte.to_N_bounded b). lia. Qed.

Lemma byte_of_Z_of_byte b : byte_of_Z (Z_of_byte b) = b.
Proof.
  unfold byte_of_Z. rewrite Z.mod_small by apply Z_of_byte_range.
  unfold Z_of_byte. by rewrite N2Z.id, Byte.of_to_N.
Qed.

Lemma Z_of_byte_of_Z z : Z_of_byte (byte_of_Z z) = z `mod` 256.
Proof.
  unfold byte_of_Z. pose proof (Z.mod_pos_bound z 256 ltac:(lia)) as Hz.
  destruct (Byte.of_N _) as [b|] eqn:E; simpl.
  - unfold Z_of_byte. apply Byte.to_of_N in E. rewrite E. lia.
  - apply Byte.of_N_None_iff in E. lia.
Qed.

(** ** Machine words *)

Definition u16 (z : Z) : Prop := 0 <= z < 2 ^ 16.
Definition u32 (z : Z) : Prop := 0 <= z < 2 ^ 32.
Definition u64 (z : Z) : Prop := 0 <= z < 2 ^ 64.

(** [usize] is 64 bits wide on every target of the program. *)
Abbreviation usize := u64 (only parsing).

#[global] Instance u16_dec z : Decision (u16 z).
Proof. unfold u16. apply _. Defined.
#[global] Instance u32_dec z : Decision (u32 z).
Proof. unfold u32. apply _. Defined.
#[global] Instance u64_dec z : Decision (u64 z).
Proof. unfold u64. apply _. Defined.

Lemma u32_u64 z : u32 z -> u64 z.
Proof. unfold u32, u64. lia. Qed.
Lemma u16_u32 z : u16 z -> u32 z.
Proof. unfold u16, u32. lia. Qed.
#[export] Hint Resolve u32_u64 u16_u32 : word.

(** ** Big-endian encoding: [to_be_bytes] and [from_be_bytes] *)

(** The [n] low-order bytes of [z], most significant first. *)
Fixpoint to_be (n : nat) (z : Z) : bytes :=
  match n with
  | O => []
  | S n' => to_be n' (z / 256) ++ [byte_of_Z z]
  end.

Definition from_be (l : bytes) : Z :=
  fold_left (fun acc b => acc * 256 + Z_of_byte b) l 0.

Lemma length_to_be n z : length (to_be n z) = n.
Proof. revert z; induction n; intros; simpl; [done|]. rewrite length_app, IHn. simpl; lia. Qed.
#[export] Hint Rewrite length_to_be : len.

Lemma from_be_app_one l b : from_be (l ++ [b]) = from_be l * 256 + Z_of_byte b.
Proof. unfold from_be. by rewrite fold_left_app. Qed.

Lemma pow256_S n : 2 ^ (8 * Z.of_nat (S n)) = 256 * 2 ^ (8 * Z.of_nat n).
Proof.
  replace (8 * Z.of_nat (S n)) with (8 + 8 * Z.of_nat n) by lia.
  by rewrite Z.pow_add_r by lia.
Qed.

Lemma from_be_to_be n z : from_be (to_be n z) = z `mod` 2 ^ (8 * Z.of_nat n).
Proof.
  revert z; induction n as [|n IH]; intros z; [by rewrite Z.mod_1_r|].
  simpl to_be. rewrite from_be_app_one, IH, Z_of_byte_of_Z, pow256_S.
  rewrite Z.rem_mul_r by lia. lia.
Qed.

(** Decoding an encoded word that fits gives the word back. *)
Lemma from_to_be n z : 0 <= z < 2 ^ (8 * Z.of_nat n) -> from_be (to_be n z) = z.
Proof. intros. rewrite from_be_to_be. by apply Z.mod_small. Qed.

Lemma from_be_range l : 0 <= from_be l < 2 ^ (8 * Z.of_nat (length l)).
Proof.
  induction l as [|b l IH] using rev_ind; [by vm_compute|].
  rewrite from_be_app_one, length_app, Nat.add_1_r, pow256_S.
  pose proof (Z_of_byte_range b). set (P := 2 ^ _) in *. lia.
Qed.

Lemma to_from_be l n : length l = n -> to_be n (from_be l) = l.
Proof.
  intros <-. induction l as [|b l IH] using rev_ind; [done|].
  rewrite length_app, Nat.add_1_r. simpl. rewrite from_be_app_one.
  pose proof (Z_of_byte_range b) as Hb.
  rewrite Z.div_add_l, Z.div_small, Z.add_0_r, IH by lia. f_equal. f_equal.
  rewrite <- (byte_of_Z_of_byte b) at 2. unfold byte_of_Z.
  by rewrite Z.add_comm, Z.mod_add by lia.
Qed.

Lemma to_be_inj n a b :
  0 <= a < 2 ^ (8 * Z.of_nat n) -> 0 <= b < 2 ^ (8 * Z.of_nat n) ->
  to_be n a = to_be n b -> a = b.
Proof. intros Ha Hb E. by rewrite <- (from_to_be n a), E, from_to_be. Qed.

#[global] Arguments to_be : simpl never.
#[global] Arguments from_be : simpl never.
