(* ===== verification/Jammdb.v ===== *)
(** * The platform DBFS runs on, as an interface

    DBFS is written against two libraries that are not part of the repository:
    the key-value database [jammdb] and the buddy allocator that hands out the
    write buffers.  Both are parameters of the development: the class
    [Platform] has one field per library function the sources call and, as its
    laws, the documented behaviour of these functions, stated on the [view] of
    a transaction (which buckets exist and what they hold).  Nothing else is
    assumed of them.

    [map_platform] is an executable instance, used by the witnesses: it shows
    that the laws can be met. *)

From S2P Require Import Prelude.

(** ** Data of the interface *)

(** [jammdb::Error], with the constructors [common.rs] matches on. *)
Inductive JError :=
  | BucketExists | BucketMissing | KeyValueMissing | IncompatibleValue
  | ReadOnlyTx | JIo | JSync | InvalidDB.

(** The result of a library call: a value, an error value, or a panic. *)
Inductive jres (A : Type) :=
  | JOk (a : A)
  | JErr (e : JError)
  | JPanic.
Arguments JOk {A} a.
Arguments JErr {A} e.
Arguments JPanic {A}.

(** [jammdb::Data]: what a key of a bucket holds. *)
Inductive Data :=
  | KeyValue (v : bytes)
  | Bucket.

#[global] Instance JError_eq_dec : EqDecision JError.
Proof. solve_decision. Defined.
#[global] Instance Data_eq_dec : EqDecision Data.
Proof. solve_decision. Defined.

(** A bucket handle names its bucket by the bucket names that lead to it, the
    top-level bucket first.  [tx.get_bucket(n)] is the path [[n]]. *)
Abbreviation path := (list bytes).
Abbreviation bucket := (gmap bytes Data).
Abbreviation view := (gmap path bucket).

(** ** Byte order of keys *)

Fixpoint key_ltb (a b : bytes) : bool :=
  match a, b with
  | [], [] => false
  | [], _ :: _ => true
  | _ :: _, [] => false
  | x :: a', y :: b' =>
      if Z_of_byte x <? Z_of_byte y then true
      else if Z_of_byte y <? Z_of_byte x then false
      else key_ltb a' b'
  end.

Definition key_leb (a b : bytes) : bool := negb (key_ltb b a).

Fixpoint insert_sorted (x : bytes * Data) (l : list (bytes * Data)) : list (bytes * Data) :=
  match l with
  | [] => [x]
  | y :: l' => if key_leb x.1 y.1 then x :: l else y :: insert_sorted x l'
  end.

(** The entries of a bucket in the order a cursor visits them. *)
Definition sorted_entries (b : bucket) : list (bytes * Data) :=
  foldr insert_sorted [] (map_to_list b).

(** ** What the library functions do to a view *)

Definition live (V : view) (p : path) : bool :=
  match p with [] => true | _ => bool_decide (is_Some (V !! p)) end.

Definition spec_get_bucket (V : view) (p : path) (n : bytes) : jres path :=
  match p with
  | [] => match V !! [n] with Some _ => JOk [n] | None => JErr BucketMissing end
  | _ =>
      match V !! p with
      | None => JPanic
      | Some b =>
          match b !! n with
          | Some Bucket => JOk (p ++ [n])
          | Some (KeyValue _) => JErr IncompatibleValue
          | None => JErr BucketMissing
          end
      end
  end.

Definition spec_get (V : view) (p : path) (k : bytes) : jres (option Data) :=
  match V !! p with
  | None => JPanic
  | Some b => JOk (b !! k)
  end.

Definition spec_cursor (V : view) (p : path) : jres (list (bytes * Data)) :=
  match V !! p with
  | None => JPanic
  | Some b => JOk (sorted_entries b)
  end.

(** [Cursor::seek]: whether the key is there, and the entries from it on. *)
Definition spec_seek (V : view) (p : path) (k : bytes) : jres (bool * list (bytes * Data)) :=
  match V !! p with
  | None => JPanic
  | Some b =>
      JOk (bool_decide (is_Some (b !! k)),
           List.filter (fun e => key_leb k e.1) (sorted_entries b))
  end.

(** [Bucket::range]: the entries with [start <= key < end], in order. *)
Definition spec_range (V : view) (p : path) (start stop : bytes) : jres (list (bytes * Data)) :=
  match V !! p with
  | None => JPanic
  | Some b =>
      JOk (List.filter (fun e => key_leb start e.1 && key_ltb e.1 stop) (sorted_entries b))
  end.

Definition spec_put (wr : bool) (V : view) (p : path) (k v : bytes) : jres unit * view :=
  match V !! p with
  | None => (JPanic, V)
  | Some b =>
      if wr then
        match b !! k with
        | Some Bucket => (JErr IncompatibleValue, V)
        | _ => (JOk tt, <[p := <[k := KeyValue v]> b]> V)
        end
      else (JErr ReadOnlyTx, V)
  end.

Definition spec_delete (wr : bool) (V : view) (p : path) (k : bytes) : jres unit * view :=
  match V !! p with
  | None => (JPanic, V)
  | Some b =>
      if wr then
        match b !! k with
        | None => (JErr KeyValueMissing, V)
        | Some Bucket => (JErr IncompatibleValue, V)
        | Some (KeyValue _) => (JOk tt, <[p := delete k b]> V)
        end
      else (JErr ReadOnlyTx, V)
  end.

Definition spec_create_bucket (wr : bool) (V : view) (p : path) (n : bytes) : jres path * view :=
  if negb (live V p) then (JPanic, V)
  else if negb wr then (JErr ReadOnlyTx, V)
  else
    match p with
    | [] =>
        match V !! [n] with
        | Some _ => (JErr BucketExists, V)
        | None => (JOk [n], <[[n] := ∅]> V)
        end
    | _ =>
        match (V !! p) ≫= (fun b => b !! n) with
        | Some Bucket => (JErr BucketExists, V)
        | Some (KeyValue _) => (JErr IncompatibleValue, V)
        | None =>
            (JOk (p ++ [n]),
             <[p ++ [n] := ∅]> (alter (fun b => <[n := Bucket]> b) p V))
        end
    end.

(** A view without the bucket at [q] and everything nested in it. *)
Definition drop_tree (q : path) (V : view) : view :=
  filter (fun e => ¬ (q `prefix_of` e.1)) V.

Definition spec_delete_bucket (wr : bool) (V : view) (p : path) (n : bytes) : jres unit * view :=
  match spec_get_bucket V p n with
  | JOk q =>
      if wr then (JOk tt, alter (delete n) p (drop_tree q V)) else (JErr ReadOnlyTx, V)
  | JErr e => (JErr (if wr then e else ReadOnlyTx), V)
  | JPanic => (JPanic, V)
  end.

Lemma lookup_drop_tree q V r :
  drop_tree q V !! r = if decide (q `prefix_of` r) then None else V !! r.
Proof.
  unfold drop_tree. case_decide as H.
  - apply map_lookup_filter_None_2. right. intros b _ Hn. by apply Hn.
  - destruct (V !! r) as [b|] eqn:E.
    + apply map_lookup_filter_Some_2; auto.
    + by apply map_lookup_filter_None_2; left.
Qed.

(** ** The interface *)

Class Platform := {
  Db : Type;
  Tx : Type;
  Heap : Type;
  db_view : Db -> view;
  tx_view : Tx -> view;
  tx_writable : Tx -> bool;
  (** [DB::tx] and [Tx::commit]: either can fail with an I/O error *)
  db_tx : Db -> bool -> (JError + Tx) * Db;
  db_commit : Db -> Tx -> (JError + unit) * Db;
  (** operations of a transaction and of its buckets *)
  j_get_bucket : Tx -> path -> bytes -> jres path;
  j_create_bucket : Tx -> path -> bytes -> jres path * Tx;
  j_delete_bucket : Tx -> path -> bytes -> jres unit * Tx;
  j_get : Tx -> path -> bytes -> jres (option Data);
  j_put : Tx -> path -> bytes -> bytes -> jres unit * Tx;
  j_delete : Tx -> path -> bytes -> jres unit * Tx;
  j_cursor : Tx -> path -> jres (list (bytes * Data));
  j_seek : Tx -> path -> bytes -> jres (bool * list (bytes * Data));
  j_range : Tx -> path -> bytes -> bytes -> jres (list (bytes * Data));
  (** the allocator: a block has an address and holds whatever the memory held
      before; it is given back by its address and size *)
  heap_alloc : Heap -> Z -> option (Z * bytes) * Heap;
  heap_dealloc : Heap -> Z -> Z -> Heap;

  (** a transaction starts from the committed contents and does not change them *)
  db_tx_view d wr t d' :
    db_tx d wr = (inr t, d') ->
    tx_view t = db_view d /\ tx_writable t = wr;
  db_tx_keeps d wr : db_view (db_tx d wr).2 = db_view d;
  (** a commit publishes the whole transaction, or nothing *)
  db_commit_view d t d' : db_commit d t = (inr tt, d') -> db_view d' = tx_view t;
  db_commit_keeps d t e d' : db_commit d t = (inl e, d') -> db_view d' = db_view d;
  (** operations of a transaction are those of its view *)
  j_get_bucket_spec t p n : j_get_bucket t p n = spec_get_bucket (tx_view t) p n;
  j_get_spec t p k : j_get t p k = spec_get (tx_view t) p k;
  j_cursor_spec t p : j_cursor t p = spec_cursor (tx_view t) p;
  j_seek_spec t p k : j_seek t p k = spec_seek (tx_view t) p k;
  j_range_spec t p a b : j_range t p a b = spec_range (tx_view t) p a b;
  j_put_spec t p k v :
    ((j_put t p k v).1, tx_view (j_put t p k v).2)
      = spec_put (tx_writable t) (tx_view t) p k v;
  j_delete_spec t p k :
    ((j_delete t p k).1, tx_view (j_delete t p k).2)
      = spec_delete (tx_writable t) (tx_view t) p k;
  j_create_bucket_spec t p n :
    ((j_create_bucket t p n).1, tx_view (j_create_bucket t p n).2)
      = spec_create_bucket (tx_writable t) (tx_view t) p n;
  j_delete_bucket_spec t p n :
    ((j_delete_bucket t p n).1, tx_view (j_delete_bucket t p n).2)
      = spec_delete_bucket (tx_writable t) (tx_view t) p n;
  j_put_writable t p k v : tx_writable (j_put t p k v).2 = tx_writable t;
  j_delete_writable t p k : tx_writable (j_delete t p k).2 = tx_writable t;
  j_create_bucket_writable t p n : tx_writable (j_create_bucket t p n).2 = tx_writable t;
  j_delete_bucket_writable t p n : tx_writable (j_delete_bucket t p n).2 = tx_writable t;
  (** a block has the size that was asked for *)
  heap_alloc_length h n m h' :
    0 <= n -> heap_alloc h n = (Some m, h') -> Z.of_nat (length m.2) = n
}.

(** A platform on which no I/O error occurs and the allocator does not run out
    of memory. *)
Class Reliable (K : Platform) : Prop := {
  db_tx_succeeds d wr : exists t d', db_tx d wr = (inr t, d');
  db_commit_succeeds d t : tx_writable t = true -> exists d', db_commit d t = (inr tt, d');
  heap_alloc_succeeds h n : exists m h', heap_alloc h n = (Some m, h')
}.

(** ** An executable instance

    The database is its view; the allocator hands out addresses in order, and
    memory that was never written holds a fixed non-zero byte, so that a read of
    it shows in a witness. *)

Definition garbage : byte := xee.

#[refine] #[global] Instance map_platform : Platform := {|
  Db := view;
  Tx := view * bool;
  Heap := Z;
  db_view d := d;
  tx_view t := t.1;
  tx_writable t := t.2;
  db_tx d wr := (inr (d, wr), d);
  db_commit d t := if t.2 then (inr tt, t.1) else (inl ReadOnlyTx, d);
  j_get_bucket t p n := spec_get_bucket t.1 p n;
  j_create_bucket t p n :=
    let '(r, V) := spec_create_bucket t.2 t.1 p n in (r, (V, t.2));
  j_delete_bucket t p n :=
    let '(r, V) := spec_delete_bucket t.2 t.1 p n in (r, (V, t.2));
  j_get t p k := spec_get t.1 p k;
  j_put t p k v := let '(r, V) := spec_put t.2 t.1 p k v in (r, (V, t.2));
  j_delete t p k := let '(r, V) := spec_delete t.2 t.1 p k in (r, (V, t.2));
  j_cursor t p := spec_cursor t.1 p;
  j_seek t p k := spec_seek t.1 p k;
  j_range t p a b := spec_range t.1 p a b;
  heap_alloc h n := (Some (h, replicate (Z.to_nat n) garbage), h + Z.max 1 n);
  heap_dealloc h ptr n := h
|}.
Proof.
  all: intros; simpl in *; simplify_eq; auto.
  all: try (repeat case_match; simplify_eq/=; done).
  all: simpl; rewrite length_replicate; lia.
Defined.

#[global] Instance map_platform_reliable : Reliable map_platform.
Proof. split; simpl; intros; eauto. rewrite H; eauto. Qed.
