(* ===== verification/Effects.v ===== *)
(** * Programs, their runs, and reasoning about them

    The Rust functions of DBFS read and write the database through
    transactions, two global variables ([DBFS_INODE_NUMBER] and
    [GLOBAL_READDIR_TABLE]) and the buffer allocator; they return a [Result]
    or panic.  A function is translated to a [Prog]: a tree of commands with a
    result at its leaves, written with the monad notation, so that a
    definition reads like the function it translates.  [run] executes a
    program on any [Platform].

    [wp rel p Q s] says that every run of [p] from the state [s], on every
    platform (every reliable one when [rel]), ends with an outcome and a state
    that satisfy [Q].  Programs are finite trees, so a run always ends. *)

From S2P Require Import Prelude Jammdb.

(** ** Outcomes *)

(** A Rust result, or a panic (a failed [unwrap], [assert!], index or, with
    overflow checks, arithmetic). *)
Inductive outcome (E A : Type) :=
  | Ok (a : A)
  | Err (e : E)
  | Panic.
Arguments Ok {E A} a.
Arguments Err {E A} e.
Arguments Panic {E A}.

(** ** Build configuration

    [SLICE_SIZE] is chosen by a cargo feature; [overflow_checks] is set in the
    dev profile and unset in the release profile, where arithmetic wraps. *)
Class Config := {
  SLICE_SIZE : Z;
  SLICE_SIZE_feature : SLICE_SIZE ∈ [512; 1024; 4096; 8192; 8192 * 2 * 2];
  overflow_checks : bool
}.

Lemma SLICE_SIZE_range `{Config} : 512 <= SLICE_SIZE <= 32768.
Proof. pose proof SLICE_SIZE_feature. set_unfold. lia. Qed.

(** ** Commands *)

(** [ReadDirInfo]: where the last readdir of a directory stopped. *)
Record ReadDirInfo := { rd_offset : Z; rd_key : bytes }.

Inductive Cmd :=
  | CBegin (writable : bool)
  | CEnd
  | CCommit
  | CGetBucket (p : path) (n : bytes)
  | CCreateBucket (p : path) (n : bytes)
  | CDeleteBucket (p : path) (n : bytes)
  | CGet (p : path) (k : bytes)
  | CPut (p : path) (k v : bytes)
  | CDelete (p : path) (k : bytes)
  | CCursor (p : path)
  | CSeek (p : path) (k : bytes)
  | CRange (p : path) (start stop : bytes)
  | CInoFetchAdd (n : Z)
  | CInoLoad
  | CInoStore (n : Z)
  | CTablePush (ino : Z) (info : ReadDirInfo)
  | CTablePop (ino : Z)
  | CTableGet (ino : Z)
  | CAlloc (n : Z)
  | CDealloc (ptr n : Z).

Definition resp (c : Cmd) : Type :=
  match c with
  | CBegin _ | CCommit => (JError + unit)%type
  | CGetBucket _ _ | CCreateBucket _ _ => jres path
  | CDeleteBucket _ _ | CPut _ _ _ | CDelete _ _ => jres unit
  | CGet _ _ => jres (option Data)
  | CCursor _ | CRange _ _ _ => jres (list (bytes * Data))
  | CSeek _ _ => jres (bool * list (bytes * Data))
  | CInoFetchAdd _ | CInoLoad => Z
  | CTablePop _ | CTableGet _ => option ReadDirInfo
  | CAlloc _ => option (Z * bytes)
  | CEnd | CInoStore _ | CTablePush _ _ | CDealloc _ _ => unit
  end.

(** ** Programs *)

Inductive Prog (E A : Type) :=
  | Done (o : outcome E A)
  | Step (c : Cmd) (k : resp c -> Prog E A).
Arguments Done {E A} o.
Arguments Step {E A} c k.

(** Continue a program at each of its results. *)
Fixpoint graft {E A E' B} (g : outcome E A -> Prog E' B) (p : Prog E A) : Prog E' B :=
  match p with
  | Done o => g o
  | Step c k => Step c (fun r => graft g (k r))
  end.

Definition ret {E A} (a : A) : Prog E A := Done (Ok a).

Definition bind {E A B} (p : Prog E A) (f : A -> Prog E B) : Prog E B :=
  graft (fun o => match o with
                  | Ok a => f a
                  | Err e => Done (Err e)
                  | Panic => Done Panic
                  end) p.

Declare Scope prog_scope.
Delimit Scope prog_scope with prog.
Bind Scope prog_scope with Prog.

Notation "x ← p ; q" := (bind p (fun x => q))
  (at level 20, p at level 100, q at level 200, only parsing) : prog_scope.
Notation "' x ← p ; q" := (bind p (fun x => q))
  (at level 20, x pattern, p at level 100, q at level 200, only parsing) : prog_scope.
Notation "p ;; q" := (bind p (fun _ => q))
  (at level 100, q at level 200, right associativity, only parsing) : prog_scope.

#[global] Open Scope prog_scope.

(** [return Err(e)] *)
Definition throw {E A} (e : E) : Prog E A := Done (Err e).
Definition panic {E A} : Prog E A := Done Panic.

(** [.map_err(f)?], and the implicit conversion of [?] *)
Definition map_err {E E' A} (f : E -> E') (p : Prog E A) : Prog E' A :=
  graft (fun o => match o with
                  | Ok a => Done (Ok a)
                  | Err e => Done (Err (f e))
                  | Panic => Done Panic
                  end) p.

(** [.unwrap()] *)
Definition unwrap {E E' A} (p : Prog E A) : Prog E' A :=
  graft (fun o => match o with Ok a => Done (Ok a) | _ => Done Panic end) p.

(** The [Result] of a call as a value ([is_err], [match res]). *)
Definition attempt {E E' A} (p : Prog E A) : Prog E' (E + A) :=
  graft (fun o => match o with
                  | Ok a => Done (Ok (inr a))
                  | Err e => Done (Ok (inl e))
                  | Panic => Done Panic
                  end) p.

Definition unwrap_option {E A} (o : option A) : Prog E A :=
  match o with Some a => ret a | None => panic end.

(** [if b { return Err(e); }] *)
Definition guard_err {E} (b : bool) (e : E) : Prog E unit :=
  if b then throw e else ret tt.

(** [assert!(b)] *)
Definition assert_prog {E} (b : bool) : Prog E unit := if b then ret tt else panic.

(** ** Library calls *)

Definition lift_jres {A} (r : jres A) : Prog JError A :=
  match r with
  | JOk a => Done (Ok a)
  | JErr e => Done (Err e)
  | JPanic => Done Panic
  end.

Definition get_bucket (p : path) (n : bytes) : Prog JError path :=
  Step (CGetBucket p n) lift_jres.
Definition create_bucket (p : path) (n : bytes) : Prog JError path :=
  Step (CCreateBucket p n) lift_jres.
Definition delete_bucket (p : path) (n : bytes) : Prog JError unit :=
  Step (CDeleteBucket p n) lift_jres.
Definition put (p : path) (k v : bytes) : Prog JError unit := Step (CPut p k v) lift_jres.
Definition bdelete (p : path) (k : bytes) : Prog JError unit := Step (CDelete p k) lift_jres.

(** The calls that return an [Option] or an iterator cannot fail with an error
    value: they are polymorphic in the error type of the caller. *)
Definition lift_infallible {E A} (r : jres A) : Prog E A :=
  match r with
  | JOk a => Done (Ok a)
  | _ => Done Panic
  end.

Definition bget {E} (p : path) (k : bytes) : Prog E (option Data) :=
  Step (CGet p k) lift_infallible.
Definition cursor {E} (p : path) : Prog E (list (bytes * Data)) :=
  Step (CCursor p) lift_infallible.
Definition seek {E} (p : path) (k : bytes) : Prog E (bool * list (bytes * Data)) :=
  Step (CSeek p k) lift_infallible.
Definition range {E} (p : path) (start stop : bytes) : Prog E (list (bytes * Data)) :=
  Step (CRange p start stop) lift_infallible.

(** [Bucket::get_kv]: the value of a key-value pair. *)
Definition get_kv {E} (p : path) (k : bytes) : Prog E (option bytes) :=
  d ← bget p k;
  ret (match d with Some (KeyValue v) => Some v | _ => None end).

Definition kv_of (e : bytes * Data) : option (bytes * bytes) :=
  match e.2 with KeyValue v => Some (e.1, v) | Bucket => None end.

(** [Bucket::kv_pairs]: the key-value pairs of a bucket, in order. *)
Definition kv_pairs {E} (p : path) : Prog E (list (bytes * bytes)) :=
  l ← cursor p; ret (omap (M:=list) kv_of l).

Definition commit : Prog JError unit :=
  Step CCommit (fun r => match r with inl e => Done (Err e) | inr _ => Done (Ok tt) end).

(** [let tx = db.tx(wr)] with [onerr] the treatment of its error ([?] or
    [unwrap]) and [body] the rest of the scope of [tx]; leaving the scope ends
    the transaction, whether it was committed or not. *)
Definition with_tx {E A} (wr : bool) (onerr : JError -> outcome E A) (body : Prog E A)
  : Prog E A :=
  Step (CBegin wr) (fun r =>
    match r with
    | inl e => Done (onerr e)
    | inr _ => graft (fun o => Step CEnd (fun _ => Done o)) body
    end).

Definition ino_fetch_add {E} (n : Z) : Prog E Z := Step (CInoFetchAdd n) (fun r => ret r).
Definition ino_load {E} : Prog E Z := Step CInoLoad (fun r => ret r).
Definition ino_store {E} (n : Z) : Prog E unit := Step (CInoStore n) (fun r => ret r).
Definition table_push {E} (ino : Z) (i : ReadDirInfo) : Prog E unit :=
  Step (CTablePush ino i) (fun r => ret r).
Definition table_pop {E} (ino : Z) : Prog E (option ReadDirInfo) :=
  Step (CTablePop ino) (fun r => ret r).
Definition table_get {E} (ino : Z) : Prog E (option ReadDirInfo) :=
  Step (CTableGet ino) (fun r => ret r).
(** [BUDDY_ALLOCATOR.lock().alloc(layout).unwrap()], for a layout of [n] bytes:
    the address of the block and what is in it; [dealloc(ptr, layout)]. *)
Definition alloc {E} (n : Z) : Prog E (Z * bytes) := Step (CAlloc n) unwrap_option.
Definition dealloc {E} (ptr n : Z) : Prog E unit := Step (CDealloc ptr n) (fun r => ret r).

(** ** Machine arithmetic on [usize]/[u64] and [u32] *)

Section Arith.
Context `{Config} {E : Type}.

Definition wrapping (bits z : Z) : Prog E Z :=
  if (0 <=? z) && (z <? 2 ^ bits) then ret z
  else if overflow_checks then panic else ret (z `mod` 2 ^ bits).

Definition add64 (a b : Z) : Prog E Z := wrapping 64 (a + b).
Definition sub64 (a b : Z) : Prog E Z := wrapping 64 (a - b).
Definition mul64 (a b : Z) : Prog E Z := wrapping 64 (a * b).
Definition add32 (a b : Z) : Prog E Z := wrapping 32 (a + b).
Definition sub32 (a b : Z) : Prog E Z := wrapping 32 (a - b).
End Arith.

Definition saturating_sub (a b : Z) : Z := Z.max 0 (a - b).

(** [u32!], [u16!], [usize!], [u64!]: [from_be_bytes(x.try_into().unwrap())],
    which panics unless [x] has exactly the width of the integer. *)
Definition be_macro {E} (width : nat) (x : bytes) : Prog E Z :=
  if Nat.eqb (length x) width then ret (from_be x) else panic.
