(* ===== verification/Run.v ===== *)
(** * Runs of programs and the rules to reason about them *)

From S2P Require Import Prelude Jammdb Effects.

(** ** The world of a run *)

Record World `{Platform} := mkW {
  w_db : Db;
  w_txs : list Tx;                      (** open transactions, innermost first *)
  w_ino : Z;                            (** [DBFS_INODE_NUMBER] *)
  w_tbl : gmap Z ReadDirInfo;           (** [GLOBAL_READDIR_TABLE] *)
  w_heap : Heap                         (** [BUDDY_ALLOCATOR] *)
}.
Arguments mkW {_} _ _ _ _ _.

Section Handle.
Context `{Platform}.

(** An operation of the innermost transaction. *)
Definition in_tx {A} (w : World) (f : Tx -> jres A * Tx) : jres A * World :=
  match w_txs w with
  | [] => (JPanic, w)
  | t :: ts =>
      let '(r, t') := f t in
      (r, mkW (w_db w) (t' :: ts) (w_ino w) (w_tbl w) (w_heap w))
  end.

Definition read_tx {A} (w : World) (f : Tx -> jres A) : jres A * World :=
  in_tx w (fun t => (f t, t)).

Definition handle (c : Cmd) (w : World) : resp c * World :=
  match c with
  | CBegin wr =>
      match db_tx (w_db w) wr with
      | (inl e, d) => (inl e, mkW d (w_txs w) (w_ino w) (w_tbl w) (w_heap w))
      | (inr t, d) => (inr tt, mkW d (t :: w_txs w) (w_ino w) (w_tbl w) (w_heap w))
      end
  | CEnd => (tt, mkW (w_db w) (tail (w_txs w)) (w_ino w) (w_tbl w) (w_heap w))
  | CCommit =>
      match w_txs w with
      | [] => (inl ReadOnlyTx, w)
      | t :: _ =>
          let '(r, d) := db_commit (w_db w) t in
          (r, mkW d (w_txs w) (w_ino w) (w_tbl w) (w_heap w))
      end
  | CGetBucket p n => read_tx w (fun t => j_get_bucket t p n)
  | CCreateBucket p n => in_tx w (fun t => j_create_bucket t p n)
  | CDeleteBucket p n => in_tx w (fun t => j_delete_bucket t p n)
  | CGet p k => read_tx w (fun t => j_get t p k)
  | CPut p k v => in_tx w (fun t => j_put t p k v)
  | CDelete p k => in_tx w (fun t => j_delete t p k)
  | CCursor p => read_tx w (fun t => j_cursor t p)
  | CSeek p k => read_tx w (fun t => j_seek t p k)
  | CRange p a b => read_tx w (fun t => j_range t p a b)
  | CInoFetchAdd n =>
      (w_ino w, mkW (w_db w) (w_txs w) ((w_ino w + n) `mod` 2 ^ 64) (w_tbl w) (w_heap w))
  | CInoLoad => (w_ino w, w)
  | CInoStore n => (tt, mkW (w_db w) (w_txs w) n (w_tbl w) (w_heap w))
  | CTablePush ino i =>
      (tt, mkW (w_db w) (w_txs w) (w_ino w) (<[ino := i]> (w_tbl w)) (w_heap w))
  | CTablePop ino =>
      (w_tbl w !! ino, mkW (w_db w) (w_txs w) (w_ino w) (delete ino (w_tbl w)) (w_heap w))
  | CTableGet ino => (w_tbl w !! ino, w)
  | CAlloc n =>
      let '(m, h) := heap_alloc (w_heap w) n in
      (m, mkW (w_db w) (w_txs w) (w_ino w) (w_tbl w) h)
  | CDealloc ptr n =>
      (tt, mkW (w_db w) (w_txs w) (w_ino w) (w_tbl w) (heap_dealloc (w_heap w) ptr n))
  end.

Fixpoint run {E A} (p : Prog E A) (w : World) : outcome E A * World :=
  match p with
  | Done o => (o, w)
  | Step c k => let '(r, w') := handle c w in run (k r) w'
  end.

Lemma run_graft {E A E' B} (g : outcome E A -> Prog E' B) p w :
  run (graft g p) w = let '(o, w') := run p w in run (g o) w'.
Proof.
  revert w; induction p as [o|c k IH]; intros w; simpl; [done|].
  destruct (handle c w) as [r w']. apply IH.
Qed.
End Handle.

(** ** The state a specification talks about

    What the platform hides (how the database stores its contents, what the
    allocator will return) is left out. *)

Record AState := mkS {
  a_db : view;                          (** committed contents *)
  a_txs : list (view * bool);           (** open transactions *)
  a_ino : Z;
  a_tbl : gmap Z ReadDirInfo
}.

Definition st `{Platform} (w : World) : AState :=
  mkS (db_view (w_db w)) ((fun t => (tx_view t, tx_writable t)) <$> w_txs w)
      (w_ino w) (w_tbl w).

(** Every run of [p] from [s] satisfies [Q]. *)
Definition wp {E A} (rel : bool) (p : Prog E A)
    (Q : outcome E A -> AState -> Prop) (s : AState) : Prop :=
  forall (K : Platform) (w : World),
    (rel = true -> Reliable K) -> st w = s ->
    let '(o, w') := run p w in Q o (st w').

(** Closes the goals that only rearrange a world. *)
Ltac world :=
  intros; repeat match goal with H : st _ = _ |- _ => revert H end;
  unfold st; simpl; intros; simplify_eq/=; auto.

Section Rules.
Context {E A : Type} (rel : bool).
Implicit Types (Q : outcome E A -> AState -> Prop) (s : AState).

Lemma wp_done o Q s : Q o s -> wp rel (Done o) Q s.
Proof. intros HQ K w _ <-. exact HQ. Qed.

Lemma wp_ret a Q s : Q (Ok a) s -> wp rel (ret a) Q s.
Proof. apply wp_done. Qed.

Lemma wp_mono p Q Q' s :
  wp rel p Q s -> (forall o s', Q o s' -> Q' o s') -> wp rel p Q' s.
Proof.
  intros Hp HQ K w HR Hs. specialize (Hp K w HR Hs).
  destruct (run p w). auto.
Qed.

Lemma wp_conj p Q Q' s :
  wp rel p Q s -> wp rel p Q' s -> wp rel p (fun o s' => Q o s' /\ Q' o s') s.
Proof.
  intros H1 H2 K w HR Hs. specialize (H1 K w HR Hs). specialize (H2 K w HR Hs).
  destruct (run p w). auto.
Qed.

Lemma wp_step c (k : resp c -> Prog E A) Q s :
  (forall (K : Platform) (w : World), (rel = true -> Reliable K) -> st w = s ->
     let '(r, w') := handle c w in wp rel (k r) Q (st w')) ->
  wp rel (Step c k) Q s.
Proof.
  intros Hk K w HR Hs. specialize (Hk K w HR Hs). simpl.
  destruct (handle c w) as [r w']. by apply (Hk K w').
Qed.

Lemma wp_graft {E0 A0} (g : outcome E0 A0 -> Prog E A) p Q s :
  wp rel p (fun o s' => wp rel (g o) Q s') s -> wp rel (graft g p) Q s.
Proof.
  intros Hp K w HR Hs. specialize (Hp K w HR Hs). rewrite run_graft.
  destruct (run p w) as [o w']. by apply (Hp K w').
Qed.

Lemma wp_graft_inv {E0 A0} (g : outcome E0 A0 -> Prog E A) p Q s :
  wp rel (graft g p) Q s ->
  forall (K : Platform) (w : World), (rel = true -> Reliable K) -> st w = s ->
    let '(o, w') := run p w in let '(o', w'') := run (g o) w' in Q o' (st w'').
Proof.
  intros Hp K w HR Hs. specialize (Hp K w HR Hs). rewrite run_graft in Hp.
  by destruct (run p w) as [o w'].
Qed.
End Rules.

(** A program that holds on every platform holds on the reliable ones. *)
Lemma wp_reliable {E A} (p : Prog E A) Q s : wp false p Q s -> wp true p Q s.
Proof. intros Hp K w _ Hs. by apply Hp. Qed.

Section BindRules.
Context {E A B : Type} (rel : bool).

Lemma wp_bind (p : Prog E A) (f : A -> Prog E B) Q s :
  wp rel p (fun o s' =>
    match o with
    | Ok a => wp rel (f a) Q s'
    | Err e => Q (Err e) s'
    | Panic => Q Panic s'
    end) s ->
  wp rel (bind p f) Q s.
Proof.
  intros Hp. apply wp_graft. eapply wp_mono; [exact Hp|].
  intros [a|e|] s' HQ; [done|by apply wp_done..].
Qed.

Lemma wp_map_err {E'} (f : E -> E') (p : Prog E A) Q s :
  wp rel p (fun o s' =>
    match o with
    | Ok a => Q (Ok a) s'
    | Err e => Q (Err (f e)) s'
    | Panic => Q Panic s'
    end) s ->
  wp rel (map_err f p) Q s.
Proof.
  intros Hp. apply wp_graft. eapply wp_mono; [exact Hp|].
  intros [a|e|] s' HQ; by apply wp_done.
Qed.

Lemma wp_unwrap {E'} (p : Prog E A) (Q : outcome E' A -> AState -> Prop) s :
  wp rel p (fun o s' => match o with Ok a => Q (Ok a) s' | _ => Q Panic s' end) s ->
  wp rel (unwrap p) Q s.
Proof.
  intros Hp. apply wp_graft. eapply wp_mono; [exact Hp|].
  intros [a|e|] s' HQ; by apply wp_done.
Qed.

Lemma wp_attempt {E'} (p : Prog E A) (Q : outcome E' (E + A) -> AState -> Prop) s :
  wp rel p (fun o s' =>
    match o with
    | Ok a => Q (Ok (inr a)) s'
    | Err e => Q (Ok (inl e)) s'
    | Panic => Q Panic s'
    end) s ->
  wp rel (attempt p) Q s.
Proof.
  intros Hp. apply wp_graft. eapply wp_mono; [exact Hp|].
  intros [a|e|] s' HQ; by apply wp_done.
Qed.
End BindRules.

(** ** Transactions *)

Definition push_tx (wr : bool) (s : AState) : AState :=
  mkS (a_db s) ((a_db s, wr) :: a_txs s) (a_ino s) (a_tbl s).
Definition pop_tx (s : AState) : AState :=
  mkS (a_db s) (tail (a_txs s)) (a_ino s) (a_tbl s).
Definition commit_tx (s : AState) : AState :=
  match a_txs s with
  | [] => s
  | (V, _) :: _ => mkS V (a_txs s) (a_ino s) (a_tbl s)
  end.

Section TxRules.
Context {E A : Type} (rel : bool).

Lemma wp_with_tx wr onerr (body : Prog E A) Q s :
  (rel = false -> forall e, Q (onerr e) s) ->
  wp rel body (fun o s' => Q o (pop_tx s')) (push_tx wr s) ->
  wp rel (with_tx wr onerr body) Q s.
Proof.
  intros Hf Hb. apply wp_step. intros K w HR <-. simpl.
  destruct (db_tx (w_db w) wr) as [[e|t] d] eqn:Et;
    pose proof (db_tx_keeps (w_db w) wr) as Hk; rewrite Et in Hk; simpl in Hk.
  - destruct rel.
    + destruct (HR eq_refl) as [Hs _ _].
      destruct (Hs (w_db w) wr) as (t & d' & Ht). congruence.
    + apply wp_done. unfold st; simpl. rewrite Hk. by apply Hf.
  - apply db_tx_view in Et as [Ht Hw]. apply wp_graft.
    unfold st; simpl. rewrite Hk, Ht, Hw. eapply wp_mono; [exact Hb|].
    intros o s' HQ. apply wp_step. intros K' w' _ <-. apply wp_done.
    unfold pop_tx, st in *; simpl in *. by destruct (w_txs w').
Qed.

Lemma wp_commit Q s V ts :
  a_txs s = (V, true) :: ts ->
  (rel = false -> forall e, Q (Err e) s) ->
  Q (Ok tt) (commit_tx s) ->
  wp rel commit Q s.
Proof.
  intros Htx Hf HQ. apply wp_step. intros K w HR <-. simpl.
  unfold st in Htx; simpl in Htx.
  destruct (w_txs w) as [|t ts'] eqn:Ew; simpl in Htx; [done|].
  injection Htx as Hv Hw _.
  destruct (db_commit (w_db w) t) as [[e|[]] d] eqn:Ec; apply wp_done.
  - destruct rel.
    + destruct (HR eq_refl) as [_ Hs _].
      destruct (Hs (w_db w) t Hw) as [d' ?]. congruence.
    + apply db_commit_keeps in Ec. unfold st in *; simpl in *.
      rewrite Ec. rewrite Ew in Hf. by apply Hf.
  - apply db_commit_view in Ec. unfold commit_tx, st in *; simpl in *.
    rewrite Ew in *. simpl in *. by rewrite Ec.
Qed.
End TxRules.

(** Replace the contents of the innermost transaction. *)
Definition set_tx (V : view) (s : AState) : AState :=
  match a_txs s with
  | [] => s
  | (_, wr) :: ts => mkS (a_db s) ((V, wr) :: ts) (a_ino s) (a_tbl s)
  end.

Section OpRules.
Context (rel : bool).

(** The step lemma for a command that only reads the innermost transaction. *)
Lemma wp_read {E A : Type} c (f : view -> resp c) (k : resp c -> Prog E A) Q s V wr ts :
  (forall (K : Platform) (w : World) t ts', w_txs w = t :: ts' ->
      handle c w = (f (tx_view t), w)) ->
  a_txs s = (V, wr) :: ts ->
  wp rel (k (f V)) Q s ->
  wp rel (Step c k) Q s.
Proof.
  intros Hh Htx Hk. apply wp_step. intros K w HR <-.
  unfold st in Htx; simpl in Htx.
  destruct (w_txs w) as [|t ts'] eqn:Ew; simpl in Htx; [done|].
  rewrite (Hh K w t ts' Ew). injection Htx as <- _ _. done.
Qed.

(** The step lemma for a command that changes the innermost transaction. *)
Lemma wp_write {E A : Type} c (f : bool -> view -> resp c * view) (k : resp c -> Prog E A) Q s V wr ts :
  (forall (K : Platform) (w : World) t ts', w_txs w = t :: ts' ->
      exists t', handle c w
        = ((f (tx_writable t) (tx_view t)).1,
           mkW (w_db w) (t' :: ts') (w_ino w) (w_tbl w) (w_heap w)) /\
      tx_view t' = (f (tx_writable t) (tx_view t)).2 /\ tx_writable t' = tx_writable t) ->
  a_txs s = (V, wr) :: ts ->
  wp rel (k (f wr V).1) Q (set_tx (f wr V).2 s) ->
  wp rel (Step c k) Q s.
Proof.
  intros Hh Htx Hk. apply wp_step. intros K w HR <-.
  unfold set_tx, st in *; simpl in *.
  destruct (w_txs w) as [|t ts'] eqn:Ew; simpl in Htx; [done|].
  destruct (Hh K w t ts' Ew) as (t' & -> & Hv & Hw).
  injection Htx as <- <- _. simpl. rewrite Hv, Hw. done.
Qed.

(** Discharge the handler side of the two lemmas above. *)
Ltac enter := intros K [d txs i tb h] t ts'; simpl; intros ->; unfold read_tx, in_tx; simpl.
Ltac leave f L Lw :=
  pose proof L as Hl; pose proof Lw as Hw;
  destruct f as [r t'] eqn:Ef; simpl in *; exists t'; rewrite <- Hl; auto.

Lemma wp_get_bucket p n (Q : outcome JError path -> AState -> Prop) s V wr ts :
  a_txs s = (V, wr) :: ts ->
  wp rel (lift_jres (spec_get_bucket V p n)) Q s ->
  wp rel (get_bucket p n) Q s.
Proof.
  apply (wp_read (CGetBucket p n) (fun V => spec_get_bucket V p n)).
  enter. by rewrite j_get_bucket_spec.
Qed.

Lemma wp_bget {E : Type} p k (Q : outcome E (option Data) -> AState -> Prop) s V wr ts :
  a_txs s = (V, wr) :: ts ->
  wp rel (lift_infallible (spec_get V p k)) Q s ->
  wp rel (bget p k) Q s.
Proof.
  apply (wp_read (CGet p k) (fun V => spec_get V p k)).
  enter. by rewrite j_get_spec.
Qed.

Lemma wp_cursor {E : Type} p (Q : outcome E _ -> AState -> Prop) s V wr ts :
  a_txs s = (V, wr) :: ts ->
  wp rel (lift_infallible (spec_cursor V p)) Q s ->
  wp rel (cursor p) Q s.
Proof.
  apply (wp_read (CCursor p) (fun V => spec_cursor V p)).
  enter. by rewrite j_cursor_spec.
Qed.

Lemma wp_seek {E : Type} p k (Q : outcome E _ -> AState -> Prop) s V wr ts :
  a_txs s = (V, wr) :: ts ->
  wp rel (lift_infallible (spec_seek V p k)) Q s ->
  wp rel (seek p k) Q s.
Proof.
  apply (wp_read (CSeek p k) (fun V => spec_seek V p k)).
  enter. by rewrite j_seek_spec.
Qed.

Lemma wp_range {E : Type} p a b (Q : outcome E _ -> AState -> Prop) s V wr ts :
  a_txs s = (V, wr) :: ts ->
  wp rel (lift_infallible (spec_range V p a b)) Q s ->
  wp rel (range p a b) Q s.
Proof.
  apply (wp_read (CRange p a b) (fun V => spec_range V p a b)).
  enter. by rewrite j_range_spec.
Qed.

Lemma wp_put p k v (Q : outcome JError unit -> AState -> Prop) s V wr ts :
  a_txs s = (V, wr) :: ts ->
  wp rel (lift_jres (spec_put wr V p k v).1) Q (set_tx (spec_put wr V p k v).2 s) ->
  wp rel (put p k v) Q s.
Proof.
  apply (wp_write (CPut p k v) (fun wr V => spec_put wr V p k v)).
  enter. leave (j_put t p k v) (j_put_spec t p k v) (j_put_writable t p k v).
Qed.

Lemma wp_bdelete p k (Q : outcome JError unit -> AState -> Prop) s V wr ts :
  a_txs s = (V, wr) :: ts ->
  wp rel (lift_jres (spec_delete wr V p k).1) Q (set_tx (spec_delete wr V p k).2 s) ->
  wp rel (bdelete p k) Q s.
Proof.
  apply (wp_write (CDelete p k) (fun wr V => spec_delete wr V p k)).
  enter. leave (j_delete t p k) (j_delete_spec t p k) (j_delete_writable t p k).
Qed.

Lemma wp_create_bucket p n (Q : outcome JError path -> AState -> Prop) s V wr ts :
  a_txs s = (V, wr) :: ts ->
  wp rel (lift_jres (spec_create_bucket wr V p n).1) Q
     (set_tx (spec_create_bucket wr V p n).2 s) ->
  wp rel (create_bucket p n) Q s.
Proof.
  apply (wp_write (CCreateBucket p n) (fun wr V => spec_create_bucket wr V p n)).
  enter. leave (j_create_bucket t p n) (j_create_bucket_spec t p n)
    (j_create_bucket_writable t p n).
Qed.

Lemma wp_delete_bucket p n (Q : outcome JError unit -> AState -> Prop) s V wr ts :
  a_txs s = (V, wr) :: ts ->
  wp rel (lift_jres (spec_delete_bucket wr V p n).1) Q
     (set_tx (spec_delete_bucket wr V p n).2 s) ->
  wp rel (delete_bucket p n) Q s.
Proof.
  apply (wp_write (CDeleteBucket p n) (fun wr V => spec_delete_bucket wr V p n)).
  enter. leave (j_delete_bucket t p n) (j_delete_bucket_spec t p n)
    (j_delete_bucket_writable t p n).
Qed.

Lemma wp_ino_fetch_add {E : Type} n (Q : outcome E Z -> AState -> Prop) s :
  Q (Ok (a_ino s)) (mkS (a_db s) (a_txs s) ((a_ino s + n) `mod` 2 ^ 64) (a_tbl s)) ->
  wp rel (ino_fetch_add n) Q s.
Proof. intros HQ. apply wp_step. intros K w _ <-. by apply wp_done. Qed.

Lemma wp_ino_load {E : Type} (Q : outcome E Z -> AState -> Prop) s :
  Q (Ok (a_ino s)) s -> wp rel ino_load Q s.
Proof. intros HQ. apply wp_step. intros K w _ <-. by apply wp_done. Qed.

Lemma wp_ino_store {E : Type} n (Q : outcome E unit -> AState -> Prop) s :
  Q (Ok tt) (mkS (a_db s) (a_txs s) n (a_tbl s)) -> wp rel (ino_store n) Q s.
Proof. intros HQ. apply wp_step. intros K w _ <-. by apply wp_done. Qed.

Lemma wp_table_push {E : Type} ino i (Q : outcome E unit -> AState -> Prop) s :
  Q (Ok tt) (mkS (a_db s) (a_txs s) (a_ino s) (<[ino := i]> (a_tbl s))) ->
  wp rel (table_push ino i) Q s.
Proof. intros HQ. apply wp_step. intros K w _ <-. by apply wp_done. Qed.

Lemma wp_table_pop {E : Type} ino (Q : outcome E _ -> AState -> Prop) s :
  Q (Ok (a_tbl s !! ino)) (mkS (a_db s) (a_txs s) (a_ino s) (delete ino (a_tbl s))) ->
  wp rel (table_pop ino) Q s.
Proof. intros HQ. apply wp_step. intros K w _ <-. by apply wp_done. Qed.

Lemma wp_table_get {E : Type} ino (Q : outcome E _ -> AState -> Prop) s :
  Q (Ok (a_tbl s !! ino)) s -> wp rel (table_get ino) Q s.
Proof. intros HQ. apply wp_step. intros K w _ <-. by apply wp_done. Qed.

(** A fresh block has the requested size and unknown contents. *)
Lemma wp_alloc {E : Type} n (Q : outcome E (Z * bytes) -> AState -> Prop) s :
  0 <= n ->
  (rel = false -> Q Panic s) ->
  (forall ptr m, Z.of_nat (length m) = n -> Q (Ok (ptr, m)) s) ->
  wp rel (alloc n) Q s.
Proof.
  intros Hn Hf HQ. apply wp_step. intros K w HR Hs. simpl.
  destruct (heap_alloc (w_heap w) n) as [[m|] h] eqn:Eh; simpl; apply wp_done;
    replace (st _) with s by (by rewrite <- Hs).
  - destruct m as [ptr m]. apply HQ. by apply (heap_alloc_length _ _ _ _ Hn Eh).
  - destruct rel; [|by apply Hf].
    destruct (HR eq_refl) as [_ _ Ha].
    destruct (Ha (w_heap w) n) as (m & h' & ?). congruence.
Qed.

Lemma wp_dealloc {E : Type} ptr n (Q : outcome E unit -> AState -> Prop) s :
  Q (Ok tt) s -> wp rel (dealloc ptr n) Q s.
Proof.
  intros HQ. apply wp_step. intros K w _ Hs. apply wp_done. by rewrite <- Hs in HQ.
Qed.
End OpRules.
