(* ===== verification/RustStd.v ===== *)
(** * The parts of the Rust standard library the sources use

    Decimal formatting and parsing of integers ([format!("{}", n)] and
    [str::parse::<usize>]), byte-string prefixes and splitting, and slice
    copies. *)

From S2P Require Import Prelude.

(** ** Decimal numbers *)

Definition digit (d : Z) : byte := byte_of_Z (48 + d).

(** The decimal digits of [z], most significant first.  [fuel] bounds the
    number of digits: 20 are enough for a 64-bit integer. *)
Fixpoint to_dec (fuel : nat) (z : Z) : bytes :=
  match fuel with
  | O => []
  | S f => if z <? 10 then [digit z] else to_dec f (z / 10) ++ [digit (z `mod` 10)]
  end.

(** [format!("{}", z)] of a [usize]. *)
Definition fmt_usize (z : Z) : bytes := to_dec 20 z.

Definition digit_value (b : byte) : option Z :=
  let d := Z_of_byte b - 48 in
  if (0 <=? d) && (d <? 10) then Some d else None.

(** One step of the accumulation, with [checked_mul] and [checked_add]. *)
Definition push_digit (acc : option Z) (b : byte) : option Z :=
  a ← acc; d ← digit_value b;
  (if a * 10 + d <? 2 ^ 64 then Some (a * 10 + d) else None).

Definition parse_digits (l : bytes) : option Z := fold_left push_digit l (Some 0).

(** [str::parse::<usize>]: one optional leading [+], then at least one digit;
    [None] is [Err(ParseIntError)].  A byte string that is not UTF-8 is
    rejected too: it has a byte that is not a digit. *)
Definition parse_usize (l : bytes) : option Z :=
  match l with
  | [] => None
  | c :: rest =>
      if bool_decide (c = x2b) then
        match rest with [] => None | _ => parse_digits rest end
      else parse_digits l
  end.

Lemma digit_value_digit d : 0 <= d < 10 -> digit_value (digit d) = Some d.
Proof.
  intros Hd. unfold digit_value, digit. rewrite Z_of_byte_of_Z, Z.mod_small by lia.
  replace (48 + d - 48) with d by lia.
  by rewrite (proj2 (Z.leb_le _ _)), (proj2 (Z.ltb_lt _ _)) by lia.
Qed.

Lemma parse_digits_snoc l d a :
  parse_digits l = Some a -> 0 <= d < 10 -> a * 10 + d < 2 ^ 64 ->
  parse_digits (l ++ [digit d]) = Some (a * 10 + d).
Proof.
  intros Hl Hd Hb. unfold parse_digits in *. rewrite fold_left_app, Hl. simpl.
  rewrite digit_value_digit by done. simpl. by rewrite (proj2 (Z.ltb_lt _ _)).
Qed.

Lemma parse_digits_to_dec fuel z :
  0 <= z < 10 ^ Z.of_nat fuel -> z < 2 ^ 64 -> parse_digits (to_dec fuel z) = Some z.
Proof.
  revert z. induction fuel as [|f IH]; intros z Hz Hb; simpl.
  - change (10 ^ Z.of_nat 0) with 1 in Hz. replace z with 0 by lia. done.
  - destruct (Z.ltb_spec z 10) as [Hlt|Hge].
    + change [digit z] with ([] ++ [digit z]).
      rewrite (parse_digits_snoc [] z 0) by (done || lia). f_equal; lia.
    + pose proof (Z.div_mod z 10 ltac:(lia)) as Hdm.
      pose proof (Z.mod_pos_bound z 10 ltac:(lia)) as Hm.
      rewrite Nat2Z.inj_succ, Z.pow_succ_r in Hz by lia.
      rewrite (parse_digits_snoc _ _ (z / 10)); [f_equal; lia| |lia|lia].
      apply IH; [|lia]. split; [lia|]. apply Z.div_lt_upper_bound; lia.
Qed.

Lemma length_to_dec fuel z k :
  0 <= z < 10 ^ Z.of_nat (S k) -> (length (to_dec fuel z) <= S k)%nat.
Proof.
  revert z k. induction fuel as [|f IH]; intros z k Hz; simpl; [lia|].
  destruct (Z.ltb_spec z 10); simpl; [lia|]. rewrite length_app. simpl.
  destruct k as [|k]; [simpl in Hz; lia|].
  assert (0 <= z / 10 < 10 ^ Z.of_nat (S k)).
  { split; [apply Z.div_pos; lia|]. apply Z.div_lt_upper_bound; [lia|].
    rewrite Nat2Z.inj_succ, Z.pow_succ_r in Hz by lia. lia. }
  specialize (IH (z / 10) k H0). lia.
Qed.

Lemma to_dec_nonempty fuel z : (0 < fuel)%nat -> to_dec fuel z <> [].
Proof.
  destruct fuel; [lia|]. intros _. simpl. case_match; [done|].
  intros E. by apply app_nil in E as [_ ?].
Qed.

Lemma digit_not_plus d : 0 <= d < 10 -> digit d <> x2b.
Proof.
  intros Hd E. pose proof (digit_value_digit d Hd) as H. rewrite E in H. by vm_compute in H.
Qed.

Lemma to_dec_head_not_plus fuel z c rest :
  0 <= z -> to_dec fuel z = c :: rest -> c <> x2b.
Proof.
  revert z c rest. induction fuel as [|f IH]; intros z c rest Hz; simpl; [done|].
  destruct (Z.ltb_spec z 10) as [Hlt|Hge].
  - intros [= <- _]. by apply digit_not_plus.
  - destruct (to_dec f (z / 10)) as [|c' r'] eqn:E; simpl; intros [= <- _].
    + apply digit_not_plus. apply Z.mod_pos_bound. lia.
    + eapply IH; [|exact E]. apply Z.div_pos; lia.
Qed.

(** A formatted [usize] parses back to itself. *)
Lemma parse_fmt_usize z : u64 z -> parse_usize (fmt_usize z) = Some z.
Proof.
  unfold u64, fmt_usize. intros Hz. unfold parse_usize.
  pose proof (parse_digits_to_dec 20 z) as Hp.
  destruct (to_dec 20 z) as [|c rest] eqn:E.
  - by apply to_dec_nonempty in E; [|lia].
  - apply to_dec_head_not_plus in E as Hc; [|lia].
    rewrite bool_decide_eq_false_2 by done. apply Hp; lia.
Qed.

Lemma fmt_usize_inj a b : u64 a -> u64 b -> fmt_usize a = fmt_usize b -> a = b.
Proof.
  intros Ha Hb E. apply parse_fmt_usize in Ha, Hb. rewrite E in Ha. congruence.
Qed.

(** ** Byte strings *)

(** [<[u8]>::starts_with] and [str::starts_with]. *)
Definition starts_with (pre l : bytes) : bool := bool_decide (pre `prefix_of` l).

Lemma starts_with_app pre l : starts_with pre (pre ++ l) = true.
Proof. apply bool_decide_eq_true_2. by exists l. Qed.

(** The part of [l] after its first [c] ([splitn(2, ..)] gives it as its second
    piece). *)
Fixpoint after_first (c : byte) (l : bytes) : option bytes :=
  match l with
  | [] => None
  | x :: l' => if bool_decide (x = c) then Some l' else after_first c l'
  end.

Lemma after_first_app c pre l :
  c ∉ pre -> after_first c (pre ++ c :: l) = Some l.
Proof.
  induction pre as [|x pre IH]; intros Hn; simpl.
  - by rewrite bool_decide_eq_true_2.
  - rewrite bool_decide_eq_false_2 by set_solver. apply IH. set_solver.
Qed.

(** ** Slices *)

(** [src[a..b]] as a copy; the caller checks the bounds. *)
Definition slice (l : bytes) (a b : Z) : bytes :=
  take (Z.to_nat (b - a)) (drop (Z.to_nat a) l).

(** [dst[at..at + src.len()].copy_from_slice(src)] within bounds. *)
Definition splice (dst : bytes) (at_ : Z) (src : bytes) : bytes :=
  take (Z.to_nat at_) dst ++ src ++ drop (Z.to_nat at_ + length src) dst.

Definition blen (l : bytes) : Z := Z.of_nat (length l).

Lemma length_slice l a b :
  0 <= a <= b -> b <= blen l -> length (slice l a b) = Z.to_nat (b - a).
Proof. unfold slice, blen. intros. rewrite length_take, length_drop. lia. Qed.

Lemma length_splice dst at_ src :
  0 <= at_ -> at_ + blen src <= blen dst -> length (splice dst at_ src) = length dst.
Proof. unfold splice, blen. intros. rewrite !length_app, length_take, length_drop. lia. Qed.


Lemma slice_all l : slice l 0 (blen l) = l.
Proof. unfold slice, blen. change (Z.to_nat 0) with 0%nat. rewrite drop_0, take_ge by lia. done. Qed.
Lemma splice_0 dst src : splice dst 0 src = src ++ drop (length src) dst.
Proof. unfold splice. change (Z.to_nat 0) with 0%nat. by rewrite take_0. Qed.

Lemma lookup_slice l a b (j : nat) :
  0 <= a -> slice l a b !! j =
    if decide (Z.of_nat j < b - a) then l !! (Z.to_nat a + j)%nat else None.
Proof.
  intros Ha. unfold slice. case_decide.
  - rewrite lookup_take_lt by lia. apply lookup_drop.
  - apply lookup_take_ge. lia.
Qed.

Lemma lookup_splice dst at_ src (j : nat) :
  0 <= at_ -> at_ + blen src <= blen dst ->
  splice dst at_ src !! j =
    if decide (at_ <= Z.of_nat j < at_ + blen src) then src !! (j - Z.to_nat at_)%nat
    else dst !! j.
Proof.
  unfold splice, blen. intros Ha Hl. case_decide as Hj.
  - rewrite lookup_app_r by (rewrite length_take; lia). rewrite length_take.
    rewrite lookup_app_l by lia. f_equal. lia.
  - destruct (decide (Z.of_nat j < at_)).
    + rewrite lookup_app_l by (rewrite length_take; lia). by rewrite lookup_take_lt by lia.
    + rewrite lookup_app_r by (rewrite length_take; lia). rewrite length_take.
      rewrite lookup_app_r by lia. rewrite lookup_drop. f_equal. lia.
Qed.

Lemma blen_slice l a b : 0 <= a <= b -> b <= blen l -> blen (slice l a b) = b - a.
Proof. intros. unfold blen at 1. rewrite length_slice by done. lia. Qed.
Lemma blen_splice dst at_ src :
  0 <= at_ -> at_ + blen src <= blen dst -> blen (splice dst at_ src) = blen dst.
Proof. intros. unfold blen at 1. by rewrite length_splice. Qed.
Lemma blen_nonneg l : 0 <= blen l.
Proof. unfold blen. lia. Qed.

Lemma blen_app a b : blen (a ++ b) = blen a + blen b.
Proof. unfold blen. rewrite length_app. lia. Qed.
Lemma blen_one x : blen [x] = 1.
Proof. done. Qed.
Lemma splice_nil dst at_ : splice dst at_ [] = dst.
Proof. unfold splice. simpl. rewrite Nat.add_0_r. apply take_drop. Qed.
Lemma splice_next dst at_ a b :
  0 <= at_ -> at_ + blen a <= blen dst ->
  splice (splice dst at_ a) (at_ + blen a) b = splice dst at_ (a ++ b).
Proof.
  unfold splice, blen. intros Ha Hl.
  replace (Z.to_nat (at_ + Z.of_nat (length a))) with (Z.to_nat at_ + length a)%nat by lia.
  assert (Ht : length (take (Z.to_nat at_) dst ++ a) = (Z.to_nat at_ + length a)%nat)
    by (rewrite length_app, length_take; lia).
  rewrite (app_assoc (take _ dst) a), take_app_length' by done.
  rewrite <- drop_drop, drop_app_length', drop_drop by done.
  rewrite <- !app_assoc, length_app. do 4 f_equal. lia.
Qed.

Lemma slice_app l a b c : 0 <= a <= b -> b <= c -> slice l a b ++ slice l b c = slice l a c.
Proof.
  intros Hab Hbc. unfold slice. replace (Z.to_nat b) with (Z.to_nat a + Z.to_nat (b - a))%nat by lia.
  rewrite <- drop_drop.
  replace (Z.to_nat (c - a)) with (Z.to_nat (b - a) + Z.to_nat (c - b))%nat by lia.
  by rewrite take_take_drop.
Qed.

(** ** UTF-8 *)

(** [core::str::from_utf8(..).is_ok()]: the byte sequences of the Unicode
    scalar values (no overlong forms, no surrogates, nothing above U+10FFFF). *)
Definition in_range (a b : Z) (x : byte) : bool := (a <=? Z_of_byte x) && (Z_of_byte x <=? b).
Definition is_cont (x : byte) : bool := in_range 0x80 0xbf x.

Fixpoint utf8_valid (l : bytes) : bool :=
  match l with
  | [] => true
  | a :: l1 =>
      if in_range 0 0x7f a then utf8_valid l1
      else
        match l1 with
        | [] => false
        | b :: l2 =>
            if in_range 0xc2 0xdf a then is_cont b && utf8_valid l2
            else
              match l2 with
              | [] => false
              | c :: l3 =>
                  let two :=
                    (in_range 0xe0 0xe0 a && in_range 0xa0 0xbf b)
                    || (in_range 0xe1 0xec a && is_cont b)
                    || (in_range 0xed 0xed a && in_range 0x80 0x9f b)
                    || (in_range 0xee 0xef a && is_cont b) in
                  if two then is_cont c && utf8_valid l3
                  else
                    match l3 with
                    | [] => false
                    | d :: l4 =>
                        ((in_range 0xf0 0xf0 a && in_range 0x90 0xbf b)
                         || (in_range 0xf1 0xf3 a && is_cont b)
                         || (in_range 0xf4 0xf4 a && in_range 0x80 0x8f b))
                        && is_cont c && is_cont d && utf8_valid l4
                    end
              end
        end
  end.

Example utf8_valid_examples :
  utf8_valid (bs "foo") = true /\ utf8_valid [xc3; xa9] = true /\ utf8_valid [xc3] = false /\
  utf8_valid [xed; xa0; x80] = false /\ utf8_valid [xf0; x9f; x98; x80] = true.
Proof. by vm_compute. Qed.

(** A parsed [usize] is one. *)
Lemma push_digit_u64 acc b n : push_digit acc b = Some n -> (forall a, acc = Some a -> 0 <= a) -> u64 n.
Proof.
  unfold push_digit, digit_value, u64. intros Hp Ha. destruct acc as [a|]; [|done]. simpl in Hp.
  specialize (Ha a eq_refl). destruct ((0 <=? _) && _) eqn:E1; [|done].
  apply andb_true_iff in E1 as [?%Z.leb_le ?%Z.ltb_lt]. simpl in Hp.
  destruct (Z.ltb_spec (a * 10 + (Z_of_byte b - 48)) (2 ^ 64)); simplify_eq. lia.
Qed.
Lemma parse_digits_u64 l n : parse_digits l = Some n -> u64 n.
Proof.
  unfold parse_digits. revert n. induction l as [|b l IH] using rev_ind; intros n.
  - intros [= <-]. unfold u64. lia.
  - rewrite fold_left_app. simpl. intros Hp. eapply push_digit_u64; [exact Hp|].
    intros a Ha. apply IH in Ha. unfold u64 in Ha. lia.
Qed.
Lemma parse_usize_u64 l n : parse_usize l = Some n -> u64 n.
Proof.
  unfold parse_usize. destruct l; [done|].
  repeat case_match; simplify_eq; try done; apply parse_digits_u64.
Qed.
