(* ===== verification/Common.v ===== *)
(** * [common.rs]: the data types of DBFS and their encodings *)

From S2P Require Import Prelude Jammdb Effects Run RustStd.

(** ** Constants *)

Definition FMODE_EXEC : Z := 0x20.
Definition MAX_PATH_LEN : Z := 255.
Definition ACCESS_R_OK : Z := 4.
Definition ACCESS_F_OK : Z := 0.
Definition ACCESS_W_OK : Z := 2.
Definition ACCESS_X_OK : Z := 1.
Definition RENAME_EXCHANGE : Z := 0x2.

(** ** Errors *)

Inductive DbfsError :=
  | PermissionDenied | NotFound | AccessError | FileExists | InvalidArgument
  | NoSpace | RangeError | NameTooLong | NoSys | NotEmpty | Io | NotSupported
  | NoData | Other.

#[global] Instance DbfsError_eq_dec : EqDecision DbfsError.
Proof. solve_decision. Defined.

(** The discriminants: [x as i32] in the FUSE adapter is the errno replied. *)
Definition errno (e : DbfsError) : Z :=
  match e with
  | PermissionDenied => 1
  | NotFound => 2
  | AccessError => 13
  | FileExists => 17
  | InvalidArgument => 22
  | NoSpace => 28
  | RangeError => 34
  | NameTooLong => 36
  | NoSys => 38
  | NotEmpty => 39
  | Io => 5
  | NotSupported => 95
  | NoData => 61
  | Other => 999
  end.

(** [impl From<jammdb::Error> for DbfsError], applied by [?]. *)
Definition from_jerror (e : JError) : DbfsError :=
  match e with
  | BucketExists => FileExists
  | BucketMissing => NoData
  | KeyValueMissing => NoData
  | IncompatibleValue => InvalidArgument
  | ReadOnlyTx => AccessError
  | JIo => Io
  | JSync => Io
  | InvalidDB => Other
  end.

(** [call?] in a function that returns a [DbfsResult]. *)
Definition q {A} (p : Prog JError A) : Prog DbfsError A := map_err from_jerror p.

(** [let tx = db.tx(wr)?; ...] and [let tx = db.tx(wr).unwrap(); ...] *)
Definition tx_q {A} (wr : bool) (body : Prog DbfsError A) : Prog DbfsError A :=
  with_tx wr (fun e => Err (from_jerror e)) body.
Definition tx_unwrap {E A} (wr : bool) (body : Prog E A) : Prog E A :=
  with_tx wr (fun _ => Panic) body.

(** ** Permissions: a [u16] of flags *)

Module Perm.
Definition S_IFMT : Z := 0xf000. (* 0o170000 *)
Definition S_IFSOCK : Z := 0xc000. (* 0o140000 *)
Definition S_IFLNK : Z := 0xa000. (* 0o120000 *)
Definition S_IFREG : Z := 0x8000. (* 0o100000 *)
Definition S_IFBLK : Z := 0x6000. (* 0o60000 *)
Definition S_IFDIR : Z := 0x4000. (* 0o40000 *)
Definition S_IFCHR : Z := 0x2000. (* 0o20000 *)
Definition S_IFIFO : Z := 0x1000. (* 0o10000 *)
Definition S_ISUID : Z := 0x800. (* 0o4000 *)
Definition S_ISGID : Z := 0x400. (* 0o2000 *)
Definition S_ISVTX : Z := 0x200. (* 0o1000 *)
Definition S_IRWXU : Z := 0x1c0. (* 0o700 *)
Definition S_IRUSR : Z := 0x100. (* 0o400 *)
Definition S_IWUSR : Z := 0x80. (* 0o200 *)
Definition S_IXUSR : Z := 0x40. (* 0o100 *)
Definition S_IRWXG : Z := 0x38. (* 0o70 *)
Definition S_IRGRP : Z := 0x20. (* 0o40 *)
Definition S_IWGRP : Z := 0x10. (* 0o20 *)
Definition S_IXGRP : Z := 0x8. (* 0o10 *)
Definition S_IRWXO : Z := 0x7. (* 0o7 *)
Definition S_IROTH : Z := 0x4. (* 0o4 *)
Definition S_IWOTH : Z := 0x2. (* 0o2 *)
Definition S_IXOTH : Z := 0x1. (* 0o1 *)
(** [0o777], the bits [mode & 0o777] keeps *)
Definition MODE_777 : Z := 0x1ff.

(** the union of the declared flags *)
Definition all : Z :=
  Z.lor S_IFMT (Z.lor S_ISUID (Z.lor S_ISGID (Z.lor S_ISVTX
    (Z.lor S_IRWXU (Z.lor S_IRWXG S_IRWXO))))).

Definition contains (self other : Z) : bool := Z.land self other =? other.
(** [from_bits] and [from_bits_truncate] *)
Definition from_bits (b : Z) : option Z :=
  if Z.ldiff b all =? 0 then Some b else None.
Definition from_bits_truncate (b : Z) : Z := Z.land b all.
(** [self -= other] *)
Definition remove (self other : Z) : Z := Z.ldiff self other.
(** [self |= other] *)
Definition insert (self other : Z) : Z := Z.lor self other.
End Perm.

(** ** File types *)

Inductive DbfsFileType :=
  | NamedPipe | CharDevice | BlockDevice | Directory | RegularFile | Symlink | Socket.

#[global] Instance DbfsFileType_eq_dec : EqDecision DbfsFileType.
Proof. solve_decision. Defined.

(** [impl From<DbfsPermission> for DbfsFileType]; [None] is the panic. *)
Definition file_type_of_perm (value : Z) : option DbfsFileType :=
  if Perm.contains value Perm.S_IFSOCK then Some Socket
  else if Perm.contains value Perm.S_IFLNK then Some Symlink
  else if Perm.contains value Perm.S_IFREG then Some RegularFile
  else if Perm.contains value Perm.S_IFBLK then Some BlockDevice
  else if Perm.contains value Perm.S_IFDIR then Some Directory
  else if Perm.contains value Perm.S_IFCHR then Some CharDevice
  else if Perm.contains value Perm.S_IFIFO then Some NamedPipe
  else None.

(** [impl From<&[u8]> for DbfsFileType] *)
Definition file_type_of_bytes (value : bytes) : option DbfsFileType :=
  if bool_decide (value = bs "p") then Some NamedPipe
  else if bool_decide (value = bs "c") then Some CharDevice
  else if bool_decide (value = bs "b") then Some BlockDevice
  else if bool_decide (value = bs "d") then Some Directory
  else if bool_decide (value = bs "f") then Some RegularFile
  else if bool_decide (value = bs "l") then Some Symlink
  else if bool_decide (value = bs "s") then Some Socket
  else None.

(** The [S_IFMT] bits POSIX assigns to a file type. *)
Definition mode_bits (t : DbfsFileType) : Z :=
  match t with
  | NamedPipe => Perm.S_IFIFO
  | CharDevice => Perm.S_IFCHR
  | BlockDevice => Perm.S_IFBLK
  | Directory => Perm.S_IFDIR
  | RegularFile => Perm.S_IFREG
  | Symlink => Perm.S_IFLNK
  | Socket => Perm.S_IFSOCK
  end.

Inductive XattrNamespace := Security | System | Trusted | User.

(** ** Time stamps *)

Record DbfsTimeSpec := { sec : Z; nsec : Z }.

Definition time_default : DbfsTimeSpec := {| sec := 0; nsec := 0 |}.

Definition time_to_be_bytes (t : DbfsTimeSpec) : bytes := to_be 8 (sec t) ++ to_be 4 (nsec t).

(** [impl From<&[u8]> for DbfsTimeSpec]: the slices panic on a short value. *)
Definition time_of_bytes (v : bytes) : option DbfsTimeSpec :=
  if Nat.leb 12 (length v) then
    Some {| sec := from_be (take 8 v); nsec := from_be (take 4 (drop 8 v)) |}
  else None.

Definition time_ok (t : DbfsTimeSpec) : Prop := u64 (sec t) /\ u32 (nsec t).

(** ** Attributes, directory entries, file-system statistics *)

Record DbfsAttr := {
  attr_ino : Z; attr_size : Z; attr_blocks : Z;
  attr_atime : DbfsTimeSpec; attr_mtime : DbfsTimeSpec;
  attr_ctime : DbfsTimeSpec; attr_crtime : DbfsTimeSpec;
  attr_kind : DbfsFileType; attr_perm : Z; attr_nlink : Z;
  attr_uid : Z; attr_gid : Z; attr_rdev : Z; attr_blksize : Z;
  attr_padding : Z; attr_flags : Z
}.

Record DbfsDirEntry := {
  de_ino : Z; de_offset : Z; de_kind : DbfsFileType; de_name : bytes;
  de_attr : option DbfsAttr
}.

Record DbfsFsStat := {
  f_bsize : Z; f_frsize : Z; f_blocks : Z; f_bfree : Z; f_bavail : Z;
  f_files : Z; f_ffree : Z; f_favail : Z; f_fsid : Z; f_flag : Z;
  f_namemax : Z; f_name : bytes
}.

(** ** Keys *)

Definition data_prefix : bytes := bs "data:".
Definition zdata_prefix : bytes := bs "zdata:".

(** The key of slice [num] of a file. *)
Definition generate_data_key_with_number (num : Z) : bytes := zdata_prefix ++ to_be 4 num.

(** The key of the entry [value] of a directory. *)
Definition generate_data_key (value : bytes) : bytes := data_prefix ++ value.

(** The bucket of an inode is named by its number: [number.to_be_bytes()]. *)
Definition ino_key (number : Z) : bytes := to_be 8 number.

(** Keys of the attributes of an inode, and of the super block. *)
Definition k_size := bs "size".
Definition k_mode := bs "mode".
Definition k_hard_links := bs "hard_links".
Definition k_uid := bs "uid".
Definition k_gid := bs "gid".
Definition k_atime := bs "atime".
Definition k_mtime := bs "mtime".
Definition k_ctime := bs "ctime".
Definition k_block_size := bs "block_size".
Definition k_dev := bs "dev".
Definition k_data := bs "data".
Definition k_super_blk := bs "super_blk".
Definition k_continue_number := bs "continue_number".
Definition k_magic := bs "magic".
Definition k_blk_size := bs "blk_size".
Definition k_disk_size := bs "disk_size".

(** ** The readdir table *)

Definition push_readdir_table {E} (ino : Z) (info : ReadDirInfo) : Prog E unit :=
  table_push ino info.
Definition pop_readdir_table {E} (ino : Z) : Prog E (option ReadDirInfo) := table_pop ino.
Definition get_readdir_table {E} (ino : Z) : Prog E (option ReadDirInfo) := table_get ino.

(** ** Reading an attribute of a bucket

    [let x = bucket.get_kv(key).unwrap(); let x = u32!(x.value());] and the
    same for the other widths. *)
Definition read_be {E} (width : nat) (b : path) (key : bytes) : Prog E Z :=
  v ← get_kv b key; v ← unwrap_option v; be_macro width v.
Abbreviation read_u16 := (read_be 2).
Abbreviation read_u32 := (read_be 4).
Abbreviation read_u64 := (read_be 8).
Abbreviation read_usize := (read_be 8).

Definition read_time {E} (b : path) (key : bytes) : Prog E DbfsTimeSpec :=
  v ← get_kv b key; v ← unwrap_option v; unwrap_option (time_of_bytes v).

(** [core::str::from_utf8(value).unwrap().parse::<usize>().unwrap()] *)
Definition parse_ino {E} (value : bytes) : Prog E Z := unwrap_option (parse_usize value).
