(* ===== verification/Buckets.v ===== *)
(** * Inode buckets: how attributes, entries and slices are read back

    Accessors that say what a bucket holds, the lemmas that compute them
    through updates, and the symbolic-execution tactic the component files
    use. *)

From S2P Require Import Prelude Jammdb Effects Run RustStd Common.

(** ** Accessors *)

(** The integer of [w] bytes stored under [k]. *)
Definition fbe (w : nat) (b : bucket) (k : bytes) : option Z :=
  match b !! k with
  | Some (KeyValue v) => if Nat.eqb (length v) w then Some (from_be v) else None
  | _ => None
  end.

Definition ftime (b : bucket) (k : bytes) : option DbfsTimeSpec :=
  match b !! k with Some (KeyValue v) => time_of_bytes v | _ => None end.

Definition fkv (b : bucket) (k : bytes) : option bytes :=
  match b !! k with Some (KeyValue v) => Some v | _ => None end.

(** The inode number the directory entry [name] refers to. *)
Definition entry (b : bucket) (name : bytes) : option Z :=
  fkv b (generate_data_key name) ≫= parse_usize.

(** A bucket with no bucket nested in it: every inode bucket is one. *)
Definition kvb (b : bucket) : Prop := forall k, b !! k <> Some Bucket.

(** The path of the bucket of inode [n]. *)
Abbreviation ipath n := ([ino_key n] : path) (only parsing).
Abbreviation sb_path := ([k_super_blk] : path) (only parsing).

(** ** Keys are distinct *)

(** Keys of fixed attributes, directory entries and slices differ in their
    first five bytes. *)
Ltac key_ne :=
  let H := fresh in
  solve [ assumption | apply not_eq_sym; assumption
        | intros H; apply (f_equal (take 5)) in H; vm_compute in H; discriminate H ].

Lemma generate_data_key_inj a b : generate_data_key a = generate_data_key b -> a = b.
Proof. apply app_inv_head. Qed.

Lemma generate_data_key_with_number_inj a b :
  u32 a -> u32 b ->
  generate_data_key_with_number a = generate_data_key_with_number b -> a = b.
Proof. intros Ha Hb E. unfold generate_data_key_with_number in E. apply app_inv_head in E. exact (to_be_inj 4 a b Ha Hb E). Qed.

Lemma ino_key_inj a b : u64 a -> u64 b -> ino_key a = ino_key b -> a = b.
Proof. exact (to_be_inj 8 a b). Qed.

Lemma ipath_inj a b : u64 a -> u64 b -> ipath a = ipath b -> a = b.
Proof. intros Ha Hb E. apply (f_equal (hd [])) in E. by apply ino_key_inj. Qed.

Lemma ipath_ne a b : u64 a -> u64 b -> a <> b -> ipath a <> ipath b.
Proof. intros Ha Hb Hn E. by apply Hn, ipath_inj. Qed.

Lemma ipath_sb n : ipath n <> sb_path.
Proof.
  intros E. assert (length (ino_key n) = length k_super_blk) as Hl
    by exact (f_equal (fun p => length (hd [] p)) E).
  unfold ino_key in Hl. rewrite length_to_be in Hl. by vm_compute in Hl.
Qed.
#[export] Hint Resolve ipath_sb ipath_ne : word.

(** ** Accessors through updates *)

Lemma fbe_insert_eq w b k z :
  0 <= z < 2 ^ (8 * Z.of_nat w) -> fbe w (<[k := KeyValue (to_be w z)]> b) k = Some z.
Proof.
  intros Hz. unfold fbe. rewrite lookup_insert_eq, length_to_be, Nat.eqb_refl.
  by rewrite from_to_be.
Qed.
Lemma fbe_insert_ne w b k k' d : k <> k' -> fbe w (<[k' := d]> b) k = fbe w b k.
Proof. intros. unfold fbe. by rewrite lookup_insert_ne. Qed.
Lemma fbe_delete_ne w b k k' : k <> k' -> fbe w (delete k' b) k = fbe w b k.
Proof. intros. unfold fbe. by rewrite lookup_delete_ne. Qed.

Lemma fkv_insert_eq b k v : fkv (<[k := KeyValue v]> b) k = Some v.
Proof. unfold fkv. by rewrite lookup_insert_eq. Qed.
Lemma fkv_insert_ne b k k' d : k <> k' -> fkv (<[k' := d]> b) k = fkv b k.
Proof. intros. unfold fkv. by rewrite lookup_insert_ne. Qed.
Lemma fkv_delete_eq b k : fkv (delete k b) k = None.
Proof. unfold fkv. by rewrite lookup_delete_eq. Qed.
Lemma fkv_delete_ne b k k' : k <> k' -> fkv (delete k' b) k = fkv b k.
Proof. intros. unfold fkv. by rewrite lookup_delete_ne. Qed.
Lemma fkv_lookup b k v : fkv b k = Some v -> b !! k = Some (KeyValue v).
Proof. unfold fkv. intros. repeat case_match; simplify_eq; done. Qed.

Lemma length_time_to_be_bytes t : length (time_to_be_bytes t) = 12%nat.
Proof. unfold time_to_be_bytes. rewrite length_app. by len. Qed.
#[export] Hint Rewrite length_time_to_be_bytes : len.

(** A time stamp survives its encoding. *)
Lemma time_of_to_bytes t : time_ok t -> time_of_bytes (time_to_be_bytes t) = Some t.
Proof.
  intros [Hs Hn]. unfold time_of_bytes. rewrite length_time_to_be_bytes.
  change (12 <=? 12)%nat with true. cbv iota. unfold time_to_be_bytes.
  rewrite take_app_length', drop_app_length', (take_ge (to_be 4 _)) by len.
  rewrite !from_to_be by (exact Hs || exact Hn). by destruct t.
Qed.

Lemma ftime_insert_eq b k t :
  time_ok t -> ftime (<[k := KeyValue (time_to_be_bytes t)]> b) k = Some t.
Proof. intros. unfold ftime. rewrite lookup_insert_eq. by apply time_of_to_bytes. Qed.
Lemma ftime_insert_ne b k k' d : k <> k' -> ftime (<[k' := d]> b) k = ftime b k.
Proof. intros. unfold ftime. by rewrite lookup_insert_ne. Qed.
Lemma ftime_delete_ne b k k' : k <> k' -> ftime (delete k' b) k = ftime b k.
Proof. intros. unfold ftime. by rewrite lookup_delete_ne. Qed.

Lemma entry_insert_eq b name n :
  u64 n -> entry (<[generate_data_key name := KeyValue (fmt_usize n)]> b) name = Some n.
Proof. intros. unfold entry. rewrite fkv_insert_eq. simpl. by apply parse_fmt_usize. Qed.
Lemma entry_insert_other b name name' d :
  name <> name' -> entry (<[generate_data_key name' := d]> b) name = entry b name.
Proof.
  intros. unfold entry. rewrite fkv_insert_ne; [done|].
  by intros E%generate_data_key_inj.
Qed.
Lemma entry_insert_ne b name k d :
  generate_data_key name <> k -> entry (<[k := d]> b) name = entry b name.
Proof. intros. unfold entry. by rewrite fkv_insert_ne. Qed.
Lemma entry_delete_eq b name : entry (delete (generate_data_key name) b) name = None.
Proof. unfold entry. by rewrite fkv_delete_eq. Qed.
Lemma entry_delete_other b name name' :
  name <> name' -> entry (delete (generate_data_key name') b) name = entry b name.
Proof.
  intros. unfold entry. rewrite fkv_delete_ne; [done|].
  by intros E%generate_data_key_inj.
Qed.
Lemma entry_delete_ne b name k :
  generate_data_key name <> k -> entry (delete k b) name = entry b name.
Proof. intros. unfold entry. by rewrite fkv_delete_ne. Qed.

Create HintDb kvb.
Lemma kvb_empty : kvb ∅.
Proof. intros k. by rewrite lookup_empty. Qed.
Lemma kvb_insert b k v : kvb b -> kvb (<[k := KeyValue v]> b).
Proof. intros Hb k'. rewrite lookup_insert. case_decide; [done|apply Hb]. Qed.
Lemma kvb_delete b k : kvb b -> kvb (delete k b).
Proof. intros Hb k'. rewrite lookup_delete. case_decide; [done|apply Hb]. Qed.
#[export] Hint Resolve kvb_empty kvb_insert kvb_delete : kvb.

(** Compute an accessor through the updates of a bucket. *)
Ltac fld :=
  repeat first
    [ rewrite fbe_insert_ne by key_ne | rewrite fbe_delete_ne by key_ne
    | rewrite ftime_insert_ne by key_ne | rewrite ftime_delete_ne by key_ne
    | rewrite entry_insert_ne by key_ne | rewrite entry_delete_ne by key_ne
    | rewrite fkv_insert_ne by key_ne | rewrite fkv_delete_ne by key_ne
    | rewrite fkv_insert_eq | rewrite fkv_delete_eq ].

(** Look up a bucket through the updates of a view. *)
Ltac vlk :=
  repeat first
    [ rewrite lookup_insert_eq
    | rewrite lookup_insert_ne by (assumption || (apply not_eq_sym; assumption) || eauto with word) ].

(** ** Rules for the calls the code makes, when they succeed *)

Section Rules.
Context (rel : bool).

Lemma wp_get_bucket_ok n b (Q : outcome JError path -> AState -> Prop) s V wr ts :
  a_txs s = (V, wr) :: ts -> V !! [n] = Some b -> Q (Ok [n]) s ->
  wp rel (get_bucket [] n) Q s.
Proof.
  intros Htx HV HQ. eapply wp_get_bucket; [exact Htx|]. simpl. rewrite HV. by apply wp_done.
Qed.

Lemma wp_get_bucket_missing n (Q : outcome JError path -> AState -> Prop) s V wr ts :
  a_txs s = (V, wr) :: ts -> V !! [n] = None -> Q (Err BucketMissing) s ->
  wp rel (get_bucket [] n) Q s.
Proof.
  intros Htx HV HQ. eapply wp_get_bucket; [exact Htx|]. simpl. rewrite HV. by apply wp_done.
Qed.

Lemma wp_get_kv {E : Type} p k b (Q : outcome E _ -> AState -> Prop) s V wr ts :
  a_txs s = (V, wr) :: ts -> V !! p = Some b -> Q (Ok (fkv b k)) s ->
  wp rel (get_kv p k) Q s.
Proof.
  intros Htx HV HQ. apply wp_bind. eapply wp_bget; [exact Htx|]. unfold spec_get.
  rewrite HV. by apply wp_done, wp_done.
Qed.

Lemma wp_read_be {E : Type} w p k b z (Q : outcome E Z -> AState -> Prop) s V wr ts :
  a_txs s = (V, wr) :: ts -> V !! p = Some b -> fbe w b k = Some z -> Q (Ok z) s ->
  wp rel (read_be w p k) Q s.
Proof.
  intros Htx HV Hf HQ. apply wp_bind. eapply wp_get_kv; [exact Htx|exact HV|].
  unfold fbe in Hf. unfold fkv. destruct (b !! k) as [[v|]|]; [|done..].
  apply wp_bind, wp_done. unfold be_macro. case_match; [|done]. simplify_eq.
  by apply wp_done.
Qed.

Lemma wp_read_time {E : Type} p k b t (Q : outcome E _ -> AState -> Prop) s V wr ts :
  a_txs s = (V, wr) :: ts -> V !! p = Some b -> ftime b k = Some t -> Q (Ok t) s ->
  wp rel (read_time p k) Q s.
Proof.
  intros Htx HV Hf HQ. apply wp_bind. eapply wp_get_kv; [exact Htx|exact HV|].
  unfold ftime in Hf. unfold fkv. repeat case_match; simplify_eq.
  apply wp_bind, wp_done. rewrite Hf. by apply wp_done.
Qed.

Lemma wp_put_ok p k v b (Q : outcome JError unit -> AState -> Prop) s V ts :
  a_txs s = (V, true) :: ts -> V !! p = Some b -> kvb b ->
  Q (Ok tt) (set_tx (<[p := <[k := KeyValue v]> b]> V) s) ->
  wp rel (put p k v) Q s.
Proof.
  intros Htx HV Hb HQ. eapply wp_put; [exact Htx|]. unfold spec_put. rewrite HV.
  specialize (Hb k). repeat case_match; simplify_eq; by apply wp_done.
Qed.

(** The same, for a second update of one bucket. *)
Lemma wp_put_again p k v b (Q : outcome JError unit -> AState -> Prop) s V ts :
  a_txs s = (<[p := b]> V, true) :: ts -> kvb b ->
  Q (Ok tt) (set_tx (<[p := <[k := KeyValue v]> b]> V) s) ->
  wp rel (put p k v) Q s.
Proof.
  intros Htx Hb HQ. eapply wp_put_ok; [exact Htx|apply lookup_insert_eq|done|].
  by rewrite insert_insert_eq.
Qed.

Lemma wp_bdelete_ok p k v b (Q : outcome JError unit -> AState -> Prop) s V ts :
  a_txs s = (V, true) :: ts -> V !! p = Some b -> b !! k = Some (KeyValue v) ->
  Q (Ok tt) (set_tx (<[p := delete k b]> V) s) ->
  wp rel (bdelete p k) Q s.
Proof.
  intros Htx HV Hb HQ. eapply wp_bdelete; [exact Htx|]. unfold spec_delete.
  rewrite HV, Hb. by apply wp_done.
Qed.

Lemma wp_create_bucket_ok n (Q : outcome JError path -> AState -> Prop) s V ts :
  a_txs s = (V, true) :: ts -> V !! [n] = None ->
  Q (Ok [n]) (set_tx (<[[n] := ∅]> V) s) ->
  wp rel (create_bucket [] n) Q s.
Proof.
  intros Htx HV HQ. eapply wp_create_bucket; [exact Htx|].
  unfold spec_create_bucket. simpl. rewrite HV. by apply wp_done.
Qed.

Lemma wp_delete_bucket_ok n b (Q : outcome JError unit -> AState -> Prop) s V ts :
  a_txs s = (V, true) :: ts -> V !! [n] = Some b ->
  Q (Ok tt) (set_tx (alter (delete n) [] (drop_tree [n] V)) s) ->
  wp rel (delete_bucket [] n) Q s.
Proof.
  intros Htx HV HQ. eapply wp_delete_bucket; [exact Htx|].
  unfold spec_delete_bucket. simpl. rewrite HV. by apply wp_done.
Qed.

Lemma wp_wrapping `{Config} {E : Type} bits z (Q : outcome E Z -> AState -> Prop) s :
  0 <= z < 2 ^ bits -> Q (Ok z) s -> wp rel (wrapping bits z) Q s.
Proof.
  intros Hz HQ. unfold wrapping.
  rewrite (proj2 (Z.leb_le _ _)), (proj2 (Z.ltb_lt _ _)) by lia. by apply wp_done.
Qed.
End Rules.

(** ** Symbolic execution

    [wstep] makes one step of the goal [wp rel p Q s]: it applies the rule of
    the first call of [p] and closes the rule's side conditions with the
    lookups in the context.  [wgo] repeats it until a branch or the final
    state. *)

Ltac wnorm :=
  cbv beta iota;
  cbn [set_tx pop_tx push_tx commit_tx a_db a_txs a_ino a_tbl tail].

Ltac side_lookup := vlk; first [reflexivity | eassumption].
Ltac side_kvb := solve [eauto 30 with kvb].

Ltac wstep_call :=
  lazymatch goal with
  | |- wp _ (bind _ _) _ _ => apply wp_bind
  | |- wp _ (q _) _ _ => apply wp_map_err
  | |- wp _ (map_err _ _) _ _ => apply wp_map_err
  | |- wp _ (unwrap _) _ _ => apply wp_unwrap
  | |- wp _ (attempt _) _ _ => apply wp_attempt
  | |- wp _ (ret _) _ _ => apply wp_ret
  | |- wp _ (Done _) _ _ => apply wp_done
  | |- wp _ (throw _) _ _ => apply wp_done
  | |- wp _ (unwrap_option (Some _)) _ _ => apply wp_ret
  | |- wp _ (unwrap_option None) _ _ => apply wp_done
  | |- wp _ panic _ _ => apply wp_done
  | |- wp _ (get_bucket [] _) _ _ =>
      eapply wp_get_bucket_ok; [reflexivity | side_lookup | ]
  | |- wp _ (get_kv _ _) _ _ =>
      eapply wp_get_kv; [reflexivity | side_lookup | ]
  | |- wp _ (read_be _ _ _) _ _ =>
      eapply wp_read_be; [reflexivity | side_lookup | fld; eassumption | ]
  | |- wp _ (read_time _ _) _ _ =>
      eapply wp_read_time; [reflexivity | side_lookup | fld; eassumption | ]
  | |- wp _ (put _ _ _) _ _ =>
      first [ eapply wp_put_again; [reflexivity | side_kvb | ]
            | eapply wp_put_ok; [reflexivity | side_lookup | side_kvb | ] ]
  | |- wp _ (ino_fetch_add _) _ _ => apply wp_ino_fetch_add
  | |- wp _ ino_load _ _ => apply wp_ino_load
  end.

Ltac wstep := wstep_call; wnorm.
Ltac wgo := repeat wstep.
