(* ===== verification/Slices.v ===== *)
(** * The data of a file: slices and the order of their keys

    How [Bucket::range] visits the slices of a file, and the contents of a
    file as a function from positions to bytes. *)

From Stdlib Require Sorting.Sorted.
From S2P Require Import Prelude Jammdb Effects Run RustStd Common Buckets.

Abbreviation StronglySorted := Sorting.Sorted.StronglySorted.

(** ** The order of keys *)

Lemma key_ltb_irrefl k : key_ltb k k = false.
Proof. induction k as [|x k IH]; simpl; [done|]. by rewrite Z.ltb_irrefl. Qed.

Lemma Z_of_byte_inj x y : Z_of_byte x = Z_of_byte y -> x = y.
Proof. intros E. by rewrite <- (byte_of_Z_of_byte x), E, byte_of_Z_of_byte. Qed.

Lemma key_ltb_trans a b c : key_ltb a b = true -> key_ltb b c = true -> key_ltb a c = true.
Proof.
  revert b c. induction a as [|x a IH]; intros [|y b] [|z c]; simpl; try done.
  destruct (Z.ltb_spec (Z_of_byte x) (Z_of_byte y)), (Z.ltb_spec (Z_of_byte y) (Z_of_byte z));
    destruct (Z.ltb_spec (Z_of_byte y) (Z_of_byte x)), (Z.ltb_spec (Z_of_byte z) (Z_of_byte y));
    try done; try lia; intros;
    destruct (Z.ltb_spec (Z_of_byte x) (Z_of_byte z)); try done; try lia;
    destruct (Z.ltb_spec (Z_of_byte z) (Z_of_byte x)); try done; try lia; eauto.
Qed.

Lemma key_ltb_total a b : key_ltb a b = false -> key_ltb b a = false -> a = b.
Proof.
  revert b. induction a as [|x a IH]; intros [|y b]; simpl; try done.
  destruct (Z.ltb_spec (Z_of_byte x) (Z_of_byte y)); [done|].
  destruct (Z.ltb_spec (Z_of_byte y) (Z_of_byte x)); [done|].
  intros. f_equal; [apply Z_of_byte_inj; lia|eauto].
Qed.

Lemma key_ltb_asymm a b : key_ltb a b = true -> key_ltb b a = false.
Proof.
  intros H. destruct (key_ltb b a) eqn:E; [|done].
  pose proof (key_ltb_trans a b a H E) as Ht. by rewrite key_ltb_irrefl in Ht.
Qed.

(** The order looks at a common prefix first. *)
Lemma key_ltb_app p a b : key_ltb (p ++ a) (p ++ b) = key_ltb a b.
Proof. induction p as [|x p IH]; simpl; [done|]. by rewrite Z.ltb_irrefl. Qed.

(** A key between two keys with the prefix [p] has the prefix [p]. *)
Lemma key_between p a b k :
  key_leb (p ++ a) k = true -> key_ltb k (p ++ b) = true -> exists c, k = p ++ c.
Proof.
  unfold key_leb. revert k. induction p as [|x p IH]; intros k H1 H2; [by exists k|].
  destruct k as [|y k]; simpl in *; [done|].
  destruct (Z.ltb_spec (Z_of_byte y) (Z_of_byte x)); [done|].
  destruct (Z.ltb_spec (Z_of_byte x) (Z_of_byte y)); [done|].
  assert (x = y) as -> by (apply Z_of_byte_inj; lia).
  destruct (IH k H1 H2) as [c ->]. by exists c.
Qed.

Lemma key_ltb_snoc l1 l2 x y :
  length l1 = length l2 ->
  key_ltb (l1 ++ [x]) (l2 ++ [y]) =
    key_ltb l1 l2 || (bool_decide (l1 = l2) && (Z_of_byte x <? Z_of_byte y)).
Proof.
  revert l2. induction l1 as [|a l1 IH]; intros [|b l2] Hl; simplify_eq/=.
  - by repeat case_match.
  - rewrite (IH l2 Hl). destruct (Z.ltb_spec (Z_of_byte a) (Z_of_byte b)); [done|].
    destruct (Z.ltb_spec (Z_of_byte b) (Z_of_byte a)).
    + rewrite bool_decide_eq_false_2; [done|]. intros ?; simplify_eq. lia.
    + assert (a = b) as -> by (apply Z_of_byte_inj; lia). f_equal. f_equal.
      apply bool_decide_ext. naive_solver.
Qed.

(** Big-endian encodings are ordered like the numbers. *)
Lemma key_ltb_to_be n a b :
  0 <= a < 2 ^ (8 * Z.of_nat n) -> 0 <= b < 2 ^ (8 * Z.of_nat n) ->
  key_ltb (to_be n a) (to_be n b) = (a <? b).
Proof.
  revert a b. induction n as [|n IH]; intros a b Ha Hb.
  { change (2 ^ _) with 1 in *. by replace a with 0 by lia; replace b with 0 by lia. }
  rewrite pow256_S in *. unfold to_be; fold to_be.
  rewrite key_ltb_snoc by (by rewrite !length_to_be).
  assert (0 <= a / 256 < 2 ^ (8 * Z.of_nat n)).
  { split; [apply Z.div_pos; lia|apply Z.div_lt_upper_bound; lia]. }
  assert (0 <= b / 256 < 2 ^ (8 * Z.of_nat n)).
  { split; [apply Z.div_pos; lia|apply Z.div_lt_upper_bound; lia]. }
  rewrite IH, !Z_of_byte_of_Z by done.
  pose proof (Z.div_mod a 256 ltac:(lia)). pose proof (Z.div_mod b 256 ltac:(lia)).
  pose proof (Z.mod_pos_bound a 256 ltac:(lia)). pose proof (Z.mod_pos_bound b 256 ltac:(lia)).
  destruct (Z.ltb_spec (a / 256) (b / 256)); simpl.
  { symmetry. apply Z.ltb_lt. lia. }
  case_bool_decide as Heq; simpl.
  - apply to_be_inj in Heq; [|done..].
    destruct (Z.ltb_spec (a mod 256) (b mod 256)), (Z.ltb_spec a b); lia.
  - symmetry. apply Z.ltb_ge. destruct (decide (a / 256 = b / 256)) as [E|]; [|lia].
    by rewrite E in Heq.
Qed.

(** ** The entries a cursor visits *)

Definition entry_le (x y : bytes * Data) : Prop := key_leb x.1 y.1 = true.

Lemma entry_le_trans x y z : entry_le x y -> entry_le y z -> entry_le x z.
Proof.
  unfold entry_le, key_leb. rewrite !negb_true_iff. intros H1 H2.
  destruct (key_ltb z.1 x.1) eqn:E; [|done].
  destruct (key_ltb y.1 z.1) eqn:E2.
  - rewrite (key_ltb_trans _ _ _ E2 E) in H1. done.
  - assert (y.1 = z.1) as Heq by (by apply key_ltb_total). rewrite Heq in H1. congruence.
Qed.

Lemma insert_sorted_perm x l : insert_sorted x l ≡ₚ x :: l.
Proof.
  induction l as [|y l IH]; simpl; [done|]. case_match; [done|]. rewrite IH. constructor.
Qed.

Lemma insert_sorted_sorted x l :
  StronglySorted entry_le l -> StronglySorted entry_le (insert_sorted x l).
Proof.
  induction 1 as [|y l Hs IH Hf]; simpl; [repeat constructor|].
  destruct (key_leb x.1 y.1) eqn:E.
  - constructor; [by constructor|]. constructor; [done|].
    eapply list.Forall_impl; [exact Hf|]. intros z Hz. by eapply entry_le_trans; [exact E|].
  - constructor; [done|]. apply list.Forall_forall. intros z Hz.
    rewrite insert_sorted_perm in Hz. apply elem_of_cons in Hz as [->|Hz].
    + unfold entry_le, key_leb in *. apply negb_true_iff. apply negb_false_iff in E.
      by apply key_ltb_asymm.
    + by eapply list.Forall_forall in Hf.
Qed.

Lemma sorted_entries_perm b : sorted_entries b ≡ₚ map_to_list b.
Proof.
  unfold sorted_entries. induction (map_to_list b) as [|x l IH]; simpl; [done|].
  by rewrite insert_sorted_perm, IH.
Qed.

Lemma sorted_entries_sorted b : StronglySorted entry_le (sorted_entries b).
Proof.
  unfold sorted_entries. induction (map_to_list b); simpl; [constructor|].
  by apply insert_sorted_sorted.
Qed.

Lemma elem_of_sorted_entries b k d : (k, d) ∈ sorted_entries b <-> b !! k = Some d.
Proof. rewrite sorted_entries_perm. apply elem_of_map_to_list. Qed.

Lemma list_filter_sorted (f : bytes * Data -> bool) l :
  StronglySorted entry_le l -> StronglySorted entry_le (List.filter f l).
Proof.
  induction 1 as [|y l Hs IH Hf]; simpl; [constructor|]. case_match; [|done].
  constructor; [done|]. apply list.Forall_forall. intros z Hz%list_elem_of_In%filter_In.
  destruct Hz as [Hz _]. apply list_elem_of_In in Hz. by eapply list.Forall_forall in Hf.
Qed.

(** Two lists in strict order with the same elements are equal. *)
Lemma strict_sorted_ext (l1 l2 : list (bytes * Data)) :
  StronglySorted (fun x y => key_ltb x.1 y.1 = true) l1 ->
  StronglySorted (fun x y => key_ltb x.1 y.1 = true) l2 ->
  (forall x, x ∈ l1 <-> x ∈ l2) -> l1 = l2.
Proof.
  intros H1. revert l2. induction H1 as [|x l1 Hs1 IH Hf1]; intros l2 H2 Hm.
  - destruct l2 as [|y l2]; [done|]. exfalso. apply (not_elem_of_nil y), Hm. by left.
  - destruct H2 as [|y l2 Hs2 Hf2].
    { exfalso. apply (not_elem_of_nil x), Hm. by left. }
    rewrite list.Forall_forall in Hf1, Hf2.
    assert (x = y) as <-.
    { assert (Hx : x ∈ y :: l2) by (apply Hm; by left).
      assert (Hy : y ∈ x :: l1) by (apply Hm; by left).
      apply elem_of_cons in Hx as [?|Hx]; [done|].
      apply elem_of_cons in Hy as [?|Hy]; [done|].
      pose proof (key_ltb_asymm _ _ (Hf1 y Hy)) as Ha. by rewrite (Hf2 x Hx) in Ha. }
    f_equal. apply IH; [done|]. intros z. split; intros Hz.
    + assert (Hz' : z ∈ x :: l2) by (apply Hm; by right).
      apply elem_of_cons in Hz' as [->|?]; [|done].
      specialize (Hf1 _ Hz). by rewrite key_ltb_irrefl in Hf1.
    + assert (Hz' : z ∈ x :: l1) by (apply Hm; by right).
      apply elem_of_cons in Hz' as [->|?]; [|done].
      specialize (Hf2 _ Hz). by rewrite key_ltb_irrefl in Hf2.
Qed.

Lemma sorted_entries_strict b (f : bytes * Data -> bool) :
  StronglySorted (fun x y => key_ltb x.1 y.1 = true) (List.filter f (sorted_entries b)).
Proof.
  pose proof (list_filter_sorted f _ (sorted_entries_sorted b)) as Hs.
  assert (Hn : NoDup (List.filter f (sorted_entries b)).*1).
  { assert (Hn : NoDup (sorted_entries b).*1)
      by (rewrite sorted_entries_perm; apply NoDup_fst_map_to_list).
    revert Hn. generalize (sorted_entries b). clear. intros l.
    induction l as [|x l IH]; simpl; [done|]. intros [Hx Hn]%list.NoDup_cons.
    case_match; simpl; [|auto]. apply list.NoDup_cons. split; [|auto].
    intros Hin. apply Hx. apply list_elem_of_fmap in Hin as (y & -> & Hy).
    apply list_elem_of_In, filter_In in Hy as [Hy _].
    apply list_elem_of_fmap. exists y. split; [done|]. by apply list_elem_of_In. }
  induction Hs as [|x l Hs IH Hf]; [constructor|]. simpl in Hn.
  apply list.NoDup_cons in Hn as [Hx Hn]. constructor; [by apply IH|].
  rewrite list.Forall_forall in *. intros y Hy. specialize (Hf y Hy).
  destruct (key_ltb x.1 y.1) eqn:E; [done|]. exfalso. apply Hx.
  unfold entry_le, key_leb in Hf. apply negb_true_iff in Hf.
  assert (x.1 = y.1) as -> by (by apply key_ltb_total).
  apply list_elem_of_fmap. by exists y.
Qed.

(** The entries a cursor visits from a key on. *)
Lemma sorted_entries_from b k d es1 es2 :
  sorted_entries b = es1 ++ (k, d) :: es2 ->
  List.filter (fun e => key_leb k e.1) (sorted_entries b) = (k, d) :: es2.
Proof.
  intros Hes. pose proof (sorted_entries_strict b (fun _ => true)) as Hs.
  rewrite List.filter_true in Hs. rewrite Hes in *. clear Hes. revert Hs.
  induction es1 as [|x es1 IH]; simpl; intros [Hs Hx]%Sorting.Sorted.StronglySorted_inv.
  - unfold key_leb at 1. rewrite key_ltb_irrefl. simpl. f_equal.
    induction es2 as [|y es2 IH]; simpl; [done|].
    apply list.Forall_cons in Hx as [Hy Hx]. unfold key_leb at 1.
    simpl in Hy. rewrite (key_ltb_asymm _ _ Hy). simpl. f_equal. apply IH; [|done].
    by apply Sorting.Sorted.StronglySorted_inv in Hs as [].
  - rewrite IH by done. rewrite list.Forall_forall in Hx.
    specialize (Hx (k, d) ltac:(set_solver)). simpl in Hx. unfold key_leb. by rewrite Hx.
Qed.

(** ** The slices of a file *)

Section Slices.
Context `{Config}.

Abbreviation skey := generate_data_key_with_number.

Definition slice_at (b : bucket) (i : Z) : option bytes := fkv b (skey i).

(** Whatever is stored under a key of the form [zdata:...] is a whole slice. *)
Definition slices_ok (b : bucket) : Prop :=
  forall k d, b !! k = Some d -> bs "zdata:" `prefix_of` k ->
    exists i v, u32 i /\ k = skey i /\ d = KeyValue v /\ blen v = SLICE_SIZE.

(** The byte at position [p] of the file, if its slice is stored. *)
Definition byte_at (b : bucket) (p : Z) : option byte :=
  slice_at b (p / SLICE_SIZE) ≫= fun v => v !! Z.to_nat (p `mod` SLICE_SIZE).

Lemma skey_ltb i j : u32 i -> u32 j -> key_ltb (skey i) (skey j) = (i <? j).
Proof. intros. unfold skey. rewrite key_ltb_app. by apply (key_ltb_to_be 4). Qed.

Lemma slice_at_blen b i v : slices_ok b -> slice_at b i = Some v -> blen v = SLICE_SIZE.
Proof.
  intros Hok Hs%fkv_lookup.
  destruct (Hok _ _ Hs ltac:(by eexists)) as (j & v' & _ & _ & ? & ?). by simplify_eq.
Qed.

Lemma after_first_skey i : after_first x3a (skey i) = Some (to_be 4 i).
Proof. exact (after_first_app x3a (bs "zdata") (to_be 4 i) ltac:(by apply (bool_decide_unpack _))). Qed.

Definition slice_item (b : bucket) (i : Z) : option (bytes * Data) :=
  (fun v => (skey i, KeyValue v)) <$> slice_at b i.

Lemma slice_items_sorted b n lo :
  0 <= lo -> lo + Z.of_nat n <= 2 ^ 32 ->
  StronglySorted (fun x y => key_ltb x.1 y.1 = true)
    (omap (slice_item b) (seqZ lo (Z.of_nat n))).
Proof.
  revert lo. induction n as [|n IH]; intros lo Hlo Hn; [constructor|].
  rewrite seqZ_cons by lia. replace (Z.pred (Z.of_nat (S n))) with (Z.of_nat n) by lia. simpl.
  specialize (IH (Z.succ lo) ltac:(lia) ltac:(lia)).
  destruct (slice_item b lo) as [x|] eqn:Ex; [|done]. constructor; [done|].
  apply list.Forall_forall. intros y (i & Hi & Hy)%list_elem_of_omap.
  apply elem_of_seqZ in Hi. unfold slice_item in *.
  destruct (slice_at b lo); [|done]. destruct (slice_at b i); [|done].
  injection Ex as <-. injection Hy as <-. cbn [fst].
  rewrite skey_ltb by (unfold u32; lia). apply Z.ltb_lt. lia.
Qed.

(** [Bucket::range] visits the stored slices from [lo] to [hi - 1], in order. *)
Lemma range_slices b lo hi :
  slices_ok b -> u32 lo -> u32 hi ->
  List.filter (fun e => key_leb (skey lo) e.1 && key_ltb e.1 (skey hi)) (sorted_entries b)
  = omap (slice_item b) (seqZ lo (hi - lo)).
Proof.
  intros Hok Hlo Hhi. apply strict_sorted_ext.
  - apply sorted_entries_strict.
  - destruct (Z.le_gt_cases hi lo).
    + rewrite seqZ_nil by lia. constructor.
    + rewrite <- (Z2Nat.id (hi - lo)) by lia. unfold u32 in *. apply slice_items_sorted; lia.
  - intros [k d]. rewrite list_elem_of_omap. split.
    + intros [Hin Hr]%list_elem_of_In%filter_In. simpl in Hr.
      apply andb_true_iff in Hr as [H1 H2].
      apply list_elem_of_In, elem_of_sorted_entries in Hin.
      destruct (key_between _ _ _ _ H1 H2) as [c ->].
      destruct (Hok _ _ Hin ltac:(by eexists)) as (i & v & Hi & Hk & -> & Hv).
      rewrite Hk in *. unfold key_leb in H1. rewrite skey_ltb in H1, H2 by done.
      apply Z.ltb_lt in H2. apply negb_true_iff, Z.ltb_ge in H1.
      exists i. rewrite elem_of_seqZ. split; [lia|]. unfold slice_item, slice_at, fkv.
      by rewrite Hin.
    + intros (i & Hi & Hs). apply elem_of_seqZ in Hi. unfold slice_item in Hs.
      destruct (slice_at b i) as [v|] eqn:Ev; [|done]. injection Hs as <- <-.
      apply list_elem_of_In, filter_In. split.
      * apply list_elem_of_In, elem_of_sorted_entries. by apply fkv_lookup.
      * cbn [fst]. unfold u32, key_leb in *. rewrite !skey_ltb by (unfold u32; lia).
        apply andb_true_iff. split; [apply negb_true_iff, Z.ltb_ge|apply Z.ltb_lt]; lia.
Qed.

(** ** Writing *)

(** [b'] is [b] with [data] written from position [pos] on: the bytes of the
    range are those of [data], every other stored byte is kept, slices the
    range does not meet and everything that is not a slice are unchanged. *)
Record written (b b' : bucket) (pos : Z) (data : bytes) : Prop := {
  wr_new : forall (i : nat) x, data !! i = Some x -> byte_at b' (pos + Z.of_nat i) = Some x;
  wr_old : forall p x, 0 <= p < 2 ^ 32 * SLICE_SIZE -> ~ (pos <= p < pos + blen data) ->
    byte_at b p = Some x -> byte_at b' p = Some x;
  wr_slices : forall i, u32 i ->
    (i + 1) * SLICE_SIZE <= pos \/ pos + blen data <= i * SLICE_SIZE ->
    slice_at b' i = slice_at b i;
  wr_other : forall k, ~ bs "zdata:" `prefix_of` k -> b' !! k = b !! k;
  wr_ok : slices_ok b';
  wr_kvb : kvb b'
}.

Lemma written_trans b b1 b2 pos d1 d2 :
  0 <= pos -> pos + blen d1 + blen d2 <= 2 ^ 32 * SLICE_SIZE ->
  written b b1 pos d1 -> written b1 b2 (pos + blen d1) d2 -> written b b2 pos (d1 ++ d2).
Proof.
  intros Hpos Hmax H1 H2. pose proof SLICE_SIZE_range. unfold blen in *.
  split; rewrite ?length_app, ?Nat2Z.inj_add in *.
  - intros i x Hx. destruct (decide (i < length d1)%nat).
    + rewrite lookup_app_l in Hx by done. unfold blen in *.
      apply (wr_old _ _ _ _ H2); [lia|unfold blen; lia|]. by apply (wr_new _ _ _ _ H1).
    + rewrite lookup_app_r in Hx by lia. apply (wr_new _ _ _ _ H2) in Hx.
      rewrite <- Hx. unfold blen. f_equal. lia.
  - unfold blen. rewrite length_app, Nat2Z.inj_add. intros p x Hp Hout Hx.
    apply (wr_old _ _ _ _ H2); [done|unfold blen; lia|].
    apply (wr_old _ _ _ _ H1); [done|unfold blen; lia|done].
  - unfold blen. rewrite length_app, Nat2Z.inj_add. intros i Hi Hout.
    rewrite (wr_slices _ _ _ _ H2), (wr_slices _ _ _ _ H1); unfold blen; [done|done|lia|done|lia].
  - intros k Hk. by rewrite (wr_other _ _ _ _ H2), (wr_other _ _ _ _ H1).
  - apply H2.
  - apply H2.
Qed.

Lemma slice_at_insert_eq b i v : slice_at (<[skey i := KeyValue v]> b) i = Some v.
Proof. apply fkv_insert_eq. Qed.
Lemma slice_at_insert_ne b i j v :
  u32 i -> u32 j -> i <> j -> slice_at (<[skey j := KeyValue v]> b) i = slice_at b i.
Proof.
  intros Hi Hj Hn. apply fkv_insert_ne. intros E.
  by apply generate_data_key_with_number_inj in E.
Qed.

Lemma slices_ok_insert b i v :
  slices_ok b -> u32 i -> blen v = SLICE_SIZE -> slices_ok (<[skey i := KeyValue v]> b).
Proof.
  intros Hok Hi Hv k d. rewrite lookup_insert. case_decide as Hk; [|apply Hok].
  intros [= <-] _. subst k. by exists i, v.
Qed.

(** The position [p] lies in slice [i]. *)
Lemma div_slice i off :
  0 <= off < SLICE_SIZE -> (i * SLICE_SIZE + off) / SLICE_SIZE = i.
Proof. intros. pose proof SLICE_SIZE_range. rewrite Z.div_add_l, Z.div_small by lia. lia. Qed.
Lemma mod_slice i off :
  0 <= off < SLICE_SIZE -> (i * SLICE_SIZE + off) `mod` SLICE_SIZE = off.
Proof.
  intros. pose proof SLICE_SIZE_range.
  by rewrite Z.add_comm, Z.mod_add, Z.mod_small by lia.
Qed.
Lemma pos_split p :
  p = p / SLICE_SIZE * SLICE_SIZE + p `mod` SLICE_SIZE /\ 0 <= p `mod` SLICE_SIZE < SLICE_SIZE.
Proof.
  pose proof SLICE_SIZE_range. assert (Hs : SLICE_SIZE <> 0) by lia.
  assert (Hs' : 0 < SLICE_SIZE) by lia.
  pose proof (Z.div_mod p SLICE_SIZE Hs). pose proof (Z.mod_pos_bound p SLICE_SIZE Hs'). lia.
Qed.

(** Writing within one slice. *)
Lemma written_one b i off d v :
  slices_ok b -> kvb b -> u32 i -> 0 <= off -> 0 < blen d -> off + blen d <= SLICE_SIZE ->
  blen v = SLICE_SIZE ->
  (forall (j : nat) x, d !! j = Some x -> v !! (Z.to_nat off + j)%nat = Some x) ->
  (forall old (j : nat), slice_at b i = Some old ->
     ~ (off <= Z.of_nat j < off + blen d) -> v !! j = old !! j) ->
  written b (<[skey i := KeyValue v]> b) (i * SLICE_SIZE + off) d.
Proof.
  intros Hok Hkvb Hi Hoff Hd Hmax Hv Hnew Hold. pose proof SLICE_SIZE_range. split.
  - intros j x Hx. apply lookup_lt_Some in Hx as Hj. unfold blen in *. unfold byte_at.
    rewrite <- Z.add_assoc, div_slice, mod_slice by lia. rewrite slice_at_insert_eq. simpl.
    replace (Z.to_nat (off + Z.of_nat j)) with (Z.to_nat off + j)%nat by lia. by apply Hnew.
  - intros p x Hp Hout Hx. unfold byte_at in *. pose proof (pos_split p) as [Hp1 Hp2].
    assert (u32 (p / SLICE_SIZE)).
    { split; [apply Z.div_pos; lia|apply Z.div_lt_upper_bound; lia]. }
    destruct (decide (p / SLICE_SIZE = i)) as [Heq|Hne].
    + rewrite Heq, slice_at_insert_eq. simpl. rewrite Heq in *.
      destruct (slice_at b i) as [old|] eqn:Eo; [|done]. simpl in Hx.
      rewrite (Hold _ _ eq_refl); [done|]. rewrite Z2Nat.id by lia. lia.
    + by rewrite slice_at_insert_ne.
  - intros j Hj Hout. destruct (decide (j = i)) as [->|Hne]; [lia|].
    by apply slice_at_insert_ne.
  - intros k Hk. apply lookup_insert_ne. intros <-. apply Hk. by eexists.
  - by apply slices_ok_insert.
  - by apply kvb_insert.
Qed.
End Slices.
