(* ===== verification/Access.v ===== *)
(** * Permission checks ([inode.rs] and [attr.rs])

    The pure functions that decide who may do what, with the mode bits that
    [chown], [truncate] and [create] clear or set. *)

From S2P Require Import Prelude Jammdb Effects Run RustStd Common.

(** [checkout_access]; the masks are [u16], and [m -= m & x] never wraps. *)
Definition checkout_access (p_uid p_gid mode uid gid access_mask : Z) : bool :=
  if access_mask =? 0 then true
  else
    let permission := mode in
    if uid =? 0 then
      let m := Z.land access_mask 1 in
      let m := m - Z.land m (Z.shiftr permission 6) in
      let m := m - Z.land m (Z.shiftr permission 3) in
      let m := m - Z.land m permission in
      m =? 0
    else
      let m :=
        if p_uid =? uid then access_mask - Z.land access_mask (Z.shiftr permission 6)
        else if p_gid =? gid then access_mask - Z.land access_mask (Z.shiftr permission 3)
        else access_mask - Z.land access_mask permission in
      m =? 0.

(** [creation_gid] *)
Definition creation_gid (p_gid p_mode gid : Z) : Z :=
  if Perm.contains p_mode Perm.S_ISGID then p_gid else gid.

(** [clear_suid_sgid] *)
Definition clear_suid_sgid (perm : Z) : Z :=
  let perm := Perm.remove perm Perm.S_ISUID in
  if Perm.contains perm Perm.S_IXGRP then Perm.remove perm Perm.S_ISGID else perm.

(** [rvfs::inode::InodeMode], with the constants the sources name. *)
Inductive InodeMode := S_FILE | S_DIR | S_SYMLINK | S_OTHER.

(** [permission_from_mode]; the file mode is ignored. *)
Definition permission_from_mode (inode_mode : InodeMode) : Z :=
  let permission := Perm.from_bits_truncate Perm.MODE_777 in
  match inode_mode with
  | S_FILE => Perm.insert permission Perm.S_IFREG
  | S_DIR => Perm.insert permission Perm.S_IFDIR
  | S_SYMLINK => Perm.insert permission Perm.S_IFLNK
  | S_OTHER => permission
  end.

(** [parse_xattr_namespace] *)
Definition parse_xattr_namespace (key : bytes) : DbfsError + XattrNamespace :=
  if starts_with (bs "user.") key then inr User
  else if starts_with (bs "system.") key then inr System
  else if starts_with (bs "trusted.") key then inr Trusted
  else if starts_with (bs "security.") key then inr Security
  else inl NotSupported.

(** [xattr_access_check]: the error, if any. *)
Definition xattr_access_check (key : bytes) (access_mask r_uid r_gid uid gid mode : Z)
  : option DbfsError :=
  match parse_xattr_namespace key with
  | inl e => Some e
  | inr Security =>
      if negb (access_mask =? ACCESS_R_OK) && negb (r_uid =? 0)
      then Some PermissionDenied else None
  | inr Trusted => if negb (r_uid =? 0) then Some PermissionDenied else None
  | inr System =>
      if bool_decide (key = bs "system.posix_acl_access") then
        if negb (checkout_access uid gid mode r_uid r_gid access_mask)
        then Some PermissionDenied else None
      else if negb (r_uid =? 0) then Some PermissionDenied else None
  | inr User =>
      if negb (checkout_access uid gid mode r_uid r_gid access_mask)
      then Some PermissionDenied else None
  end.

(** ** What the checks mean *)

(** The rwx triplet of [mode] that applies to the caller. *)
Definition class_shift (p_uid p_gid uid gid : Z) : Z :=
  if p_uid =? uid then 6 else if p_gid =? gid then 3 else 0.

(** Every requested bit is granted by the caller's triplet; the super user
    needs an execute bit of some triplet to execute, and nothing else. *)
Definition access_granted (p_uid p_gid mode uid gid mask : Z) : Prop :=
  if uid =? 0 then
    Z.testbit mask 0 = true ->
    Z.testbit mode 6 = true \/ Z.testbit mode 3 = true \/ Z.testbit mode 0 = true
  else
    forall i, 0 <= i -> Z.testbit mask i = true ->
      Z.testbit mode (i + class_shift p_uid p_gid uid gid) = true.

(** [m -= m & x] clears the bits of [x] in [m]. *)
Lemma sub_land m x : m - Z.land m x = Z.ldiff m x.
Proof.
  assert (H : Z.land (Z.land m x) (Z.ldiff m x) = 0).
  { apply Z.bits_inj'. intros i Hi. rewrite !Z.land_spec, Z.ldiff_spec, Z.bits_0.
    by destruct (Z.testbit m i), (Z.testbit x i). }
  apply Z.add_nocarry_lxor in H.
  assert (Hm : Z.lxor (Z.land m x) (Z.ldiff m x) = m).
  { apply Z.bits_inj'. intros i Hi. rewrite Z.lxor_spec, Z.land_spec, Z.ldiff_spec.
    by destruct (Z.testbit m i), (Z.testbit x i). }
  lia.
Qed.

Lemma ldiff_zero m x :
  Z.ldiff m x = 0 <-> (forall i, 0 <= i -> Z.testbit m i = true -> Z.testbit x i = true).
Proof.
  split.
  - intros H i Hi Hm. apply (f_equal (fun z => Z.testbit z i)) in H.
    rewrite Z.ldiff_spec, Hm, Z.bits_0 in H. by destruct (Z.testbit x i).
  - intros H. apply Z.bits_inj'. intros i Hi. rewrite Z.ldiff_spec, Z.bits_0.
    destruct (Z.testbit m i) eqn:E; [|done]. by rewrite (H i Hi E).
Qed.

(** The execute bit a super user asks for, after the three subtractions. *)
Lemma root_mask mask x y z :
  Z.ldiff (Z.ldiff (Z.ldiff (Z.land mask 1) x) y) z = 0 <->
  (Z.testbit mask 0 = true ->
   Z.testbit x 0 = true \/ Z.testbit y 0 = true \/ Z.testbit z 0 = true).
Proof.
  rewrite ldiff_zero. split.
  - intros H Hm. specialize (H 0 ltac:(lia)).
    rewrite !Z.ldiff_spec, Z.land_spec, Hm in H. change (Z.testbit 1 0) with true in H.
    destruct (Z.testbit x 0), (Z.testbit y 0), (Z.testbit z 0); simpl in H; tauto.
  - intros H i Hi. rewrite !Z.ldiff_spec, Z.land_spec.
    destruct (decide (i = 0)) as [->|Hne].
    + destruct (Z.testbit mask 0), (Z.testbit x 0), (Z.testbit y 0), (Z.testbit z 0);
        simpl; intuition congruence.
    + replace (Z.testbit 1 i) with false; [by rewrite andb_false_r|].
      symmetry. apply Z.bits_above_log2; simpl; lia.
Qed.

(** [checkout_access] answers exactly the question [access_granted] states. *)
Lemma checkout_access_granted p_uid p_gid mode uid gid mask :
  checkout_access p_uid p_gid mode uid gid mask = true <->
  access_granted p_uid p_gid mode uid gid mask.
Proof.
  unfold checkout_access, access_granted, class_shift. rewrite !sub_land.
  destruct (Z.eqb_spec mask 0) as [->|Hm].
  { split; [intros _|done]. case_match; [|intros i _]; by rewrite Z.bits_0. }
  destruct (uid =? 0).
  - rewrite Z.eqb_eq, root_mask, !Z.shiftr_spec by lia. done.
  - destruct (p_uid =? uid), (p_gid =? gid);
      rewrite Z.eqb_eq, ldiff_zero; apply forall_proper; intros i;
      split; intros H Hi Hb; specialize (H Hi Hb);
      revert H; rewrite ?Z.shiftr_spec, ?Z.add_0_r by lia; done.
Qed.

(** ** Mode bits *)

Lemma contains_spec self other :
  Perm.contains self other = true <->
  (forall i, 0 <= i -> Z.testbit other i = true -> Z.testbit self i = true).
Proof.
  unfold Perm.contains. rewrite Z.eqb_eq, <- ldiff_zero, Z.land_comm.
  rewrite <- sub_land. lia.
Qed.

Lemma from_bits_truncate_id z : u16 z -> Perm.from_bits_truncate z = z.
Proof.
  intros Hz. unfold Perm.from_bits_truncate. change Perm.all with (Z.ones 16).
  rewrite Z.land_ones by lia. by apply Z.mod_small.
Qed.

Lemma from_bits_u16 z : u16 z -> Perm.from_bits z = Some z.
Proof.
  intros Hz. unfold Perm.from_bits. rewrite <- sub_land.
  fold (Perm.from_bits_truncate z). by rewrite from_bits_truncate_id, Z.sub_diag.
Qed.

Lemma ldiff_range n z x : 0 <= n -> 0 <= z < 2 ^ n -> 0 <= Z.ldiff z x < 2 ^ n.
Proof.
  intros Hn Hz. assert (0 <= Z.ldiff z x) as Hnn by (apply Z.ldiff_nonneg; lia).
  split; [done|]. destruct (Z.eq_dec (Z.ldiff z x) 0) as [->|Hne]; [lia|].
  apply Z.log2_lt_pow2; [lia|]. destruct (Z.lt_ge_cases (Z.log2 (Z.ldiff z x)) n); [done|].
  exfalso. pose proof (Z.bit_log2 (Z.ldiff z x) ltac:(lia)) as Hb.
  rewrite Z.ldiff_spec in Hb. apply andb_true_iff in Hb as [Hb _].
  rewrite (Z.bits_above_log2 z) in Hb; [done|lia|].
  destruct (Z.eq_dec z 0) as [->|]; [by rewrite Z.ldiff_0_l in Hne|].
  apply Z.log2_lt_pow2; [lia|].
  eapply Z.lt_le_trans; [apply Hz|]. by apply Z.pow_le_mono_r.
Qed.

Lemma clear_suid_sgid_u16 perm : u16 perm -> u16 (clear_suid_sgid perm).
Proof.
  unfold u16. intros H. unfold clear_suid_sgid, Perm.remove.
  case_match; repeat apply (ldiff_range 16); done.
Qed.
