(* ===== verification/Inode.v ===== *)
(** * [inode.rs]: attributes and lookup

    [dbfs_common_attr] decodes the attributes of an inode bucket;
    [dbfs_common_lookup], [dbfs_common_access] and [dbfs_common_open] are
    built on it. *)

From S2P Require Import Prelude Jammdb Effects Run RustStd Common Buckets Access.

(** [a / b]: division by zero panics. *)
Definition div64 {E} (a b : Z) : Prog E Z := if b =? 0 then panic else ret (a / b).

Section Ops.
Context `{Config}.

Definition dbfs_common_attr (number : Z) : Prog DbfsError DbfsAttr :=
  tx_q false (
    bucket ← q (get_bucket [] (ino_key number));
    size ← read_usize bucket k_size;
    mode ← read_u16 bucket k_mode;
    mode ← unwrap_option (Perm.from_bits mode);
    file_type ← unwrap_option (file_type_of_perm mode);
    n_links ← read_u32 bucket k_hard_links;
    uid ← read_u32 bucket k_uid;
    gid ← read_u32 bucket k_gid;
    blksize ← read_u32 bucket k_block_size;
    t ← add64 size blksize;
    t ← sub64 t 1;
    blocks ← div64 t blksize;
    atime ← read_time bucket k_atime;
    mtime ← read_time bucket k_mtime;
    ctime ← read_time bucket k_ctime;
    rdev ← (if bool_decide (file_type = CharDevice) || bool_decide (file_type = BlockDevice)
            then read_u32 bucket k_dev
            else ret 0);
    ret {|
      attr_ino := number; attr_size := size; attr_blocks := blocks;
      attr_atime := atime; attr_mtime := mtime; attr_ctime := ctime;
      attr_crtime := time_default; attr_kind := file_type; attr_perm := mode;
      attr_nlink := n_links; attr_uid := uid; attr_gid := gid; attr_rdev := rdev;
      attr_blksize := blksize; attr_padding := 0; attr_flags := 0
    |}).

Definition dbfs_common_lookup (dir : Z) (name : bytes) : Prog DbfsError DbfsAttr :=
  tx_q false (
    bucket ← q (get_bucket [] (ino_key dir));
    value ← get_kv bucket (generate_data_key name);
    match value with
    | None => throw NotFound
    | Some value =>
        number ← parse_ino value;
        dbfs_common_attr number
    end).

(** The arguments of [checkout_access] are in the order of the source: the
    caller's ids in the place of the owner's. *)
Definition dbfs_common_access (p_uid p_gid ino mask : Z) : Prog DbfsError bool :=
  tx_q false (
    inode ← q (get_bucket [] (ino_key ino));
    mode ← read_u16 inode k_mode;
    uid ← read_u32 inode k_uid;
    gid ← read_u32 inode k_gid;
    ret (checkout_access p_uid p_gid mode uid gid (mask `mod` 2 ^ 16))).

(** [file.rs] *)
Definition dbfs_common_open (ino uid gid access_mask : Z) : Prog DbfsError unit :=
  attr ← map_err (fun _ => NotFound) (dbfs_common_attr ino);
  if checkout_access (attr_uid attr) (attr_gid attr) (attr_perm attr) uid gid access_mask
  then ret tt else throw AccessError.
End Ops.

(** ** Decoding a bucket *)

(** The attributes a bucket stores. *)
Record Stat := {
  st_mode : Z; st_size : Z; st_nlink : Z; st_uid : Z; st_gid : Z; st_blksize : Z;
  st_atime : DbfsTimeSpec; st_mtime : DbfsTimeSpec; st_ctime : DbfsTimeSpec;
  st_dev : option Z
}.

(** [stat_of b = Some a]: every attribute is present, with its width. *)
Definition stat_of (b : bucket) : option Stat :=
  (mode ← fbe 2 b k_mode; size ← fbe 8 b k_size; nlink ← fbe 4 b k_hard_links;
   uid ← fbe 4 b k_uid; gid ← fbe 4 b k_gid; blk ← fbe 4 b k_block_size;
   at_ ← ftime b k_atime; mt ← ftime b k_mtime; ct ← ftime b k_ctime;
   Some {| st_mode := mode; st_size := size; st_nlink := nlink; st_uid := uid;
           st_gid := gid; st_blksize := blk; st_atime := at_; st_mtime := mt;
           st_ctime := ct; st_dev := fbe 4 b k_dev |})%stdpp.

Definition is_device (t : DbfsFileType) : bool :=
  match t with CharDevice | BlockDevice => true | _ => false end.

(** The [DbfsAttr] of an inode with the attributes [a]. *)
Definition attr_of_stat (number : Z) (a : Stat) (t : DbfsFileType) : DbfsAttr := {|
  attr_ino := number; attr_size := st_size a;
  attr_blocks := (st_size a + st_blksize a - 1) / st_blksize a;
  attr_atime := st_atime a; attr_mtime := st_mtime a; attr_ctime := st_ctime a;
  attr_crtime := time_default; attr_kind := t; attr_perm := st_mode a;
  attr_nlink := st_nlink a; attr_uid := st_uid a; attr_gid := st_gid a;
  attr_rdev := if is_device t then default 0 (st_dev a) else 0;
  attr_blksize := st_blksize a; attr_padding := 0; attr_flags := 0
|}.

Lemma fbe_range w b k z : fbe w b k = Some z -> 0 <= z < 2 ^ (8 * Z.of_nat w).
Proof.
  unfold fbe. intros Hf. repeat case_match; simplify_eq.
  apply Nat.eqb_eq in H1 as <-. apply from_be_range.
Qed.

(** The parts of [stat_of b = Some a], for the rules of [read_be]. *)
Lemma stat_of_fields b a :
  stat_of b = Some a ->
  fbe 2 b k_mode = Some (st_mode a) /\ fbe 8 b k_size = Some (st_size a) /\
  fbe 4 b k_hard_links = Some (st_nlink a) /\ fbe 4 b k_uid = Some (st_uid a) /\
  fbe 4 b k_gid = Some (st_gid a) /\ fbe 4 b k_block_size = Some (st_blksize a) /\
  ftime b k_atime = Some (st_atime a) /\ ftime b k_mtime = Some (st_mtime a) /\
  ftime b k_ctime = Some (st_ctime a) /\ fbe 4 b k_dev = st_dev a.
Proof.
  unfold stat_of. intros Hs.
  repeat match type of Hs with
         | (?o ≫= _) = Some _ => destruct o eqn:?; simpl in Hs; [|done]
         end.
  simplify_eq. simpl. auto 20.
Qed.

Lemma stat_of_intro b a :
  fbe 2 b k_mode = Some (st_mode a) -> fbe 8 b k_size = Some (st_size a) ->
  fbe 4 b k_hard_links = Some (st_nlink a) -> fbe 4 b k_uid = Some (st_uid a) ->
  fbe 4 b k_gid = Some (st_gid a) -> fbe 4 b k_block_size = Some (st_blksize a) ->
  ftime b k_atime = Some (st_atime a) -> ftime b k_mtime = Some (st_mtime a) ->
  ftime b k_ctime = Some (st_ctime a) -> fbe 4 b k_dev = st_dev a ->
  stat_of b = Some a.
Proof.
  unfold stat_of. intros -> -> -> -> -> -> -> -> -> ->. by destruct a.
Qed.

(** Split [stat_of b = Some a] into one hypothesis per attribute. *)
Ltac open_stat H :=
  let Hs := fresh "Hstat" in
  pose proof (stat_of_fields _ _ H) as Hs;
  destruct Hs as (? & ? & ? & ? & ? & ? & ? & ? & ? & ?).

(** An inode whose attributes [dbfs_common_attr] can report: its mode has a
    file type, a device has a device number, and the computation of the block
    count does not overflow. *)
Definition stat_ok (a : Stat) (t : DbfsFileType) : Prop :=
  file_type_of_perm (st_mode a) = Some t /\
  (is_device t = true -> is_Some (st_dev a)) /\
  0 < st_blksize a /\ st_size a + st_blksize a < 2 ^ 64.

Section Rules.
Context `{Config} (rel : bool).

Lemma wp_tx_q {A} wr (body : Prog DbfsError A) Q s :
  (rel = false -> forall e, Q (Err (from_jerror e)) s) ->
  wp rel body (fun o s' => Q o (pop_tx s')) (push_tx wr s) ->
  wp rel (tx_q wr body) Q s.
Proof. apply wp_with_tx. Qed.

Lemma wp_add64 {E : Type} a b (Q : outcome E Z -> AState -> Prop) s :
  0 <= a + b < 2 ^ 64 -> Q (Ok (a + b)) s -> wp rel (add64 a b) Q s.
Proof. apply wp_wrapping. Qed.

Lemma wp_sub64 {E : Type} a b (Q : outcome E Z -> AState -> Prop) s :
  0 <= a - b < 2 ^ 64 -> Q (Ok (a - b)) s -> wp rel (sub64 a b) Q s.
Proof. apply wp_wrapping. Qed.

Lemma wp_dbfs_common_attr number b a t Q s :
  a_db s !! ipath number = Some b -> stat_of b = Some a -> stat_ok a t ->
  Q (Ok (attr_of_stat number a t)) s ->
  (rel = false -> forall e, Q (Err (from_jerror e)) s) ->
  wp rel (dbfs_common_attr number) Q s.
Proof.
  intros Hdb Hst (Ht & Hdev & Hblk & Hov) HQ Hf. open_stat Hst.
  pose proof (fbe_range _ _ _ _ H1) as Hsz.
  apply wp_tx_q; [exact Hf|]. destruct s as [D T n tb]; simpl in *. wnorm.
  wgo. rewrite from_bits_u16 by (by eapply (fbe_range 2)). wgo.
  rewrite Ht. wgo.
  apply wp_add64; [lia|]. wgo. apply wp_sub64; [lia|]. wgo.
  unfold div64. rewrite (proj2 (Z.eqb_neq _ _)) by lia. wgo.
  unfold attr_of_stat in HQ. destruct t; simpl in *; wgo; auto.
  all: destruct (Hdev eq_refl) as [dv Hdv]; rewrite Hdv in *; wgo; auto.
Qed.
End Rules.


(** ** Attributes through the updates of a bucket *)

Definition set_mode (z : Z) (a : Stat) : Stat :=
  {| st_mode := z; st_size := st_size a; st_nlink := st_nlink a; st_uid := st_uid a;
     st_gid := st_gid a; st_blksize := st_blksize a; st_atime := st_atime a;
     st_mtime := st_mtime a; st_ctime := st_ctime a; st_dev := st_dev a |}.
Definition set_size (z : Z) (a : Stat) : Stat :=
  {| st_mode := st_mode a; st_size := z; st_nlink := st_nlink a; st_uid := st_uid a;
     st_gid := st_gid a; st_blksize := st_blksize a; st_atime := st_atime a;
     st_mtime := st_mtime a; st_ctime := st_ctime a; st_dev := st_dev a |}.
Definition set_nlink (z : Z) (a : Stat) : Stat :=
  {| st_mode := st_mode a; st_size := st_size a; st_nlink := z; st_uid := st_uid a;
     st_gid := st_gid a; st_blksize := st_blksize a; st_atime := st_atime a;
     st_mtime := st_mtime a; st_ctime := st_ctime a; st_dev := st_dev a |}.
Definition set_uid (z : Z) (a : Stat) : Stat :=
  {| st_mode := st_mode a; st_size := st_size a; st_nlink := st_nlink a; st_uid := z;
     st_gid := st_gid a; st_blksize := st_blksize a; st_atime := st_atime a;
     st_mtime := st_mtime a; st_ctime := st_ctime a; st_dev := st_dev a |}.
Definition set_gid (z : Z) (a : Stat) : Stat :=
  {| st_mode := st_mode a; st_size := st_size a; st_nlink := st_nlink a; st_uid := st_uid a;
     st_gid := z; st_blksize := st_blksize a; st_atime := st_atime a;
     st_mtime := st_mtime a; st_ctime := st_ctime a; st_dev := st_dev a |}.
Definition set_atime (t : DbfsTimeSpec) (a : Stat) : Stat :=
  {| st_mode := st_mode a; st_size := st_size a; st_nlink := st_nlink a; st_uid := st_uid a;
     st_gid := st_gid a; st_blksize := st_blksize a; st_atime := t;
     st_mtime := st_mtime a; st_ctime := st_ctime a; st_dev := st_dev a |}.
Definition set_mtime (t : DbfsTimeSpec) (a : Stat) : Stat :=
  {| st_mode := st_mode a; st_size := st_size a; st_nlink := st_nlink a; st_uid := st_uid a;
     st_gid := st_gid a; st_blksize := st_blksize a; st_atime := st_atime a;
     st_mtime := t; st_ctime := st_ctime a; st_dev := st_dev a |}.
Definition set_ctime (t : DbfsTimeSpec) (a : Stat) : Stat :=
  {| st_mode := st_mode a; st_size := st_size a; st_nlink := st_nlink a; st_uid := st_uid a;
     st_gid := st_gid a; st_blksize := st_blksize a; st_atime := st_atime a;
     st_mtime := st_mtime a; st_ctime := t; st_dev := st_dev a |}.

(** The keys that hold attributes. *)
Definition attr_keys : list bytes :=
  [k_mode; k_size; k_hard_links; k_uid; k_gid; k_block_size; k_atime; k_mtime; k_ctime; k_dev].

Lemma not_attr_key k :
  (forall k', In k' attr_keys -> take 5 k <> take 5 k') -> k ∉ attr_keys.
Proof.
  intros Hk Hin. apply list_elem_of_In in Hin. by apply (Hk k Hin).
Qed.

(** Entries, slices and extended attributes are stored beside the attributes. *)
Ltac other_key :=
  apply not_attr_key; let Hin := fresh in
  intros ? Hin; simpl in Hin; intuition subst;
  match goal with H : take 5 _ = take 5 _ |- _ => vm_compute in H; discriminate H end.

Lemma data_key_other name : generate_data_key name ∉ attr_keys.
Proof. other_key. Qed.
Lemma slice_key_other i : generate_data_key_with_number i ∉ attr_keys.
Proof. other_key. Qed.
Lemma link_key_other : k_data ∉ attr_keys.
Proof. by apply (bool_decide_unpack _). Qed.
#[export] Hint Resolve data_key_other slice_key_other link_key_other : word.

Lemma stat_of_lookup b b' :
  (forall k, In k attr_keys -> b' !! k = b !! k) -> stat_of b' = stat_of b.
Proof.
  intros Hk. unfold stat_of, fbe, ftime.
  rewrite !Hk; [done|simpl; tauto..].
Qed.

Lemma stat_put_other b k d : k ∉ attr_keys -> stat_of (<[k := d]> b) = stat_of b.
Proof.
  intros Hk. apply stat_of_lookup. intros k' Hin%list_elem_of_In.
  apply lookup_insert_ne. by intros ->.
Qed.
Lemma stat_delete_other b k : k ∉ attr_keys -> stat_of (delete k b) = stat_of b.
Proof.
  intros Hk. apply stat_of_lookup. intros k' Hin%list_elem_of_In.
  apply lookup_delete_ne. by intros ->.
Qed.

(** Recompute the attributes after the update of one of them. *)
Ltac stat_put :=
  intros;
  match goal with H : stat_of _ = Some _ |- _ => open_stat H end;
  apply stat_of_intro; simpl;
  fld; first [ eassumption | by apply (fbe_insert_eq _) | by apply ftime_insert_eq ].

Lemma stat_put_mode b a z :
  stat_of b = Some a -> u16 z ->
  stat_of (<[k_mode := KeyValue (to_be 2 z)]> b) = Some (set_mode z a).
Proof. stat_put. Qed.
Lemma stat_put_size b a z :
  stat_of b = Some a -> u64 z ->
  stat_of (<[k_size := KeyValue (to_be 8 z)]> b) = Some (set_size z a).
Proof. stat_put. Qed.
Lemma stat_put_nlink b a z :
  stat_of b = Some a -> u32 z ->
  stat_of (<[k_hard_links := KeyValue (to_be 4 z)]> b) = Some (set_nlink z a).
Proof. stat_put. Qed.
Lemma stat_put_uid b a z :
  stat_of b = Some a -> u32 z ->
  stat_of (<[k_uid := KeyValue (to_be 4 z)]> b) = Some (set_uid z a).
Proof. stat_put. Qed.
Lemma stat_put_gid b a z :
  stat_of b = Some a -> u32 z ->
  stat_of (<[k_gid := KeyValue (to_be 4 z)]> b) = Some (set_gid z a).
Proof. stat_put. Qed.
Lemma stat_put_atime b a t :
  stat_of b = Some a -> time_ok t ->
  stat_of (<[k_atime := KeyValue (time_to_be_bytes t)]> b) = Some (set_atime t a).
Proof. stat_put. Qed.
Lemma stat_put_mtime b a t :
  stat_of b = Some a -> time_ok t ->
  stat_of (<[k_mtime := KeyValue (time_to_be_bytes t)]> b) = Some (set_mtime t a).
Proof. stat_put. Qed.
Lemma stat_put_ctime b a t :
  stat_of b = Some a -> time_ok t ->
  stat_of (<[k_ctime := KeyValue (time_to_be_bytes t)]> b) = Some (set_ctime t a).
Proof. stat_put. Qed.

(** Every attribute of a decoded bucket is in the range of its width. *)
Lemma stat_of_range b a :
  stat_of b = Some a ->
  u16 (st_mode a) /\ u64 (st_size a) /\ u32 (st_nlink a) /\ u32 (st_uid a) /\
  u32 (st_gid a) /\ u32 (st_blksize a).
Proof.
  intros Hs. open_stat Hs.
  repeat match goal with H : fbe _ _ _ = Some _ |- _ => apply fbe_range in H end.
  done.
Qed.

(** Compute [stat_of] through updates, outermost first. *)
Create HintDb stat.
#[export] Hint Resolve stat_put_mode stat_put_size stat_put_nlink stat_put_uid stat_put_gid
  stat_put_atime stat_put_mtime stat_put_ctime : stat.
Lemma stat_put_other' b k d a : stat_of b = Some a -> k ∉ attr_keys -> stat_of (<[k := d]> b) = Some a.
Proof. intros. by rewrite stat_put_other. Qed.
Lemma stat_delete_other' b k a : stat_of b = Some a -> k ∉ attr_keys -> stat_of (delete k b) = Some a.
Proof. intros. by rewrite stat_delete_other. Qed.
#[export] Hint Resolve stat_put_other' stat_delete_other' : stat.

(** ** Inodes of a view *)

(** Inode [n] is stored in the bucket [b] and has the attributes [a]. *)
Record inode_at (V : view) (n : Z) (b : bucket) (a : Stat) : Prop := {
  ia_bucket : V !! ipath n = Some b;
  ia_kvb : kvb b;
  ia_stat : stat_of b = Some a
}.

(** The attributes of inode [n], and the entry [name] of directory [n]. *)
Definition inode_stat (V : view) (n : Z) : option Stat := V !! ipath n ≫= stat_of.
Definition dir_entry (V : view) (n : Z) (name : bytes) : option Z :=
  V !! ipath n ≫= fun b => entry b name.

(** No bucket outside [touched] differs (all buckets are top-level). *)
Definition frame (touched : list bytes) (V V' : view) : Prop :=
  forall k, k ∉ touched -> V' !! [k] = V !! [k].

(** The caller may change the entries of a directory. *)
Definition may_write (pa : Stat) (uid gid : Z) : bool :=
  checkout_access (st_uid pa) (st_gid pa) (Z.land (st_mode pa) Perm.MODE_777) uid gid ACCESS_W_OK.

Lemma frame_refl l V : frame l V V.
Proof. done. Qed.
Lemma frame_insert l V V' k b : frame l V V' -> k ∈ l -> frame l V (<[[k] := b]> V').
Proof.
  intros Hf Hk k' Hk'. rewrite lookup_insert_ne; [by apply Hf|]. congruence.
Qed.
Lemma frame_delete_bucket l V V' k :
  frame l V V' -> k ∈ l -> frame l V (alter (delete k) [] (drop_tree [k] V')).
Proof.
  intros Hf Hk k' Hk'. rewrite lookup_alter_ne by done. rewrite lookup_drop_tree.
  rewrite decide_False; [by apply Hf|]. intros [l' Hp]. simpl in Hp. congruence.
Qed.
#[export] Hint Resolve frame_refl frame_insert frame_delete_bucket : stat.

Section LookupRules.
Context `{Config} (rel : bool).

Lemma wp_lookup_found dir name pb m b a t Q s :
  a_db s !! ipath dir = Some pb -> entry pb name = Some m ->
  a_db s !! ipath m = Some b -> stat_of b = Some a -> stat_ok a t ->
  Q (Ok (attr_of_stat m a t)) s ->
  (rel = false -> forall e, Q (Err (from_jerror e)) s) ->
  wp rel (dbfs_common_lookup dir name) Q s.
Proof.
  intros HD He Hm Hst Hok HQ Hf. apply wp_tx_q; [exact Hf|].
  destruct s as [D T n tb]; simpl in *. wnorm. wgo.
  unfold entry in He. destruct (fkv pb _) as [v|]; [|done]. simpl in He. wgo.
  unfold parse_ino. rewrite He. wgo.
  by eapply wp_dbfs_common_attr; [exact Hm|exact Hst|exact Hok|..].
Qed.

Lemma wp_lookup_missing dir name pb Q s :
  a_db s !! ipath dir = Some pb -> fkv pb (generate_data_key name) = None ->
  Q (Err NotFound) s ->
  (rel = false -> forall e, Q (Err (from_jerror e)) s) ->
  wp rel (dbfs_common_lookup dir name) Q s.
Proof.
  intros HD He HQ Hf. apply wp_tx_q; [exact Hf|].
  destruct s as [D T n tb]; simpl in *. wnorm. wgo. rewrite He. wgo. exact HQ.
Qed.
End LookupRules.
