(* ===== verification/Create.v ===== *)
(** * [inode.rs]: creation of files, directories, links and devices *)

From S2P Require Import Prelude Jammdb Effects Run RustStd Common Buckets Access Inode.

Section Ops.
Context `{Config}.

(** [(hard_link, file_size, dev)] of a new inode; [None] is the failed
    [assert!(target_path.is_some())]. *)
Definition new_inode_params (permission : Z) (target_path : option bytes) (dev : option Z)
  : option (Z * Z * option Z) :=
  if Perm.contains permission Perm.S_IFSOCK
     || Perm.contains permission Perm.S_IFCHR
     || Perm.contains permission Perm.S_IFBLK
     || Perm.contains permission Perm.S_IFIFO
  then Some (1, 0, dev)
  else if Perm.contains permission Perm.S_IFDIR then Some (2, 2, None)
  else if Perm.contains permission Perm.S_IFLNK then
    match target_path with Some t => Some (1, blen t, None) | None => None end
  else Some (1, 0, None).

(** The mode stored in a new inode. *)
Definition new_inode_mode (uid permission p_mode : Z) : Z :=
  let mode := permission in
  let mode :=
    if negb (uid =? 0)
    then Perm.remove (Perm.remove mode Perm.S_ISUID) Perm.S_ISGID else mode in
  let p_mode := Perm.from_bits_truncate p_mode in
  if Perm.contains permission Perm.S_IFDIR then
    if Perm.contains p_mode Perm.S_IFDIR then Perm.insert mode Perm.S_ISGID else mode
  else mode.

Definition dbfs_common_create (dir : Z) (name : bytes) (uid gid : Z)
    (c_time : DbfsTimeSpec) (permission : Z) (target_path : option bytes)
    (dev : option Z) : Prog DbfsError DbfsAttr :=
  new_number ← ino_fetch_add 1;
  '(hard_link, file_size, dev, mode, gid) ← tx_q true (
    parent ← q (get_bucket [] (ino_key dir));
    p_uid ← read_u32 parent k_uid;
    p_gid ← read_u32 parent k_gid;
    p_mode ← read_u16 parent k_mode;
    guard_err
      (negb (checkout_access p_uid p_gid (Z.land p_mode Perm.MODE_777) uid gid 2))
      AccessError;;
    size ← read_usize parent k_size;
    size1 ← add64 size 1;
    unwrap (put parent k_size (to_be 8 size1));;
    unwrap (put parent (generate_data_key name) (fmt_usize new_number));;
    unwrap (put parent k_ctime (time_to_be_bytes c_time));;
    unwrap (put parent k_mtime (time_to_be_bytes c_time));;
    let mode := new_inode_mode uid permission p_mode in
    let gid := creation_gid p_gid permission gid in
    new_inode ← q (create_bucket [] (ino_key new_number));
    q (put new_inode k_mode (to_be 2 mode));;
    '(hard_link, file_size, dev) ←
      unwrap_option (new_inode_params permission target_path dev);
    (if Perm.contains permission Perm.S_IFDIR then
       q (put new_inode (generate_data_key (bs ".")) (fmt_usize new_number));;
       q (put new_inode (generate_data_key (bs "..")) (fmt_usize dir))
     else ret tt);;
    q (put new_inode k_size (to_be 8 file_size));;
    q (put new_inode k_hard_links (to_be 4 hard_link));;
    q (put new_inode k_uid (to_be 4 uid));;
    q (put new_inode k_gid (to_be 4 gid));;
    q (put new_inode k_atime (time_to_be_bytes c_time));;
    q (put new_inode k_mtime (time_to_be_bytes c_time));;
    q (put new_inode k_ctime (time_to_be_bytes c_time));;
    q (put new_inode k_block_size (to_be 4 SLICE_SIZE));;
    (if Perm.contains permission Perm.S_IFLNK then
       target ← unwrap_option target_path;
       q (put new_inode k_data target)
     else ret tt);;
    match dev with
    | Some d => q (put new_inode k_dev (to_be 4 d))
    | None => ret tt
    end;;
    q commit;;
    ret (hard_link, file_size, dev, mode, gid));
  kind ← unwrap_option (file_type_of_perm permission);
  ret {|
    attr_ino := new_number; attr_size := file_size; attr_blocks := 0;
    attr_atime := c_time; attr_mtime := c_time; attr_ctime := c_time;
    attr_crtime := time_default; attr_kind := kind; attr_perm := mode;
    attr_nlink := hard_link; attr_uid := uid; attr_gid := gid;
    attr_rdev := default 0 dev; attr_blksize := 512; attr_padding := 0; attr_flags := 0
  |}.
End Ops.

(** ** Behaviour *)

(** The parent directory after the creation of [name] with inode [n]. *)
Definition dir_add (b : bucket) (name : bytes) (n size : Z) (t : DbfsTimeSpec) : bucket :=
  <[k_mtime := KeyValue (time_to_be_bytes t)]>
    (<[k_ctime := KeyValue (time_to_be_bytes t)]>
      (<[generate_data_key name := KeyValue (fmt_usize n)]>
        (<[k_size := KeyValue (to_be 8 size)]> b))).

(** Insert a value when there is one. *)
Definition opt_put (k : bytes) (v : option bytes) (b : bucket) : bucket :=
  match v with Some v => <[k := KeyValue v]> b | None => b end.

(** The entries [.] and [..] of a new directory. *)
Definition put_dots (isdir : bool) (n dir : Z) (b : bucket) : bucket :=
  if isdir then
    <[generate_data_key (bs "..") := KeyValue (fmt_usize dir)]>
      (<[generate_data_key (bs ".") := KeyValue (fmt_usize n)]> b)
  else b.

(** The bucket of a new inode with the attributes [a]. *)
Definition new_bucket (a : Stat) (isdir : bool) (n dir : Z) (target : option bytes) : bucket :=
  opt_put k_dev (to_be 4 <$> st_dev a) (opt_put k_data target (
    <[k_block_size := KeyValue (to_be 4 (st_blksize a))]> (
    <[k_ctime := KeyValue (time_to_be_bytes (st_ctime a))]> (
    <[k_mtime := KeyValue (time_to_be_bytes (st_mtime a))]> (
    <[k_atime := KeyValue (time_to_be_bytes (st_atime a))]> (
    <[k_gid := KeyValue (to_be 4 (st_gid a))]> (
    <[k_uid := KeyValue (to_be 4 (st_uid a))]> (
    <[k_hard_links := KeyValue (to_be 4 (st_nlink a))]> (
    <[k_size := KeyValue (to_be 8 (st_size a))]> (
    put_dots isdir n dir (<[k_mode := KeyValue (to_be 2 (st_mode a))]> ∅))))))))))).

Record stat_range (a : Stat) : Prop := {
  sr_mode : u16 (st_mode a); sr_size : u64 (st_size a); sr_nlink : u32 (st_nlink a);
  sr_uid : u32 (st_uid a); sr_gid : u32 (st_gid a); sr_blksize : u32 (st_blksize a);
  sr_atime : time_ok (st_atime a); sr_mtime : time_ok (st_mtime a);
  sr_ctime : time_ok (st_ctime a); sr_dev : forall d, st_dev a = Some d -> u32 d
}.

(** Accessors through the optional updates of [new_bucket]. *)
Ltac fld_new := unfold new_bucket, put_dots, opt_put; repeat (case_match; simpl); fld.

Lemma new_bucket_stat a isdir n dir target :
  stat_range a -> stat_of (new_bucket a isdir n dir target) = Some a.
Proof.
  destruct a as [? ? ? ? ? ? ? ? ? [d|]]; intros [? ? ? ? ? ? ? ? ? Hd]; simpl in *;
    apply stat_of_intro; fld_new; simplify_eq/=;
    first [by apply (fbe_insert_eq _) | by apply ftime_insert_eq
          | apply (fbe_insert_eq 4); by apply Hd | done].
Qed.

Lemma new_bucket_kvb a isdir n dir target : kvb (new_bucket a isdir n dir target).
Proof. unfold new_bucket, put_dots, opt_put. repeat case_match; eauto 30 with kvb. Qed.

(** A new directory has exactly the entries [.] and [..]; a new file has none. *)
Lemma new_bucket_entry a isdir n dir target name :
  u64 n -> u64 dir ->
  entry (new_bucket a isdir n dir target) name =
    if isdir then
      if decide (name = bs "..") then Some dir
      else if decide (name = bs ".") then Some n else None
    else None.
Proof.
  intros Hn Hd. fld_new; simplify_eq; try done; repeat case_decide; subst;
    rewrite ?entry_insert_eq by done; try done;
    rewrite ?entry_insert_other by done; rewrite ?entry_insert_eq by done; try done.
  all: by rewrite entry_insert_ne by key_ne.
Qed.

Lemma new_bucket_target a isdir n dir target :
  fkv (new_bucket a isdir n dir target) k_data = target.
Proof. fld_new; simplify_eq; done. Qed.

Lemma lor_range n a b : 0 <= n -> 0 <= a < 2 ^ n -> 0 <= b < 2 ^ n -> 0 <= Z.lor a b < 2 ^ n.
Proof.
  intros Hn Ha Hb. split; [apply Z.lor_nonneg; lia|].
  rewrite <- (Z.mod_small a (2 ^ n)), <- (Z.mod_small b (2 ^ n)) by done.
  rewrite <- !Z.land_ones, <- Z.land_lor_distr_l, Z.land_ones by lia.
  apply Z.mod_pos_bound. lia.
Qed.

Lemma new_inode_mode_u16 uid permission p_mode :
  u16 permission -> u16 (new_inode_mode uid permission p_mode).
Proof.
  intros Hp. unfold new_inode_mode, u16, Perm.remove, Perm.insert in *.
  repeat case_match; repeat first [apply (ldiff_range 16) | apply (lor_range 16)];
    done || (vm_compute; split; congruence).
Qed.

(** The ways the arguments of a creation are well formed. *)
Record create_args_ok (uid gid : Z) (t : DbfsTimeSpec) (permission : Z)
    (target : option bytes) (dev : option Z) : Prop := {
  ca_uid : u32 uid;
  ca_gid : u32 gid;
  ca_time : time_ok t;
  ca_perm : u16 permission;
  ca_target : Perm.contains permission Perm.S_IFLNK = true -> is_Some target;
  ca_dev : forall d, dev = Some d -> u32 d
}.

Section Spec.
Context `{Config} (rel : bool).

(** The attributes of the new inode. *)
Definition new_stat (uid gid : Z) (t : DbfsTimeSpec) (permission : Z) (pa : Stat)
    (hl fs : Z) (dv : option Z) : Stat := {|
  st_mode := new_inode_mode uid permission (st_mode pa);
  st_size := fs; st_nlink := hl; st_uid := uid;
  st_gid := creation_gid (st_gid pa) permission gid;
  st_blksize := SLICE_SIZE; st_atime := t; st_mtime := t; st_ctime := t;
  st_dev := dv |}.

Definition new_attr (n : Z) (a : Stat) (kind : DbfsFileType) : DbfsAttr := {|
  attr_ino := n; attr_size := st_size a; attr_blocks := 0;
  attr_atime := st_ctime a; attr_mtime := st_ctime a; attr_ctime := st_ctime a;
  attr_crtime := time_default; attr_kind := kind; attr_perm := st_mode a;
  attr_nlink := st_nlink a; attr_uid := st_uid a; attr_gid := st_gid a;
  attr_rdev := default 0 (st_dev a); attr_blksize := 512;
  attr_padding := 0; attr_flags := 0 |}.

Lemma wp_dbfs_common_create dir name uid gid t permission target dev hl fs dv kind
    D T n tb pb pa (Q : outcome DbfsError DbfsAttr -> AState -> Prop) :
  D !! ipath dir = Some pb -> kvb pb -> stat_of pb = Some pa ->
  checkout_access (st_uid pa) (st_gid pa) (Z.land (st_mode pa) Perm.MODE_777) uid gid 2 = true ->
  st_size pa + 1 < 2 ^ 64 -> D !! ipath n = None -> u64 n -> u64 dir ->
  create_args_ok uid gid t permission target dev ->
  new_inode_params permission target dev = Some (hl, fs, dv) ->
  file_type_of_perm permission = Some kind ->
  let s' D' := mkS D' T ((n + 1) `mod` 2 ^ 64) tb in
  let a := new_stat uid gid t permission pa hl fs dv in
  let isdir := Perm.contains permission Perm.S_IFDIR in
  let tg := if Perm.contains permission Perm.S_IFLNK then target else None in
  Q (Ok (new_attr n a kind))
    (s' (<[ipath n := new_bucket a isdir n dir tg]>
          (<[ipath dir := dir_add pb name n (st_size pa + 1) t]> D))) ->
  (rel = false -> forall e, Q (Err (from_jerror e)) (s' D)) ->
  wp rel (dbfs_common_create dir name uid gid t permission target dev) Q (mkS D T n tb).
Proof.
  intros HD Hkvb Hst Hacc Hsz Hn Hn64 Hdir64 [Hu Hg Ht Hp Htg Hdv] Hpar Hkind s' a isdir tg HQ Hf.
  open_stat Hst. pose proof (fbe_range _ _ _ _ H1) as Hsr.
  assert (Hne : ipath n <> ipath dir) by congruence.
  unfold dbfs_common_create. wgo. apply wp_tx_q; [exact Hf|]. wnorm. wgo.
  unfold guard_err. rewrite Hacc. simpl. wgo. apply wp_add64; [lia|]. wgo.
  eapply wp_create_bucket_ok; [reflexivity|by vlk|]. wnorm. wgo.
  rewrite Hpar. wgo.
  subst isdir tg. destruct (Perm.contains permission Perm.S_IFDIR);
  destruct (Perm.contains permission Perm.S_IFLNK).
  all: wgo.
  all: try (destruct (Htg eq_refl) as [tg ->]; wgo).
  all: destruct dv as [d|]; wgo.
  all: eapply wp_commit; [reflexivity|exact Hf|]; wnorm; wgo.
  all: rewrite Hkind; wgo; exact HQ.
Qed.

(** The inode number that the counter gives is in use. *)
Lemma wp_create_exists dir name uid gid t permission target dev D T n tb pb pa b
    (Q : outcome DbfsError DbfsAttr -> AState -> Prop) :
  D !! ipath dir = Some pb -> kvb pb -> stat_of pb = Some pa ->
  checkout_access (st_uid pa) (st_gid pa) (Z.land (st_mode pa) Perm.MODE_777) uid gid 2 = true ->
  st_size pa + 1 < 2 ^ 64 -> D !! ipath n = Some b ->
  Q (Err FileExists) (mkS D T ((n + 1) `mod` 2 ^ 64) tb) ->
  (rel = false -> forall e, Q (Err (from_jerror e)) (mkS D T ((n + 1) `mod` 2 ^ 64) tb)) ->
  wp rel (dbfs_common_create dir name uid gid t permission target dev) Q (mkS D T n tb).
Proof.
  intros HD Hkvb Hst Hacc Hsz Hn HQ Hf.
  open_stat Hst. pose proof (fbe_range _ _ _ _ H1) as Hsr.
  unfold dbfs_common_create. wgo. apply wp_tx_q; [exact Hf|]. wnorm. wgo.
  unfold guard_err. rewrite Hacc. simpl. wgo. apply wp_add64; [lia|]. wgo.
  eapply wp_create_bucket; [reflexivity|].
  unfold spec_create_bucket. simpl.
  assert (Hsome : exists b', <[ipath dir :=
      <[k_mtime:=KeyValue (time_to_be_bytes t)]>
        (<[k_ctime:=KeyValue (time_to_be_bytes t)]>
          (<[generate_data_key name:=KeyValue (fmt_usize n)]>
            (<[k_size:=KeyValue (to_be 8 (st_size pa + 1))]> pb)))]> D !! ipath n = Some b').
  { rewrite lookup_insert. case_decide; eauto. }
  destruct Hsome as [b' Hb']. rewrite Hb'. simpl. wgo. exact HQ.
Qed.
End Spec.

(** The type bits of a mode are not touched by what [create] does to the
    set-user-id and set-group-id bits. *)
Lemma contains_new_inode_mode uid permission p_mode x :
  Z.land x 0xc00 = 0 ->
  Perm.contains (new_inode_mode uid permission p_mode) x = Perm.contains permission x.
Proof.
  intros Hx. assert (Hb : forall i, 0 <= i -> Z.testbit x i = true -> Z.testbit 0xc00 i = false).
  { intros i Hi Hxi. apply (f_equal (fun z => Z.testbit z i)) in Hx.
    rewrite Z.land_spec, Hxi, Z.bits_0 in Hx. exact Hx. }
  apply eq_true_iff_eq. rewrite !contains_spec.
  apply forall_proper; intros i.
  assert (H10 : Z.testbit 0xc00 i = Z.testbit Perm.S_ISUID i || Z.testbit Perm.S_ISGID i)
    by (rewrite <- Z.lor_spec; done).
  unfold new_inode_mode, Perm.remove, Perm.insert.
  split; intros Hi H1 H2; specialize (Hi H1 H2); specialize (Hb i H1 H2);
    rewrite H10 in Hb; apply orb_false_iff in Hb as [Hu Hg]; revert Hi;
    repeat case_match; rewrite ?Z.lor_spec, ?Z.ldiff_spec, ?Hu, ?Hg; simpl;
    rewrite ?andb_true_r, ?orb_false_r; done.
Qed.

Lemma file_type_new_inode_mode uid permission p_mode :
  file_type_of_perm (new_inode_mode uid permission p_mode) = file_type_of_perm permission.
Proof. unfold file_type_of_perm. by rewrite !contains_new_inode_mode. Qed.
