(* ===== verification/FsType.v ===== *)
(** * [fs_type.rs] and [fuse/mkfs.rs]: super block, root inode, mount and unmount *)

From S2P Require Import Prelude Jammdb Effects Run RustStd Common Buckets Access Inode.

Section Ops.
Context `{Config}.

(** [mkfs.rs]: write the super block of a new database. *)
Definition init_db {E} (size : Z) : Prog E unit :=
  tx_unwrap true (
    bucket ← attempt (get_bucket [] k_super_blk);
    match bucket with
    | inr _ => ret tt
    | inl _ =>
        bucket ← unwrap (create_bucket [] k_super_blk);
        unwrap (put bucket k_continue_number (to_be 8 1));;
        unwrap (put bucket k_magic (to_be 4 1111));;
        unwrap (put bucket k_blk_size (to_be 4 SLICE_SIZE));;
        unwrap (put bucket k_disk_size (to_be 8 size));;
        unwrap commit
    end).

Definition dbfs_common_root_inode (uid gid : Z) (ctime : DbfsTimeSpec) : Prog DbfsError Z :=
  tx_q true (
    r ← attempt (get_bucket [] (ino_key 1));
    match r with
    | inl _ =>
        let permission := permission_from_mode S_DIR in
        new_inode ← unwrap (create_bucket [] (ino_key 1));
        old ← ino_fetch_add 1;
        assert_prog (old =? 1);;
        unwrap (put new_inode k_mode (to_be 2 permission));;
        unwrap (put new_inode k_hard_links (to_be 4 2));;
        unwrap (put new_inode k_uid (to_be 4 uid));;
        unwrap (put new_inode k_gid (to_be 4 gid));;
        unwrap (put new_inode k_atime (time_to_be_bytes ctime));;
        unwrap (put new_inode k_mtime (time_to_be_bytes ctime));;
        unwrap (put new_inode k_ctime (time_to_be_bytes ctime));;
        unwrap (put new_inode k_block_size (to_be 4 SLICE_SIZE));;
        unwrap (put new_inode k_size (to_be 8 1));;
        unwrap (put new_inode (generate_data_key (bs ".")) (bs "1"))
    | inr _ => ret tt
    end;;
    bucket ← q (get_bucket [] (ino_key 1));
    count ← read_usize bucket k_size;
    q commit;;
    ret count).

(** The database part of [dbfs_create_simple_super_blk]: restore the inode
    counter and read the block size and the magic number. *)
Definition dbfs_load_super_blk : Prog bytes (Z * Z) :=
  with_tx false (fun _ => Err (bs "dbfs_fill_super_block: get db tx failed")) (
    bucket ← map_err (fun _ => bs "dbfs_fill_super_block: get bucket failed")
               (get_bucket [] k_super_blk);
    continue_number ← read_usize bucket k_continue_number;
    ino_store continue_number;;
    blk_size ← read_u32 bucket k_blk_size;
    magic ← read_u32 bucket k_magic;
    ret (blk_size, magic)).

(** [dbfs_sync_fs]; [get_or_create_bucket] creates the bucket if it is missing. *)
Definition dbfs_sync_fs : Prog bytes unit :=
  tx_unwrap true (
    r ← attempt (get_bucket [] k_super_blk);
    bucket ← match r with
             | inr b => ret b
             | inl BucketMissing => unwrap (create_bucket [] k_super_blk)
             | inl _ => panic
             end;
    continue_number ← ino_load;
    unwrap (put bucket k_continue_number (to_be 8 continue_number));;
    map_err (fun _ => bs "dbfs_sync_fs error") commit).

Definition dbfs_common_umount : Prog DbfsError unit :=
  tx_q true (
    bucket ← q (get_bucket [] k_super_blk);
    c_number ← ino_load;
    q (put bucket k_continue_number (to_be 8 c_number));;
    q commit).

Definition dbfs_common_statfs (blk_size magic mount_flags : option Z)
  : Prog DbfsError DbfsFsStat :=
  '(disk_size, magic) ← tx_q false (
    bucket ← q (get_bucket [] k_super_blk);
    disk_size ← read_u64 bucket k_disk_size;
    magic ← (match magic with
             | Some m => ret m
             | None => read_u32 bucket k_magic
             end);
    ret (disk_size, magic));
  let blk_size := default SLICE_SIZE blk_size in
  total_inodes ← ino_load;
  let name := bs "dbfs" ++ replicate 28 x00 in
  let mount_flag := default 0 mount_flags in
  blocks ← div64 disk_size blk_size;
  bfree ← div64 disk_size blk_size;
  bavail ← div64 disk_size blk_size;
  ret {|
    f_bsize := blk_size; f_frsize := blk_size; f_blocks := blocks; f_bfree := bfree;
    f_bavail := bavail; f_files := total_inodes; f_ffree := 999; f_favail := 999;
    f_fsid := magic; f_flag := mount_flag; f_namemax := 255; f_name := name
  |}.
End Ops.
