(* ===== verification/Link.v ===== *)
(** * [link.rs] and [inode.rs]: hard links, unlink, rmdir and symbolic links *)

From S2P Require Import Prelude Jammdb Effects Run RustStd Common Buckets Access Inode.

Section Ops.
Context `{Config}.

Definition dbfs_common_link (uid gid ino new_ino : Z) (name : bytes) (ctime : DbfsTimeSpec)
  : Prog DbfsError DbfsAttr :=
  attr ← map_err (fun _ => NotFound) (dbfs_common_attr new_ino);
  guard_err
    (negb (checkout_access (attr_uid attr) (attr_gid attr)
             (Z.land (attr_perm attr) Perm.MODE_777) uid gid 2))
    AccessError;;
  tx_q true (
    bucket ← q (get_bucket [] (ino_key new_ino));
    unwrap (put bucket (generate_data_key name) (fmt_usize ino));;
    size ← read_usize bucket k_size;
    size1 ← add64 size 1;
    q (put bucket k_size (to_be 8 size1));;
    q (put bucket k_ctime (time_to_be_bytes ctime));;
    q (put bucket k_mtime (time_to_be_bytes ctime));;
    old_bucket ← q (get_bucket [] (ino_key ino));
    hard_links ← read_u32 old_bucket k_hard_links;
    hard_links ← add32 hard_links 1;
    q (put old_bucket k_hard_links (to_be 4 hard_links));;
    q (put old_bucket k_ctime (time_to_be_bytes ctime));;
    q commit);;
  map_err (fun _ => NotFound) (dbfs_common_attr ino).

(** "Sticky bit" handling: only root, the owner of the directory and the
    owner of the file may remove an entry of a sticky directory. *)
Definition sticky_denies (p_perm uid p_uid ino_uid : Z) : bool :=
  Perm.contains (Perm.from_bits_truncate p_perm) Perm.S_ISVTX
  && negb (uid =? 0) && negb (uid =? p_uid) && negb (uid =? ino_uid).

Definition dbfs_common_unlink (uid gid dir : Z) (name : bytes) (ino : option Z)
    (c_time : DbfsTimeSpec) : Prog DbfsError unit :=
  tx_q true (
    p_bucket ← q (get_bucket [] (ino_key dir));
    let key := generate_data_key name in
    kv ← get_kv p_bucket key;
    value ← unwrap_option kv;
    p_uid ← read_u32 p_bucket k_uid;
    p_gid ← read_u32 p_bucket k_gid;
    p_perm ← read_u16 p_bucket k_mode;
    guard_err
      (negb (checkout_access p_uid p_gid (Z.land p_perm Perm.MODE_777) uid gid ACCESS_W_OK))
      AccessError;;
    '(bucket, ino) ←
      (match ino with
       | Some ino =>
           bucket ← q (get_bucket [] (ino_key ino));
           ret (bucket, ino)
       | None =>
           ino ← parse_ino value;
           bucket ← map_err (fun _ => NotFound) (get_bucket [] (ino_key ino));
           ret (bucket, ino)
       end);
    ino_uid ← read_u32 bucket k_uid;
    guard_err (sticky_denies p_perm uid p_uid ino_uid) AccessError;;
    q (bdelete p_bucket key);;
    size ← read_usize p_bucket k_size;
    size1 ← sub64 size 1;
    q (put p_bucket k_size (to_be 8 size1));;
    q (put p_bucket k_ctime (time_to_be_bytes c_time));;
    q (put p_bucket k_mtime (time_to_be_bytes c_time));;
    h_link ← read_u32 bucket k_hard_links;
    (if h_link =? 1 then q (delete_bucket [] (ino_key ino))
     else
       h1 ← sub32 h_link 1;
       q (put bucket k_hard_links (to_be 4 h1));;
       q (put bucket k_ctime (time_to_be_bytes c_time)));;
    q commit).

Definition dbfs_common_rmdir (r_uid r_gid p_ino : Z) (name : bytes) (c_time : DbfsTimeSpec)
  : Prog DbfsError unit :=
  tx_q true (
    p_bucket ← q (get_bucket [] (ino_key p_ino));
    let key := generate_data_key name in
    kv ← get_kv p_bucket key;
    v_value ← unwrap_option kv;
    number ← parse_ino v_value;
    bucket ← unwrap (get_bucket [] (ino_key number));
    size ← read_usize bucket k_size;
    guard_err (2 <? size) NotEmpty;;
    p_uid ← read_u32 p_bucket k_uid;
    p_gid ← read_u32 p_bucket k_gid;
    p_mode ← read_u16 p_bucket k_mode;
    p_size ← read_usize p_bucket k_size;
    guard_err
      (negb (checkout_access p_uid p_gid (Z.land p_mode Perm.MODE_777) r_uid r_gid ACCESS_W_OK))
      AccessError;;
    uid ← read_u32 bucket k_uid;
    guard_err (sticky_denies p_mode r_uid p_uid uid) AccessError;;
    q (put p_bucket k_mtime (time_to_be_bytes c_time));;
    q (put p_bucket k_ctime (time_to_be_bytes c_time));;
    q (bdelete p_bucket key);;
    p_size1 ← sub64 p_size 1;
    q (put p_bucket k_size (to_be 8 p_size1));;
    q (delete_bucket [] (ino_key number));;
    q commit).

(** [buf] is the caller's buffer; the result is the length copied and the
    buffer after the call. *)
Definition dbfs_common_readlink (ino : Z) (buf : bytes) : Prog DbfsError (Z * bytes) :=
  tx_q false (
    bucket ← q (get_bucket [] (ino_key ino));
    kv ← get_kv bucket k_data;
    value ← unwrap_option kv;
    let len := Z.min (blen value) (blen buf) in
    ret (len, splice buf 0 (slice value 0 len))).
End Ops.

(** ** Behaviour *)

(** A bucket with the three attributes a change of its entries updates. *)
Definition touch_dir (size : Z) (t : DbfsTimeSpec) (b : bucket) : bucket :=
  <[k_mtime := KeyValue (time_to_be_bytes t)]>
    (<[k_ctime := KeyValue (time_to_be_bytes t)]>
      (<[k_size := KeyValue (to_be 8 size)]> b)).

Definition touch_links (nlink : Z) (t : DbfsTimeSpec) (b : bucket) : bucket :=
  <[k_ctime := KeyValue (time_to_be_bytes t)]>
    (<[k_hard_links := KeyValue (to_be 4 nlink)]> b).

(** The view without the bucket of inode [n]. *)
Definition drop_inode (n : Z) (V : view) : view :=
  alter (delete (ino_key n)) [] (drop_tree [ino_key n] V).

Lemma lookup_drop_inode_eq n V : drop_inode n V !! ipath n = None.
Proof.
  unfold drop_inode. rewrite lookup_alter_ne by done. rewrite lookup_drop_tree.
  by rewrite decide_True.
Qed.
Lemma lookup_drop_inode_ne n k V : k <> ino_key n -> drop_inode n V !! [k] = V !! [k].
Proof.
  intros Hk. unfold drop_inode. rewrite lookup_alter_ne by done. rewrite lookup_drop_tree.
  rewrite decide_False; [done|]. intros [l Hl]. simpl in Hl. congruence.
Qed.

(** The effect of removing the entry [name] of the directory [dir], stored in
    [pb] with attributes [pa], that refers to [m]. *)
Definition unlink_view (D : view) (dir : Z) (name : bytes) (pb : bucket) (pa : Stat)
    (m : Z) (b : bucket) (a : Stat) (t : DbfsTimeSpec) : view :=
  let D' := <[ipath dir := touch_dir (st_size pa - 1) t (delete (generate_data_key name) pb)]> D in
  if st_nlink a =? 1 then drop_inode m D'
  else <[ipath m := touch_links (st_nlink a - 1) t b]> D'.

Section Rules.
Context `{Config} (rel : bool).

Lemma wp_sub32 {E : Type} a b (Q : outcome E Z -> AState -> Prop) s :
  0 <= a - b < 2 ^ 32 -> Q (Ok (a - b)) s -> wp rel (sub32 a b) Q s.
Proof. apply wp_wrapping. Qed.

Lemma wp_add32 {E : Type} a b (Q : outcome E Z -> AState -> Prop) s :
  0 <= a + b < 2 ^ 32 -> Q (Ok (a + b)) s -> wp rel (add32 a b) Q s.
Proof. apply wp_wrapping. Qed.

Lemma entry_fkv b name m :
  entry b name = Some m ->
  exists v, fkv b (generate_data_key name) = Some v /\ parse_usize v = Some m.
Proof. unfold entry. destruct (fkv b _) as [v|]; [|done]. eauto. Qed.

(** Unlink, called with the inode number or without it. *)
Lemma wp_dbfs_common_unlink uid gid dir name ino t D T n tb pb pa m b a Q :
  inode_at D dir pb pa -> entry pb name = Some m -> inode_at D m b a ->
  ino_key dir <> ino_key m -> (ino = None \/ ino = Some m) ->
  may_write pa uid gid = true ->
  sticky_denies (st_mode pa) uid (st_uid pa) (st_uid a) = false ->
  1 <= st_size pa -> 1 <= st_nlink a ->
  Q (Ok tt) (mkS (unlink_view D dir name pb pa m b a t) T n tb) ->
  (rel = false -> forall e, Q (Err (from_jerror e)) (mkS D T n tb)) ->
  wp rel (dbfs_common_unlink uid gid dir name ino t) Q (mkS D T n tb).
Proof.
  intros [HD Hkvb Hst] He [HDm Hkvbm Hstm] Hne Hino Hacc Hsticky Hsz Hnl HQ Hf.
  apply entry_fkv in He as (v & Hv & Hparse).
  pose proof (stat_of_range _ _ Hst) as (_ & Hszr & _).
  pose proof (stat_of_range _ _ Hstm) as (_ & _ & Hnlr & _).
  open_stat Hst. open_stat Hstm. unfold may_write in Hacc.
  assert (Hne' : ipath dir <> ipath m) by congruence.
  unfold dbfs_common_unlink. apply wp_tx_q; [exact Hf|]. wnorm. wgo.
  rewrite Hv. wgo. unfold guard_err. rewrite Hacc. simpl negb. cbv iota. wgo.
  apply wp_mono with (Q := fun o s' => o = Ok (ipath m, m) /\
      s' = mkS D ((D, true) :: T) n tb).
  { destruct Hino as [-> | ->]; wgo; unfold parse_ino; rewrite ?Hparse; wgo; done. }
  intros ? ? [-> ->]. wnorm. wgo. rewrite Hsticky. wgo.
  eapply wp_bdelete_ok; [reflexivity|eassumption|by apply fkv_lookup|]. wnorm. wgo.
  apply wp_sub64; [unfold u64 in *; lia|]. wgo. rewrite ?insert_insert_eq. wgo.
  unfold unlink_view in HQ. fold (touch_dir (st_size pa - 1) t (delete (generate_data_key name) pb)).
  destruct (st_nlink a =? 1) eqn:E1.
  - wgo. eapply wp_delete_bucket_ok; [reflexivity|by vlk|]. wnorm. wgo.
    eapply wp_commit; [reflexivity|exact Hf|]. wnorm. exact HQ.
  - wgo. apply wp_sub32; [unfold u32 in *; lia|]. wgo.
    eapply wp_commit; [reflexivity|exact Hf|]. wnorm. exact HQ.
Qed.

(** Rmdir of an empty directory. *)
Lemma wp_dbfs_common_rmdir uid gid dir name t D T n tb pb pa m b a Q :
  inode_at D dir pb pa -> entry pb name = Some m -> inode_at D m b a ->
  ino_key dir <> ino_key m -> st_size a <= 2 ->
  may_write pa uid gid = true ->
  sticky_denies (st_mode pa) uid (st_uid pa) (st_uid a) = false ->
  1 <= st_size pa ->
  Q (Ok tt) (mkS (drop_inode m (<[ipath dir :=
      <[k_size := KeyValue (to_be 8 (st_size pa - 1))]>
        (delete (generate_data_key name)
          (<[k_ctime := KeyValue (time_to_be_bytes t)]>
            (<[k_mtime := KeyValue (time_to_be_bytes t)]> pb)))]> D)) T n tb) ->
  (rel = false -> forall e, Q (Err (from_jerror e)) (mkS D T n tb)) ->
  wp rel (dbfs_common_rmdir uid gid dir name t) Q (mkS D T n tb).
Proof.
  intros [HD Hkvb Hst] He [HDm Hkvbm Hstm] Hne Hempty Hacc Hsticky Hsz HQ Hf.
  apply entry_fkv in He as (v & Hv & Hparse).
  pose proof (stat_of_range _ _ Hst) as (_ & Hszr & _).
  open_stat Hst. open_stat Hstm. unfold may_write in Hacc.
  assert (Hne' : ipath dir <> ipath m) by congruence.
  unfold dbfs_common_rmdir. apply wp_tx_q; [exact Hf|]. wnorm. wgo.
  rewrite Hv. wgo. unfold parse_ino. rewrite Hparse. wgo.
  unfold guard_err. rewrite (proj2 (Z.ltb_ge _ _)) by lia. wgo.
  rewrite Hacc. simpl negb. cbv iota. wgo. rewrite Hsticky. wgo.
  eapply wp_bdelete_ok; [reflexivity|by vlk|apply fkv_lookup; fld; exact Hv|].
  rewrite insert_insert_eq. wnorm. wgo.
  apply wp_sub64; [unfold u64 in *; lia|]. wgo.
  eapply wp_delete_bucket_ok; [reflexivity|by vlk|]. wnorm. wgo.
  eapply wp_commit; [reflexivity|exact Hf|]. wnorm. exact HQ.
Qed.

(** A directory that still has entries is kept. *)
Lemma wp_rmdir_not_empty uid gid dir name t D T n tb pb m b a Q :
  D !! ipath dir = Some pb -> entry pb name = Some m ->
  D !! ipath m = Some b -> stat_of b = Some a -> 2 < st_size a ->
  Q (Err NotEmpty) (mkS D T n tb) ->
  (rel = false -> forall e, Q (Err (from_jerror e)) (mkS D T n tb)) ->
  wp rel (dbfs_common_rmdir uid gid dir name t) Q (mkS D T n tb).
Proof.
  intros HD He HDm Hstm Hbig HQ Hf.
  apply entry_fkv in He as (v & Hv & Hparse). open_stat Hstm.
  unfold dbfs_common_rmdir. apply wp_tx_q; [exact Hf|]. wnorm. wgo.
  rewrite Hv. wgo. unfold parse_ino. rewrite Hparse. wgo.
  unfold guard_err. rewrite (proj2 (Z.ltb_lt _ _)) by lia. wgo. exact HQ.
Qed.

(** A missing entry is an unwrapped [None]. *)
Lemma wp_rmdir_missing uid gid dir name t D T n tb pb Q :
  D !! ipath dir = Some pb -> fkv pb (generate_data_key name) = None ->
  Q Panic (mkS D T n tb) ->
  (rel = false -> forall e, Q (Err (from_jerror e)) (mkS D T n tb)) ->
  wp rel (dbfs_common_rmdir uid gid dir name t) Q (mkS D T n tb).
Proof.
  intros HD He HQ Hf. unfold dbfs_common_rmdir. apply wp_tx_q; [exact Hf|]. wnorm. wgo.
  rewrite He. wgo. exact HQ.
Qed.

Lemma wp_unlink_missing uid gid dir name ino t D T n tb pb Q :
  D !! ipath dir = Some pb -> fkv pb (generate_data_key name) = None ->
  Q Panic (mkS D T n tb) ->
  (rel = false -> forall e, Q (Err (from_jerror e)) (mkS D T n tb)) ->
  wp rel (dbfs_common_unlink uid gid dir name ino t) Q (mkS D T n tb).
Proof.
  intros HD He HQ Hf. unfold dbfs_common_unlink. apply wp_tx_q; [exact Hf|]. wnorm. wgo.
  rewrite He. wgo. exact HQ.
Qed.

(** Reading a symbolic link copies as much of the target as fits. *)
Lemma wp_dbfs_common_readlink ino buf D T n tb b target Q :
  D !! ipath ino = Some b -> fkv b k_data = Some target ->
  Q (Ok (Z.min (blen target) (blen buf),
         splice buf 0 (slice target 0 (Z.min (blen target) (blen buf))))) (mkS D T n tb) ->
  (rel = false -> forall e, Q (Err (from_jerror e)) (mkS D T n tb)) ->
  wp rel (dbfs_common_readlink ino buf) Q (mkS D T n tb).
Proof.
  intros HD Hd HQ Hf. unfold dbfs_common_readlink. apply wp_tx_q; [exact Hf|]. wnorm. wgo.
  rewrite Hd. wgo. exact HQ.
Qed.
End Rules.

(** The directory after a new link, and the inode it refers to. *)
Definition link_dir (pb : bucket) (pa : Stat) (name : bytes) (m : Z) (t : DbfsTimeSpec) : bucket :=
  touch_dir (st_size pa + 1) t (<[generate_data_key name := KeyValue (fmt_usize m)]> pb).

Lemma touch_links_stat b a nlink t :
  stat_of b = Some a -> u32 nlink -> time_ok t ->
  stat_of (touch_links nlink t b) = Some (set_ctime t (set_nlink nlink a)).
Proof. unfold touch_links. eauto with stat. Qed.

Lemma touch_dir_stat b a size t :
  stat_of b = Some a -> u64 size -> time_ok t ->
  stat_of (touch_dir size t b) = Some (set_mtime t (set_ctime t (set_size size a))).
Proof. unfold touch_dir. eauto 6 with stat. Qed.

Lemma wp_dbfs_common_link `{Config} uid gid m dir name t D T n tb pb pa pt b a k Q :
  inode_at D dir pb pa -> stat_ok pa pt -> inode_at D m b a -> stat_ok a k ->
  ino_key dir <> ino_key m -> time_ok t ->
  may_write pa uid gid = true ->
  st_size pa + 1 < 2 ^ 64 -> st_nlink a + 1 < 2 ^ 32 ->
  Q (Ok (attr_of_stat m (set_ctime t (set_nlink (st_nlink a + 1) a)) k))
    (mkS (<[ipath m := touch_links (st_nlink a + 1) t b]>
           (<[ipath dir := link_dir pb pa name m t]> D)) T n tb) ->
  wp true (dbfs_common_link uid gid m dir name t) Q (mkS D T n tb).
Proof.
  intros [HD Hkvb Hst] Hok [HDm Hkvbm Hstm] Hokm Hne Ht Hacc Hsz Hnl HQ.
  pose proof (stat_of_range _ _ Hst) as (_ & Hszr & _).
  pose proof (stat_of_range _ _ Hstm) as (_ & _ & Hnlr & _).
  open_stat Hst. open_stat Hstm. unfold may_write in Hacc.
  assert (Hne' : ipath dir <> ipath m) by congruence.
  unfold dbfs_common_link. wgo.
  eapply wp_dbfs_common_attr; [exact HD|exact Hst|exact Hok| |done]. wnorm.
  wgo. cbn [attr_uid attr_gid attr_perm attr_of_stat]. unfold guard_err.
  unfold ACCESS_W_OK in Hacc. rewrite Hacc. simpl negb. cbv iota. wgo.
  apply wp_tx_q; [done|]. wnorm. wgo. apply wp_add64; [unfold u64 in *; lia|]. wgo.
  apply wp_add32; [unfold u32 in *; lia|]. wgo.
  eapply wp_commit; [reflexivity|done|]. wnorm. wgo.
  eapply wp_dbfs_common_attr with (a := set_ctime t (set_nlink (st_nlink a + 1) a)) (t := k).
  - simpl. by vlk.
  - apply touch_links_stat; [done| |done]. unfold u32 in *; lia.
  - destruct Hokm as (? & ? & ? & ?). done.
  - exact HQ.
  - done.
Qed.
