(* ===== verification/Truncate.v ===== *)
(** * [inode.rs]: truncate and fallocate *)

From S2P Require Import Prelude Jammdb Effects Run RustStd Common Buckets Slices Access Inode.

(** [for i in l { body }] *)
Fixpoint for_each {E A} (l : list A) (body : A -> Prog E unit) : Prog E unit :=
  match l with
  | [] => ret tt
  | x :: l' => body x;; for_each l' body
  end.

Section Ops.
Context `{Config}.

(** [i as u32] *)
Definition as_u32 (i : Z) : Z := i `mod` 2 ^ 32.

(** Delete slice [i] if it is stored. *)
Definition free_slice (bucket : path) (i : Z) : Prog DbfsError unit :=
  let key := generate_data_key_with_number (as_u32 i) in
  v ← get_kv bucket key;
  match v with
  | Some _ => q (bdelete bucket key)
  | None => ret tt
  end.

(** Clear the bytes of slice [start] from [offset] on, if it is stored. *)
Definition zero_tail (bucket : path) (start offset : Z) : Prog DbfsError unit :=
  let start_key := generate_data_key_with_number (as_u32 start) in
  v ← get_kv bucket start_key;
  match v with
  | Some value =>
      (** [value[i] = 0] is out of bounds on a short value *)
      assert_prog (SLICE_SIZE <=? blen value);;
      unwrap (put bucket start_key
                (splice value offset (replicate (Z.to_nat (SLICE_SIZE - offset)) x00)))
  | None => ret tt
  end.

Definition dbfs_common_truncate (r_uid r_gid ino : Z) (ctime : DbfsTimeSpec) (f_size : Z)
  : Prog DbfsError DbfsAttr :=
  attr ← map_err (fun _ => NotFound) (dbfs_common_attr ino);
  guard_err
    (negb (checkout_access (attr_uid attr) (attr_gid attr) (attr_perm attr)
             r_uid r_gid ACCESS_W_OK))
    AccessError;;
  tx_q true (
    bucket ← unwrap (get_bucket [] (ino_key ino));
    let start := f_size / SLICE_SIZE in
    let offset := f_size `mod` SLICE_SIZE in
    let current_size := attr_size attr in
    let current_block := current_size / SLICE_SIZE in
    (if current_block <? start then
       sb_blk ← unwrap (get_bucket [] k_super_blk);
       disk_size ← read_u64 sb_blk k_disk_size;
       let gap := saturating_sub f_size current_size in
       guard_err (disk_size <? gap) NoSpace;;
       new_disk_size ← sub64 disk_size gap;
       q (put sb_blk k_disk_size (to_be 8 new_disk_size))
     else
       for_each (seqZ (start + 1) (current_block - start)) (free_slice bucket);;
       zero_tail bucket start offset;;
       sb_blk ← unwrap (get_bucket [] k_super_blk);
       disk_size ← read_u64 sb_blk k_disk_size;
       additional_size ← mul64 (current_block - start) SLICE_SIZE;
       new_disk_size ← add64 disk_size additional_size;
       q (put sb_blk k_disk_size (to_be 8 new_disk_size)));;
    q (put bucket k_size (to_be 8 f_size));;
    q (put bucket k_ctime (time_to_be_bytes ctime));;
    q (put bucket k_mtime (time_to_be_bytes ctime));;
    let new_perm := clear_suid_sgid (Perm.from_bits_truncate (attr_perm attr)) in
    q (put bucket k_mode (to_be 2 new_perm));;
    q commit;;
    ret {|
      attr_ino := attr_ino attr; attr_size := f_size; attr_blocks := attr_blocks attr;
      attr_atime := attr_atime attr; attr_mtime := ctime; attr_ctime := ctime;
      attr_crtime := attr_crtime attr; attr_kind := attr_kind attr;
      attr_perm := new_perm; attr_nlink := attr_nlink attr; attr_uid := attr_uid attr;
      attr_gid := attr_gid attr; attr_rdev := attr_rdev attr;
      attr_blksize := attr_blksize attr; attr_padding := attr_padding attr;
      attr_flags := attr_flags attr
    |}).

Definition FALLOC_FL_KEEP_SIZE : Z := 0x01.

Definition dbfs_common_fallocate (r_uid r_gid ino offset size mode : Z)
    (ctime : DbfsTimeSpec) : Prog DbfsError unit :=
  tx_q true (
    bucket ← unwrap (get_bucket [] (ino_key ino));
    uid ← read_u32 bucket k_uid;
    gid ← read_u32 bucket k_gid;
    perm ← read_u16 bucket k_mode;
    i_size ← read_usize bucket k_size;
    guard_err (negb (checkout_access uid gid perm r_uid r_gid ACCESS_W_OK)) AccessError;;
    f_size ← add64 offset size;
    let start := f_size / SLICE_SIZE in
    let current_block := i_size / SLICE_SIZE in
    (if current_block <? start then
       sb_blk ← unwrap (get_bucket [] k_super_blk);
       disk_size ← read_u64 sb_blk k_disk_size;
       let gap := saturating_sub f_size i_size in
       guard_err (disk_size <? gap) NoSpace;;
       new_disk_size ← sub64 disk_size gap;
       q (put sb_blk k_disk_size (to_be 8 new_disk_size))
     else ret tt);;
    (if Z.land mode FALLOC_FL_KEEP_SIZE =? 0 then
       q (put bucket k_ctime (time_to_be_bytes ctime));;
       q (put bucket k_mtime (time_to_be_bytes ctime));;
       if i_size <? f_size then q (put bucket k_size (to_be 8 f_size)) else ret tt
     else ret tt);;
    q commit).
End Ops.

(** ** Behaviour *)

(** The super block of a view, with [ds] bytes of free space. *)
Record sb_at (V : view) (sb : bucket) (ds : Z) : Prop := {
  sb_bucket : V !! sb_path = Some sb;
  sb_kvb : kvb sb;
  sb_disk : fbe 8 sb k_disk_size = Some ds
}.

Lemma sb_at_ext V V' sb f : V' !! sb_path = V !! sb_path -> sb_at V sb f -> sb_at V' sb f.
Proof. intros He [H1 H2 H3]. split; [by rewrite He|done..]. Qed.
(** The super block after a change of the free space. *)
Lemma sb_put V V' sb ds ds' :
  sb_at V sb ds -> u64 ds' -> V' !! sb_path = Some (<[k_disk_size := KeyValue (to_be 8 ds')]> sb) ->
  sb_at V' (<[k_disk_size := KeyValue (to_be 8 ds')]> sb) ds'.
Proof. intros [H1 H2 H3] Hu Hsb. split; [done|eauto with kvb|]. by apply (fbe_insert_eq 8). Qed.

(** The attributes that a truncation to [size] writes. *)
Definition touch_file (size : Z) (t : DbfsTimeSpec) (mode : Z) (b : bucket) : bucket :=
  <[k_mode := KeyValue (to_be 2 mode)]>
    (<[k_mtime := KeyValue (time_to_be_bytes t)]>
      (<[k_ctime := KeyValue (time_to_be_bytes t)]>
        (<[k_size := KeyValue (to_be 8 size)]> b))).

Lemma touch_file_stat b a size t mode :
  stat_of b = Some a -> u64 size -> time_ok t -> u16 mode ->
  stat_of (touch_file size t mode b)
    = Some (set_mode mode (set_mtime t (set_ctime t (set_size size a)))).
Proof. unfold touch_file. eauto 8 with stat. Qed.

Section Rules.
Context `{Config}.

Abbreviation skey := generate_data_key_with_number.

(** A bucket without the slices of [l]. *)
Definition drop_slices (l : list Z) (b : bucket) : bucket :=
  fold_left (fun b i => delete (skey i) b) l b.

(** A bucket whose slice [i] is cleared from [offset] on. *)
Definition clear_tail (i offset : Z) (b : bucket) : bucket :=
  match slice_at b i with
  | Some v =>
      <[skey i := KeyValue (splice v offset (replicate (Z.to_nat (SLICE_SIZE - offset)) x00))]> b
  | None => b
  end.

Lemma wp_free_slice ik i b V ts D n tb (Q : outcome DbfsError unit -> AState -> Prop) :
  V !! [ik] = Some b -> kvb b -> u32 i ->
  Q (Ok tt) (mkS D ((<[[ik] := delete (skey i) b]> V, true) :: ts) n tb) ->
  wp true (free_slice [ik] i) Q (mkS D ((V, true) :: ts) n tb).
Proof.
  intros HV Hkvb Hi HQ. unfold free_slice, as_u32. rewrite Z.mod_small by done. wgo.
  destruct (fkv b (skey i)) as [v|] eqn:Ev.
  - apply fkv_lookup in Ev. wgo.
    eapply wp_bdelete_ok; [reflexivity|exact HV|exact Ev|]. exact HQ.
  - assert (Hn : b !! skey i = None).
    { unfold fkv in Ev. specialize (Hkvb (skey i)). repeat case_match; simplify_eq; done. }
    wgo. rewrite delete_id, insert_id in HQ by done. exact HQ.
Qed.

Lemma wp_free_slices ik l b V ts D n tb (Q : outcome DbfsError unit -> AState -> Prop) :
  V !! [ik] = Some b -> kvb b -> Forall u32 l ->
  Q (Ok tt) (mkS D ((<[[ik] := drop_slices l b]> V, true) :: ts) n tb) ->
  wp true (for_each l (free_slice [ik])) Q (mkS D ((V, true) :: ts) n tb).
Proof.
  revert b V. induction l as [|i l IH]; intros b V HV Hkvb Hl HQ; simpl.
  - apply wp_ret. simpl in HQ. by rewrite insert_id in HQ.
  - apply list.Forall_cons in Hl as [Hi Hl]. apply wp_bind.
    eapply wp_free_slice; [exact HV|done|done|]. cbv beta iota.
    eapply IH; [apply lookup_insert_eq|by apply kvb_delete|done|].
    by rewrite insert_insert_eq.
Qed.

Lemma drop_slices_lookup l b k : (forall i, In i l -> k <> skey i) -> drop_slices l b !! k = b !! k.
Proof.
  revert b. induction l as [|i l IH]; intros b Hk; simpl; [done|].
  rewrite IH by (simpl in Hk; auto). apply lookup_delete_ne. intros E. apply (Hk i); [by left|done].
Qed.
Lemma drop_slices_None l b i : In i l -> drop_slices l b !! skey i = None.
Proof.
  unfold drop_slices. revert b. induction l as [|j l IH]; intros b; simpl; [done|].
  intros [->|Hin]; [|by apply IH].
  assert (Hd : delete (skey i) b !! skey i = None) by apply lookup_delete_eq.
  revert Hd. generalize (delete (skey i) b). clear.
  induction l as [|j l IH]; intros b Hb; simpl; [done|]. apply IH.
  rewrite lookup_delete. by case_decide.
Qed.
Lemma drop_slices_kvb l b : kvb b -> kvb (drop_slices l b).
Proof.
  unfold drop_slices. revert b. induction l as [|i l IH]; intros b Hb; simpl; [done|].
  by apply IH, kvb_delete.
Qed.

Lemma wp_zero_tail ik i offset b V ts D n tb (Q : outcome DbfsError unit -> AState -> Prop) :
  V !! [ik] = Some b -> kvb b -> slices_ok b -> u32 i ->
  Q (Ok tt) (mkS D ((<[[ik] := clear_tail i offset b]> V, true) :: ts) n tb) ->
  wp true (zero_tail [ik] i offset) Q (mkS D ((V, true) :: ts) n tb).
Proof.
  intros HV Hkvb Hok Hi HQ. unfold zero_tail, as_u32. rewrite Z.mod_small by done. wgo.
  unfold clear_tail in HQ. fold (slice_at b i). destruct (slice_at b i) as [v|] eqn:Ev.
  - apply slice_at_blen in Ev; [|done]. unfold assert_prog. rewrite Ev, Z.leb_refl. wgo. exact HQ.
  - wgo. rewrite insert_id in HQ by done. exact HQ.
Qed.

(** What a truncation from slice [cur] to position [start * SLICE_SIZE + offset]
    leaves of a bucket. *)
Definition trim (start offset cur : Z) (b : bucket) : bucket :=
  clear_tail start offset (drop_slices (seqZ (start + 1) (cur - start)) b).

Lemma slice_key_prefix i : bs "zdata:" `prefix_of` skey i.
Proof. by eexists. Qed.

Lemma drop_slices_ok l b : slices_ok b -> slices_ok (drop_slices l b).
Proof.
  unfold drop_slices. revert b. induction l as [|i l IH]; intros b Hb; simpl; [done|].
  apply IH. intros k d. rewrite lookup_delete. case_decide; [done|apply Hb].
Qed.

Lemma drop_slices_at l b i :
  Forall u32 l -> u32 i ->
  slice_at (drop_slices l b) i = if decide (i ∈ l) then None else slice_at b i.
Proof.
  intros Hl Hi. unfold slice_at, fkv. case_decide as Hin.
  - by rewrite drop_slices_None by (by apply list_elem_of_In).
  - rewrite drop_slices_lookup; [done|]. intros j Hj E. apply list_elem_of_In in Hj.
    rewrite list.Forall_forall in Hl.
    apply generate_data_key_with_number_inj in E; [by subst|done|by apply Hl].
Qed.

Lemma blen_cleared v offset :
  blen v = SLICE_SIZE -> 0 <= offset <= SLICE_SIZE ->
  blen (splice v offset (replicate (Z.to_nat (SLICE_SIZE - offset)) x00)) = SLICE_SIZE.
Proof.
  intros Hv Ho. rewrite blen_splice; [done|lia|]. unfold blen. rewrite length_replicate.
  unfold blen in Hv. lia.
Qed.

Lemma clear_tail_other i offset b k :
  ~ bs "zdata:" `prefix_of` k -> clear_tail i offset b !! k = b !! k.
Proof.
  intros Hk. unfold clear_tail. case_match; [|done]. apply lookup_insert_ne.
  intros <-. apply Hk, slice_key_prefix.
Qed.

Lemma trim_other start offset cur b k :
  ~ bs "zdata:" `prefix_of` k -> trim start offset cur b !! k = b !! k.
Proof.
  intros Hk. unfold trim. rewrite clear_tail_other by done. apply drop_slices_lookup.
  intros i _ ->. apply Hk, slice_key_prefix.
Qed.

Lemma trim_kvb start offset cur b : kvb b -> kvb (trim start offset cur b).
Proof.
  intros Hb. unfold trim, clear_tail. apply (drop_slices_kvb (seqZ (start + 1) (cur - start))) in Hb.
  case_match; eauto with kvb.
Qed.

Lemma trim_ok start offset cur b :
  slices_ok b -> u32 start -> 0 <= offset <= SLICE_SIZE -> slices_ok (trim start offset cur b).
Proof.
  intros Hb Hs Ho. unfold trim, clear_tail.
  apply (drop_slices_ok (seqZ (start + 1) (cur - start))) in Hb.
  case_match eqn:Ev; [|done]. apply slices_ok_insert; [done|done|].
  apply blen_cleared; [by eapply slice_at_blen|done].
Qed.

Lemma dropped_u32 start cur : 0 <= start -> cur < 2 ^ 32 -> Forall u32 (seqZ (start + 1) (cur - start)).
Proof.
  intros. apply list.Forall_forall. intros i Hi%elem_of_seqZ. unfold u32. lia.
Qed.

(** The slices after a truncation: those before [start] are kept, slice
    [start] is cleared from [offset] on, those up to [cur] are gone. *)
Lemma trim_slice start offset cur b i :
  u32 start -> cur < 2 ^ 32 -> u32 i ->
  slice_at (trim start offset cur b) i =
    if decide (start < i <= cur) then None
    else if decide (i = start) then
      (fun v => splice v offset (replicate (Z.to_nat (SLICE_SIZE - offset)) x00)) <$> slice_at b i
    else slice_at b i.
Proof.
  intros Hs Hc Hi. pose proof (dropped_u32 start cur ltac:(unfold u32 in *; lia) Hc) as Hl.
  set (l := seqZ (start + 1) (cur - start)) in *.
  assert (Hin : i ∈ l <-> start < i <= cur) by (unfold l; rewrite elem_of_seqZ; lia).
  unfold trim, clear_tail. fold l.
  assert (Hst : slice_at (drop_slices l b) start = slice_at b start).
  { rewrite drop_slices_at by done. rewrite decide_False; [done|].
    unfold l. rewrite elem_of_seqZ. lia. }
  rewrite Hst. destruct (slice_at b start) as [v|] eqn:Ev.
  - destruct (decide (i = start)) as [->|Hne].
    + rewrite decide_False by lia. rewrite Ev, slice_at_insert_eq. done.
    + rewrite slice_at_insert_ne, drop_slices_at by done. repeat case_decide; tauto || done.
  - rewrite drop_slices_at by done. repeat case_decide; subst; rewrite ?Ev; tauto || done.
Qed.

(** The bytes after a truncation to [start * SLICE_SIZE + offset]. *)
Lemma trim_byte start offset cur b p :
  slices_ok b -> u32 start -> cur < 2 ^ 32 -> 0 <= offset < SLICE_SIZE -> 0 <= p -> p / SLICE_SIZE <= cur ->
  byte_at (trim start offset cur b) p =
    if decide (p < start * SLICE_SIZE + offset) then byte_at b p
    else if decide (p < (start + 1) * SLICE_SIZE) then (fun _ => x00) <$> byte_at b p
    else None.
Proof.
  intros Hok Hs Hc Ho Hp Hpc. pose proof SLICE_SIZE_range. pose proof (pos_split p) as [Hp1 Hp2].
  set (i := p / SLICE_SIZE) in *. assert (0 <= i) by (apply Z.div_pos; lia).
  assert (Hi : u32 i) by (unfold u32; lia). unfold u32 in Hs.
  unfold byte_at. fold i. rewrite trim_slice by (done || lia).
  destruct (decide (start < i <= cur)) as [Hin|Hout].
  { rewrite !decide_False by nia. done. }
  destruct (decide (i = start)) as [Heq|Hne].
  - destruct (slice_at b i) as [v|] eqn:Ev; simpl; [|by repeat case_decide].
    apply slice_at_blen in Ev; [|done].
    assert (Hr : blen (replicate (Z.to_nat (SLICE_SIZE - offset)) x00) = SLICE_SIZE - offset).
    { unfold blen. rewrite length_replicate. lia. }
    rewrite lookup_splice by lia. rewrite Hr. rewrite Z2Nat.id by lia.
    destruct (decide (offset <= p `mod` SLICE_SIZE < offset + (SLICE_SIZE - offset))) as [Hd|Hd].
    + rewrite decide_False by nia. rewrite decide_True by nia.
      rewrite lookup_replicate_2 by lia.
      destruct (lookup_lt_is_Some_2 v (Z.to_nat (p `mod` SLICE_SIZE))) as [x ->]; [|done].
      unfold blen in Ev. lia.
    + by rewrite decide_True by nia.
  - by rewrite decide_True by nia.
Qed.
End Rules.

Section Effects.
Context `{Config}.

Abbreviation skey := generate_data_key_with_number.

(** The caller may write the file. *)
Definition file_writable (a : Stat) (r_uid r_gid : Z) : bool :=
  checkout_access (st_uid a) (st_gid a) (st_mode a) r_uid r_gid ACCESS_W_OK.

(** The mode, the attributes and the result of a truncation. *)
Definition trunc_mode (a : Stat) : Z := clear_suid_sgid (Perm.from_bits_truncate (st_mode a)).
Definition trunc_stat (f_size : Z) (t : DbfsTimeSpec) (a : Stat) : Stat :=
  set_mode (trunc_mode a) (set_mtime t (set_ctime t (set_size f_size a))).
Definition trunc_attr (ino f_size : Z) (t : DbfsTimeSpec) (a : Stat) (k : DbfsFileType) : DbfsAttr :=
  let attr := attr_of_stat ino a k in {|
    attr_ino := ino; attr_size := f_size; attr_blocks := attr_blocks attr;
    attr_atime := attr_atime attr; attr_mtime := t; attr_ctime := t;
    attr_crtime := attr_crtime attr; attr_kind := k; attr_perm := trunc_mode a;
    attr_nlink := attr_nlink attr; attr_uid := attr_uid attr; attr_gid := attr_gid attr;
    attr_rdev := attr_rdev attr; attr_blksize := attr_blksize attr;
    attr_padding := 0; attr_flags := 0 |}.

Lemma trunc_mode_u16 b a : stat_of b = Some a -> u16 (trunc_mode a).
Proof.
  intros Hs. pose proof (stat_of_range _ _ Hs) as (Hm & _). unfold trunc_mode.
  rewrite from_bits_truncate_id by done. by apply clear_suid_sgid_u16.
Qed.

(** Truncation within or below the last slice of the file. *)
Lemma wp_truncate_shrink r_uid r_gid ino t f_size D T n tb b a k sb ds Q :
  inode_at D ino b a -> stat_ok a k -> slices_ok b -> sb_at D sb ds ->
  file_writable a r_uid r_gid = true -> 0 <= f_size ->
  let start := f_size / SLICE_SIZE in
  let offset := f_size `mod` SLICE_SIZE in
  let cur := st_size a / SLICE_SIZE in
  let ds' := ds + (cur - start) * SLICE_SIZE in
  start <= cur -> cur < 2 ^ 32 -> ds' < 2 ^ 64 ->
  (forall D', D' !! ipath ino = Some (touch_file f_size t (trunc_mode a) (trim start offset cur b)) ->
     D' !! sb_path = Some (<[k_disk_size := KeyValue (to_be 8 ds')]> sb) ->
     frame [ino_key ino; k_super_blk] D D' ->
     Q (Ok (trunc_attr ino f_size t a k)) (mkS D' T n tb)) ->
  wp true (dbfs_common_truncate r_uid r_gid ino t f_size) Q (mkS D T n tb).
Proof.
  intros [HD Hkvb Hst] Hsok Hok [Hsb Hsbk Hds] Hacc Hf start offset cur ds' Hsc Hc Hds' HQ.
  pose proof SLICE_SIZE_range. pose proof (fbe_range _ _ _ _ Hds) as Hdr.
  change (2 ^ (8 * Z.of_nat 8)) with (2 ^ 64) in Hdr.
  pose proof (pos_split f_size) as [Hp Hm]. fold start offset in Hp, Hm.
  assert (0 <= start) by (apply Z.div_pos; lia).
  assert (Hs32 : u32 start) by (unfold u32; lia).
  assert (Hne : ipath ino <> sb_path) by apply ipath_sb.
  pose proof (dropped_u32 start cur ltac:(lia) Hc) as Hl.
  set (l := seqZ (start + 1) (cur - start)) in *.
  unfold dbfs_common_truncate. wgo.
  eapply wp_dbfs_common_attr; [exact HD|exact Hst|exact Hsok| |done]. wnorm. wgo.
  cbn [attr_uid attr_gid attr_perm attr_of_stat attr_size]. unfold guard_err.
  unfold file_writable in Hacc. rewrite Hacc. simpl negb. cbv iota. wgo.
  apply wp_tx_q; [done|]. wnorm. wgo. fold start offset cur.
  rewrite (proj2 (Z.ltb_ge _ _)) by lia. wgo. fold l.
  eapply wp_free_slices; [exact HD|done|done|]. wnorm. wgo.
  eapply wp_zero_tail;
    [apply lookup_insert_eq|by apply drop_slices_kvb|by apply drop_slices_ok|done|].
  rewrite insert_insert_eq. fold (trim start offset cur b). wnorm. wgo.
  pose proof (trim_kvb start offset cur b Hkvb) as Htk.
  apply wp_wrapping; [nia|]. wnorm. wgo. apply wp_add64; [nia|]. wnorm. wgo.
  eapply wp_commit; [reflexivity|done|]. wnorm. wgo.
  apply HQ.
  - apply lookup_insert_eq.
  - cbn [a_db]. by rewrite lookup_insert_ne, lookup_insert_eq.
  - cbn [a_db]. eauto 8 using list_elem_of_here, list_elem_of_further with stat.
Qed.

(** Truncation past the last slice: the file is not touched, space is taken
    from the disk. *)
Lemma wp_truncate_extend r_uid r_gid ino t f_size D T n tb b a k sb ds Q :
  inode_at D ino b a -> stat_ok a k -> sb_at D sb ds ->
  file_writable a r_uid r_gid = true ->
  st_size a / SLICE_SIZE < f_size / SLICE_SIZE ->
  let gap := f_size - st_size a in
  gap <= ds ->
  (forall D', D' !! ipath ino = Some (touch_file f_size t (trunc_mode a) b) ->
     D' !! sb_path = Some (<[k_disk_size := KeyValue (to_be 8 (ds - gap))]> sb) ->
     frame [ino_key ino; k_super_blk] D D' ->
     Q (Ok (trunc_attr ino f_size t a k)) (mkS D' T n tb)) ->
  wp true (dbfs_common_truncate r_uid r_gid ino t f_size) Q (mkS D T n tb).
Proof.
  intros [HD Hkvb Hst] Hsok [Hsb Hsbk Hds] Hacc Hsc gap Hgap HQ.
  pose proof SLICE_SIZE_range. pose proof (fbe_range _ _ _ _ Hds) as Hdr.
  change (2 ^ (8 * Z.of_nat 8)) with (2 ^ 64) in Hdr.
  assert (Hgap0 : 0 <= gap).
  { subst gap. pose proof (pos_split f_size) as [Hp1 Hp2]. pose proof (pos_split (st_size a)). nia. }
  assert (Hne : ipath ino <> sb_path) by apply ipath_sb.
  unfold dbfs_common_truncate. wgo.
  eapply wp_dbfs_common_attr; [exact HD|exact Hst|exact Hsok| |done]. wnorm. wgo.
  cbn [attr_uid attr_gid attr_perm attr_of_stat attr_size]. unfold guard_err.
  unfold file_writable in Hacc. rewrite Hacc. simpl negb. cbv iota. wgo.
  apply wp_tx_q; [done|]. wnorm. wgo. rewrite (proj2 (Z.ltb_lt _ _)) by lia. wgo.
  unfold saturating_sub. rewrite Z.max_r by lia. fold gap.
  rewrite (proj2 (Z.ltb_ge _ _)) by lia. wgo. apply wp_sub64; [lia|]. wnorm. wgo.
  eapply wp_commit; [reflexivity|done|]. wnorm. wgo.
  apply HQ.
  - apply lookup_insert_eq.
  - cbn [a_db]. by rewrite lookup_insert_ne, lookup_insert_eq.
  - cbn [a_db]. eauto 8 using list_elem_of_here, list_elem_of_further with stat.
Qed.

(** There is not enough space for the extension. *)
Lemma wp_truncate_nospace r_uid r_gid ino t f_size D T n tb b a k sb ds Q :
  inode_at D ino b a -> stat_ok a k -> sb_at D sb ds ->
  file_writable a r_uid r_gid = true ->
  st_size a / SLICE_SIZE < f_size / SLICE_SIZE -> ds < f_size - st_size a ->
  Q (Err NoSpace) (mkS D T n tb) ->
  wp true (dbfs_common_truncate r_uid r_gid ino t f_size) Q (mkS D T n tb).
Proof.
  intros [HD Hkvb Hst] Hsok [Hsb Hsbk Hds] Hacc Hsc Hgap HQ.
  unfold dbfs_common_truncate. wgo.
  eapply wp_dbfs_common_attr; [exact HD|exact Hst|exact Hsok| |done]. wnorm. wgo.
  cbn [attr_uid attr_gid attr_perm attr_of_stat attr_size]. unfold guard_err.
  unfold file_writable in Hacc. rewrite Hacc. simpl negb. cbv iota. wgo.
  apply wp_tx_q; [done|]. wnorm. wgo. rewrite (proj2 (Z.ltb_lt _ _)) by lia. wgo.
  unfold saturating_sub. rewrite (proj2 (Z.ltb_lt _ _)) by lia. wgo. exact HQ.
Qed.

Lemma wp_truncate_denied rel r_uid r_gid ino t f_size D T n tb b a k Q :
  D !! ipath ino = Some b -> stat_of b = Some a -> stat_ok a k ->
  file_writable a r_uid r_gid = false ->
  Q (Err AccessError) (mkS D T n tb) ->
  (rel = false -> Q (Err NotFound) (mkS D T n tb)) ->
  wp rel (dbfs_common_truncate r_uid r_gid ino t f_size) Q (mkS D T n tb).
Proof.
  intros HD Hst Hsok Hacc HQ Hf. unfold dbfs_common_truncate. wgo.
  eapply wp_dbfs_common_attr; [exact HD|exact Hst|exact Hsok| |auto]. wnorm. wgo.
  cbn [attr_uid attr_gid attr_perm attr_of_stat attr_size]. unfold guard_err.
  unfold file_writable in Hacc. rewrite Hacc. simpl negb. cbv iota. wgo. exact HQ.
Qed.

(** The file and the free space after [fallocate] of the range that ends at
    [f_size]. *)
Definition falloc_file (f_size mode : Z) (t : DbfsTimeSpec) (a : Stat) (b : bucket) : bucket :=
  if Z.land mode FALLOC_FL_KEEP_SIZE =? 0 then
    let b := <[k_mtime := KeyValue (time_to_be_bytes t)]>
               (<[k_ctime := KeyValue (time_to_be_bytes t)]> b) in
    if st_size a <? f_size then <[k_size := KeyValue (to_be 8 f_size)]> b else b
  else b.
Definition falloc_need (f_size : Z) (a : Stat) : Z :=
  if st_size a / SLICE_SIZE <? f_size / SLICE_SIZE then f_size - st_size a else 0.

Lemma falloc_need_range f_size b a :
  stat_of b = Some a -> 0 <= falloc_need f_size a.
Proof.
  intros Hs. pose proof SLICE_SIZE_range. unfold falloc_need.
  destruct (Z.ltb_spec (st_size a / SLICE_SIZE) (f_size / SLICE_SIZE)); [|lia].
  pose proof (pos_split f_size) as [Hp1 Hp2]. pose proof (pos_split (st_size a)). nia.
Qed.

Lemma wp_dbfs_common_fallocate r_uid r_gid ino offset size mode t D T n tb b a sb ds Q :
  inode_at D ino b a -> sb_at D sb ds -> file_writable a r_uid r_gid = true ->
  0 <= offset -> 0 <= size -> offset + size < 2 ^ 64 ->
  let f_size := offset + size in
  falloc_need f_size a <= ds ->
  (forall D', D' !! ipath ino = Some (falloc_file f_size mode t a b) ->
     (exists sb', sb_at D' sb' (ds - falloc_need f_size a)) ->
     frame [ino_key ino; k_super_blk] D D' -> Q (Ok tt) (mkS D' T n tb)) ->
  wp true (dbfs_common_fallocate r_uid r_gid ino offset size mode t) Q (mkS D T n tb).
Proof.
  intros [HD Hkvb Hst] Hsbat Hacc Ho Hs Hmax f_size Hneed HQ. pose proof Hsbat as [Hsb Hsbk Hds].
  pose proof (fbe_range _ _ _ _ Hds) as Hdr. change (2 ^ (8 * Z.of_nat 8)) with (2 ^ 64) in Hdr.
  assert (Hne : ipath ino <> sb_path) by apply ipath_sb. open_stat Hst.
  pose proof (falloc_need_range f_size b a Hst) as Hn0.
  unfold dbfs_common_fallocate. apply wp_tx_q; [done|]. wnorm. wgo.
  unfold guard_err. unfold file_writable in Hacc. rewrite Hacc. simpl negb. cbv iota. wgo.
  apply wp_add64; [lia|]. fold f_size. wnorm. unfold falloc_need in *.
  apply wp_bind. eapply wp_mono with (Q := fun o s' => o = Ok tt /\ exists V,
      s' = mkS D ((V, true) :: T) n tb /\ V !! ipath ino = Some b /\
      (exists sb', sb_at V sb'
        (ds - (if st_size a / SLICE_SIZE <? f_size / SLICE_SIZE then f_size - st_size a else 0))) /\
      frame [ino_key ino; k_super_blk] D V).
  { destruct (st_size a / SLICE_SIZE <? f_size / SLICE_SIZE) eqn:E.
    - wgo. unfold saturating_sub. rewrite Z.max_r by lia.
      rewrite (proj2 (Z.ltb_ge _ _)) by lia. wgo. apply wp_sub64; [lia|]. wnorm. wgo.
      split; [done|]. eexists; split; [reflexivity|].
      rewrite lookup_insert_ne by done. split; [done|]. split.
      { eexists. eapply sb_put; [done| |apply lookup_insert_eq]. unfold u64.
        change (2 ^ (8 * Z.of_nat 8)) with (2 ^ 64) in Hdr. lia. }
      eauto 8 using list_elem_of_here, list_elem_of_further with stat.
    - wgo. split; [done|]. exists D. split; [done|]. split; [done|]. rewrite Z.sub_0_r.
      split; [by exists sb|]. apply frame_refl. }
  intros ? ? (-> & V & -> & HV & [sb' Hsv] & Hfr). wnorm.
  unfold falloc_file in HQ. destruct (Z.land mode FALLOC_FL_KEEP_SIZE =? 0).
  - wgo. destruct (st_size a <? f_size); wgo; (eapply wp_commit; [reflexivity|done|]); wnorm;
      (apply HQ; cbn [a_db];
       [ apply lookup_insert_eq | exists sb'; eapply sb_at_ext, Hsv; by rewrite lookup_insert_ne
       | eauto 8 using list_elem_of_here, list_elem_of_further with stat ]).
  - wgo. eapply wp_commit; [reflexivity|done|]. wnorm. apply HQ; eauto.
Qed.

Lemma wp_fallocate_nospace r_uid r_gid ino offset size mode t D T n tb b a sb ds Q :
  inode_at D ino b a -> sb_at D sb ds -> file_writable a r_uid r_gid = true ->
  0 <= offset -> 0 <= size -> offset + size < 2 ^ 64 -> 0 <= ds ->
  ds < falloc_need (offset + size) a ->
  Q (Err NoSpace) (mkS D T n tb) ->
  wp true (dbfs_common_fallocate r_uid r_gid ino offset size mode t) Q (mkS D T n tb).
Proof.
  intros [HD Hkvb Hst] [Hsb Hsbk Hds] Hacc Ho Hs Hmax Hd0 Hneed HQ. open_stat Hst.
  unfold dbfs_common_fallocate. apply wp_tx_q; [done|]. wnorm. wgo.
  unfold guard_err. unfold file_writable in Hacc. rewrite Hacc. simpl negb. cbv iota. wgo.
  apply wp_add64; [lia|]. wnorm. unfold falloc_need in Hneed. apply wp_bind.
  destruct (_ <? _) eqn:E in Hneed; [|lia]. rewrite E. wgo.
  unfold saturating_sub. rewrite (proj2 (Z.ltb_lt _ _)) by lia. wgo. exact HQ.
Qed.
End Effects.
