(* ===== verification/File.v ===== *)
(** * [file.rs]: reading and writing file data

    The data of a file is stored in slices of [SLICE_SIZE] bytes, slice [i]
    under the key [zdata:] followed by [i] as a big-endian [u32].  A slice that
    was never written is absent. *)

From S2P Require Import Prelude Jammdb Effects Run RustStd Common Buckets Slices Access Inode.
From S2P Require Import Truncate.

(** [lib.rs], [copy_data]: the width of the words that are copied, chosen from
    the alignment of the two addresses and of the length. *)
Definition copy_width (src dest len : Z) : Z :=
  if (src `mod` 16 =? 0) && (dest `mod` 16 =? 0) && (len `mod` 16 =? 0) then 16
  else if (src `mod` 8 =? 0) && (dest `mod` 8 =? 0) && (len `mod` 8 =? 0) then 8
  else if (src `mod` 4 =? 0) && (dest `mod` 4 =? 0) && (len `mod` 4 =? 0) then 4
  else if (src `mod` 2 =? 0) && (dest `mod` 2 =? 0) && (len `mod` 2 =? 0) then 2
  else 1.

(** A memory, and the copy of [n] words of [width] bytes between two disjoint
    ranges ([copy_from_nonoverlapping]). *)
Definition copy_words (mem : Z -> byte) (src dest width n : Z) : Z -> byte :=
  fun a => if (dest <=? a) && (a <? dest + width * n) then mem (src + (a - dest)) else mem a.

Definition copy_data (mem : Z -> byte) (src dest len : Z) : Z -> byte :=
  let w := copy_width src dest len in copy_words mem src dest w (len / w).

Section Ops.
Context `{Config}.

(** State of the read loop: the buffer, the number of bytes filled, the next
    slice expected. *)
Definition ReadState : Type := bytes * Z * Z.

(** Copy the bytes of slice [index] that fall in the file, from the offset of
    the request, to the buffer; [None] is a slice that is not stored. *)
Definition read_slice (size offset index : Z) (value : option bytes) (buf : bytes)
    (buf_offset : Z) : Prog DbfsError (bytes * Z) :=
  let current_size := index * SLICE_SIZE in
  let value_offset := saturating_sub offset current_size in
  rest ← sub64 size current_size;
  let real_size := Z.min rest SLICE_SIZE in
  let len := Z.min (blen buf - buf_offset) (saturating_sub real_size value_offset) in
  let value := default (replicate (Z.to_nat SLICE_SIZE) x00) value in
  (** [&value[value_offset..value_offset + len]] *)
  assert_prog (value_offset + len <=? blen value);;
  ret (splice buf buf_offset (slice value value_offset (value_offset + len)),
       buf_offset + len).

Fixpoint read_gap (size offset : Z) (l : list Z) (buf : bytes) (buf_offset : Z)
  : Prog DbfsError (bytes * Z) :=
  match l with
  | [] => ret (buf, buf_offset)
  | i :: l' =>
      '(buf, buf_offset) ← read_slice size offset i None buf buf_offset;
      read_gap size offset l' buf buf_offset
  end.

Fixpoint read_loop (size offset : Z) (iter : list (bytes * Data)) (buf : bytes)
    (buf_offset start_num : Z) : Prog DbfsError (bytes * Z) :=
  match iter with
  | [] => ret (buf, buf_offset)
  | (_, Bucket) :: _ => panic
  | (key, KeyValue value) :: rest =>
      index ← unwrap_option (after_first x3a key);
      index ← be_macro 4 index;
      '(buf, buf_offset, start_num) ←
        (if negb (index =? start_num) then
           '(buf, buf_offset) ←
             read_gap size offset (seqZ (as_u32 start_num) (index - as_u32 start_num))
               buf buf_offset;
           ret (buf, buf_offset, index + 1)
         else ret (buf, buf_offset, start_num));
      '(buf, buf_offset) ← read_slice size offset index (Some value) buf buf_offset;
      let start_num := start_num + 1 in
      if buf_offset =? blen buf then ret (buf, buf_offset)
      else read_loop size offset rest buf buf_offset start_num
  end.

(** The result is the number of bytes read and the buffer after the call. *)
Definition dbfs_common_read (number : Z) (buf : bytes) (offset : Z)
  : Prog DbfsError (Z * bytes) :=
  tx_q false (
    bucket ← q (get_bucket [] (ino_key number));
    size ← read_usize bucket k_size;
    if size <=? offset then ret (0, buf)
    else
      let start_num := offset / SLICE_SIZE in
      t ← add64 offset (blen buf);
      let end_num := t / SLICE_SIZE + 1 in
      let offset := offset `mod` SLICE_SIZE in
      let f_end_num := size / SLICE_SIZE + 1 in
      let end_num := Z.min end_num f_end_num in
      iter ← range bucket (generate_data_key_with_number (as_u32 start_num))
               (generate_data_key_with_number (as_u32 end_num));
      '(buf, buf_offset) ← read_loop size offset iter buf 0 start_num;
      ret (buf_offset, buf)).

(** The new contents of a slice of which [len] bytes from [offset] are
    written: a whole slice is taken from the buffer, a part of a slice is
    copied into a block from the allocator, over the old contents of the
    slice if there are some.  Reading past the end of a stored slice is
    undefined behaviour in the source and a panic here. *)
Definition write_slice (bucket : path) (key buf : bytes) (count offset len : Z)
  : Prog DbfsError (bytes * list Z) :=
  if (len =? SLICE_SIZE) && (offset =? 0) then
    ret (slice buf count (count + SLICE_SIZE), [])
  else
    kv ← get_kv bucket key;
    '(ptr, block) ← alloc SLICE_SIZE;
    match kv with
    | None => ret (splice block offset (slice buf count (count + len)), [ptr])
    | Some value =>
        assert_prog ((offset <=? blen value)
                     && ((SLICE_SIZE - offset - len =? 0) || (SLICE_SIZE <=? blen value)));;
        let block := splice block 0 (slice value 0 offset) in
        let block := splice block offset (slice buf count (count + len)) in
        ret (splice block (offset + len) (slice value (offset + len) SLICE_SIZE), [ptr])
    end.

(** One iteration per slice; [fuel] bounds their number.  The result is the
    number of bytes written and the addresses of the blocks allocated. *)
Fixpoint write_loop (fuel : nat) (bucket : path) (buf : bytes) (num offset count : Z)
    (ptrs : list Z) : Prog DbfsError (Z * list Z) :=
  match fuel with
  | O => panic
  | S fuel =>
      let key := generate_data_key_with_number (as_u32 num) in
      let len := Z.min (blen buf - count) (SLICE_SIZE - offset) in
      '(data, p) ← write_slice bucket key buf count offset len;
      q (put bucket key data);;
      let count := count + len in
      let offset := (offset + len) `mod` SLICE_SIZE in
      let ptrs := ptrs ++ p in
      num ← add64 num 1;
      if count =? blen buf then ret (count, ptrs)
      else write_loop fuel bucket buf num offset count ptrs
  end.

(** Every iteration but the first and the last writes a whole slice. *)
Definition write_fuel (buf : bytes) : nat := Z.to_nat (blen buf / SLICE_SIZE + 2).

Definition dbfs_common_write (number : Z) (buf : bytes) (offset : Z) : Prog DbfsError Z :=
  tx_q true (
    bucket ← q (get_bucket [] (ino_key number));
    size ← read_usize bucket k_size;
    let o_offset := offset in
    let num := offset / SLICE_SIZE in
    let offset := offset `mod` SLICE_SIZE in
    '(count, ptrs) ← write_loop (write_fuel buf) bucket buf num offset 0 [];
    end_ ← add64 o_offset count;
    let new_size := Z.max size end_ in
    (if size <? new_size then q (put bucket k_size (to_be 8 new_size)) else ret tt);;
    q commit;;
    for_each ptrs (fun ptr => dealloc ptr SLICE_SIZE);;
    ret count).

Definition dbfs_common_copy_file_range (src offset_src dest offset_dest len : Z)
    (ctime : DbfsTimeSpec) : Prog DbfsError Z :=
  src_size ← tx_q false (
    bucket ← q (get_bucket [] (ino_key src));
    read_usize bucket k_size);
  let read_size := Z.min (saturating_sub src_size offset_src) len in
  let buf := replicate (Z.to_nat read_size) x00 in
  '(read_size, buf) ← dbfs_common_read src buf offset_src;
  write_size ← dbfs_common_write dest (slice buf 0 read_size) offset_dest;
  tx_q true (
    bucket ← q (get_bucket [] (ino_key dest));
    q (put bucket k_ctime (time_to_be_bytes ctime));;
    q (put bucket k_mtime (time_to_be_bytes ctime));;
    q commit);;
  ret write_size.
End Ops.

(** ** Writing *)

Section Write.
Context `{Config}.

Abbreviation skey := generate_data_key_with_number.

(** The new contents of slice [i]: the bytes [count .. count + len) of the
    buffer at [offset], the old contents around them. *)
Lemma wp_write_slice b V ts D n tb ik i buf count offset len (Q : outcome DbfsError (bytes * list Z) -> AState -> Prop) :
  V !! [ik] = Some b -> slices_ok b -> u32 i ->
  0 <= offset < SLICE_SIZE -> 0 <= count -> 0 <= len -> count + len <= blen buf ->
  offset + len <= SLICE_SIZE ->
  (forall v p, blen v = SLICE_SIZE ->
     (forall (j : nat) x, slice buf count (count + len) !! j = Some x ->
        v !! (Z.to_nat offset + j)%nat = Some x) ->
     (forall old (j : nat), slice_at b i = Some old ->
        ~ (offset <= Z.of_nat j < offset + len) -> v !! j = old !! j) ->
     Q (Ok (v, p)) (mkS D ((V, true) :: ts) n tb)) ->
  wp true (write_slice [ik] (skey i) buf count offset len) Q (mkS D ((V, true) :: ts) n tb).
Proof.
  intros HV Hok Hi Hoff Hcount Hlen Hbuf Hmax HQ. pose proof SLICE_SIZE_range.
  unfold write_slice. destruct ((len =? SLICE_SIZE) && (offset =? 0)) eqn:E.
  { apply andb_true_iff in E as [E1%Z.eqb_eq E2%Z.eqb_eq]. subst offset.
    apply wp_ret, HQ.
    - rewrite blen_slice by lia. lia.
    - intros j x Hx. by rewrite <- E1.
    - intros old j Ho Hj. apply slice_at_blen in Ho as Hb; [|done].
      rewrite lookup_slice, decide_False by lia. symmetry.
      apply lookup_ge_None_2. unfold blen in Hb. lia. }
  wgo. apply wp_alloc; [lia|done|]. intros addr ptr Hptr. wnorm.
  change (Z.of_nat (length ptr)) with (blen ptr) in Hptr.
  fold (slice_at b i). destruct (slice_at b i) as [old|] eqn:Eo.
  - apply slice_at_blen in Eo as Hold; [|done].
    assert (Hassert : (offset <=? blen old)
      && ((SLICE_SIZE - offset - len =? 0) || (SLICE_SIZE <=? blen old)) = true).
    { apply andb_true_iff. split; [apply Z.leb_le; lia|].
      apply orb_true_iff. right. apply Z.leb_le. lia. }
    unfold assert_prog. rewrite Hassert. wgo.
    pose proof (blen_slice old 0 offset ltac:(lia) ltac:(lia)) as L1.
    pose proof (blen_slice buf count (count + len) ltac:(lia) ltac:(lia)) as L2.
    assert (L3 : blen (slice old (offset + len) SLICE_SIZE) = SLICE_SIZE - (offset + len))
      by (apply blen_slice; lia).
    assert (L4 : blen (splice ptr 0 (slice old 0 offset)) = SLICE_SIZE)
      by (rewrite blen_splice by lia; lia).
    assert (L5 : blen (splice (splice ptr 0 (slice old 0 offset)) offset
                  (slice buf count (count + len))) = SLICE_SIZE)
      by (rewrite blen_splice by lia; lia).
    apply HQ.
    + rewrite blen_splice by lia. lia.
    + intros j x Hx. apply lookup_lt_Some in Hx as Hj.
      assert (Z.of_nat j < len) by (unfold blen in L2; lia).
      rewrite lookup_splice, decide_False by lia.
      rewrite lookup_splice, decide_True by lia.
      rewrite <- Hx. f_equal. lia.
    + intros old' j [= <-] Hj. rewrite lookup_splice by lia. case_decide as Hd.
      * rewrite lookup_slice, decide_True by lia. f_equal. lia.
      * rewrite lookup_splice by lia. rewrite decide_False by lia.
        rewrite lookup_splice by lia. case_decide as Hd2.
        -- rewrite lookup_slice, decide_True by lia. f_equal. lia.
        -- rewrite lookup_ge_None_2 by (unfold blen in *; lia).
           symmetry. apply lookup_ge_None_2. unfold blen in *; lia.
  - wgo. pose proof (blen_slice buf count (count + len) ltac:(lia) ltac:(lia)) as L2.
    apply HQ; [rewrite blen_splice by lia; lia| |done].
    intros j x Hx. apply lookup_lt_Some in Hx as Hj.
    assert (Z.of_nat j < len) by (unfold blen in L2; lia).
    rewrite lookup_splice, decide_True by lia.
    rewrite <- Hx. f_equal. lia.
Qed.

(** The loop writes what is left of the buffer, and one iteration per slice
    is enough. *)
Lemma wp_write_loop fuel ik b V ts D n tb buf num offset count ptrs
    (Q : outcome DbfsError (Z * list Z) -> AState -> Prop) :
  V !! [ik] = Some b -> slices_ok b -> kvb b ->
  0 <= num -> 0 <= offset < SLICE_SIZE -> 0 <= count < blen buf ->
  num * SLICE_SIZE + offset + (blen buf - count) <= 2 ^ 32 * SLICE_SIZE ->
  offset + (blen buf - count) <= Z.of_nat fuel * SLICE_SIZE ->
  (forall b' p, written b b' (num * SLICE_SIZE + offset) (slice buf count (blen buf)) ->
     Q (Ok (blen buf, p)) (mkS D ((<[[ik] := b']> V, true) :: ts) n tb)) ->
  wp true (write_loop fuel [ik] buf num offset count ptrs) Q (mkS D ((V, true) :: ts) n tb).
Proof.
  revert b V num offset count ptrs. induction fuel as [|fuel IH];
    intros b V num offset count ptrs HV Hok Hkvb Hnum Hoff Hcount Hmax Hfuel HQ;
    pose proof SLICE_SIZE_range; [lia|].
  assert (Hnum32 : u32 num) by (unfold u32; nia).
  simpl write_loop. unfold as_u32. rewrite Z.mod_small by done.
  set (len := Z.min (blen buf - count) (SLICE_SIZE - offset)). wgo.
  eapply wp_write_slice; [exact HV|done|done|lia..|]. intros v p Hv Hnew Hold. wnorm. wgo.
  set (b1 := <[skey num := KeyValue v]> b).
  assert (Hw : written b b1 (num * SLICE_SIZE + offset) (slice buf count (count + len))).
  { pose proof (blen_slice buf count (count + len) ltac:(lia) ltac:(lia)).
    apply written_one; auto; try lia. intros old j Ho Hj. apply Hold; [done|]. lia. }
  apply wp_add64; [unfold u32 in *; lia|]. wnorm.
  destruct (Z.eqb_spec (count + len) (blen buf)) as [Hend|Hmore].
  { wgo. rewrite Hend in *. apply HQ. exact Hw. }
  assert (Hlen : len = SLICE_SIZE - offset) by lia.
  replace (offset + len) with (1 * SLICE_SIZE + 0) by lia. rewrite mod_slice by lia.
  eapply (IH b1).
  - apply lookup_insert_eq.
  - apply Hw.
  - apply Hw.
  - lia.
  - lia.
  - lia.
  - nia.
  - nia.
  - intros b' p' Hw'. rewrite insert_insert_eq. apply HQ.
    replace (slice buf count (blen buf))
      with (slice buf count (count + len) ++ slice buf (count + len) (blen buf)).
    2: { apply slice_app; lia. }
    pose proof (blen_slice buf count (count + len) ltac:(lia) ltac:(lia)) as L1.
    pose proof (blen_slice buf (count + len) (blen buf) ltac:(lia) ltac:(lia)) as L2.
    eapply written_trans; [lia|lia|exact Hw|].
    replace (num * SLICE_SIZE + offset + blen (slice buf count (count + len)))
      with ((num + 1) * SLICE_SIZE + 0) by lia. exact Hw'.
Qed.

Lemma wp_dealloc_all {E : Type} rel n (l : list Z) (Q : outcome E unit -> AState -> Prop) s :
  Q (Ok tt) s -> wp rel (for_each l (fun ptr => dealloc ptr n)) Q s.
Proof.
  intros HQ. induction l; simpl; [by apply wp_ret|].
  apply wp_bind, wp_dealloc. done.
Qed.

(** The size attribute after a write that ends at [end_]. *)
Definition grow (size end_ : Z) (b : bucket) : bucket :=
  if size <? end_ then <[k_size := KeyValue (to_be 8 end_)]> b else b.

Lemma write_fuel_enough buf offset :
  0 <= offset < SLICE_SIZE -> offset + blen buf <= Z.of_nat (write_fuel buf) * SLICE_SIZE.
Proof.
  intros Ho. pose proof SLICE_SIZE_range. unfold write_fuel.
  pose proof (pos_split (blen buf)) as [Hp Hm]. pose proof (blen_nonneg buf).
  assert (0 <= blen buf / SLICE_SIZE) by (apply Z.div_pos; lia).
  rewrite Z2Nat.id by lia. nia.
Qed.

Lemma wp_dbfs_common_write number buf offset D T n tb b a
    (Q : outcome DbfsError Z -> AState -> Prop) :
  inode_at D number b a -> slices_ok b -> 0 <= offset -> 0 < blen buf ->
  offset + blen buf <= 2 ^ 32 * SLICE_SIZE ->
  (forall b', written b b' offset buf ->
     Q (Ok (blen buf))
       (mkS (<[ipath number := grow (st_size a) (offset + blen buf) b']> D) T n tb)) ->
  wp true (dbfs_common_write number buf offset) Q (mkS D T n tb).
Proof.
  intros [HD Hkvb Hst] Hok Ho Hbuf Hmax HQ. pose proof SLICE_SIZE_range.
  pose proof (stat_of_range _ _ Hst) as (_ & Hszr & _). unfold u64 in Hszr.
  open_stat Hst. pose proof (pos_split offset) as [Hp Hm].
  unfold dbfs_common_write. apply wp_tx_q; [done|]. wnorm. wgo.
  eapply wp_write_loop; [exact HD|done|done|apply Z.div_pos; lia|done|lia|lia| |].
  { rewrite Z.sub_0_r. by apply write_fuel_enough. }
  intros b' p Hw. rewrite slice_all, <- Hp in Hw. wnorm. wgo.
  assert (2 ^ 32 * SLICE_SIZE <= 2 ^ 47) by lia.
  apply wp_add64; [lia|]. wnorm.
  replace (st_size a <? Z.max (st_size a) (offset + blen buf))
    with (st_size a <? offset + blen buf)
    by (destruct (Z.ltb_spec (st_size a) (offset + blen buf)); symmetry;
        [apply Z.ltb_lt|apply Z.ltb_ge]; lia).
  specialize (HQ b' Hw). unfold grow in HQ.
  pose proof (wr_kvb _ _ _ _ Hw) as Hkvb'.
  destruct (Z.ltb_spec (st_size a) (offset + blen buf)).
  - rewrite Z.max_r by lia. wgo. eapply wp_commit; [reflexivity|done|]. wnorm. wgo.
    apply wp_dealloc_all. wnorm. wgo. exact HQ.
  - wgo. eapply wp_commit; [reflexivity|done|]. wnorm. wgo.
    apply wp_dealloc_all. wnorm. wgo. exact HQ.
Qed.
End Write.

(** ** Reading *)

Section Read.
Context `{Config}.

Abbreviation skey := generate_data_key_with_number.

(** The position a read at [offset] starts from: the offset within the first
    slice, the start of the slice in every other. *)
Definition read_base (offset : Z) : Z :=
  if offset <? SLICE_SIZE then offset else offset / SLICE_SIZE * SLICE_SIZE.

(** [buf] is [buf0] with the first [n] bytes replaced by the bytes of the file
    from position [base] on. *)
Record filled (b : bucket) (buf0 buf : bytes) (base n : Z) : Prop := {
  fl_length : length buf = length buf0;
  fl_new : forall j : nat, Z.of_nat j < n -> buf !! j = byte_at b (base + Z.of_nat j);
  fl_old : forall j : nat, n <= Z.of_nat j -> buf !! j = buf0 !! j
}.

Lemma wp_read_slice rel b size off i v buf0 buf base bo
    (Q : outcome DbfsError (bytes * Z) -> AState -> Prop) s :
  slices_ok b -> slice_at b i = Some v -> u64 size -> 0 <= i ->
  filled b buf0 buf base bo -> 0 <= bo <= blen buf0 ->
  i * SLICE_SIZE <= base + bo <= (i + 1) * SLICE_SIZE -> base + bo <= size ->
  saturating_sub off (i * SLICE_SIZE) = base + bo - i * SLICE_SIZE ->
  (forall buf' bo',
     bo' = Z.min (base + blen buf0) (Z.min size ((i + 1) * SLICE_SIZE)) - base ->
     filled b buf0 buf' base bo' -> Q (Ok (buf', bo')) s) ->
  wp rel (read_slice size off i (Some v) buf bo) Q s.
Proof.
  intros Hok Hv Hsz Hi [Hl Hn Ho] Hbo Hpos Hps Hvo HQ. pose proof SLICE_SIZE_range.
  apply slice_at_blen in Hv as Hvl; [|done]. unfold u64 in Hsz.
  unfold read_slice. rewrite Hvo. apply wp_bind, wp_sub64; [nia|]. cbv zeta. simpl default.
  assert (Hbl : blen buf = blen buf0) by (unfold blen; lia). rewrite Hbl.
  set (len := Z.min (blen buf0 - bo) _).
  assert (Hlen : len = Z.min (base + blen buf0) (Z.min size ((i + 1) * SLICE_SIZE)) - (base + bo)).
  { subst len. unfold saturating_sub. lia. }
  assert (0 <= len) by lia.
  set (vo := base + bo - i * SLICE_SIZE) in *.
  unfold assert_prog. rewrite (proj2 (Z.leb_le _ _)) by lia. wgo.
  pose proof (blen_slice v vo (vo + len) ltac:(lia) ltac:(lia)) as Hsl.
  apply HQ; [lia|]. split.
  - rewrite length_splice by lia. done.
  - intros j Hj. rewrite lookup_splice by lia. case_decide as Hd.
    + rewrite lookup_slice, decide_True by lia. unfold byte_at.
      replace (base + Z.of_nat j) with (i * SLICE_SIZE + (base + Z.of_nat j - i * SLICE_SIZE)) by lia.
      rewrite div_slice, mod_slice, Hv by lia. simpl. f_equal. lia.
    + apply Hn. lia.
  - intros j Hj. rewrite lookup_splice by lia. rewrite decide_False by lia. apply Ho. lia.
Qed.

(** The loop over the slices [i .. hi), all of them stored as far as the
    request goes, fills the buffer up to the end of the request or of the
    file. *)
Lemma wp_read_loop rel (k : nat) b size off i buf0 buf base bo
    (Q : outcome DbfsError (bytes * Z) -> AState -> Prop) s :
  slices_ok b -> u64 size -> 0 <= i -> i + Z.of_nat k < 2 ^ 32 ->
  filled b buf0 buf base bo -> 0 <= bo < blen buf0 -> 0 <= off < SLICE_SIZE ->
  i * SLICE_SIZE <= base + bo < (i + 1) * SLICE_SIZE -> base + bo <= size ->
  saturating_sub off (i * SLICE_SIZE) = base + bo - i * SLICE_SIZE ->
  i + Z.of_nat k <= size / SLICE_SIZE + 1 ->
  Z.min (base + blen buf0) size < (i + Z.of_nat k) * SLICE_SIZE ->
  (forall j, i <= j -> j * SLICE_SIZE < Z.min (base + blen buf0) size -> is_Some (slice_at b j)) ->
  (forall buf', filled b buf0 buf' base (Z.min (base + blen buf0) size - base) ->
     Q (Ok (buf', Z.min (base + blen buf0) size - base)) s) ->
  wp rel (read_loop size off (omap (slice_item b) (seqZ i (Z.of_nat k))) buf bo i) Q s.
Proof.
  revert i buf bo. induction k as [|k IH];
    intros i buf bo Hok Hsz Hi Hi32 Hfl Hbo Hoff Hpos Hps Hvo Hhi Hend Hst HQ;
    pose proof SLICE_SIZE_range; [lia|].
  rewrite seqZ_cons by lia. replace (Z.pred (Z.of_nat (S k))) with (Z.of_nat k) by lia.
  pose proof (pos_split size) as [Hd Hm]. simpl omap.
  unfold slice_item at 1. destruct (slice_at b i) as [v|] eqn:Ev.
  - cbn [fmap option_fmap option_map read_loop].
    rewrite after_first_skey. wgo. unfold be_macro. rewrite length_to_be. cbn [Nat.eqb]. wgo.
    rewrite (from_to_be 4) by (unfold u32; lia). rewrite Z.eqb_refl. simpl negb. cbv iota. wgo.
    eapply wp_read_slice; [done|exact Ev|done|done|exact Hfl|lia|lia|lia|done|].
    intros buf' bo' Hbo' Hfl'. wnorm.
    assert (Hbl : blen buf' = blen buf0) by (unfold blen; by rewrite (fl_length _ _ _ _ _ Hfl')).
    rewrite Hbl.
    destruct (Z.eqb_spec bo' (blen buf0)) as [Hfull|Hmore].
    { apply wp_ret. replace bo' with (Z.min (base + blen buf0) size - base) in * by lia. by apply HQ. }
    destruct (Z.le_gt_cases ((i + 1) * SLICE_SIZE) size) as [Hle|Hgt].
    + apply IH; try done; try lia.
      * unfold saturating_sub. nia.
      * intros j Hj. apply Hst. lia.
    + assert (k = 0)%nat as -> by nia. rewrite seqZ_nil by lia. simpl.
      apply wp_ret. replace bo' with (Z.min (base + blen buf0) size - base) in * by lia. by apply HQ.
  - assert (Hge : Z.min (base + blen buf0) size <= i * SLICE_SIZE).
    { apply Z.le_ngt. intros Hlt. destruct (Hst i ltac:(lia) Hlt). congruence. }
    assert (k = 0)%nat as -> by nia. rewrite seqZ_nil by lia. simpl.
    apply wp_ret. replace bo with (Z.min (base + blen buf0) size - base) in * by lia. by apply HQ.
Qed.

(** [read_base] against the slice it starts in. *)
Lemma read_base_slice offset :
  0 <= offset ->
  let i := offset / SLICE_SIZE in
  0 <= i /\ i * SLICE_SIZE <= read_base offset <= offset /\ read_base offset < (i + 1) * SLICE_SIZE /\
  saturating_sub (offset `mod` SLICE_SIZE) (i * SLICE_SIZE) = read_base offset - i * SLICE_SIZE.
Proof.
  intros Ho i. pose proof SLICE_SIZE_range. pose proof (pos_split offset) as [Hp Hm].
  fold i in Hp. assert (0 <= i) by (apply Z.div_pos; lia).
  unfold read_base, saturating_sub. destruct (Z.ltb_spec offset SLICE_SIZE) as [Hlt|Hge].
  - assert (i = 0) by (apply Z.div_small; lia). nia.
  - assert (1 <= i) by (apply Z.div_le_lower_bound; lia). fold i. nia.
Qed.

Lemma wp_dbfs_common_read rel number buf offset D T n tb b a
    (Q : outcome DbfsError (Z * bytes) -> AState -> Prop) :
  D !! ipath number = Some b -> stat_of b = Some a -> slices_ok b ->
  0 <= offset < st_size a -> 0 < blen buf -> offset + blen buf < 2 ^ 64 ->
  st_size a < (2 ^ 32 - 1) * SLICE_SIZE ->
  let base := read_base offset in
  let end_ := Z.min (base + blen buf) (st_size a) in
  (forall j, offset / SLICE_SIZE <= j -> j * SLICE_SIZE < end_ -> is_Some (slice_at b j)) ->
  (forall buf', filled b buf buf' base (end_ - base) ->
     Q (Ok (end_ - base, buf')) (mkS D T n tb)) ->
  (rel = false -> forall e, Q (Err (from_jerror e)) (mkS D T n tb)) ->
  wp rel (dbfs_common_read number buf offset) Q (mkS D T n tb).
Proof.
  intros HD Hst Hok Ho Hbuf Hmax Hsz base end_ Hstored HQ Hf. pose proof SLICE_SIZE_range.
  open_stat Hst. pose proof (read_base_slice offset ltac:(lia)) as (Hi & Hb1 & Hb2 & Hvo).
  fold base in Hb1, Hb2, Hvo.
  unfold dbfs_common_read. apply wp_tx_q; [exact Hf|]. wnorm. wgo.
  rewrite (proj2 (Z.leb_gt _ _)) by lia. wgo. apply wp_add64; [lia|]. wnorm. wgo.
  set (start := offset / SLICE_SIZE) in *.
  set (hi := Z.min ((offset + blen buf) / SLICE_SIZE + 1) (st_size a / SLICE_SIZE + 1)).
  pose proof (pos_split (offset + blen buf)) as [Hp1 Hm1].
  pose proof (pos_split (st_size a)) as [Hp2 Hm2].
  pose proof (pos_split offset) as [Hp3 Hm3]. fold start in Hp3.
  assert (Hhi : start < hi < 2 ^ 32) by nia.
  assert (Hend : end_ < hi * SLICE_SIZE) by nia.
  unfold as_u32. rewrite !Z.mod_small by lia.
  eapply wp_range; [reflexivity|]. unfold spec_range. cbn [a_db]. rewrite HD.
  rewrite range_slices by (done || (unfold u32; lia)). cbn [lift_infallible]. wgo.
  rewrite <- (Z2Nat.id (hi - start)) by lia.
  eapply (wp_read_loop rel _ b (st_size a) _ start buf buf base 0).
  - done.
  - unfold u64. lia.
  - lia.
  - lia.
  - split; [done|intros; lia|done].
  - lia.
  - done.
  - lia.
  - lia.
  - rewrite Hvo. lia.
  - lia.
  - fold end_. replace (start + Z.of_nat (Z.to_nat (hi - start))) with hi by lia. done.
  - exact Hstored.
  - intros buf' Hfl. wnorm. wgo. apply HQ, Hfl.
Qed.

(** Reading at or past the end of the file gives nothing. *)
Lemma wp_read_eof rel number buf offset D T n tb b a
    (Q : outcome DbfsError (Z * bytes) -> AState -> Prop) :
  D !! ipath number = Some b -> stat_of b = Some a -> st_size a <= offset ->
  Q (Ok (0, buf)) (mkS D T n tb) ->
  (rel = false -> forall e, Q (Err (from_jerror e)) (mkS D T n tb)) ->
  wp rel (dbfs_common_read number buf offset) Q (mkS D T n tb).
Proof.
  intros HD Hst Ho HQ Hf. open_stat Hst.
  unfold dbfs_common_read. apply wp_tx_q; [exact Hf|]. wnorm. wgo.
  rewrite (proj2 (Z.leb_le _ _)) by lia. wgo. exact HQ.
Qed.
End Read.
