(* ===== verification/Rename.v ===== *)
(** * [inode.rs]: rename

    [dbfs_common_rename] reads the old and the new directory in two read
    transactions, then either exchanges the two entries or moves the old one,
    in one write transaction. *)

From S2P Require Import Prelude Jammdb Effects Run RustStd Common Buckets Access Inode Link.

(** What the first read transaction finds out about the source. *)
Record RenameOld := {
  ro_key : bytes; ro_number : Z; ro_uid : Z; ro_gid : Z; ro_perm : Z
}.

(** What the second one finds out about the target; [rn_number] is [None] when
    the source treats the target as absent. *)
Record RenameNew := {
  rn_key : bytes; rn_number : option Z; rn_perm : Z; rn_size : Z
}.

Section Ops.
Context `{Config}.

Definition rename_read_old (r_uid r_gid old_dir : Z) (old_name : bytes)
  : Prog DbfsError RenameOld :=
  tx_q false (
    old_dir_bucket ← q (get_bucket [] (ino_key old_dir));
    let key := generate_data_key old_name in
    value ← get_kv old_dir_bucket key;
    match value with
    | None => throw NotFound
    | Some v_value =>
        old_dir_uid ← read_u32 old_dir_bucket k_uid;
        old_dir_gid ← read_u32 old_dir_bucket k_gid;
        old_dir_perm ← read_u16 old_dir_bucket k_mode;
        guard_err
          (negb (checkout_access old_dir_uid old_dir_gid
                   (Z.land old_dir_perm Perm.MODE_777) r_uid r_gid ACCESS_W_OK))
          AccessError;;
        number ← parse_ino v_value;
        bucket ← unwrap (get_bucket [] (ino_key number));
        old_uid ← read_u32 bucket k_uid;
        guard_err (sticky_denies old_dir_perm r_uid old_dir_uid old_uid) AccessError;;
        old_gid ← read_u32 bucket k_gid;
        old_perm ← read_u16 bucket k_mode;
        ret {| ro_key := key; ro_number := number; ro_uid := old_uid;
               ro_gid := old_gid; ro_perm := old_perm |}
    end).

Definition rename_read_new (r_uid r_gid new_dir : Z) (new_name : bytes)
  : Prog DbfsError RenameNew :=
  tx_q false (
    new_dir_bucket ← q (get_bucket [] (ino_key new_dir));
    new_dir_uid ← read_u32 new_dir_bucket k_uid;
    new_dir_gid ← read_u32 new_dir_bucket k_gid;
    new_dir_perm ← read_u16 new_dir_bucket k_mode;
    guard_err
      (negb (checkout_access new_dir_uid new_dir_gid
               (Z.land new_dir_perm Perm.MODE_777) r_uid r_gid ACCESS_W_OK))
      AccessError;;
    let new_dir_mode := Perm.from_bits_truncate new_dir_perm in
    let key := generate_data_key new_name in
    value ← get_kv new_dir_bucket key;
    match value, Perm.contains new_dir_mode Perm.S_ISVTX with
    | Some v_value, true =>
        number ← parse_ino v_value;
        bucket ← unwrap (get_bucket [] (ino_key number));
        new_uid ← read_u32 bucket k_uid;
        guard_err (negb (r_uid =? 0) && negb (r_uid =? new_dir_uid) && negb (r_uid =? new_uid))
          AccessError;;
        new_perm ← read_u16 bucket k_mode;
        new_size ← read_usize bucket k_size;
        ret {| rn_key := key; rn_number := Some number; rn_perm := new_perm;
               rn_size := new_size |}
    | _, _ => ret {| rn_key := []; rn_number := None; rn_perm := 0; rn_size := 0 |}
    end).

(** [flags & RENAME_EXCHANGE != 0] *)
Definition rename_exchange (old : RenameOld) (new : RenameNew) (old_dir new_dir : Z)
    (ctime : DbfsTimeSpec) : Prog DbfsError unit :=
  match rn_number new with
  | None => throw NotFound
  | Some new_number =>
      tx_q true (
        old_dir_bucket ← q (get_bucket [] (ino_key old_dir));
        new_dir_bucket ← q (get_bucket [] (ino_key new_dir));
        q (put new_dir_bucket (rn_key new) (fmt_usize (ro_number old)));;
        q (put old_dir_bucket (ro_key old) (fmt_usize new_number));;
        q (put old_dir_bucket k_ctime (time_to_be_bytes ctime));;
        q (put old_dir_bucket k_mtime (time_to_be_bytes ctime));;
        q (put new_dir_bucket k_ctime (time_to_be_bytes ctime));;
        q (put new_dir_bucket k_mtime (time_to_be_bytes ctime));;
        old_bucket ← q (get_bucket [] (ino_key (ro_number old)));
        q (put old_bucket k_ctime (time_to_be_bytes ctime));;
        new_bucket ← q (get_bucket [] (ino_key new_number));
        q (put new_bucket k_ctime (time_to_be_bytes ctime));;
        let old_mode := Perm.from_bits_truncate (ro_perm old) in
        (if Perm.contains old_mode Perm.S_IFDIR
         then q (put old_bucket (generate_data_key (bs ".")) (fmt_usize new_dir))
         else ret tt);;
        let new_mode := Perm.from_bits_truncate (rn_perm new) in
        (if Perm.contains new_mode Perm.S_IFDIR
         then q (put new_bucket (generate_data_key (bs "..")) (fmt_usize old_dir))
         else ret tt);;
        q commit)
  end.

(** Remove the entry that the rename replaces, and its inode when nothing
    else refers to it; the result is the size of the directory without the
    entry.  [hard_links] is read as a [usize]. *)
Definition rename_drop_target (new_dir_bucket : path) (new_dir_size : Z) (new : RenameNew)
    (new_number : Z) (ctime : DbfsTimeSpec) : Prog DbfsError Z :=
  q (bdelete new_dir_bucket (rn_key new));;
  new_dir_size ← sub64 new_dir_size 1;
  let new_perm := Perm.from_bits_truncate (rn_perm new) in
  (if Perm.contains new_perm Perm.S_IFDIR then q (delete_bucket [] (ino_key new_number))
   else
     bucket ← q (get_bucket [] (ino_key new_number));
     hardlink ← read_usize bucket k_hard_links;
     hardlink ← sub64 hardlink 1;
     if hardlink =? 0 then q (delete_bucket [] (ino_key new_number))
     else
       q (put bucket k_hard_links (to_be 8 hardlink));;
       q (put bucket k_ctime (time_to_be_bytes ctime)));;
  ret new_dir_size.

Definition rename_move (old : RenameOld) (new : RenameNew) (r_uid r_gid old_dir new_dir : Z)
    (new_name : bytes) (ctime : DbfsTimeSpec) : Prog DbfsError unit :=
  guard_err
    (bool_decide (is_Some (rn_number new))
     && Perm.contains (Perm.from_bits_truncate (rn_perm new)) Perm.S_IFDIR
     && (2 <? rn_size new)) NotEmpty;;
  let old_mode := Perm.from_bits_truncate (ro_perm old) in
  guard_err
    (Perm.contains old_mode Perm.S_IFDIR && negb (old_dir =? new_dir)
     && negb (checkout_access (ro_uid old) (ro_gid old)
                (Z.land (ro_perm old) Perm.MODE_777) r_uid r_gid ACCESS_W_OK))
    AccessError;;
  tx_q true (
    old_dir_bucket ← q (get_bucket [] (ino_key old_dir));
    new_dir_bucket ← q (get_bucket [] (ino_key new_dir));
    let new_dir_bucket := if old_dir =? new_dir then old_dir_bucket else new_dir_bucket in
    new_dir_size ← read_usize new_dir_bucket k_size;
    new_dir_size ←
      (match rn_number new with
       | Some new_number =>
           rename_drop_target new_dir_bucket new_dir_size new new_number ctime
       | None => ret new_dir_size
       end);
    q (bdelete old_dir_bucket (ro_key old));;
    old_dir_size ← read_usize old_dir_bucket k_size;
    old_dir_size1 ← sub64 old_dir_size 1;
    q (put old_dir_bucket k_size (to_be 8 old_dir_size1));;
    (match rn_number new with
     | Some _ => q (put new_dir_bucket (rn_key new) (fmt_usize (ro_number old)))
     | None => q (put new_dir_bucket (generate_data_key new_name) (fmt_usize (ro_number old)))
     end);;
    new_dir_size ← (if old_dir =? new_dir then ret new_dir_size else add64 new_dir_size 1);
    q (put new_dir_bucket k_size (to_be 8 new_dir_size));;
    q (put old_dir_bucket k_ctime (time_to_be_bytes ctime));;
    q (put old_dir_bucket k_mtime (time_to_be_bytes ctime));;
    q (put new_dir_bucket k_ctime (time_to_be_bytes ctime));;
    q (put new_dir_bucket k_mtime (time_to_be_bytes ctime));;
    old_bucket ← q (get_bucket [] (ino_key (ro_number old)));
    q (put old_bucket k_ctime (time_to_be_bytes ctime));;
    (if Perm.contains old_mode Perm.S_IFDIR
     then q (put old_bucket (generate_data_key (bs "..")) (fmt_usize new_dir))
     else ret tt);;
    q commit).

Definition dbfs_common_rename (r_uid r_gid old_dir : Z) (old_name : bytes) (new_dir : Z)
    (new_name : bytes) (flags : Z) (ctime : DbfsTimeSpec) : Prog DbfsError unit :=
  old ← rename_read_old r_uid r_gid old_dir old_name;
  new ← rename_read_new r_uid r_gid new_dir new_name;
  if negb (Z.land flags RENAME_EXCHANGE =? 0)
  then rename_exchange old new old_dir new_dir ctime
  else rename_move old new r_uid r_gid old_dir new_dir new_name ctime.
End Ops.

(** ** Behaviour *)

(** The directory a [rename] takes the entry from, and the one it puts it in. *)
Definition rename_src (name : bytes) (pa : Stat) (t : DbfsTimeSpec) (pb : bucket) : bucket :=
  touch_dir (st_size pa - 1) t (delete (generate_data_key name) pb).
Definition rename_dst (name : bytes) (m : Z) (pa : Stat) (t : DbfsTimeSpec) (pb : bucket) : bucket :=
  touch_dir (st_size pa + 1) t (<[generate_data_key name := KeyValue (fmt_usize m)]> pb).

(** The inode that is moved: its change time, and [..] if it is a directory. *)
Definition rename_moved (isdir : bool) (new_dir : Z) (t : DbfsTimeSpec) (b : bucket) : bucket :=
  let b := <[k_ctime := KeyValue (time_to_be_bytes t)]> b in
  if isdir then <[generate_data_key (bs "..") := KeyValue (fmt_usize new_dir)]> b else b.

Section Rules.
Context `{Config}.

(** What the two read transactions find. *)
Definition old_info (name : bytes) (m : Z) (a : Stat) : RenameOld := {|
  ro_key := generate_data_key name; ro_number := m; ro_uid := st_uid a; ro_gid := st_gid a;
  ro_perm := st_mode a |}.
Definition new_absent : RenameNew := {| rn_key := []; rn_number := None; rn_perm := 0; rn_size := 0 |}.
Definition new_info (name : bytes) (m : Z) (a : Stat) : RenameNew := {|
  rn_key := generate_data_key name; rn_number := Some m; rn_perm := st_mode a;
  rn_size := st_size a |}.

Definition sticky (a : Stat) : bool :=
  Perm.contains (Perm.from_bits_truncate (st_mode a)) Perm.S_ISVTX.
Definition is_dir (a : Stat) : bool :=
  Perm.contains (Perm.from_bits_truncate (st_mode a)) Perm.S_IFDIR.

Lemma wp_rename_read_old r_uid r_gid dir name D T n tb pb pa m b a Q :
  inode_at D dir pb pa -> entry pb name = Some m -> inode_at D m b a ->
  may_write pa r_uid r_gid = true ->
  sticky_denies (st_mode pa) r_uid (st_uid pa) (st_uid a) = false ->
  Q (Ok (old_info name m a)) (mkS D T n tb) ->
  wp true (rename_read_old r_uid r_gid dir name) Q (mkS D T n tb).
Proof.
  intros [HD Hkvb Hst] He [HDm Hkvbm Hstm] Hacc Hsticky HQ.
  apply entry_fkv in He as (v & Hv & Hparse). open_stat Hst. open_stat Hstm.
  unfold rename_read_old. apply wp_tx_q; [done|]. wnorm. wgo. rewrite Hv. wgo.
  unfold guard_err, may_write in *. rewrite Hacc. simpl negb. cbv iota. wgo.
  unfold parse_ino. rewrite Hparse. wgo. rewrite Hsticky. wgo. exact HQ.
Qed.

Lemma wp_rename_read_old_missing rel r_uid r_gid dir name D T n tb pb Q :
  D !! ipath dir = Some pb -> fkv pb (generate_data_key name) = None ->
  Q (Err NotFound) (mkS D T n tb) ->
  (rel = false -> forall e, Q (Err (from_jerror e)) (mkS D T n tb)) ->
  wp rel (rename_read_old r_uid r_gid dir name) Q (mkS D T n tb).
Proof.
  intros HD Hv HQ Hf. unfold rename_read_old. apply wp_tx_q; [exact Hf|]. wnorm. wgo.
  rewrite Hv. wgo. exact HQ.
Qed.

(** The target counts as absent when it is, and also when the directory is
    not sticky. *)
Lemma wp_rename_read_new r_uid r_gid dir name D T n tb pb pa Q :
  inode_at D dir pb pa -> may_write pa r_uid r_gid = true ->
  fkv pb (generate_data_key name) = None \/ sticky pa = false ->
  Q (Ok new_absent) (mkS D T n tb) ->
  wp true (rename_read_new r_uid r_gid dir name) Q (mkS D T n tb).
Proof.
  intros [HD Hkvb Hst] Hacc Habs HQ. open_stat Hst.
  unfold rename_read_new. apply wp_tx_q; [done|]. wnorm. wgo.
  unfold guard_err, may_write in *. rewrite Hacc. simpl negb. cbv iota. wgo.
  unfold sticky in Habs.
  destruct (fkv pb _), (Perm.contains (Perm.from_bits_truncate (st_mode pa)) Perm.S_ISVTX);
    destruct Habs; simplify_eq; wgo; exact HQ.
Qed.

Lemma wp_rename_read_new_target r_uid r_gid dir name D T n tb pb pa m b a Q :
  inode_at D dir pb pa -> may_write pa r_uid r_gid = true -> sticky pa = true ->
  entry pb name = Some m -> inode_at D m b a ->
  (r_uid =? 0) || (r_uid =? st_uid pa) || (r_uid =? st_uid a) = true ->
  Q (Ok (new_info name m a)) (mkS D T n tb) ->
  wp true (rename_read_new r_uid r_gid dir name) Q (mkS D T n tb).
Proof.
  intros [HD Hkvb Hst] Hacc Hsticky He [HDm Hkvbm Hstm] Hown HQ.
  apply entry_fkv in He as (v & Hv & Hparse). open_stat Hst. open_stat Hstm.
  unfold rename_read_new. apply wp_tx_q; [done|]. wnorm. wgo.
  unfold guard_err, may_write, sticky in *. rewrite Hacc. simpl negb. cbv iota. wgo.
  rewrite Hv, Hsticky. wgo. unfold parse_ino. rewrite Hparse. wgo.
  replace (negb _ && negb _ && negb _) with false
    by (by rewrite <- !negb_orb, Hown). wgo. exact HQ.
Qed.

(** Moving between two directories. *)
Lemma wp_rename_move_across r_uid r_gid old_dir old_name new_dir new_name t D T n tb
    pb pa qb qa m b a Q :
  inode_at D old_dir pb pa -> inode_at D new_dir qb qa -> inode_at D m b a ->
  entry pb old_name = Some m -> old_dir <> new_dir ->
  ino_key old_dir <> ino_key new_dir -> ino_key m <> ino_key old_dir ->
  ino_key m <> ino_key new_dir ->
  (is_dir a = true -> may_write a r_uid r_gid = true) ->
  1 <= st_size pa -> st_size qa + 1 < 2 ^ 64 ->
  (forall D', D' !! ipath old_dir = Some (rename_src old_name pa t pb) ->
     D' !! ipath new_dir = Some (rename_dst new_name m qa t qb) ->
     D' !! ipath m = Some (rename_moved (is_dir a) new_dir t b) ->
     frame [ino_key old_dir; ino_key new_dir; ino_key m] D D' ->
     Q (Ok tt) (mkS D' T n tb)) ->
  wp true (rename_move (old_info old_name m a) new_absent r_uid r_gid old_dir new_dir new_name t)
     Q (mkS D T n tb).
Proof.
  intros [HD Hkvb Hst] [HDq Hkvbq Hstq] [HDm Hkvbm Hstm] He Hne Hk1 Hk2 Hk3 Hacc Hs1 Hs2 HQ.
  apply entry_fkv in He as (v & Hv & Hparse).
  pose proof (stat_of_range _ _ Hst) as (_ & Hr1 & _). unfold u64 in Hr1.
  pose proof (stat_of_range _ _ Hstq) as (_ & Hr2 & _). unfold u64 in Hr2.
  open_stat Hst. open_stat Hstq. open_stat Hstm.
  assert (N1 : ipath old_dir <> ipath new_dir) by congruence.
  assert (N2 : ipath m <> ipath old_dir) by congruence.
  assert (N3 : ipath m <> ipath new_dir) by congruence.
  unfold rename_move. cbn [rn_number new_absent old_info ro_perm ro_key ro_number ro_uid ro_gid].
  rewrite bool_decide_eq_false_2 by (by intros []). simpl andb. unfold guard_err at 1. wgo.
  fold (is_dir a). unfold guard_err.
  replace (is_dir a && negb (old_dir =? new_dir) && negb _) with false.
  2: { unfold may_write in Hacc. destruct (is_dir a); [rewrite Hacc by done|done].
       by rewrite andb_false_r. }
  wgo. apply wp_tx_q; [done|]. wnorm. wgo. rewrite (proj2 (Z.eqb_neq _ _)) by done. wgo.
  eapply wp_bdelete_ok; [reflexivity|exact HD|by apply fkv_lookup|]. wnorm. wgo.
  apply wp_sub64; [lia|]. wnorm. wgo. apply wp_add64; [lia|]. wnorm. wgo.
  unfold rename_moved in HQ. destruct (is_dir a); wgo.
  all: eapply wp_commit; [reflexivity|done|]; wnorm.
  all: apply HQ; cbn [a_db]; vlk; try done;
    eauto 20 using list_elem_of_here, list_elem_of_further with stat.
Qed.

(** Renaming within a directory. *)
Lemma wp_rename_move_within r_uid r_gid dir old_name new_name t D T n tb pb pa m b a Q :
  inode_at D dir pb pa -> inode_at D m b a -> entry pb old_name = Some m ->
  ino_key m <> ino_key dir -> u64 m -> time_ok t -> 1 <= st_size pa ->
  (forall D' qb, D' !! ipath dir = Some qb -> kvb qb ->
     stat_of qb = Some (set_mtime t (set_ctime t pa)) ->
     (forall name, entry qb name =
        if decide (name = new_name) then Some m
        else if decide (name = old_name) then None else entry pb name) ->
     (forall key, ~ bs "data:" `prefix_of` key -> key <> k_size -> key <> k_ctime -> key <> k_mtime ->
        qb !! key = pb !! key) ->
     D' !! ipath m = Some (rename_moved (is_dir a) dir t b) ->
     frame [ino_key dir; ino_key m] D D' ->
     Q (Ok tt) (mkS D' T n tb)) ->
  wp true (rename_move (old_info old_name m a) new_absent r_uid r_gid dir dir new_name t)
     Q (mkS D T n tb).
Proof.
  intros [HD Hkvb Hst] [HDm Hkvbm Hstm] He Hk2 Hm64 Ht Hs1 HQ.
  apply entry_fkv in He as (v & Hv & Hparse).
  pose proof (stat_of_range _ _ Hst) as (_ & Hr1 & _). pose proof Hr1 as Hr1'. unfold u64 in Hr1'.
  open_stat Hst. open_stat Hstm. assert (N2 : ipath m <> ipath dir) by congruence.
  unfold rename_move. cbn [rn_number new_absent old_info ro_perm ro_key ro_number ro_uid ro_gid].
  rewrite bool_decide_eq_false_2 by (by intros []). simpl andb. unfold guard_err at 1. wgo.
  fold (is_dir a). unfold guard_err. rewrite Z.eqb_refl. simpl negb. rewrite andb_false_r.
  simpl andb. cbv iota. wgo. apply wp_tx_q; [done|]. wnorm. wgo.
  eapply wp_bdelete_ok; [reflexivity|exact HD|by apply fkv_lookup|]. wnorm. wgo.
  apply wp_sub64; [lia|]. wnorm. wgo.
  unfold rename_moved in HQ. destruct (is_dir a); wgo.
  all: eapply wp_commit; [reflexivity|done|]; wnorm.
  all: eapply HQ; cbn [a_db]; vlk; try done; try reflexivity;
    try (eauto 20 using list_elem_of_here, list_elem_of_further with stat; fail).
  all: try (solve [eauto 20 with kvb]).
  all: try (solve [intros key Hd ? ? ?; assert (forall nm, generate_data_key nm <> key)
    by (intros nm <-; apply Hd; by eexists); by rewrite ?lookup_insert_ne, ?lookup_delete_ne by done]).
  1, 3: replace (set_mtime t (set_ctime t pa)) with
    (set_mtime t (set_ctime t (set_mtime t (set_ctime t (set_size (st_size pa)
       (set_size (st_size pa - 1) pa)))))) by (by destruct pa).
  1, 2: assert (u64 (st_size pa - 1)) by (unfold u64; lia); eauto 20 with stat word.
  all: intros name; fld; case_decide as Hn; [subst; by apply entry_insert_eq|].
  all: rewrite entry_insert_other by done; fld; case_decide; subst;
    [apply entry_delete_eq|by apply entry_delete_other].
Qed.

(** An attribute read with the wrong width panics. *)
Lemma wp_read_be_wrong {E : Type} rel w w' p k b z (Q : outcome E Z -> AState -> Prop) s V wr ts :
  a_txs s = (V, wr) :: ts -> V !! p = Some b -> fbe w' b k = Some z -> w <> w' ->
  Q Panic s -> wp rel (read_be w p k) Q s.
Proof.
  intros Htx HV Hf Hw HQ. apply wp_bind. eapply wp_get_kv; [exact Htx|exact HV|].
  unfold fbe in Hf. unfold fkv. destruct (b !! k) as [[v|]|]; [|done..].
  apply wp_bind, wp_done. unfold be_macro.
  destruct (Nat.eqb_spec (length v) w'); [|done]. subst.
  destruct (Nat.eqb_spec (length v) w); [done|]. by apply wp_done.
Qed.

(** Replacing a file in a sticky directory: the link count, stored in four
    bytes, is read as a [usize]. *)
Lemma wp_rename_move_replace r_uid r_gid old_dir old_name new_dir new_name t D T n tb
    pb pa qb qa m b a m' b' a' Q :
  inode_at D old_dir pb pa -> inode_at D new_dir qb qa -> inode_at D m b a ->
  inode_at D m' b' a' -> entry qb new_name = Some m' ->
  ino_key m' <> ino_key new_dir -> is_dir a' = false -> is_dir a = false ->
  1 <= st_size qa ->
  Q Panic (mkS D T n tb) ->
  wp true (rename_move (old_info old_name m a) (new_info new_name m' a') r_uid r_gid
             old_dir new_dir new_name t) Q (mkS D T n tb).
Proof.
  intros [HD _ _] [HDq Hkvbq Hstq] _ [HDm' Hkvbm' Hstm'] He Hk1 Hd' Hd Hs HQ.
  apply entry_fkv in He as (v & Hv & Hparse).
  pose proof (stat_of_range _ _ Hstq) as (_ & Hr2 & _). unfold u64 in Hr2.
  open_stat Hstq. open_stat Hstm'. assert (N1 : ipath m' <> ipath new_dir) by congruence.
  unfold rename_move.
  cbn [rn_number rn_perm rn_size rn_key new_info old_info ro_perm ro_key ro_number ro_uid ro_gid].
  fold (is_dir a) (is_dir a'). rewrite Hd', Hd, andb_false_r. simpl andb. unfold guard_err. wgo.
  apply wp_tx_q; [done|]. wnorm. wgo.
  assert (Hb : (if old_dir =? new_dir then [ino_key old_dir] else [ino_key new_dir])
               = ipath new_dir).
  { destruct (Z.eqb_spec old_dir new_dir); by subst. }
  rewrite Hb. wgo. unfold rename_drop_target. cbn [rn_key rn_perm new_info]. wgo.
  eapply wp_bdelete_ok; [reflexivity|exact HDq|by apply fkv_lookup|]. wnorm. wgo.
  apply wp_sub64; [lia|]. wnorm.
  fold (is_dir a'). rewrite Hd'. wgo.
  eapply (wp_read_be_wrong true 8 4); [reflexivity|by vlk|eassumption|done|]. wnorm. exact HQ.
Qed.
End Rules.
