(* ===== verification/Attr.v ===== *)
(** * [attr.rs]: extended attributes, chmod, chown and utimens *)

From S2P Require Import Prelude Jammdb Effects Run RustStd Common Buckets Access Inode.

(** [xattr_access_check(..)?] *)
Definition check_err {A} (o : option A) : Prog A unit :=
  match o with Some e => throw e | None => ret tt end.

(** Updates of a [DbfsAttr]. *)
Definition attr_with (attr : DbfsAttr) (uid gid perm : Z) (atime mtime ctime : DbfsTimeSpec)
  : DbfsAttr := {|
  attr_ino := attr_ino attr; attr_size := attr_size attr; attr_blocks := attr_blocks attr;
  attr_atime := atime; attr_mtime := mtime; attr_ctime := ctime;
  attr_crtime := attr_crtime attr; attr_kind := attr_kind attr; attr_perm := perm;
  attr_nlink := attr_nlink attr; attr_uid := uid; attr_gid := gid;
  attr_rdev := attr_rdev attr; attr_blksize := attr_blksize attr;
  attr_padding := attr_padding attr; attr_flags := attr_flags attr |}.

Section Ops.
Context `{Config}.

Definition dbfs_common_setxattr (r_uid r_gid ino : Z) (key value : bytes)
    (ctime : DbfsTimeSpec) : Prog DbfsError unit :=
  tx_unwrap true (
    bucket ← q (get_bucket [] (ino_key ino));
    uid ← read_u32 bucket k_uid;
    gid ← read_u32 bucket k_gid;
    mode ← read_u16 bucket k_mode;
    check_err (xattr_access_check key ACCESS_R_OK r_uid r_gid uid gid
                 (Z.land mode Perm.MODE_777));;
    q (put bucket key value);;
    q (put bucket k_ctime (time_to_be_bytes ctime));;
    q commit).

(** The result is the length and the caller's buffer after the call. *)
Definition dbfs_common_getxattr (r_uid r_gid ino : Z) (key buf : bytes)
  : Prog DbfsError (Z * bytes) :=
  tx_unwrap false (
    bucket ← q (get_bucket [] (ino_key ino));
    uid ← read_u32 bucket k_uid;
    gid ← read_u32 bucket k_gid;
    mode ← read_u16 bucket k_mode;
    check_err (xattr_access_check key ACCESS_R_OK r_uid r_gid uid gid
                 (Z.land mode Perm.MODE_777));;
    value ← get_kv bucket key;
    match value with
    | None => throw NoData
    | Some value =>
        if blen buf =? 0 then ret (blen value, buf)
        else
          let val_len := blen value in
          guard_err (blen buf <? val_len) RangeError;;
          ret (val_len, splice buf 0 value)
    end).

Definition is_xattr_key (k : bytes) : bool :=
  starts_with (bs "user.") k || starts_with (bs "system.") k
  || starts_with (bs "trusted.") k || starts_with (bs "security.") k.

(** One step of the listing: [size] bytes of [buf] are used. *)
Definition list_step (acc : Z * bytes) (kv : bytes * bytes) : Z * bytes :=
  let '(size, buf) := acc in
  if is_xattr_key kv.1 then
    let tmp := size in
    let size := size + blen kv.1 + 1 in
    if size <=? blen buf
    then (size, splice (splice buf tmp kv.1) (size - 1) [x00])
    else (tmp, buf)
  else (size, buf).

Definition dbfs_common_listxattr (ino : Z) (buf : bytes) : Prog DbfsError (Z * bytes) :=
  tx_unwrap false (
    bucket ← q (get_bucket [] (ino_key ino));
    kvs ← kv_pairs bucket;
    ret (fold_left list_step kvs (0, buf))).

(** The transaction is not committed. *)
Definition dbfs_common_removexattr (r_uid r_gid ino : Z) (key : bytes)
    (ctime : DbfsTimeSpec) : Prog DbfsError unit :=
  tx_unwrap true (
    bucket ← q (get_bucket [] (ino_key ino));
    uid ← read_u32 bucket k_uid;
    gid ← read_u32 bucket k_gid;
    mode ← read_u16 bucket k_mode;
    check_err (xattr_access_check key ACCESS_W_OK r_uid r_gid uid gid
                 (Z.land mode Perm.MODE_777));;
    q (bdelete bucket key);;
    q (put bucket k_ctime (time_to_be_bytes ctime));;
    ret tt).

Definition dbfs_common_chmod (r_uid r_gid ino mode : Z) (ctime : DbfsTimeSpec)
  : Prog DbfsError DbfsAttr :=
  attr ← map_err (fun _ => Other) (dbfs_common_attr ino);
  let uid := attr_uid attr in
  let gid := attr_gid attr in
  guard_err (negb (r_uid =? 0) && negb (r_uid =? uid)) PermissionDenied;;
  guard_err (negb (r_uid =? 0) && negb (r_gid =? gid)) PermissionDenied;;
  let i_mode := Z.lor (Z.land (attr_perm attr) Perm.S_IFMT) (Z.land mode Perm.MODE_777) in
  if negb (i_mode =? attr_perm attr) then
    tx_unwrap true (
      bucket ← q (get_bucket [] (ino_key ino));
      q (put bucket k_mode (to_be 2 i_mode));;
      q (put bucket k_ctime (time_to_be_bytes ctime));;
      q commit);;
    ret (attr_with attr (attr_uid attr) (attr_gid attr) i_mode
           (attr_atime attr) (attr_mtime attr) ctime)
  else ret attr.

Definition dbfs_common_chown (r_uid r_gid ino : Z) (uid gid : option Z)
    (c_time : DbfsTimeSpec) : Prog DbfsError DbfsAttr :=
  attr ← map_err (fun _ => Other) (dbfs_common_attr ino);
  guard_err (match gid with
             | Some gid => negb (r_uid =? 0) && negb (r_gid =? gid)
             | None => false
             end) PermissionDenied;;
  guard_err (match uid with
             | Some uid => negb (r_uid =? 0)
                           && negb ((uid =? attr_uid attr) && (r_uid =? attr_uid attr))
             | None => false
             end) PermissionDenied;;
  guard_err (bool_decide (is_Some gid) && negb (r_uid =? 0) && negb (r_uid =? attr_uid attr))
    PermissionDenied;;
  let perm := Perm.from_bits_truncate (attr_perm attr) in
  let perm :=
    if Perm.contains perm Perm.S_IXUSR || Perm.contains perm Perm.S_IXGRP
       || Perm.contains perm Perm.S_IXOTH
    then clear_suid_sgid perm else perm in
  let new_uid := default (attr_uid attr) uid in
  let perm := match uid with Some _ => Perm.remove perm Perm.S_ISUID | None => perm end in
  let new_gid := default (attr_gid attr) gid in
  let perm := match gid with Some _ => Perm.remove perm Perm.S_ISGID | None => perm end in
  tx_unwrap true (
    bucket ← q (get_bucket [] (ino_key ino));
    q (put bucket k_uid (to_be 4 new_uid));;
    q (put bucket k_gid (to_be 4 new_gid));;
    q (put bucket k_mode (to_be 2 perm));;
    q (put bucket k_ctime (time_to_be_bytes c_time));;
    q commit);;
  ret (attr_with attr new_uid new_gid perm (attr_atime attr) (attr_mtime attr) c_time).

Definition dbfs_common_utimens (r_uid r_gid ino : Z) (atime mtime : option DbfsTimeSpec)
    (c_time : DbfsTimeSpec) : Prog DbfsError DbfsAttr :=
  attr ← dbfs_common_attr ino;
  let mode := attr_perm attr in
  guard_err (negb (attr_uid attr =? r_uid) && negb (attr_uid attr =? 0)) PermissionDenied;;
  guard_err
    (negb (attr_uid attr =? r_uid)
     && negb (checkout_access (attr_uid attr) (attr_gid attr) (Z.land mode Perm.MODE_777)
                r_uid r_gid ACCESS_W_OK)) AccessError;;
  tx_unwrap true (
    bucket ← q (get_bucket [] (ino_key ino));
    (match atime with
     | Some atime => q (put bucket k_atime (time_to_be_bytes atime))
     | None => ret tt
     end);;
    (match mtime with
     | Some mtime => q (put bucket k_mtime (time_to_be_bytes mtime))
     | None => ret tt
     end);;
    q (put bucket k_ctime (time_to_be_bytes c_time));;
    q commit);;
  ret (attr_with attr (attr_uid attr) (attr_gid attr) (attr_perm attr)
         (default (attr_atime attr) atime) (default (attr_mtime attr) mtime) c_time).
End Ops.

(** ** Behaviour *)

Section Rules.
Context `{Config} (rel : bool).

Lemma wp_tx_unwrap {E A : Type} wr (body : Prog E A) Q s :
  (rel = false -> Q Panic s) ->
  wp rel body (fun o s' => Q o (pop_tx s')) (push_tx wr s) ->
  wp rel (tx_unwrap wr body) Q s.
Proof. intros Hf Hb. apply wp_with_tx; [auto|exact Hb]. Qed.

Lemma wp_check_err {A : Type} (o : option A) (Q : outcome A unit -> AState -> Prop) s :
  Q (match o with Some e => Err e | None => Ok tt end) s -> wp rel (check_err o) Q s.
Proof. destruct o; intros; by apply wp_done. Qed.

(** The key of an extended attribute is stored beside the other attributes. *)
Lemma xattr_key_other key ns :
  parse_xattr_namespace key = inr ns -> (key ∉ attr_keys) /\ key <> k_ctime.
Proof.
  intros Hp.
  assert (Hall : Forall (fun k => parse_xattr_namespace k = inl NotSupported) attr_keys)
    by (repeat (apply list.Forall_cons; split; [by vm_compute|]); apply list.Forall_nil_2).
  rewrite list.Forall_forall in Hall.
  assert (Hk : key ∉ attr_keys) by (intros Hin; by rewrite (Hall _ Hin) in Hp).
  split; [done|]. intros ->. apply Hk. by apply (bool_decide_unpack _).
Qed.

Lemma xattr_check_namespace key mask r_uid r_gid uid gid mode :
  xattr_access_check key mask r_uid r_gid uid gid mode = None ->
  exists ns, parse_xattr_namespace key = inr ns.
Proof. unfold xattr_access_check. destruct (parse_xattr_namespace key); [done|eauto]. Qed.

Definition xattr_allowed (key : bytes) (mask r_uid r_gid : Z) (a : Stat) : option DbfsError :=
  xattr_access_check key mask r_uid r_gid (st_uid a) (st_gid a) (Z.land (st_mode a) Perm.MODE_777).

Lemma wp_dbfs_common_setxattr r_uid r_gid ino key value t D T n tb b a Q :
  inode_at D ino b a -> xattr_allowed key ACCESS_R_OK r_uid r_gid a = None ->
  Q (Ok tt) (mkS (<[ipath ino := <[k_ctime := KeyValue (time_to_be_bytes t)]>
                      (<[key := KeyValue value]> b)]> D) T n tb) ->
  (rel = false -> Q Panic (mkS D T n tb) /\ forall e, Q (Err (from_jerror e)) (mkS D T n tb)) ->
  wp rel (dbfs_common_setxattr r_uid r_gid ino key value t) Q (mkS D T n tb).
Proof.
  intros [HD Hkvb Hst] Hacc HQ Hf. open_stat Hst.
  unfold dbfs_common_setxattr. apply wp_tx_unwrap; [apply Hf|]. wnorm. wgo.
  unfold xattr_allowed in Hacc. rewrite Hacc. apply wp_check_err. wnorm. wgo.
  eapply wp_commit; [reflexivity|apply Hf|]. wnorm. exact HQ.
Qed.

Lemma wp_dbfs_common_getxattr r_uid r_gid ino key buf D T n tb b a value Q :
  D !! ipath ino = Some b -> stat_of b = Some a ->
  xattr_allowed key ACCESS_R_OK r_uid r_gid a = None ->
  fkv b key = Some value -> 0 < blen buf -> blen value <= blen buf ->
  Q (Ok (blen value, splice buf 0 value)) (mkS D T n tb) ->
  (rel = false -> Q Panic (mkS D T n tb)) ->
  wp rel (dbfs_common_getxattr r_uid r_gid ino key buf) Q (mkS D T n tb).
Proof.
  intros HD Hst Hacc Hv Hb Hlen HQ Hf. open_stat Hst.
  unfold dbfs_common_getxattr. apply wp_tx_unwrap; [apply Hf|]. wnorm. wgo.
  unfold xattr_allowed in Hacc. rewrite Hacc. apply wp_check_err. wnorm. wgo.
  rewrite Hv, (proj2 (Z.eqb_neq _ _)) by lia. wgo. unfold guard_err.
  rewrite (proj2 (Z.ltb_ge _ _)) by lia. wgo. exact HQ.
Qed.

(** The permission bits [chmod] stores. *)
Definition chmod_mode (a : Stat) (mode : Z) : Z :=
  Z.lor (Z.land (st_mode a) Perm.S_IFMT) (Z.land mode Perm.MODE_777).
Definition chmod_allowed (a : Stat) (r_uid r_gid : Z) : bool :=
  (r_uid =? 0) || ((r_uid =? st_uid a) && (r_gid =? st_gid a)).
Definition chmod_stat (a : Stat) (mode : Z) (t : DbfsTimeSpec) : Stat :=
  if chmod_mode a mode =? st_mode a then a else set_ctime t (set_mode (chmod_mode a mode) a).

Lemma wp_chmod_ok r_uid r_gid ino mode t D T n tb b a k Q :
  inode_at D ino b a -> stat_ok a k -> chmod_allowed a r_uid r_gid = true ->
  u16 (chmod_mode a mode) -> time_ok t ->
  (forall D' b', D' !! ipath ino = Some b' -> kvb b' -> stat_of b' = Some (chmod_stat a mode t) ->
     (forall key, key <> k_mode -> key <> k_ctime -> b' !! key = b !! key) ->
     frame [ino_key ino] D D' ->
     Q (Ok (attr_of_stat ino (chmod_stat a mode t) k)) (mkS D' T n tb)) ->
  (rel = false -> Q Panic (mkS D T n tb) /\ forall e, Q (Err e) (mkS D T n tb)) ->
  wp rel (dbfs_common_chmod r_uid r_gid ino mode t) Q (mkS D T n tb).
Proof.
  intros [HD Hkvb Hst] Hok Hacc Hm Ht HQ Hf. unfold dbfs_common_chmod. wgo.
  eapply wp_dbfs_common_attr; [exact HD|exact Hst|exact Hok| |intros; by apply Hf]. wnorm. wgo.
  cbn [attr_uid attr_gid attr_perm attr_of_stat]. unfold guard_err, chmod_allowed in *.
  replace (negb (r_uid =? 0) && negb (r_uid =? st_uid a)) with false
    by (destruct (r_uid =? 0), (r_uid =? st_uid a); done). wgo.
  replace (negb (r_uid =? 0) && negb (r_gid =? st_gid a)) with false
    by (destruct (r_uid =? 0), (r_uid =? st_uid a), (r_gid =? st_gid a); done). wgo.
  fold (chmod_mode a mode). unfold chmod_stat in HQ.
  destruct (chmod_mode a mode =? st_mode a) eqn:E; simpl negb; cbv iota.
  - wgo. by apply (HQ D b).
  - wgo. apply wp_tx_unwrap; [apply Hf|]. wnorm. wgo.
    eapply wp_commit; [reflexivity|intros; by apply Hf|]. wnorm. wgo.
    eapply HQ; cbn [a_db].
    + apply lookup_insert_eq.
    + eauto with kvb.
    + apply stat_put_ctime; [|done]. by apply stat_put_mode.
    + intros key H1 H2. by rewrite !lookup_insert_ne.
    + eauto using list_elem_of_here with stat.
Qed.

Lemma wp_chmod_denied r_uid r_gid ino mode t D T n tb b a k Q :
  D !! ipath ino = Some b -> stat_of b = Some a -> stat_ok a k ->
  chmod_allowed a r_uid r_gid = false ->
  Q (Err PermissionDenied) (mkS D T n tb) ->
  (rel = false -> Q (Err Other) (mkS D T n tb)) ->
  wp rel (dbfs_common_chmod r_uid r_gid ino mode t) Q (mkS D T n tb).
Proof.
  intros HD Hst Hok Hacc HQ Hf. unfold dbfs_common_chmod. wgo.
  eapply wp_dbfs_common_attr; [exact HD|exact Hst|exact Hok| |intros; by apply Hf]. wnorm. wgo.
  cbn [attr_uid attr_gid attr_perm attr_of_stat]. unfold guard_err, chmod_allowed in *.
  destruct (r_uid =? 0); [done|]. simpl in *.
  destruct (r_uid =? st_uid a); simpl; wgo; [|exact HQ].
  destruct (r_gid =? st_gid a); [done|]. simpl. wgo. exact HQ.
Qed.

(** What [chown] asks of the caller and what it stores: the set-id bits go
    when the file can be executed, and each when the owner or the group is
    given. *)
Definition chown_allowed (a : Stat) (r_uid r_gid : Z) (uid gid : option Z) : bool :=
  (r_uid =? 0)
  || (match gid with Some g => (r_gid =? g) && (r_uid =? st_uid a) | None => true end
      && match uid with Some u => (u =? st_uid a) && (r_uid =? st_uid a) | None => true end).
Definition chown_mode (a : Stat) (uid gid : option Z) : Z :=
  let perm := Perm.from_bits_truncate (st_mode a) in
  let perm :=
    if Perm.contains perm Perm.S_IXUSR || Perm.contains perm Perm.S_IXGRP
       || Perm.contains perm Perm.S_IXOTH
    then clear_suid_sgid perm else perm in
  let perm := match uid with Some _ => Perm.remove perm Perm.S_ISUID | None => perm end in
  match gid with Some _ => Perm.remove perm Perm.S_ISGID | None => perm end.
Definition chown_stat (a : Stat) (uid gid : option Z) (t : DbfsTimeSpec) : Stat :=
  set_ctime t (set_mode (chown_mode a uid gid)
    (set_gid (default (st_gid a) gid) (set_uid (default (st_uid a) uid) a))).

Lemma from_bits_truncate_u16 z : 0 <= z -> u16 (Perm.from_bits_truncate z).
Proof.
  intros Hz. unfold Perm.from_bits_truncate. change Perm.all with (Z.ones 16).
  rewrite Z.land_ones by lia. apply Z.mod_pos_bound. lia.
Qed.
Lemma remove_u16 z x : u16 z -> u16 (Perm.remove z x).
Proof. by apply (ldiff_range 16). Qed.

Lemma chown_mode_u16 a uid gid : 0 <= st_mode a -> u16 (chown_mode a uid gid).
Proof.
  intros Ha%from_bits_truncate_u16. unfold chown_mode. cbv zeta.
  destruct gid, uid; case_match; auto using remove_u16, clear_suid_sgid_u16.
Qed.

(** The attributes of a chown and of a utimens, as the calls return them. *)
Lemma wp_chown_ok r_uid r_gid ino uid gid t D T n tb b a k Q :
  inode_at D ino b a -> stat_ok a k -> chown_allowed a r_uid r_gid uid gid = true ->
  u32 (default 0 uid) -> u32 (default 0 gid) -> time_ok t ->
  (forall D' b', D' !! ipath ino = Some b' -> kvb b' -> stat_of b' = Some (chown_stat a uid gid t) ->
     (forall key, key <> k_uid -> key <> k_gid -> key <> k_mode -> key <> k_ctime ->
        b' !! key = b !! key) ->
     frame [ino_key ino] D D' ->
     Q (Ok (attr_of_stat ino (chown_stat a uid gid t) k)) (mkS D' T n tb)) ->
  (rel = false -> Q Panic (mkS D T n tb) /\ forall e, Q (Err e) (mkS D T n tb)) ->
  wp rel (dbfs_common_chown r_uid r_gid ino uid gid t) Q (mkS D T n tb).
Proof.
  intros [HD Hkvb Hst] Hok Hacc Hu Hg Ht HQ Hf.
  pose proof (stat_of_range _ _ Hst) as (Hm & _ & _ & Hua & Hga & _).
  unfold dbfs_common_chown. wgo.
  eapply wp_dbfs_common_attr; [exact HD|exact Hst|exact Hok| |intros; by apply Hf]. wnorm. wgo.
  cbn [attr_uid attr_gid attr_perm attr_of_stat]. unfold guard_err, chown_allowed in *.
  assert (H1 : match gid with Some gid => negb (r_uid =? 0) && negb (r_gid =? gid) | None => false end = false).
  { destruct gid, (r_uid =? 0); simpl in *; try done. by destruct (r_gid =? _). }
  assert (H2 : match uid with
               | Some uid => negb (r_uid =? 0) && negb ((uid =? st_uid a) && (r_uid =? st_uid a))
               | None => false end = false).
  { destruct uid, (r_uid =? 0); simpl in *; try done. by rewrite (proj2 (andb_prop _ _ Hacc)). }
  assert (H3 : bool_decide (is_Some gid) && negb (r_uid =? 0) && negb (r_uid =? st_uid a) = false).
  { destruct gid; [|by rewrite bool_decide_eq_false_2 by (by intros [? ?])].
    rewrite bool_decide_eq_true_2 by eauto. destruct (r_uid =? 0), (r_uid =? st_uid a); try done.
    by rewrite andb_false_r in Hacc. }
  rewrite H1. wgo. rewrite H2. wgo. rewrite H3. wgo.
  apply wp_tx_unwrap; [apply Hf|]. wnorm. wgo.
  eapply wp_commit; [reflexivity|intros; by apply Hf|]. wnorm. wgo.
  eapply HQ; cbn [a_db].
  - apply lookup_insert_eq.
  - eauto with kvb.
  - apply stat_put_ctime; [|done]. apply (stat_put_mode _ _ (chown_mode a uid gid)).
    + apply stat_put_gid; [apply stat_put_uid; [done|]|]; by destruct uid, gid.
    + apply chown_mode_u16. unfold u16 in *. lia.
  - intros key ? ? ? ?. by rewrite !lookup_insert_ne.
  - eauto using list_elem_of_here with stat.
Qed.

Lemma wp_chown_denied r_uid r_gid ino uid gid t D T n tb b a k Q :
  D !! ipath ino = Some b -> stat_of b = Some a -> stat_ok a k ->
  chown_allowed a r_uid r_gid uid gid = false ->
  Q (Err PermissionDenied) (mkS D T n tb) ->
  (rel = false -> Q (Err Other) (mkS D T n tb)) ->
  wp rel (dbfs_common_chown r_uid r_gid ino uid gid t) Q (mkS D T n tb).
Proof.
  intros HD Hst Hok Hacc HQ Hf. unfold dbfs_common_chown. wgo.
  eapply wp_dbfs_common_attr; [exact HD|exact Hst|exact Hok| |intros; by apply Hf]. wnorm. wgo.
  cbn [attr_uid attr_gid attr_perm attr_of_stat]. unfold guard_err, chown_allowed in *.
  match goal with |- context [if ?b then _ else _] => destruct b eqn:E1; [wgo; exact HQ|] end. wgo.
  match goal with |- context [if ?b then _ else _] => destruct b eqn:E2; [wgo; exact HQ|] end. wgo.
  match goal with |- context [if ?b then _ else _] => destruct b eqn:E3; [wgo; exact HQ|] end. exfalso.
  destruct (r_uid =? 0); [done|]. cbn [negb andb orb] in *. destruct gid as [g|].
  - rewrite bool_decide_eq_true_2 in E3 by eauto. destruct (r_gid =? g); [|done].
    destruct (r_uid =? st_uid a); [|done]. destruct uid as [u|]; [|done]. by destruct (u =? st_uid a).
  - destruct uid as [u|]; [|done]. by destruct ((u =? st_uid a) && (r_uid =? st_uid a)).
Qed.

(** [utimens]: the owner may, and on an inode of root whoever may write it. *)
Definition utimens_refusal (a : Stat) (r_uid r_gid : Z) : option DbfsError :=
  if st_uid a =? r_uid then None
  else if negb (st_uid a =? 0) then Some PermissionDenied
  else if may_write a r_uid r_gid then None else Some AccessError.
Definition utimens_stat (a : Stat) (atime mtime : option DbfsTimeSpec) (t : DbfsTimeSpec) : Stat :=
  set_ctime t (set_mtime (default (st_mtime a) mtime) (set_atime (default (st_atime a) atime) a)).

Lemma wp_utimens_ok r_uid r_gid ino atime mtime t D T n tb b a k Q :
  inode_at D ino b a -> stat_ok a k -> utimens_refusal a r_uid r_gid = None ->
  (forall x, atime = Some x -> time_ok x) -> (forall x, mtime = Some x -> time_ok x) -> time_ok t ->
  (forall D' b', D' !! ipath ino = Some b' -> kvb b' -> stat_of b' = Some (utimens_stat a atime mtime t) ->
     (forall key, key <> k_atime -> key <> k_mtime -> key <> k_ctime -> b' !! key = b !! key) ->
     frame [ino_key ino] D D' ->
     Q (Ok (attr_of_stat ino (utimens_stat a atime mtime t) k)) (mkS D' T n tb)) ->
  (rel = false -> Q Panic (mkS D T n tb) /\ forall e, Q (Err e) (mkS D T n tb)) ->
  wp rel (dbfs_common_utimens r_uid r_gid ino atime mtime t) Q (mkS D T n tb).
Proof.
  intros [HD Hkvb Hst] Hok Hacc Ha Hm Ht HQ Hf. unfold dbfs_common_utimens. wgo.
  eapply wp_dbfs_common_attr; [exact HD|exact Hst|exact Hok| |intros; by apply Hf]. wnorm. wgo.
  cbn [attr_uid attr_gid attr_perm attr_of_stat]. unfold guard_err, utimens_refusal, may_write in *.
  replace (negb (st_uid a =? r_uid) && negb (st_uid a =? 0)) with false
    by (destruct (st_uid a =? r_uid), (st_uid a =? 0); done). wgo.
  replace (negb (st_uid a =? r_uid) && _) with false
    by (revert Hacc; destruct (st_uid a =? r_uid), (st_uid a =? 0), (checkout_access _ _ _ _ _ _); done). wgo.
  apply wp_tx_unwrap; [apply Hf|]. wnorm. destruct a as [m0 s0 l0 u0 g0 a0 m0' c0 b0 d0].
  destruct atime as [at'|], mtime as [mt|]; wgo;
    (eapply wp_commit; [reflexivity|intros; by apply Hf|]); wnorm; wgo;
    (eapply HQ; cbn [a_db];
      [apply lookup_insert_eq|eauto with kvb| |intros key ? ? ?; by rewrite !lookup_insert_ne
      |eauto using list_elem_of_here with stat]).
  all: etransitivity; [apply stat_put_ctime, Ht|].
  all: try (apply stat_put_mtime, Hm, eq_refl). all: try (apply stat_put_atime, Ha, eq_refl).
  all: try exact Hst. all: reflexivity.
Qed.

Lemma wp_utimens_denied r_uid r_gid ino atime mtime t D T n tb b a k e Q :
  D !! ipath ino = Some b -> stat_of b = Some a -> stat_ok a k ->
  utimens_refusal a r_uid r_gid = Some e ->
  Q (Err e) (mkS D T n tb) ->
  (rel = false -> forall e, Q (Err e) (mkS D T n tb)) ->
  wp rel (dbfs_common_utimens r_uid r_gid ino atime mtime t) Q (mkS D T n tb).
Proof.
  intros HD Hst Hok Hacc HQ Hf. unfold dbfs_common_utimens. wgo.
  eapply wp_dbfs_common_attr; [exact HD|exact Hst|exact Hok| |intros; by apply Hf]. wnorm. wgo.
  cbn [attr_uid attr_gid attr_perm attr_of_stat]. unfold guard_err, utimens_refusal, may_write in *.
  destruct (st_uid a =? r_uid); [done|]. destruct (st_uid a =? 0); cbn [negb andb] in *; wgo.
  - destruct (checkout_access _ _ _ _ _ _); [done|]. cbn [negb]. wgo. by injection Hacc as <-.
  - by injection Hacc as <-.
Qed.
End Rules.

Section Removexattr.
Context `{Config}.

Lemma wp_removexattr_ok r_uid r_gid ino key t D T n tb b a v :
  inode_at D ino b a -> xattr_allowed key ACCESS_W_OK r_uid r_gid a = None ->
  fkv b key = Some v ->
  wp true (dbfs_common_removexattr r_uid r_gid ino key t)
     (fun o s' => o = Ok tt /\ s' = mkS D T n tb) (mkS D T n tb).
Proof.
  intros [HD Hkvb Hst] Hacc Hv. open_stat Hst.
  unfold dbfs_common_removexattr. apply wp_tx_unwrap; [done|]. wnorm. wgo.
  unfold xattr_allowed in Hacc. rewrite Hacc. apply wp_check_err. wnorm. wgo.
  eapply wp_bdelete_ok; [reflexivity|exact HD|by apply fkv_lookup|]. wnorm. wgo. done.
Qed.
End Removexattr.
