(* ===== verification/Readdir.v ===== *)
(** * [file.rs]: reading a directory *)

From S2P Require Import Prelude Jammdb Effects Run RustStd Common Buckets Slices Access Inode.

Section Ops.
Context `{Config}.

(** The entry made of one key-value pair of a directory. *)
Definition readdir_entry (is_readdir_plus : bool) (key value : bytes) (offset : Z)
  : Prog DbfsError DbfsDirEntry :=
  name ← unwrap_option (after_first x3a key);
  assert_prog (utf8_valid name);;
  inode_number ← parse_ino value;
  if negb is_readdir_plus then
    inode ← unwrap (get_bucket [] (ino_key inode_number));
    mode ← read_u16 inode k_mode;
    kind ← unwrap_option (file_type_of_perm (Perm.from_bits_truncate mode));
    ret {| de_ino := inode_number; de_offset := offset; de_kind := kind; de_name := name;
           de_attr := None |}
  else
    attr ← unwrap (dbfs_common_attr inode_number);
    ret {| de_ino := inode_number; de_offset := offset; de_kind := attr_kind attr;
           de_name := name; de_attr := Some attr |}.

(** The loop over the cursor.  A [return] in the closure only ends its
    iteration, so the whole directory is visited. *)
Fixpoint readdir_loop (is_readdir_plus : bool) (es : list (bytes * Data)) (offset : Z)
    (buf : list DbfsDirEntry) : Prog DbfsError (list DbfsDirEntry) :=
  match es with
  | [] => ret buf
  | (key, KeyValue value) :: es' =>
      if starts_with (bs "data:") key then
        entry ← readdir_entry is_readdir_plus key value offset;
        offset' ← add64 offset 1;
        readdir_loop is_readdir_plus es' offset' (buf ++ [entry])
      else readdir_loop is_readdir_plus es' offset buf
  | (_, Bucket) :: es' => readdir_loop is_readdir_plus es' offset buf
  end.

(** The result is the count and the caller's vector after the call, which is
    cleared first. *)
Definition dbfs_common_readdir (ino offset : Z) (is_readdir_plus : bool)
  : Prog DbfsError (Z * list DbfsDirEntry) :=
  tx_q false (
    bucket ← q (get_bucket [] (ino_key ino));
    es ← cursor bucket;
    readdir_info ← get_readdir_table ino;
    es ← (match readdir_info with
          | None => ret es
          | Some info =>
              t ← add64 (rd_offset info) 1;
              assert_prog (offset =? t);;
              '(res, es) ← seek bucket (generate_data_key (rd_key info));
              assert_prog res;;
              match es with
              | [] => panic
              | _ :: es' => ret es'
              end
          end);
    buf ← readdir_loop is_readdir_plus es offset [];
    ret (Z.of_nat (length buf), buf)).
End Ops.

(** ** Behaviour *)

(** The names and values of the directory entries among the pairs of a bucket. *)
Definition data_item (e : bytes * Data) : option (bytes * bytes) :=
  match e.2 with
  | KeyValue v => if starts_with (bs "data:") e.1 then Some (drop 5 e.1, v) else None
  | Bucket => None
  end.

(** The directory [b] can be listed: its names are text and its entries refer
    to inodes whose mode has a type. *)
Definition listable (D : view) (b : bucket) : Prop :=
  forall name v, fkv b (generate_data_key name) = Some v ->
    utf8_valid name = true /\ exists m bm mode kind,
      parse_usize v = Some m /\ D !! ipath m = Some bm /\ fbe 2 bm k_mode = Some mode /\
      file_type_of_perm mode = Some kind.

(** [e] is the entry listed for [name] at [offset]. *)
Definition lists (D : view) (name v : bytes) (offset : Z) (e : DbfsDirEntry) : Prop :=
  de_name e = name /\ parse_usize v = Some (de_ino e) /\ de_offset e = offset /\
  (D !! ipath (de_ino e) ≫= fun bm => fbe 2 bm k_mode ≫= file_type_of_perm) = Some (de_kind e).

Lemma after_first_data name : after_first x3a (generate_data_key name) = Some name.
Proof. exact (after_first_app x3a (bs "data") name ltac:(by apply (bool_decide_unpack _))). Qed.

Lemma starts_with_data key :
  starts_with (bs "data:") key = true -> key = generate_data_key (drop 5 key).
Proof.
  unfold starts_with. rewrite bool_decide_eq_true. intros [l ->]. done.
Qed.

Section Rules.
Context `{Config}.

Lemma wp_readdir_loop es offset buf D T n tb (Q : outcome DbfsError _ -> AState -> Prop) :
  (forall k v, (k, KeyValue v) ∈ es -> starts_with (bs "data:") k = true ->
     utf8_valid (drop 5 k) = true /\ exists m bm mode kind,
       parse_usize v = Some m /\ D !! ipath m = Some bm /\ fbe 2 bm k_mode = Some mode /\
       file_type_of_perm mode = Some kind) ->
  0 <= offset -> offset + Z.of_nat (length es) < 2 ^ 64 ->
  (forall l, length l = length (omap data_item es) ->
     (forall (i : nat) name v, omap data_item es !! i = Some (name, v) ->
        exists e, l !! i = Some e /\ lists D name v (offset + Z.of_nat i) e) ->
     Q (Ok (buf ++ l)) (mkS D ((D, false) :: T) n tb)) ->
  wp true (readdir_loop false es offset buf) Q (mkS D ((D, false) :: T) n tb).
Proof.
  revert offset buf. induction es as [|[k d] es IH]; intros offset buf Hes Ho Hmax HQ.
  { simpl. apply wp_ret. rewrite <- (app_nil_r buf). by apply HQ. }
  assert (Hes' : forall k v, (k, KeyValue v) ∈ es -> starts_with (bs "data:") k = true ->
     utf8_valid (drop 5 k) = true /\ exists m bm mode kind,
       parse_usize v = Some m /\ D !! ipath m = Some bm /\ fbe 2 bm k_mode = Some mode /\
       file_type_of_perm mode = Some kind) by (intros; apply Hes; [by right|done]).
  simpl length in Hmax. simpl readdir_loop.
  change (omap data_item ((k, d) :: es)) with
    (match data_item (k, d) with Some x => x :: omap data_item es | None => omap data_item es end)
    in HQ.
  destruct d as [v|]; [|apply IH; auto; lia].
  assert (Ei : data_item (k, KeyValue v)
    = if starts_with (bs "data:") k then Some (drop 5 k, v) else None) by done.
  rewrite Ei in HQ. clear Ei.
  destruct (starts_with (bs "data:") k) eqn:Es; [|apply IH; auto; lia].
  destruct (Hes k v ltac:(by left) Es) as (Hutf & m & bm & mode & kind & Hp & HD & Hm & Hk).
  pose proof (fbe_range _ _ _ _ Hm) as Hmr.
  apply wp_bind. unfold readdir_entry. rewrite (starts_with_data _ Es) at 1.
  rewrite after_first_data. wgo. rewrite Hutf. unfold assert_prog. wgo.
  unfold parse_ino. rewrite Hp. simpl negb. cbv iota. wgo.
  rewrite from_bits_truncate_id, Hk by done. wgo. apply wp_add64; [lia|]. wnorm.
  apply IH; auto; [lia|lia|]. intros l Hl Hitems. rewrite <- app_assoc. apply HQ.
  { simpl. by rewrite Hl. }
  intros [|i] name' v' Hi; simpl in Hi.
  - injection Hi as <- <-. eexists. split; [reflexivity|]. unfold lists. simpl.
    rewrite HD. simpl. rewrite Hm. simpl. repeat split; auto. lia.
  - destruct (Hitems i name' v' Hi) as (e & He & Hle). exists e. split; [done|].
    replace (offset + Z.of_nat (S i)) with (offset + 1 + Z.of_nat i) by lia. done.
Qed.

Lemma wp_dbfs_common_readdir ino offset D T n tb b (Q : outcome DbfsError _ -> AState -> Prop) :
  D !! ipath ino = Some b -> listable D b -> tb !! ino = None ->
  0 <= offset -> offset + Z.of_nat (length (sorted_entries b)) < 2 ^ 64 ->
  (forall l, length l = length (omap data_item (sorted_entries b)) ->
     (forall (i : nat) name v, omap data_item (sorted_entries b) !! i = Some (name, v) ->
        exists e, l !! i = Some e /\ lists D name v (offset + Z.of_nat i) e) ->
     Q (Ok (Z.of_nat (length l), l)) (mkS D T n tb)) ->
  wp true (dbfs_common_readdir ino offset false) Q (mkS D T n tb).
Proof.
  intros HD Hl Ht Ho Hmax HQ. unfold dbfs_common_readdir. apply wp_tx_q; [done|]. wnorm. wgo.
  eapply wp_cursor; [reflexivity|]. unfold spec_cursor. cbn [a_db]. rewrite HD.
  cbn [lift_infallible]. wgo. apply wp_table_get. wnorm. rewrite Ht. wgo.
  apply wp_readdir_loop; [|done|done|].
  - intros k v Hin Hs. apply elem_of_sorted_entries in Hin.
    apply Hl. unfold fkv. rewrite <- (starts_with_data _ Hs). by rewrite Hin.
  - intros l Hlen Hitems. wnorm. wgo. simpl app. by apply HQ.
Qed.

(** The same, after an entry that an earlier reading of the directory stopped at. *)
Lemma wp_readdir_from ino offset D T n tb b info d es1 es2
    (Q : outcome DbfsError _ -> AState -> Prop) :
  D !! ipath ino = Some b -> listable D b -> tb !! ino = Some info ->
  sorted_entries b = es1 ++ (generate_data_key (rd_key info), d) :: es2 ->
  0 <= rd_offset info -> offset = rd_offset info + 1 ->
  offset + Z.of_nat (length (sorted_entries b)) < 2 ^ 64 ->
  (forall l, length l = length (omap data_item es2) ->
     (forall (i : nat) name v, omap data_item es2 !! i = Some (name, v) ->
        exists e, l !! i = Some e /\ lists D name v (offset + Z.of_nat i) e) ->
     Q (Ok (Z.of_nat (length l), l)) (mkS D T n tb)) ->
  wp true (dbfs_common_readdir ino offset false) Q (mkS D T n tb).
Proof.
  intros HD Hl Ht Hes Ho -> Hmax HQ. unfold dbfs_common_readdir. apply wp_tx_q; [done|]. wnorm. wgo.
  eapply wp_cursor; [reflexivity|]. unfold spec_cursor. cbn [a_db]. rewrite HD.
  cbn [lift_infallible]. wgo. apply wp_table_get. wnorm. rewrite Ht. wgo.
  apply wp_add64; [lia|]. wnorm. rewrite Z.eqb_refl. unfold assert_prog. wgo.
  eapply wp_seek; [reflexivity|]. unfold spec_seek. cbn [a_db]. rewrite HD.
  cbn [lift_infallible]. wgo.
  assert (Hk : b !! generate_data_key (rd_key info) = Some d).
  { apply elem_of_sorted_entries. rewrite Hes. set_solver. }
  rewrite bool_decide_eq_true_2 by eauto. wgo.
  rewrite (sorted_entries_from b _ d es1 es2 Hes). wgo.
  rewrite Hes, length_app in Hmax. simpl length in Hmax.
  apply wp_readdir_loop; [|lia|lia|].
  - intros k v Hin Hs. assert (Hin' : (k, KeyValue v) ∈ sorted_entries b) by (rewrite Hes; set_solver).
    apply elem_of_sorted_entries in Hin'.
    apply Hl. unfold fkv. rewrite <- (starts_with_data _ Hs). by rewrite Hin'.
  - intros l Hlen Hitems. wnorm. wgo. simpl app. by apply HQ.
Qed.

(** A position the table does not agree with. *)
Lemma wp_readdir_mismatch ino offset D T n tb b info plus (Q : outcome DbfsError _ -> AState -> Prop) :
  D !! ipath ino = Some b -> tb !! ino = Some info ->
  0 <= rd_offset info < 2 ^ 64 - 1 -> offset <> rd_offset info + 1 ->
  Q Panic (mkS D T n tb) ->
  wp true (dbfs_common_readdir ino offset plus) Q (mkS D T n tb).
Proof.
  intros HD Ht Ho Hne HQ. unfold dbfs_common_readdir. apply wp_tx_q; [done|]. wnorm. wgo.
  eapply wp_cursor; [reflexivity|]. unfold spec_cursor. cbn [a_db]. rewrite HD.
  cbn [lift_infallible]. wgo. apply wp_table_get. wnorm. rewrite Ht. wgo.
  apply wp_add64; [lia|]. wnorm. rewrite (proj2 (Z.eqb_neq _ _)) by lia. unfold assert_prog. by wgo.
Qed.
End Rules.
