(* ===== verification/Rvfs.v ===== *)
(** * The adapter to the [rvfs] virtual file system

    The functions of [inode.rs], [file.rs] and [fs_type.rs] that [rvfs] calls
    through its operation tables.  They work on shared objects, [Arc<Inode>],
    [Arc<DirEntry>] and [Arc<SuperBlock>], besides the database: an [Arc] is a
    handle and the objects are in the store [VfsMem], so that two handles of
    one inode, or two inodes of one number, are told apart.

    [rvfs] itself is not in the repository: what the sources call of it is the
    class [Rvfs].  Every function here changes the store only after its last
    call that can return an error, so an [Err] outcome goes with the store of
    the caller; a panic ends the kernel. *)

From S2P Require Import Prelude Jammdb Effects Run RustStd Common Buckets Slices Access Inode Create FsType Link Truncate File Readdir.

(** ** Objects *)

(** The slots of [rvfs::inode::InodeOps] and [rvfs::file::FileOps] that the
    sources assign.  A table is the list of its assigned slots; the others keep
    the default of [rvfs]. *)
Inductive InodeSlot :=
  | op_create | op_mkdir | op_link | op_unlink | op_symlink | op_lookup | op_rmdir
  | op_set_attr | op_get_attr | op_list_attr | op_remove_attr | op_rename
  | op_truncate | op_readlink | op_follow_link.
Inductive FileSlot := op_readdir | op_open | op_write | op_read.

#[global] Instance InodeSlot_eq_dec : EqDecision InodeSlot.
Proof. solve_decision. Defined.
#[global] Instance FileSlot_eq_dec : EqDecision FileSlot.
Proof. solve_decision. Defined.

Definition DBFS_DIR_INODE_OPS : list InodeSlot :=
  [op_create; op_mkdir; op_link; op_unlink; op_symlink; op_lookup; op_rmdir;
   op_set_attr; op_get_attr; op_list_attr; op_remove_attr; op_rename].
Definition DBFS_FILE_INODE_OPS : list InodeSlot :=
  [op_set_attr; op_get_attr; op_list_attr; op_truncate].
Definition DBFS_SYMLINK_INODE_OPS : list InodeSlot :=
  [op_set_attr; op_get_attr; op_list_attr; op_readlink; op_follow_link].

Definition DBFS_DIR_FILE_OPS : list FileSlot := [op_readdir; op_open].
Definition DBFS_FILE_FILE_OPS : list FileSlot := [op_write; op_read; op_open].
Definition DBFS_SYMLINK_FILE_OPS : list FileSlot := [op_open].

Definition inode_ops_from_inode_mode (inode_mode : InodeMode) : list InodeSlot :=
  match inode_mode with
  | S_FILE => DBFS_FILE_INODE_OPS
  | S_DIR => DBFS_DIR_INODE_OPS
  | S_SYMLINK => DBFS_SYMLINK_INODE_OPS
  | S_OTHER => []
  end.

Definition file_ops_from_inode_mode (inode_mode : InodeMode) : list FileSlot :=
  match inode_mode with
  | S_FILE => DBFS_FILE_FILE_OPS
  | S_DIR => DBFS_DIR_FILE_OPS
  | S_SYMLINK => DBFS_SYMLINK_FILE_OPS
  | S_OTHER => []
  end.

(** A handle: an [Arc], or a [Weak] that may outlive its object. *)
Abbreviation handle_t := Z (only parsing).

(** The fields of [rvfs::inode::Inode] the sources use. *)
Record VInode := {
  i_number : Z; i_super_blk : handle_t; i_mode : InodeMode;
  i_ops : list InodeSlot; i_file_ops : list FileSlot;
  i_hard_links : Z; i_file_size : Z; i_uid : Z; i_gid : Z
}.

(** [rvfs::dentry::DirEntry] *)
Record VDentry := { d_name : bytes; d_inode : handle_t; d_parent : option handle_t }.

(** [rvfs::superblock::SuperBlock] *)
Record VSuper := {
  sb_block_size : Z; sb_magic : Z; sb_mount_flag : Z; sb_dev_name : bytes;
  sb_root : option handle_t
}.

Record VfsMem := {
  vm_inodes : gmap Z VInode;
  vm_dentries : gmap Z VDentry;
  vm_supers : gmap Z VSuper;            (** super blocks that are alive *)
  vm_mounted : list handle_t            (** [super_blk_s] of the file system type *)
}.

(** [rvfs::dentry::DirentType] *)
Inductive DirentType := DT_EMPTY | DT_UNKNOWN | DT_DIR | DT_REG | DT_LNK.

#[global] Instance DirentType_eq_dec : EqDecision DirentType.
Proof. solve_decision. Defined.

(** [impl Into<DirentType> for DbfsFileType] *)
Definition dirent_type (t : DbfsFileType) : DirentType :=
  match t with
  | NamedPipe | CharDevice | BlockDevice | Socket => DT_UNKNOWN
  | Directory => DT_DIR
  | RegularFile => DT_REG
  | Symlink => DT_LNK
  end.

(** [impl From<DbfsFileType> for InodeMode]; [None] is the panic. *)
Definition inode_mode_of_type (t : DbfsFileType) : option InodeMode :=
  match t with
  | Directory => Some S_DIR
  | RegularFile => Some S_FILE
  | Symlink => Some S_SYMLINK
  | _ => None
  end.

(** [rvfs::superblock::StatFs] and [impl From<DbfsFsStat> for StatFs] *)
Record StatFs := {
  sf_fs_type : Z; sf_block_size : Z; sf_total_blocks : Z; sf_free_blocks : Z;
  sf_total_inodes : Z; sf_name_len : Z; sf_name : bytes
}.

Definition statfs_of_stat (value : DbfsFsStat) : StatFs := {|
  sf_fs_type := as_u32 (f_fsid value); sf_block_size := f_bsize value;
  sf_total_blocks := f_blocks value; sf_free_blocks := f_bfree value;
  sf_total_inodes := f_files value; sf_name_len := as_u32 (f_namemax value);
  sf_name := f_name value
|}.

(** ** What the sources call of [rvfs]

    [create_tmp_inode_from_sb_blk] makes an inode of the given number, mode and
    tables; [DirEntry::new] a dentry of the given inode and name;
    [find_super_blk] searches the super blocks of a file system type and
    [insert_super_blk] adds one; [Dirent64::new(..).len()] is the length of a
    directory record, which the query for the needed size relies on to depend
    on the name only, and which has room for the name and its terminator after
    the [dirent_name_offset] bytes before the name; [dirent_size] is the size of
    the structure itself, padding included ([size_of::<Dirent64>()]). *)
Class Rvfs := {
  create_tmp_inode_from_sb_blk :
    handle_t -> Z -> InodeMode -> list InodeSlot -> list FileSlot -> bytes + VInode;
  DirEntry_new : handle_t -> bytes -> VDentry;
  find_super_blk : list (handle_t * VSuper) -> (VSuper -> bool) -> option handle_t;
  insert_super_blk : handle_t -> list handle_t -> list handle_t;
  dirent_len : bytes -> Z -> Z -> DirentType -> Z;
  dirent_name_offset : Z;
  dirent_size : Z;

  tmp_inode_fields sb n m ops fops i :
    create_tmp_inode_from_sb_blk sb n m ops fops = inr i ->
    i_number i = n /\ i_super_blk i = sb /\ i_mode i = m /\ i_ops i = ops /\ i_file_ops i = fops;
  tmp_inode_widths sb n m ops fops i :
    create_tmp_inode_from_sb_blk sb n m ops fops = inr i ->
    u32 (i_hard_links i) /\ u64 (i_file_size i) /\ u32 (i_uid i) /\ u32 (i_gid i);
  DirEntry_new_fields i n : d_inode (DirEntry_new i n) = i /\ d_name (DirEntry_new i n) = n;
  find_super_blk_some l f h :
    find_super_blk l f = Some h -> exists sb, (h, sb) ∈ l /\ f sb = true;
  find_super_blk_none l f h sb : find_super_blk l f = None -> (h, sb) ∈ l -> f sb = false;
  insert_super_blk_elem h l h' : h' ∈ insert_super_blk h l <-> h' = h \/ h' ∈ l;
  dirent_len_name n i o t i' o' t' : dirent_len n i o t = dirent_len n i' o' t';
  dirent_len_room n i o t :
    0 <= dirent_name_offset /\ dirent_name_offset + blen n + 1 <= dirent_len n i o t;
  dirent_size_name : dirent_name_offset <= dirent_size
}.

(** ** Access to the store *)

Section Store.
Context {E : Type}.

(** An [Arc] always refers to an object: the lookups never fail on a handle
    the caller holds. *)
Definition deref_inode (m : VfsMem) (h : handle_t) : Prog E VInode :=
  unwrap_option (vm_inodes m !! h).
Definition deref_dentry (m : VfsMem) (h : handle_t) : Prog E VDentry :=
  unwrap_option (vm_dentries m !! h).
Definition deref_super (m : VfsMem) (h : handle_t) : Prog E VSuper :=
  unwrap_option (vm_supers m !! h).

(** [dir.super_blk.upgrade().unwrap()]: a [Weak] of a dropped object panics. *)
Definition upgrade_super (m : VfsMem) (i : VInode) : Prog E handle_t :=
  match vm_supers m !! i_super_blk i with
  | Some _ => ret (i_super_blk i)
  | None => panic
  end.

(** [dentry.access_inner().d_inode.number] *)
Definition dentry_number (m : VfsMem) (dentry : handle_t) : Prog E Z :=
  d ← deref_dentry m dentry;
  i ← deref_inode m (d_inode d);
  ret (i_number i).
End Store.

Definition with_inodes (f : gmap Z VInode -> gmap Z VInode) (m : VfsMem) : VfsMem :=
  {| vm_inodes := f (vm_inodes m); vm_dentries := vm_dentries m;
     vm_supers := vm_supers m; vm_mounted := vm_mounted m |}.
Definition with_dentries (f : gmap Z VDentry -> gmap Z VDentry) (m : VfsMem) : VfsMem :=
  {| vm_inodes := vm_inodes m; vm_dentries := f (vm_dentries m);
     vm_supers := vm_supers m; vm_mounted := vm_mounted m |}.

Definition set_links (z : Z) (i : VInode) : VInode :=
  {| i_number := i_number i; i_super_blk := i_super_blk i; i_mode := i_mode i; i_ops := i_ops i;
     i_file_ops := i_file_ops i; i_hard_links := z; i_file_size := i_file_size i;
     i_uid := i_uid i; i_gid := i_gid i |}.
Definition set_fsize (z : Z) (i : VInode) : VInode :=
  {| i_number := i_number i; i_super_blk := i_super_blk i; i_mode := i_mode i; i_ops := i_ops i;
     i_file_ops := i_file_ops i; i_hard_links := i_hard_links i; i_file_size := z;
     i_uid := i_uid i; i_gid := i_gid i |}.
Definition set_owner (u g : Z) (i : VInode) : VInode :=
  {| i_number := i_number i; i_super_blk := i_super_blk i; i_mode := i_mode i; i_ops := i_ops i;
     i_file_ops := i_file_ops i; i_hard_links := i_hard_links i; i_file_size := i_file_size i;
     i_uid := u; i_gid := g |}.
Definition set_d_inode (h : handle_t) (d : VDentry) : VDentry :=
  {| d_name := d_name d; d_inode := h; d_parent := d_parent d |}.

(** [Arc::new(..)]: a handle no object has. *)
Definition new_handle {A} (s : gmap Z A) : handle_t := fresh (dom s).
Definition alloc_inode (i : VInode) (m : VfsMem) : handle_t * VfsMem :=
  let h := new_handle (vm_inodes m) in (h, with_inodes (insert h i) m).
Definition alloc_dentry (d : VDentry) (m : VfsMem) : handle_t * VfsMem :=
  let h := new_handle (vm_dentries m) in (h, with_dentries (insert h d) m).

Section Ops.
Context `{Config} `{Rvfs}.

(** [x.access_inner().hard_links += d], [x.access_inner().file_size += d]:
    checked or wrapping, at the width of the field. *)
Definition links_plus {E} (h : handle_t) (d : Z) (m : VfsMem) : Prog E VfsMem :=
  i ← deref_inode m h;
  z ← wrapping 32 (i_hard_links i + d);
  ret (with_inodes (insert h (set_links z i)) m).
Definition fsize_plus {E} (h : handle_t) (d : Z) (m : VfsMem) : Prog E VfsMem :=
  i ← deref_inode m h;
  z ← wrapping 64 (i_file_size i + d);
  ret (with_inodes (insert h (set_fsize z i)) m).

(** [create_tmp_inode_from_sb_blk(..)?] *)
Definition tmp_inode (sb : handle_t) (n : Z) (md : InodeMode) (ops : list InodeSlot)
    (fops : list FileSlot) : Prog bytes VInode :=
  match create_tmp_inode_from_sb_blk sb n md ops fops with
  | inl e => throw e
  | inr i => ret i
  end.

(** ** Inode operations ([inode.rs]) *)

Definition dbfs_rvfs_create (dir dentry : handle_t) (mode : Z) (inode_mode : InodeMode)
    (target_path : option bytes) (m : VfsMem) : Prog bytes VfsMem :=
  d ← deref_inode m dir;
  let dir_number := i_number d in
  de ← deref_dentry m dentry;
  let name := d_name de in
  let permission := permission_from_mode inode_mode in
  attr ← map_err (fun _ => bs "dbfs_rvfs_create: dbfs_common_create failed")
           (dbfs_common_create dir_number name 0 0 time_default permission target_path None);
  sb ← upgrade_super m d;
  n_inode ← tmp_inode sb (attr_ino attr) inode_mode (inode_ops_from_inode_mode inode_mode)
              (file_ops_from_inode_mode inode_mode);
  let '(h, m) := alloc_inode n_inode m in
  m ← fsize_plus dir 1 m;
  ret (with_dentries (alter (set_d_inode h) dentry) m).

Definition dbfs_create (dir dentry : handle_t) (mode : Z) (m : VfsMem) : Prog bytes VfsMem :=
  dbfs_rvfs_create dir dentry mode S_FILE None m.
Definition dbfs_mkdir (dir dentry : handle_t) (mode : Z) (m : VfsMem) : Prog bytes VfsMem :=
  dbfs_rvfs_create dir dentry mode S_DIR None m.

(** [FileMode::FMODE_READ] is not used by [permission_from_mode]. *)
Definition dbfs_symlink (dir dentry : handle_t) (target : bytes) (m : VfsMem)
  : Prog bytes VfsMem :=
  dbfs_rvfs_create dir dentry 1 S_SYMLINK (Some target) m.

Definition dbfs_link (old_dentry dir new_dentry : handle_t) (m : VfsMem) : Prog bytes VfsMem :=
  od ← deref_dentry m old_dentry;
  let old_inode := d_inode od in
  oi ← deref_inode m old_inode;
  let ino := i_number oi in
  nd ← deref_dentry m new_dentry;
  let name := d_name nd in
  di ← deref_inode m dir;
  let new_ino := i_number di in
  map_err (fun _ => bs "DbfsError::NotFound")
    (dbfs_common_link 0 0 ino new_ino name time_default);;
  m ← links_plus old_inode 1 m;
  m ← fsize_plus dir 1 m;
  ret (with_dentries (alter (set_d_inode old_inode) new_dentry) m).

Definition dbfs_unlink (dir dentry : handle_t) (m : VfsMem) : Prog bytes VfsMem :=
  de ← deref_dentry m dentry;
  let inode := d_inode de in
  di ← deref_inode m dir;
  let number := i_number di in
  let name := d_name de in
  i ← deref_inode m inode;
  map_err (fun _ => bs "dbfs_common_unlink failed")
    (dbfs_common_unlink 0 0 number name (Some (i_number i)) time_default);;
  links_plus inode (-1) m.

Definition dbfs_lookup (dir dentry : handle_t) (m : VfsMem) : Prog bytes VfsMem :=
  d ← deref_inode m dir;
  let number := i_number d in
  de ← deref_dentry m dentry;
  let name := d_name de in
  res ← map_err (fun _ => bs "dbfs_common_lookup failed") (dbfs_common_lookup number name);
  inode_mode ← unwrap_option (inode_mode_of_type (attr_kind res));
  sb ← upgrade_super m d;
  n_inode ← tmp_inode sb (attr_ino res) inode_mode (inode_ops_from_inode_mode inode_mode)
              (file_ops_from_inode_mode inode_mode);
  let n_inode := set_fsize (attr_size res) n_inode in
  let n_inode := set_links (attr_nlink res) n_inode in
  let n_inode := set_owner (attr_uid res) (attr_gid res) n_inode in
  let '(h, m) := alloc_inode n_inode m in
  ret (with_dentries (alter (set_d_inode h) dentry) m).

Definition dbfs_rmdir (dir dentry : handle_t) (m : VfsMem) : Prog bytes VfsMem :=
  d ← deref_inode m dir;
  let number := i_number d in
  de ← deref_dentry m dentry;
  let name := d_name de in
  map_err (fun _ => bs "dbfs_common_rmdir failed")
    (dbfs_common_rmdir 0 0 number name time_default);;
  fsize_plus dir (-1) m.

(** [format!("attr:{}", key)] *)
Definition attr_key (key : bytes) : bytes := bs "attr:" ++ key.

Definition dbfs_setattr (dentry : handle_t) (key val : bytes) (m : VfsMem) : Prog bytes unit :=
  tx_unwrap true (
    number ← dentry_number m dentry;
    bucket ← unwrap (get_bucket [] (ino_key number));
    unwrap (put bucket (attr_key key) val);;
    unwrap commit).

(** The commit comes before the error of the deletion is returned. *)
Definition dbfs_removeattr (dentry : handle_t) (key : bytes) (m : VfsMem) : Prog bytes unit :=
  tx_unwrap true (
    number ← dentry_number m dentry;
    bucket ← unwrap (get_bucket [] (ino_key number));
    res ← attempt (bdelete bucket (attr_key key));
    unwrap commit;;
    match res with
    | inl _ => throw (bs "not found")
    | inr _ => ret tt
    end).

(** The result is the length of the value and the caller's buffer. *)
Definition dbfs_getattr (dentry : handle_t) (key buf : bytes) (m : VfsMem)
  : Prog bytes (Z * bytes) :=
  tx_unwrap false (
    number ← dentry_number m dentry;
    bucket ← unwrap (get_bucket [] (ino_key number));
    value ← get_kv bucket (attr_key key);
    match value with
    | None => throw (bs "not found")
    | Some value =>
        let len := Z.min (blen value) (blen buf) in
        ret (blen value, splice buf 0 (slice value 0 len))
    end).

(** One pair of the listing: [len] bytes of [buf] are used, [total] are needed. *)
Definition listattr_step (acc : Z * Z * bytes) (kv : bytes * bytes) : Prog bytes (Z * Z * bytes) :=
  let '(len, total, buf) := acc in
  if starts_with (bs "attr:") kv.1 then
    key ← unwrap_option (after_first x3a kv.1);
    let key_len := blen key in
    total ← add64 total (key_len + 1);
    if blen buf <=? len + key_len then ret (len, total, buf)
    else ret (len + key_len + 1, total, splice (splice buf len key) (len + key_len) [x00])
  else ret acc.

Fixpoint listattr_loop (kvs : list (bytes * bytes)) (acc : Z * Z * bytes)
  : Prog bytes (Z * Z * bytes) :=
  match kvs with
  | [] => ret acc
  | kv :: kvs => acc ← listattr_step acc kv; listattr_loop kvs acc
  end.

Definition dbfs_listattr (dentry : handle_t) (buf : bytes) (m : VfsMem)
  : Prog bytes (Z * bytes) :=
  tx_unwrap false (
    number ← dentry_number m dentry;
    bucket ← unwrap (get_bucket [] (ino_key number));
    kvs ← kv_pairs bucket;
    '(_, total, buf) ← listattr_loop kvs (0, 0, buf);
    ret (total, buf)).

Definition dbfs_readlink (dentry : handle_t) (buf : bytes) (m : VfsMem) : Prog bytes (Z * bytes) :=
  number ← dentry_number m dentry;
  map_err (fun _ => bs "not a symlink") (dbfs_common_readlink number buf).

(** [symlink_names] of the caller's [LookUpData] is the argument and the result. *)
Definition dbfs_followlink (dentry : handle_t) (symlink_names : list bytes) (m : VfsMem)
  : Prog bytes (list bytes) :=
  tx_unwrap false (
    number ← dentry_number m dentry;
    bucket ← unwrap (get_bucket [] (ino_key number));
    value ← get_kv bucket k_data;
    value ← unwrap_option value;
    assert_prog (utf8_valid value);;
    ret (symlink_names ++ [value])).

(** The sizes are stored as decimal text, and the entry refers to the number of
    the new directory. *)
Definition dbfs_rename (old_dir old_dentry new_dir new_dentry : handle_t) (m : VfsMem)
  : Prog bytes VfsMem :=
  tx_unwrap false (
    od ← deref_inode m old_dir;
    let old_number := i_number od in
    old_bucket ← unwrap (get_bucket [] (ino_key old_number));
    ode ← deref_dentry m old_dentry;
    let old_name := d_name ode in
    let key := generate_data_key old_name in
    kv ← get_kv old_bucket key;
    nd ← deref_inode m new_dir;
    let new_number := i_number nd in
    match kv with
    | Some value =>
        assert_prog (utf8_valid value);;
        _ ← parse_ino value;
        nde ← deref_dentry m new_dentry;
        let new_name := d_name nde in
        let new_value := fmt_usize new_number in
        tx_unwrap true (
          old_bucket ← unwrap (get_bucket [] (ino_key old_number));
          m ← (if new_number =? old_number then
                 unwrap (put old_bucket key new_value);;
                 ret m
               else
                 new_bucket ← unwrap (get_bucket [] (ino_key new_number));
                 unwrap (bdelete old_bucket key);;
                 size ← read_usize old_bucket k_size;
                 size ← sub64 size 1;
                 unwrap (put old_bucket k_size (fmt_usize size));;
                 let new_key := generate_data_key new_name in
                 unwrap (put new_bucket new_key new_value);;
                 size ← read_usize new_bucket k_size;
                 size ← add64 size 1;
                 unwrap (put new_bucket k_size (fmt_usize size));;
                 m ← fsize_plus old_dir (-1) m;
                 fsize_plus new_dir 1 m);
          unwrap commit;;
          ret m)
    | None => throw (bs "dbfs_rename: old_dentry not found")
    end).

Definition dbfs_truncate (inode : handle_t) (m : VfsMem) : Prog bytes unit :=
  i ← deref_inode m inode;
  let number := i_number i in
  let f_size := i_file_size i in
  map_err (fun _ => bs "dbfs_truncate: truncate failed")
    (dbfs_common_truncate 0 0 number time_default f_size);;
  ret tt.

(** ** File operations ([file.rs]); a file is its dentry *)

Definition dbfs_file_write (f_dentry : handle_t) (buf : bytes) (offset : Z) (m : VfsMem)
  : Prog bytes Z :=
  number ← dentry_number m f_dentry;
  map_err (fun _ => bs "dbfs_common_write error") (dbfs_common_write number buf offset).

Definition dbfs_file_read (f_dentry : handle_t) (buf : bytes) (offset : Z) (m : VfsMem)
  : Prog bytes (Z * bytes) :=
  number ← dentry_number m f_dentry;
  map_err (fun _ => bs "dbfs_common_read error") (dbfs_common_read number buf offset).

(** A record written at [dr_at] bytes from the start of the caller's buffer. *)
Record DirRecord := {
  dr_at : Z; dr_name : bytes; dr_ino : Z; dr_offset : Z; dr_type : DirentType; dr_len : Z
}.

(** [str.rsplitn(2, ':')[0]]: what follows the last colon. *)
Fixpoint after_last (c : byte) (l : bytes) : option bytes :=
  match l with
  | [] => None
  | x :: l' =>
      match after_last c l' with
      | Some r => Some r
      | None => if bool_decide (x = c) then Some l' else None
      end
  end.

(** The length of all records, from the pairs of the directory. *)
Fixpoint readdir_needed (kvs : list (bytes * bytes)) (acc : Z) : Prog bytes Z :=
  match kvs with
  | [] => ret acc
  | (key, _) :: kvs =>
      if starts_with (bs "data:") key then
        assert_prog (utf8_valid key);;
        let name := default key (after_last x3a key) in
        acc ← add64 acc (dirent_len name 1 0 DT_EMPTY);
        readdir_needed kvs acc
      else readdir_needed kvs acc
  end.

(** [for i in 0..res]: the records that fit, their length, the next offset, and
    whether the buffer is full.  A record is stored in two parts: the whole
    structure, [*dirent_ptr = dirent], then the name and its terminator.  The
    length of the record is compared with the room that is left, the size of
    the structure is not: storing it past the end of the buffer is undefined
    behaviour in the source and a panic here. *)
Fixpoint readdir_fill (entries : list DbfsDirEntry) (buf_len count offset : Z)
    (out : list DirRecord) : Prog bytes (Z * Z * bool * list DirRecord) :=
  match entries with
  | [] => ret (count, offset, false, out)
  | x :: entries =>
      let t := dirent_type (de_kind x) in
      let len := dirent_len (de_name x) (de_ino x) (de_offset x) t in
      let offset := de_offset x + 1 in
      if count + len <=? buf_len then
        assert_prog (count + dirent_size <=? buf_len);;
        assert_prog (count + dirent_name_offset + (blen (de_name x) + 1) <=? buf_len);;
        readdir_fill entries buf_len (count + len) offset
          (out ++ [{| dr_at := count; dr_name := de_name x; dr_ino := de_ino x;
                      dr_offset := de_offset x; dr_type := t; dr_len := len |}])
      else ret (count, offset, true, out)
  end.

(** [loop]; [fuel] bounds the rounds. *)
Fixpoint readdir_rounds (fuel : nat) (number buf_len count offset : Z) (out : list DirRecord)
  : Prog bytes (Z * list DirRecord) :=
  match fuel with
  | O => panic
  | S fuel =>
      r ← attempt (dbfs_common_readdir number offset false);
      match r with
      | inl _ => throw (bs "dbfs_common_readdir error")
      | inr (res, entries) =>
          if res =? 0 then ret (count, out)
          else
            '(count, offset, full, out) ← readdir_fill entries buf_len count offset out;
            if full then ret (count, out)
            else if res <? 16 then ret (count, out)
            else
              x ← unwrap_option (entries !! Z.to_nat (res - 1));
              push_readdir_table number {| rd_offset := de_offset x; rd_key := de_name x |};;
              readdir_rounds fuel number buf_len count offset out
      end
  end.

(** [dirents.len()] is [buf_len]; the result is the length and the records. *)
Definition dbfs_readdir (fuel : nat) (f_dentry : handle_t) (buf_len : Z) (m : VfsMem)
  : Prog bytes (Z * list DirRecord) :=
  number ← dentry_number m f_dentry;
  tx_unwrap false (
    bucket ← unwrap (get_bucket [] (ino_key number));
    if buf_len =? 0 then
      kvs ← kv_pairs bucket;
      n ← readdir_needed kvs 0;
      ret (n, [])
    else
      pop_readdir_table number;;
      readdir_rounds fuel number buf_len 0 0 []).

(** ** Super block operations ([fs_type.rs]) *)

Definition dbfs_create_simple_super_blk (flags : Z) (dev_name : bytes) : Prog bytes VSuper :=
  '(blk_size, magic) ← dbfs_load_super_blk;
  ret {| sb_block_size := blk_size; sb_magic := magic; sb_mount_flag := flags;
         sb_dev_name := dev_name; sb_root := None |}.

Definition dbfs_create_root_inode (sb_blk : handle_t) (m : VfsMem) : Prog bytes (handle_t * VfsMem) :=
  count ← map_err (fun _ => bs "create root inode failed")
            (dbfs_common_root_inode 0 0 time_default);
  inode ← tmp_inode sb_blk 1 S_DIR DBFS_DIR_INODE_OPS DBFS_DIR_FILE_OPS;
  let inode := set_links 0 inode in
  let inode := set_fsize count inode in
  ret (alloc_inode inode m).

(** The root is its own parent. *)
Definition dbfs_create_root_dentry (inode : handle_t) (m : VfsMem) : handle_t * VfsMem :=
  let dentry := DirEntry_new inode (bs "/") in
  let h := new_handle (vm_dentries m) in
  alloc_dentry {| d_name := d_name dentry; d_inode := d_inode dentry; d_parent := Some h |} m.

Definition set_root (root : handle_t) (sb : VSuper) : VSuper :=
  {| sb_block_size := sb_block_size sb; sb_magic := sb_magic sb;
     sb_mount_flag := sb_mount_flag sb; sb_dev_name := sb_dev_name sb; sb_root := Some root |}.

Definition with_supers (f : gmap Z VSuper -> gmap Z VSuper) (m : VfsMem) : VfsMem :=
  {| vm_inodes := vm_inodes m; vm_dentries := vm_dentries m;
     vm_supers := f (vm_supers m); vm_mounted := vm_mounted m |}.

Definition dbfs_fill_super_block (sb_blk : handle_t) (m : VfsMem) : Prog bytes VfsMem :=
  '(inode, m) ← dbfs_create_root_inode sb_blk m;
  let '(dentry, m) := dbfs_create_root_dentry inode m in
  ret (with_supers (alter (set_root dentry) sb_blk) m).

(** The super blocks of the file system type, with their handles. *)
Definition mounted_supers (m : VfsMem) : list (handle_t * VSuper) :=
  omap (fun h => match vm_supers m !! h with Some sb => Some (h, sb) | None => None end)
       (vm_mounted m).

Definition dbfs_get_super_blk (flags : Z) (dev_name : bytes) (m : VfsMem)
  : Prog bytes (handle_t * VfsMem) :=
  let compare := fun sb => bool_decide (sb_dev_name sb = dev_name) in
  match find_super_blk (mounted_supers m) compare with
  | Some _ => throw (bs "super block exist, can't create new one")
  | None =>
      sb_blk ← dbfs_create_simple_super_blk flags dev_name;
      let h := new_handle (vm_supers m) in
      let m := with_supers (insert h sb_blk) m in
      m ← dbfs_fill_super_block h m;
      ret (h, {| vm_inodes := vm_inodes m; vm_dentries := vm_dentries m;
                 vm_supers := vm_supers m; vm_mounted := insert_super_blk h (vm_mounted m) |})
  end.

Definition dbfs_kill_super_blk {E} : Prog E unit := unwrap dbfs_common_umount.

Definition dbfs_stat_fs (sb_blk : handle_t) (m : VfsMem) : Prog bytes StatFs :=
  sb ← deref_super m sb_blk;
  stat ← map_err (fun _ => bs "statfs error")
           (dbfs_common_statfs (Some (sb_block_size sb)) (Some (sb_magic sb))
              (Some (sb_mount_flag sb)));
  ret (statfs_of_stat stat).
End Ops.
