(* ===== verification/Extend.v ===== *)
(** * [extend.rs]: operations on user buckets

    A client describes changes to a bucket of its own, named by the path
    [root:key1:key2], as a set of operations that is run in one transaction;
    buckets may be nested.  The types [Operate] and [OperateSet] are those of
    the crate [dbop], with the fields the source uses. *)

From S2P Require Import Prelude Jammdb Effects Run RustStd Common.

(** ** Operations *)

Inductive Operate :=
  | RenameKey (old_key new_key : bytes)
  | AddKey (map : list (bytes * bytes))
  | AddBucket (key : bytes) (other : option OperateSet)
  | DeleteKey (keys : list bytes)
  | Read (keys : list bytes) (buf_addr buf_size : Z)
  | StepInto (key : bytes) (other : option OperateSet)
with OperateSet :=
  | mkOperateSet (operate : list Operate).

Definition operate (o : OperateSet) : list Operate := match o with mkOperateSet l => l end.

(** [s.split(c)] *)
Fixpoint split_on (c : byte) (s : bytes) : list bytes :=
  match s with
  | [] => [[]]
  | x :: s' =>
      if bool_decide (x = c) then [] :: split_on c s'
      else match split_on c s' with
           | [] => [[x]]
           | w :: ws => (x :: w) :: ws
           end
  end.

Section Ops.
Context {E : Type}.

(** [for x in l { body(x) }] *)
Fixpoint iter_prog {A} (l : list A) (body : A -> Prog E unit) : Prog E unit :=
  match l with
  | [] => ret tt
  | x :: l' => body x;; iter_prog l' body
  end.

(** [copy_bucket_data_recursive]; [fuel] bounds the depth of the nesting. *)
Fixpoint copy_bucket_data_recursive (fuel : nat) (old_bucket new_bucket : path) : Prog E unit :=
  match fuel with
  | O => panic
  | S fuel =>
      es ← cursor old_bucket;
      iter_prog es (fun data =>
        match data with
        | (key, KeyValue value) => unwrap (put new_bucket key value)
        | (bucket_name, Bucket) =>
            new_bucket' ← unwrap (create_bucket new_bucket bucket_name);
            old_bucket' ← unwrap (get_bucket old_bucket bucket_name);
            copy_bucket_data_recursive fuel old_bucket' new_bucket'
        end)
  end.

(** [Operate::RenameKey]; the early [continue]s leave the bucket as it is. *)
Definition rename_key (fuel : nat) (bucket : path) (old_key new_key : bytes) : Prog E unit :=
  v ← bget bucket old_key;
  match v with
  | None => ret tt
  | Some _ =>
      if bool_decide (old_key = new_key) then ret tt
      else
        v' ← bget bucket new_key;
        match v' with
        | Some _ => ret tt
        | None =>
            value ← bget bucket old_key;
            value ← unwrap_option value;
            match value with
            | KeyValue kv => unwrap (put bucket new_key kv)
            | Bucket =>
                new_bucket ← unwrap (create_bucket bucket new_key);
                old_bucket ← unwrap (get_bucket bucket old_key);
                copy_bucket_data_recursive fuel old_bucket new_bucket;;
                unwrap (delete_bucket bucket old_key)
            end
        end
  end.

(** [Operate::Read]: the bytes written from [buf_addr] on. *)
Fixpoint read_keys (bucket : path) (keys : list bytes) (buf_size offset : Z) (out : bytes)
  : Prog E bytes :=
  match keys with
  | [] => ret out
  | key :: keys =>
      value ← get_kv bucket key;
      value ← unwrap_option value;
      let len := Z.min (buf_size - offset) (blen value) in
      read_keys bucket keys buf_size (offset + len) (out ++ slice value 0 len)
  end.

(** [for i in operate.operate { .. }], with [one] the body of the loop; the
    result is the memory written by the reads, in order, as pairs of an address
    and the bytes. *)
Definition execute_all (one : path -> Operate -> Prog E (list (Z * bytes)))
  : path -> list Operate -> Prog E (list (Z * bytes)) :=
  fix execute_all bucket l :=
    match l with
    | [] => ret []
    | o :: l =>
        out ← one bucket o;
        rest ← execute_all bucket l;
        ret (out ++ rest)
    end.

Fixpoint execute_operate_one (fuel : nat) (bucket : path) (o : Operate) : Prog E (list (Z * bytes)) :=
  match o with
  | RenameKey old_key new_key => rename_key fuel bucket old_key new_key;; ret []
  | AddKey map => iter_prog map (fun kv => unwrap (put bucket kv.1 kv.2));; ret []
  | AddBucket key other =>
      r ← attempt (get_bucket bucket key);
      match r with
      | inr _ => ret []
      | inl _ =>
          new_bucket ← unwrap (create_bucket bucket key);
          match other with
          | Some (mkOperateSet l) => execute_all (execute_operate_one fuel) new_bucket l
          | None => ret []
          end
      end
  | DeleteKey keys => iter_prog keys (fun key => unwrap (bdelete bucket key));; ret []
  | Read keys buf_addr buf_size =>
      out ← read_keys bucket keys buf_size 0 [];
      ret [(buf_addr, out)]
  | StepInto key other =>
      new_bucket ← unwrap (get_bucket bucket key);
      match other with
      | Some (mkOperateSet l) => execute_all (execute_operate_one fuel) new_bucket l
      | None => ret []
      end
  end.

Definition execute_operate_real (fuel : nat) (bucket : path) (ops : OperateSet)
  : Prog E (list (Z * bytes)) :=
  execute_all (execute_operate_one fuel) bucket (operate ops).

(** [bucket = bucket.get_bucket(path[i]).unwrap()] along a path *)
Fixpoint descend (bucket : path) (names : list bytes) : Prog E path :=
  match names with
  | [] => ret bucket
  | n :: names => bucket' ← unwrap (get_bucket bucket n); descend bucket' names
  end.

Definition execute_operate (fuel : nat) (bucket : bytes) (ops : OperateSet)
  : Prog E (list (Z * bytes)) :=
  tx_unwrap true (
    match split_on x3a bucket with
    | [] => panic
    | root :: names =>
        b ← unwrap (get_bucket [] root);
        b ← descend b names;
        out ← execute_operate_real fuel b ops;
        unwrap commit;;
        ret out
    end).

(** [step_into], and the call of a user function on a bucket: the function is
    the caller's, [buf] its buffer. *)
Definition step_into (key : bytes) (bucket : path) : Prog bytes path :=
  map_err (fun _ => bs "not found") (get_bucket bucket key).

Fixpoint step_all (bucket : path) (names : list bytes) : Prog E path :=
  match names with
  | [] => ret bucket
  | n :: names => bucket' ← unwrap (step_into n bucket); step_all bucket' names
  end.

Definition execute {R : Type} (key : bytes) (func : bytes -> path -> bytes -> Prog E R)
    (buf : bytes) : Prog E R :=
  tx_unwrap true (
    let component := split_on x3a key in
    match component with
    | [] => panic
    | root :: rest =>
        bucket ← unwrap (get_bucket [] root);
        bucket ← step_all bucket (take (length rest - 1) rest);
        res ← func (List.last component []) bucket buf;
        unwrap commit;;
        ret res
    end).
End Ops.

Definition extend_create_global_bucket (key : bytes) : Prog bytes unit :=
  tx_unwrap true (
    bucket ← attempt (create_bucket [] key);
    match bucket with
    | inl _ => throw (bs "create bucket failed")
    | inr _ => unwrap commit
    end).
