(* ===== verification/Safe.v ===== *)
(** * Invariants of every command of a program

    [safe req ens p Q]: every command the program [p] issues satisfies [req],
    whatever the platform answers within [ens], and a result satisfies [Q].
    An invariant of the world that every command with [req] keeps, and that
    implies [ens] of the answers, is then an invariant of every run of [p]
    ([safe_run]), errors and panics included. *)

From S2P Require Import Prelude Jammdb Effects Run Common.

Section Safe.
Context (req : Cmd -> Prop) (ens : forall c, resp c -> Prop).

Fixpoint safe {E A} (p : Prog E A) (Q : A -> Prop) : Prop :=
  match p with
  | Done o => match o with Ok a => Q a | _ => True end
  | Step c k => req c /\ forall r, ens c r -> safe (k r) Q
  end.

Lemma safe_mono {E A} (p : Prog E A) (Q Q' : A -> Prop) :
  safe p Q -> (forall a, Q a -> Q' a) -> safe p Q'.
Proof.
  induction p as [[a|e|]|c k IH]; simpl; intros Hp HQ; auto.
  destruct Hp as [H1 H2]. split; [done|]. intros r Hr. eapply IH; eauto.
Qed.

Lemma safe_graft {E A E' B} (g : outcome E A -> Prog E' B) (p : Prog E A) Q :
  (forall e, safe (g (Err e)) Q) -> safe (g Panic) Q ->
  safe p (fun a => safe (g (Ok a)) Q) -> safe (graft g p) Q.
Proof.
  intros He Hp. induction p as [[a|e|]|c k IH]; simpl; auto.
  intros [H1 H2]. split; [done|]. intros r Hr. apply IH; auto.
Qed.

Lemma safe_bind {E A B} (p : Prog E A) (f : A -> Prog E B) Q :
  safe p (fun a => safe (f a) Q) -> safe (bind p f) Q.
Proof. intros. by apply safe_graft. Qed.
Lemma safe_map_err {E E' A} (f : E -> E') (p : Prog E A) Q : safe p Q -> safe (map_err f p) Q.
Proof. intros. by apply safe_graft. Qed.
Lemma safe_unwrap {E E' A} (p : Prog E A) Q : safe p Q -> safe (unwrap (E' := E') p) Q.
Proof. intros. by apply safe_graft. Qed.
Lemma safe_attempt {E E' A} (p : Prog E A) (Q : E + A -> Prop) :
  (forall e, Q (inl e)) -> safe p (fun a => Q (inr a)) -> safe (attempt (E' := E') p) Q.
Proof. intros. by apply safe_graft. Qed.
Lemma safe_ret {E A} (a : A) (Q : A -> Prop) : Q a -> safe (ret (E := E) a) Q.
Proof. done. Qed.
Lemma safe_unwrap_option {E A} (o : option A) (Q : A -> Prop) :
  (forall a, o = Some a -> Q a) -> safe (unwrap_option (E := E) o) Q.
Proof. destruct o; simpl; auto. Qed.

(** A program whose commands need no condition. *)
Lemma safe_true {E A} (p : Prog E A) : (forall c, req c) -> safe p (fun _ => True).
Proof. intros Hr. induction p as [[a|e|]|c k IH]; simpl; auto. Qed.

Lemma safe_with_tx {E A} wr onerr (body : Prog E A) Q :
  req (CBegin wr) -> req CEnd -> (forall e a, onerr e = Ok a -> Q a) ->
  safe body Q -> safe (with_tx wr onerr body) Q.
Proof.
  intros Hb He Hf Hp. unfold with_tx. simpl. split; [done|]. intros [e|[]] _; simpl.
  - destruct (onerr e) eqn:Ee; auto. by eapply Hf.
  - apply safe_graft; simpl; auto. eapply safe_mono; [exact Hp|]. auto.
Qed.

Section Sound.
Context `{Platform} (I : World -> Prop).
Hypothesis handle_safe : forall c w,
  req c -> I w -> let '(r, w') := handle c w in I w' /\ ens c r.

Lemma safe_run {E A} (p : Prog E A) Q w :
  safe p Q -> I w -> let '(o, w') := run p w in I w' /\ (forall a, o = Ok a -> Q a).
Proof.
  revert w. induction p as [o|c k IH]; intros w Hp Hw; simpl.
  - split; [done|]. by intros a ->.
  - destruct Hp as [Hc Hk]. pose proof (handle_safe c w Hc Hw) as Hh.
    destruct (handle c w) as [r w']. destruct Hh as [Hw' Hr]. by apply IH; auto.
Qed.
End Sound.
End Safe.
