(* ===== verification/Typed.v ===== *)
(** * The types of stored values

    DBFS keeps everything in untyped byte strings: an attribute is decoded by
    a macro that panics on a value of the wrong length, an entry by a parse
    that is unwrapped, a slice by indexing.  This file has the typing of keys
    ([typed_value]) and a logic, [tsafe], for programs that store only
    well-typed values whatever the platform answers. *)

From S2P Require Import Prelude Jammdb Effects Run RustStd Common Buckets Slices Safe.

(** ** Well-typed values *)

(** The keys with a value of fixed length. *)
Definition key_widths : list (bytes * nat) :=
  [(k_size, 8%nat); (k_mode, 2%nat); (k_hard_links, 4%nat); (k_uid, 4%nat); (k_gid, 4%nat);
   (k_atime, 12%nat); (k_mtime, 12%nat); (k_ctime, 12%nat); (k_block_size, 4%nat); (k_dev, 4%nat);
   (k_continue_number, 8%nat); (k_magic, 4%nat); (k_blk_size, 4%nat); (k_disk_size, 8%nat)].

Section Typed.
Context `{Config}.

Abbreviation skey := generate_data_key_with_number.

Record typed_value (k v : bytes) : Prop := {
  tv_width : forall w, In (k, w) key_widths -> length v = w;
  tv_entry : bs "data:" `prefix_of` k -> is_Some (parse_usize v);
  tv_slice : bs "zdata:" `prefix_of` k -> exists i, u32 i /\ k = skey i /\ blen v = SLICE_SIZE
}.

Definition typed_bucket (b : bucket) : Prop :=
  forall k d, b !! k = Some d -> exists v, d = KeyValue v /\ typed_value k v.
Definition typed_view (V : view) : Prop := forall p b, V !! p = Some b -> typed_bucket b.

(** ** Commands that keep a view well typed *)

Definition creq (c : Cmd) : Prop :=
  match c with
  | CPut _ k v => typed_value k v
  | CCreateBucket p _ => p = []
  | CInoStore n => u64 n
  | CAlloc n => 0 <= n
  | _ => True
  end.

(** What the answer to a command tells when the view is well typed. *)
Definition cens (c : Cmd) : resp c -> Prop :=
  match c with
  | CGet _ k => fun r => forall d, r = JOk (Some d) -> exists v, d = KeyValue v /\ typed_value k v
  | CInoFetchAdd _ | CInoLoad => fun r => u64 r
  | CAlloc n => fun r => forall m, r = Some m -> blen m.2 = n
  | _ => fun _ => True
  end.

(** Every run of [p] from a well-typed state stores well-typed values only;
    a result satisfies [Q]. *)
Abbreviation tsafe := (safe creq cens).

Lemma tsafe_mono {E A} (p : Prog E A) (Q Q' : A -> Prop) :
  tsafe p Q -> (forall a, Q a -> Q' a) -> tsafe p Q'.
Proof. apply safe_mono. Qed.
Lemma tsafe_bind {E A B} (p : Prog E A) (f : A -> Prog E B) Q :
  tsafe p (fun a => tsafe (f a) Q) -> tsafe (bind p f) Q.
Proof. apply safe_bind. Qed.
Lemma tsafe_map_err {E E' A} (f : E -> E') (p : Prog E A) Q : tsafe p Q -> tsafe (map_err f p) Q.
Proof. apply safe_map_err. Qed.
Lemma tsafe_unwrap {E E' A} (p : Prog E A) Q : tsafe p Q -> tsafe (unwrap (E' := E') p) Q.
Proof. apply safe_unwrap. Qed.
Lemma tsafe_attempt {E E' A} (p : Prog E A) (Q : E + A -> Prop) :
  (forall e, Q (inl e)) -> tsafe p (fun a => Q (inr a)) -> tsafe (attempt (E' := E') p) Q.
Proof. apply safe_attempt. Qed.
Lemma tsafe_with_tx {E A} wr onerr (body : Prog E A) Q :
  (forall e a, onerr e = Ok a -> Q a) -> tsafe body Q -> tsafe (with_tx wr onerr body) Q.
Proof. by apply safe_with_tx. Qed.

(** The calls. *)
Lemma tsafe_get_bucket p n : tsafe (get_bucket p n) (fun _ => True).
Proof. simpl. split; [done|]. by intros [] _. Qed.
Lemma tsafe_create_bucket n : tsafe (create_bucket [] n) (fun _ => True).
Proof. simpl. split; [done|]. by intros [] _. Qed.
Lemma tsafe_delete_bucket p n : tsafe (delete_bucket p n) (fun _ => True).
Proof. simpl. split; [done|]. by intros [] _. Qed.
Lemma tsafe_put p k v : typed_value k v -> tsafe (put p k v) (fun _ => True).
Proof. simpl. split; [done|]. by intros [] _. Qed.
Lemma tsafe_bdelete p k : tsafe (bdelete p k) (fun _ => True).
Proof. simpl. split; [done|]. by intros [] _. Qed.
Lemma tsafe_commit : tsafe commit (fun _ => True).
Proof. simpl. split; [done|]. by intros [] _. Qed.
Lemma tsafe_cursor {E} p : tsafe (cursor (E := E) p) (fun _ => True).
Proof. simpl. split; [done|]. by intros [] _. Qed.
Lemma tsafe_range {E} p a b : tsafe (range (E := E) p a b) (fun _ => True).
Proof. simpl. split; [done|]. by intros [] _. Qed.
Lemma tsafe_kv_pairs {E} p : tsafe (kv_pairs (E := E) p) (fun _ => True).
Proof. apply tsafe_bind. eapply tsafe_mono; [apply tsafe_cursor|]. done. Qed.
Lemma tsafe_ino_fetch_add {E} n : tsafe (ino_fetch_add (E := E) n) u64.
Proof. simpl. split; [done|]. by intros. Qed.
Lemma tsafe_ino_load {E} : tsafe (ino_load (E := E)) u64.
Proof. simpl. split; [done|]. by intros. Qed.
Lemma tsafe_ino_store {E} n : u64 n -> tsafe (ino_store (E := E) n) (fun _ => True).
Proof. simpl. done. Qed.
Lemma tsafe_alloc {E} n : 0 <= n -> tsafe (alloc (E := E) n) (fun m => blen m.2 = n).
Proof. simpl. split; [done|]. intros [m|] Hr; simpl; auto. Qed.
Lemma tsafe_dealloc {E} ptr n : tsafe (dealloc (E := E) ptr n) (fun _ => True).
Proof. done. Qed.
Lemma tsafe_get_kv {E} p k :
  tsafe (get_kv (E := E) p k) (fun r => forall v, r = Some v -> typed_value k v).
Proof.
  simpl. split; [done|]. intros [[d|]|e|] Hr; simpl; auto; [|done].
  intros v Hv. destruct (Hr _ eq_refl) as (v' & -> & Ht). by simplify_eq.
Qed.
Lemma tsafe_ret {E A} (a : A) (Q : A -> Prop) : Q a -> tsafe (ret (E := E) a) Q.
Proof. done. Qed.
Lemma tsafe_unwrap_option {E A} (o : option A) (Q : A -> Prop) :
  (forall a, o = Some a -> Q a) -> tsafe (unwrap_option (E := E) o) Q.
Proof. destruct o; simpl; auto. Qed.
Lemma tsafe_guard_err {E} b (e : E) : tsafe (guard_err b e) (fun _ => b = false).
Proof. by destruct b. Qed.
Lemma tsafe_assert {E} b : tsafe (assert_prog (E := E) b) (fun _ => b = true).
Proof. by destruct b. Qed.
Lemma tsafe_wrapping {E} bits z : 0 <= bits -> tsafe (wrapping (E := E) bits z) (fun r => 0 <= r < 2 ^ bits).
Proof.
  intros Hb. unfold wrapping. destruct (_ && _) eqn:Ez; simpl.
  - apply andb_true_iff in Ez as [?%Z.leb_le ?%Z.ltb_lt]. lia.
  - case_match; simpl; [done|]. apply Z.mod_pos_bound. lia.
Qed.
Lemma tsafe_throw {E A} (e : E) (Q : A -> Prop) : tsafe (throw e) Q.
Proof. done. Qed.

(** An attribute is read with its own width or not at all. *)
Lemma tsafe_read_be {E} w p k :
  tsafe (read_be (E := E) w p k) (fun z => 0 <= z < 2 ^ (8 * Z.of_nat w) /\
    forall w', In (k, w') key_widths -> w' = w).
Proof.
  apply tsafe_bind. eapply tsafe_mono; [apply tsafe_get_kv|]. intros r Hr. cbv beta.
  apply tsafe_bind, tsafe_unwrap_option. intros v ->. unfold be_macro.
  destruct (Nat.eqb_spec (length v) w) as [Hl|]; [|done]. simpl. split.
  - rewrite <- Hl. apply from_be_range.
  - intros w' Hin. rewrite <- Hl. symmetry. by apply (tv_width _ _ (Hr v eq_refl)).
Qed.
Lemma tsafe_read_time {E} p k : tsafe (read_time (E := E) p k) (fun _ => True).
Proof.
  apply tsafe_bind. eapply tsafe_mono; [apply tsafe_get_kv|]. intros r Hr. cbv beta.
  apply tsafe_bind, tsafe_unwrap_option. intros v ->. by apply tsafe_unwrap_option.
Qed.

(** ** Views through updates *)

Lemma typed_put b k v : typed_bucket b -> typed_value k v -> typed_bucket (<[k := KeyValue v]> b).
Proof.
  intros Hb Hv k' d. rewrite lookup_insert. case_decide; [|apply Hb].
  intros [= <-]. subst. eauto.
Qed.
Lemma typed_delete b k : typed_bucket b -> typed_bucket (delete k b).
Proof. intros Hb k' d. rewrite lookup_delete. case_decide; [done|apply Hb]. Qed.
Lemma typed_insert V p b : typed_view V -> typed_bucket b -> typed_view (<[p := b]> V).
Proof.
  intros HV Hb p' b'. rewrite lookup_insert. case_decide; [by intros [= <-]|apply HV].
Qed.
Lemma typed_empty : typed_bucket ∅.
Proof. intros k d. by rewrite lookup_empty. Qed.

Lemma typed_spec_put wr V p k v :
  typed_view V -> typed_value k v -> typed_view (spec_put wr V p k v).2.
Proof.
  intros HV Hv. unfold spec_put. destruct (V !! p) as [b|] eqn:E; [|done].
  repeat case_match; simpl; try done; apply typed_insert; auto; apply typed_put; eauto.
Qed.
Lemma typed_spec_delete wr V p k : typed_view V -> typed_view (spec_delete wr V p k).2.
Proof.
  intros HV. unfold spec_delete. destruct (V !! p) as [b|] eqn:E; [|done].
  repeat case_match; simpl; try done. apply typed_insert; auto. apply typed_delete; eauto.
Qed.
Lemma typed_spec_create wr V n : typed_view V -> typed_view (spec_create_bucket wr V [] n).2.
Proof.
  intros HV. unfold spec_create_bucket. simpl. repeat case_match; simpl; try done.
  apply typed_insert; [done|apply typed_empty].
Qed.
Lemma typed_spec_delete_bucket wr V p n :
  typed_view V -> typed_view (spec_delete_bucket wr V p n).2.
Proof.
  intros HV. unfold spec_delete_bucket. repeat case_match; simpl; try done.
  intros p' b'. rewrite lookup_alter. case_decide as Hp.
  - rewrite lookup_drop_tree. case_decide; [done|].
    destruct (V !! _) as [b|] eqn:Eb; [|done]. intros [= <-]. apply typed_delete; eauto.
  - rewrite lookup_drop_tree. case_decide; [done|apply HV].
Qed.
End Typed.

Abbreviation tsafe := (safe creq cens).

(** ** Soundness *)

(** The database, the open transactions and the counter are well typed. *)
Record typed_world `{Config} `{Platform} (w : World) : Prop := {
  tw_db : typed_view (db_view (w_db w));
  tw_txs : Forall (fun t => typed_view (tx_view t)) (w_txs w);
  tw_ino : u64 (w_ino w)
}.

Section Sound.
Context `{Config} `{Platform}.

Lemma typed_in_tx {A} (w : World) (f : Tx -> jres A * Tx) :
  typed_world w -> (forall t, typed_view (tx_view t) -> typed_view (tx_view (f t).2)) ->
  typed_world (in_tx w f).2.
Proof.
  intros [Hdb Htx Hi] Hf. unfold in_tx. destruct (w_txs w) as [|t ts] eqn:E.
  - split; simpl; [done|by rewrite E|done].
  - apply list.Forall_cons in Htx as [Ht Hts]. specialize (Hf t Ht).
    destruct (f t) as [r t']. split; simpl; auto.
Qed.

Lemma in_tx_resp {A} (w : World) (f : Tx -> jres A * Tx) (P : jres A -> Prop) :
  typed_world w -> P JPanic -> (forall t, typed_view (tx_view t) -> P (f t).1) -> P (in_tx w f).1.
Proof.
  intros [_ Htx _] HP Hf. unfold in_tx. destruct (w_txs w) as [|t ts]; [done|].
  apply list.Forall_cons in Htx as [Ht _]. specialize (Hf t Ht). by destruct (f t).
Qed.

Lemma typed_handle c w :
  creq c -> typed_world w -> let '(r, w') := handle c w in typed_world w' /\ cens c r.
Proof.
  intros Hc Hw. pose proof Hw as [Hdb Htx Hi].
  destruct c; simpl in Hc |- *;
    try (match goal with
         | |- context [read_tx w ?f] =>
             pose proof (typed_in_tx w (fun t => (f t, t)) Hw (fun t Ht => Ht)) as H1;
             unfold read_tx; destruct (in_tx w _) eqn:E; split; [exact H1|exact I]
         end).
  - destruct (db_tx (w_db w) writable) as [[e|t] d] eqn:Et;
      pose proof (db_tx_keeps (w_db w) writable) as Hk; rewrite Et in Hk; simpl in Hk;
      (split; [split; simpl|done]); rewrite ?Hk; auto.
    apply db_tx_view in Et as [Ht _]. constructor; [by rewrite Ht|done].
  - split; [split; simpl|done]; auto. destruct (w_txs w); [done|]. by apply list.Forall_cons in Htx as [].
  - destruct (w_txs w) as [|t ts] eqn:E; [done|].
    destruct (db_commit (w_db w) t) as [[e|[]] d] eqn:Ec; (split; [split; simpl|done]); auto.
    + by rewrite (db_commit_keeps _ _ _ _ Ec).
    + rewrite (db_commit_view _ _ _ Ec). by apply list.Forall_cons in Htx as [].
  - subst p. pose proof (typed_in_tx w (fun t => j_create_bucket t [] n) Hw) as H1.
    destruct (in_tx w _); split; [|done]. apply H1. intros t Ht.
    pose proof (f_equal snd (j_create_bucket_spec t [] n)) as Hs.
    simpl in Hs |- *. rewrite Hs. by apply typed_spec_create.
  - pose proof (typed_in_tx w (fun t => j_delete_bucket t p n) Hw) as H1.
    destruct (in_tx w _); split; [|done]. apply H1. intros t Ht.
    pose proof (f_equal snd (j_delete_bucket_spec t p n)) as Hs.
    simpl in Hs |- *. rewrite Hs.
    by apply typed_spec_delete_bucket.
  - pose proof (typed_in_tx w (fun t => (j_get t p k, t)) Hw (fun t Ht => Ht)) as H1.
    pose proof (in_tx_resp w (fun t => (j_get t p k, t)) (cens (CGet p k)) Hw) as H2.
    unfold read_tx. destruct (in_tx w _); split; [exact H1|]. apply H2; [done|].
    intros t Ht. simpl. rewrite j_get_spec. unfold spec_get.
    destruct (tx_view t !! p) as [b|] eqn:Eb; [|done]. intros d [= Hd]. by apply (Ht p b Eb).
  - pose proof (typed_in_tx w (fun t => j_put t p k v) Hw) as H1.
    destruct (in_tx w _); split; [|done]. apply H1. intros t Ht.
    pose proof (f_equal snd (j_put_spec t p k v)) as Hs.
    simpl in Hs |- *. rewrite Hs. by apply typed_spec_put.
  - pose proof (typed_in_tx w (fun t => j_delete t p k) Hw) as H1.
    destruct (in_tx w _); split; [|done]. apply H1. intros t Ht.
    pose proof (f_equal snd (j_delete_spec t p k)) as Hs.
    simpl in Hs |- *. rewrite Hs. by apply typed_spec_delete.
  - split; [split; simpl|]; auto. apply Z.mod_pos_bound. lia.
  - done.
  - split; [split|]; done.
  - split; [split|]; done.
  - split; [split|]; done.
  - done.
  - destruct (heap_alloc (w_heap w) n) as [m h] eqn:Eh. split; [split; done|].
    intros m' ->. by apply (heap_alloc_length _ _ _ _ Hc Eh).
  - split; [split|]; done.
Qed.

(** A program that is [tsafe] keeps the state well typed. *)
Lemma tsafe_run {E A} (p : Prog E A) Q w :
  tsafe p Q -> typed_world w ->
  let '(o, w') := run p w in typed_world w' /\ (forall a, o = Ok a -> Q a).
Proof. apply safe_run, typed_handle. Qed.
End Sound.
