(* ===== verification/Atomic.v ===== *)
(** * Failure atomicity

    A call that fails, whether with an error or with a panic, on any platform
    and at any point, must leave the committed contents of the database as
    they were.  [atomic p] is a discipline on the shape of a program that
    guarantees it: nothing can fail after a successful commit. *)

From S2P Require Import Prelude Jammdb Effects Run Common.

Definition is_commit (c : Cmd) : bool := match c with CCommit => true | _ => false end.

(** [p] does not commit. *)
Fixpoint quiet {E A} (p : Prog E A) : Prop :=
  match p with
  | Done _ => True
  | Step c k => is_commit c = false /\ forall r, quiet (k r)
  end.

(** [p] does not commit and cannot fail. *)
Fixpoint settled {E A} (p : Prog E A) : Prop :=
  match p with
  | Done o => exists a, o = Ok a
  | Step c k => is_commit c = false /\ forall r, settled (k r)
  end.

(** [p] commits at most once, and cannot fail afterwards. *)
Fixpoint atomic {E A} (p : Prog E A) : Prop :=
  match p with
  | Done _ => True
  | Step c k =>
      match c as c' return (resp c' -> Prog E A) -> Prop with
      | CCommit => fun k => forall r, match r with inl _ => quiet (k r) | inr _ => settled (k r) end
      | _ => fun k => forall r, atomic (k r)
      end k
  end.

(** ** Composition *)

Lemma quiet_graft {E A E' B} (g : outcome E A -> Prog E' B) p :
  (forall o, quiet (g o)) -> quiet p -> quiet (graft g p).
Proof.
  intros Hg. induction p as [o|c k IH]; simpl; [auto|]. intros [Hc Hk]. split; [done|]. auto.
Qed.
Lemma quiet_bind {E A B} (p : Prog E A) (f : A -> Prog E B) :
  quiet p -> (forall a, quiet (f a)) -> quiet (bind p f).
Proof. intros Hp Hf. apply quiet_graft; [|done]. by intros []. Qed.
Lemma quiet_map_err {E E' A} (f : E -> E') (p : Prog E A) : quiet p -> quiet (map_err f p).
Proof. apply quiet_graft. by intros []. Qed.
Lemma quiet_unwrap {E E' A} (p : Prog E A) : quiet p -> quiet (unwrap (E' := E') p).
Proof. apply quiet_graft. by intros []. Qed.
Lemma quiet_attempt {E E' A} (p : Prog E A) : quiet p -> quiet (attempt (E' := E') p).
Proof. apply quiet_graft. by intros []. Qed.
Lemma quiet_with_tx {E A} wr onerr (body : Prog E A) : quiet body -> quiet (with_tx wr onerr body).
Proof. intros Hb. split; [done|]. intros [e|[]]; [done|]. by apply quiet_graft. Qed.

Lemma quiet_atomic {E A} (p : Prog E A) : quiet p -> atomic p.
Proof.
  induction p as [o|c k IH]; [done|]. intros [Hc Hk]. destruct c; simpl in *; auto; done.
Qed.

Lemma settled_graft {E A E' B} (g : outcome E A -> Prog E' B) p :
  (forall a, settled (g (Ok a))) -> settled p -> settled (graft g p).
Proof.
  intros Hg. induction p as [o|c k IH]; simpl.
  - by intros [a ->].
  - intros [Hc Hk]. split; [done|]. auto.
Qed.

(** What a graft must do with the results of a program, so that the whole
    stays atomic: after a commit it continues without failing. *)
Lemma atomic_graft {E A E' B} (g : outcome E A -> Prog E' B) p :
  (forall o, quiet (g o)) -> (forall a, settled (g (Ok a))) -> atomic p -> atomic (graft g p).
Proof.
  intros Hq Hs. induction p as [o|c k IH]; simpl.
  - intros _. by apply quiet_atomic.
  - destruct c; simpl; intros Hk; auto. intros [e|[]]; specialize (Hk (inl e)) || specialize (Hk (inr tt));
      simpl in Hk; [by apply quiet_graft|by apply settled_graft].
Qed.

Lemma atomic_bind_quiet {E A B} (p : Prog E A) (f : A -> Prog E B) :
  quiet p -> (forall a, atomic (f a)) -> atomic (bind p f).
Proof.
  intros Hp Hf. unfold bind. induction p as [o|c k IH]; simpl.
  - destruct o; [apply Hf|done|done].
  - destruct Hp as [Hc Hk]. destruct c; simpl; auto. done.
Qed.
Lemma settled_quiet {E A} (p : Prog E A) : settled p -> quiet p.
Proof. induction p as [o|c k IH]; [done|]. intros [Hc Hk]. split; [done|]. auto. Qed.
Lemma atomic_bind_settled {E A B} (p : Prog E A) (f : A -> Prog E B) :
  atomic p -> (forall a, settled (f a)) -> atomic (bind p f).
Proof.
  intros Hp Hf. apply atomic_graft; auto. intros [a|e|]; [by apply settled_quiet|done|done].
Qed.
Lemma atomic_map_err {E E' A} (f : E -> E') (p : Prog E A) : atomic p -> atomic (map_err f p).
Proof. apply atomic_graft; [by intros []|]. simpl. eauto. Qed.
Lemma atomic_unwrap {E E' A} (p : Prog E A) : atomic p -> atomic (unwrap (E' := E') p).
Proof. apply atomic_graft; [by intros []|]. simpl. eauto. Qed.
Lemma atomic_with_tx {E A} wr onerr (body : Prog E A) : atomic body -> atomic (with_tx wr onerr body).
Proof.
  intros Hb [e|[]]; [done|]. apply atomic_graft; simpl; eauto.
Qed.
Lemma atomic_commit : atomic commit.
Proof. intros [e|[]]; simpl; eauto. Qed.
Lemma settled_bind {E A B} (p : Prog E A) (f : A -> Prog E B) :
  settled p -> (forall a, settled (f a)) -> settled (bind p f).
Proof. intros Hp Hf. by apply settled_graft. Qed.

(** The library calls. *)
Create HintDb quiet.
Ltac quiet_call := split; [done|]; intros []; done.
Lemma quiet_get_bucket p n : quiet (get_bucket p n).
Proof. quiet_call. Qed.
Lemma quiet_create_bucket p n : quiet (create_bucket p n).
Proof. quiet_call. Qed.
Lemma quiet_delete_bucket p n : quiet (delete_bucket p n).
Proof. quiet_call. Qed.
Lemma quiet_put p k v : quiet (put p k v).
Proof. quiet_call. Qed.
Lemma quiet_bdelete p k : quiet (bdelete p k).
Proof. quiet_call. Qed.
Lemma quiet_get_kv {E} p k : quiet (get_kv (E := E) p k).
Proof. apply quiet_bind; [quiet_call|done]. Qed.
Lemma quiet_cursor {E} p : quiet (cursor (E := E) p).
Proof. quiet_call. Qed.
Lemma quiet_seek {E} p k : quiet (seek (E := E) p k).
Proof. quiet_call. Qed.
Lemma quiet_range {E} p a b : quiet (range (E := E) p a b).
Proof. quiet_call. Qed.
Lemma quiet_ino_fetch_add {E} n : quiet (ino_fetch_add (E := E) n).
Proof. done. Qed.
Lemma quiet_ino_load {E} : quiet (ino_load (E := E)).
Proof. done. Qed.
Lemma quiet_ino_store {E} n : quiet (ino_store (E := E) n).
Proof. done. Qed.
Lemma quiet_table_get {E} n : quiet (table_get (E := E) n).
Proof. done. Qed.
Lemma quiet_alloc {E} n : quiet (alloc (E := E) n).
Proof. quiet_call. Qed.
Lemma quiet_unwrap_option {E A} (o : option A) : quiet (unwrap_option (E := E) o).
Proof. by destruct o. Qed.
Lemma quiet_guard_err {E} b (e : E) : quiet (guard_err b e).
Proof. by destruct b. Qed.
Lemma quiet_assert {E} b : quiet (assert_prog (E := E) b).
Proof. by destruct b. Qed.
Lemma quiet_wrapping `{Config} {E} bits z : quiet (wrapping (E := E) bits z).
Proof. unfold wrapping. by repeat case_match. Qed.
Lemma quiet_read_be {E} w p k : quiet (read_be (E := E) w p k).
Proof.
  apply quiet_bind; [apply quiet_get_kv|]. intros v. apply quiet_bind; [apply quiet_unwrap_option|].
  intros v'. unfold be_macro. by case_match.
Qed.
Lemma quiet_read_time {E} p k : quiet (read_time (E := E) p k).
Proof.
  apply quiet_bind; [apply quiet_get_kv|]. intros v. apply quiet_bind; [apply quiet_unwrap_option|].
  intros v'. apply quiet_unwrap_option.
Qed.
Lemma quiet_parse_ino {E} v : quiet (parse_ino (E := E) v).
Proof. apply quiet_unwrap_option. Qed.
#[export] Hint Resolve quiet_get_bucket quiet_create_bucket quiet_delete_bucket quiet_put
  quiet_bdelete quiet_get_kv quiet_cursor quiet_seek quiet_range quiet_ino_fetch_add
  quiet_ino_load quiet_ino_store quiet_table_get quiet_alloc quiet_unwrap_option
  quiet_guard_err quiet_assert quiet_wrapping quiet_read_be quiet_read_time
  quiet_parse_ino : quiet.

(** Decide [quiet p] by the shape of [p]. *)
Ltac quiets :=
  repeat first
    [ progress intros
    | match goal with
      | |- quiet (bind _ _) => apply quiet_bind
      | |- quiet (q _) => apply quiet_map_err
      | |- quiet (map_err _ _) => apply quiet_map_err
      | |- quiet (unwrap _) => apply quiet_unwrap
      | |- quiet (attempt _) => apply quiet_attempt
      | |- quiet (tx_q _ _) => apply quiet_with_tx
      | |- quiet (tx_unwrap _ _) => apply quiet_with_tx
      | |- quiet (with_tx _ _ _) => apply quiet_with_tx
      | |- quiet (Done _) => exact I
      | |- quiet (ret _) => exact I
      | |- quiet (throw _) => exact I
      | |- quiet panic => exact I
      end
    | solve [eauto with quiet]
    | match goal with
      | |- quiet (match ?x with _ => _ end) => destruct x
      end ].

(** ... and [atomic p], up to the commit. *)
Ltac atomics :=
  repeat first
    [ progress intros
    | match goal with
      | |- atomic (tx_q _ _) => apply atomic_with_tx
      | |- atomic (tx_unwrap _ _) => apply atomic_with_tx
      | |- atomic (with_tx _ _ _) => apply atomic_with_tx
      | |- atomic (q commit) => apply atomic_map_err, atomic_commit
      | |- atomic (map_err _ commit) => apply atomic_map_err, atomic_commit
      | |- atomic (unwrap commit) => apply atomic_unwrap, atomic_commit
      | |- atomic (bind _ _) => apply atomic_bind_quiet; [solve [quiets]|]
      | |- atomic (bind _ _) => apply atomic_bind_settled; [|solve [simpl; eauto]]
      | |- atomic (match ?x with _ => _ end) => destruct x
      | |- atomic _ => apply quiet_atomic; solve [quiets]
      end ].

(** ** What the discipline guarantees *)

Section Sound.
Context `{Platform}.

Lemma handle_keeps c w :
  is_commit c = false -> db_view (w_db (handle c w).2) = db_view (w_db w).
Proof.
  intros Hc. destruct c; simpl; try done; unfold read_tx, in_tx;
    try (destruct (w_txs w) as [|t ts]; [done|]; simpl;
         repeat match goal with |- context [let '(_, _) := ?f in _] => destruct f end; done).
  - pose proof (db_tx_keeps (w_db w) writable) as Hk.
    by destruct (db_tx (w_db w) writable) as [[] ].
  - by destruct (heap_alloc (w_heap w) n).
Qed.

Lemma quiet_run {E A} (p : Prog E A) w :
  quiet p -> db_view (w_db (run p w).2) = db_view (w_db w).
Proof.
  revert w. induction p as [o|c k IH]; intros w; simpl; [done|]. intros [Hc Hk].
  pose proof (handle_keeps c w Hc) as Hh. destruct (handle c w) as [r w']. simpl in Hh.
  by rewrite IH.
Qed.

Lemma settled_run {E A} (p : Prog E A) w : settled p -> exists a, (run p w).1 = Ok a.
Proof.
  revert w. induction p as [o|c k IH]; intros w; simpl; [by intros [a ->]; eauto|].
  intros [Hc Hk]. destruct (handle c w) as [r w']. auto.
Qed.

Lemma atomic_run {E A} (p : Prog E A) w :
  atomic p ->
  (exists a, (run p w).1 = Ok a) \/ db_view (w_db (run p w).2) = db_view (w_db w).
Proof.
  revert w. induction p as [o|c k IH]; intros w; simpl; [by right|]. intros Hp.
  destruct (is_commit c) eqn:Ec.
  - destruct c; try done. simpl in *.
    destruct (w_txs w) as [|t ts]; [right; apply (quiet_run _ w (Hp (inl ReadOnlyTx)))|].
    destruct (db_commit (w_db w) t) as [[e|[]] d] eqn:Ed.
    + right. rewrite (quiet_run _ _ (Hp (inl e))). simpl. by eapply db_commit_keeps.
    + left. by apply settled_run, (Hp (inr tt)).
  - assert (Hk : forall r, atomic (k r)) by (by destruct c).
    pose proof (handle_keeps c w Ec) as Hh. destruct (handle c w) as [r w']. simpl in Hh.
    rewrite <- Hh. auto.
Qed.
End Sound.
