(* ===== verification/Samples.v ===== *)
(** * A concrete file system

    A small file system, made by running the model on [map_platform]; the
    witnesses of the theorems are stated on it. *)

From S2P Require Import Prelude Jammdb Effects Run RustStd Common Buckets Access Inode Create.
From S2P Require Import FsType.

(** Slices of 512 bytes, overflow checks on. *)
Definition cfg512 : Config.
Proof.
  refine {| SLICE_SIZE := 512; SLICE_SIZE_feature := _; overflow_checks := true |}.
  by apply (bool_decide_unpack _).
Defined.
#[local] Existing Instance cfg512.

Definition t0 : DbfsTimeSpec := {| sec := 1000; nsec := 5 |}.
Definition t1 : DbfsTimeSpec := {| sec := 2000; nsec := 7 |}.

(** An empty database, a counter of 1. *)
Definition blank : @World map_platform := @mkW map_platform (∅ : view) [] 1 ∅ 0.

(** The file system after [mkfs] on a 1 MiB disk and the creation of the root. *)
Definition root_world : @World map_platform :=
  snd (run (init_db (E := DbfsError) (2 ^ 20);; dbfs_common_root_inode 0 0 t0) blank).

(** A regular file [foo] (inode 2), a directory [sub] (inode 3) and a symbolic
    link [ln] to [foo] (inode 4), owned by root; the directory [home] (inode 5)
    of user 7 is sticky. *)
Definition sample_world : @World map_platform :=
  snd (run (
    dbfs_common_create 1 (bs "foo") 0 0 t0 (Z.lor Perm.S_IFREG 0x1a4) None None;;
    dbfs_common_create 1 (bs "sub") 0 0 t0 (Z.lor Perm.S_IFDIR 0x1ed) None None;;
    dbfs_common_create 1 (bs "ln") 0 0 t0 (Z.lor Perm.S_IFLNK 0x1ff) (Some (bs "foo")) None;;
    dbfs_common_create 1 (bs "home") 7 7 t0 (Z.lor Perm.S_IFDIR 0x3ff) None None)
  root_world).

Definition root_view : view := a_db (st root_world).
Definition sample_view : view := a_db (st sample_world).
Definition sample_state : AState := mkS sample_view [] 6 ∅.

Definition stat0 : Stat := {|
  st_mode := 0; st_size := 0; st_nlink := 0; st_uid := 0; st_gid := 0; st_blksize := 0;
  st_atime := t0; st_mtime := t0; st_ctime := t0; st_dev := None |}.

Definition bucket_of (V : view) (n : Z) : bucket := default ∅ (V !! ipath n).
Definition stat_at (V : view) (n : Z) : Stat := default stat0 (inode_stat V n).

(** [inode_at] by computation. *)
Definition is_kvb (b : bucket) : bool :=
  forallb (fun e => match e.2 with Bucket => false | _ => true end) (map_to_list b).
Definition inode_check (V : view) (n : Z) : bool :=
  match V !! ipath n with
  | Some b => is_kvb b && match stat_of b with Some _ => true | None => false end
  | None => false
  end.

Lemma is_kvb_sound b : is_kvb b = true -> kvb b.
Proof.
  intros Hb k Hk. apply elem_of_map_to_list in Hk. unfold is_kvb in Hb.
  rewrite forallb_forall in Hb. apply list_elem_of_In in Hk. by specialize (Hb _ Hk).
Qed.

Lemma inode_check_sound V n :
  inode_check V n = true -> inode_at V n (bucket_of V n) (stat_at V n).
Proof.
  unfold inode_check, bucket_of, stat_at, inode_stat. destruct (V !! _) as [b|] eqn:E; [|done].
  simpl. intros [Hk Hs]%andb_true_iff. destruct (stat_of b) eqn:Es; [|done].
  split; simpl; auto. by apply is_kvb_sound.
Qed.

(** Discharge a hypothesis of a theorem on concrete values. *)
Ltac concrete :=
  lazymatch goal with
  | |- inode_at _ _ (bucket_of _ _) (stat_at _ _) => apply inode_check_sound; vm_compute; reflexivity
  | |- _ /\ _ => split; concrete
  | |- stat_ok _ _ => unfold stat_ok; concrete
  | |- is_Some (Some _) => eexists; reflexivity
  | |- time_ok _ => split; concrete
  | |- create_args_ok _ _ _ _ _ _ => split; concrete
  | |- forall _, _ =>
      let H := fresh in
      intros H;
      lazymatch type of H with Some _ = Some _ => injection H as H; subst | _ => idtac end;
      first [ vm_compute in H; discriminate H | concrete ]
  | |- _ => first [ vm_compute; reflexivity | vm_compute; intuition congruence]
  end.

(** The sample is what its description says. *)
Example sample_entries :
  (fun n => dir_entry sample_view 1 n) <$> [bs "foo"; bs "sub"; bs "ln"; bs "home"; bs "bar"]
  = [Some 2; Some 3; Some 4; Some 5; None].
Proof. by vm_compute. Qed.

Example sample_root : inode_at sample_view 1 (bucket_of sample_view 1) (stat_at sample_view 1).
Proof. concrete. Qed.
