(* ===== verification/Namespace.v ===== *)
(** * Directory operations: what they do to the tree

    The theorems on [create], [lookup], [link], [unlink], [rmdir] and
    [readlink], stated on the entries and attributes of the inodes before and
    after the call. *)

From S2P Require Import Prelude Jammdb Effects Run RustStd Common Buckets Access Inode Create.
From S2P Require Import FsType Link Samples.

(** ** Entries and attributes of an updated view *)

Lemma inode_stat_insert V n b : inode_stat (<[ipath n := b]> V) n = stat_of b.
Proof. unfold inode_stat. by rewrite lookup_insert_eq. Qed.
Lemma inode_stat_insert_ne V n p b :
  ipath n <> p -> inode_stat (<[p := b]> V) n = inode_stat V n.
Proof. intros. unfold inode_stat. by rewrite lookup_insert_ne by congruence. Qed.
Lemma dir_entry_insert V n b name : dir_entry (<[ipath n := b]> V) n name = entry b name.
Proof. unfold dir_entry. by rewrite lookup_insert_eq. Qed.
Lemma dir_entry_insert_ne V n p b name :
  ipath n <> p -> dir_entry (<[p := b]> V) n name = dir_entry V n name.
Proof. intros. unfold dir_entry. by rewrite lookup_insert_ne by congruence. Qed.

Lemma inode_at_stat V n b a : inode_at V n b a -> inode_stat V n = Some a.
Proof. intros [Hb _ Hs]. unfold inode_stat. by rewrite Hb. Qed.
Lemma inode_at_entry V n b a name : inode_at V n b a -> dir_entry V n name = entry b name.
Proof. intros [Hb _ _]. unfold dir_entry. by rewrite Hb. Qed.

(** Entries through the updates of a directory. *)
Lemma entry_touch_dir size t b name : entry (touch_dir size t b) name = entry b name.
Proof. unfold touch_dir. by fld. Qed.

Lemma entry_put b name m name' :
  u64 m -> entry (<[generate_data_key name := KeyValue (fmt_usize m)]> b) name' =
             if decide (name' = name) then Some m else entry b name'.
Proof.
  intros Hm. case_decide; subst; [by apply entry_insert_eq|by apply entry_insert_other].
Qed.

Lemma entry_dir_add b name m size t name' :
  u64 m -> entry (dir_add b name m size t) name' =
             if decide (name' = name) then Some m else entry b name'.
Proof.
  intros Hm. unfold dir_add. fld. rewrite entry_put by done. by fld.
Qed.

Lemma dir_add_stat b a name m size t :
  stat_of b = Some a -> u64 size -> time_ok t ->
  stat_of (dir_add b name m size t) = Some (set_mtime t (set_ctime t (set_size size a))).
Proof. intros. unfold dir_add. eauto 8 with stat word. Qed.

(** ** Creation *)

Section Create.
Context `{Config}.

(** The outcome and the state after the creation of [name] in [dir]. *)
Definition create_post (D : view) (T : list (view * bool)) (dir : Z) (pa : Stat) (name : bytes)
    (n : Z) (a : Stat) (isdir : bool) (t : DbfsTimeSpec) (kind : DbfsFileType)
    (o : outcome DbfsError DbfsAttr) (s' : AState) : Prop :=
  o = Ok (new_attr n a kind) /\
  a_txs s' = T /\ a_ino s' = (n + 1) `mod` 2 ^ 64 /\
  inode_stat (a_db s') n = Some a /\
  inode_stat (a_db s') dir
    = Some (set_mtime t (set_ctime t (set_size (st_size pa + 1) pa))) /\
  (forall name', dir_entry (a_db s') dir name' =
     if decide (name' = name) then Some n else dir_entry D dir name') /\
  (forall name', dir_entry (a_db s') n name' =
     if isdir then
       if decide (name' = bs "..") then Some dir
       else if decide (name' = bs ".") then Some n else None
     else None) /\
  frame [ino_key dir; ino_key n] D (a_db s').

Lemma new_stat_range uid gid t permission target dev pa pb hl fs dv :
  stat_of pb = Some pa -> create_args_ok uid gid t permission target dev ->
  new_inode_params permission target dev = Some (hl, fs, dv) -> u64 fs ->
  stat_range (new_stat uid gid t permission pa hl fs dv).
Proof.
  intros Hst [Hu Hg Ht Hp _ Hdv] Hpar Hfs.
  pose proof (stat_of_range _ _ Hst) as (Hm & _ & _ & _ & Hpg & _).
  pose proof SLICE_SIZE_range.
  split; simpl; auto using new_inode_mode_u16.
  - unfold new_inode_params in Hpar. unfold u32. repeat case_match; simplify_eq; lia.
  - unfold creation_gid. by case_match.
  - unfold u32. lia.
  - intros d ->. unfold new_inode_params in Hpar. repeat case_match; simplify_eq; auto.
Qed.

(** Creation, on the entries and attributes. *)
Lemma wp_create_effect dir name uid gid t permission target dev hl fs dv kind D T n tb pb pa :
  inode_at D dir pb pa -> may_write pa uid gid = true -> st_size pa + 1 < 2 ^ 64 ->
  D !! ipath n = None -> u64 n -> u64 dir -> u64 fs ->
  create_args_ok uid gid t permission target dev ->
  new_inode_params permission target dev = Some (hl, fs, dv) ->
  file_type_of_perm permission = Some kind ->
  wp true (dbfs_common_create dir name uid gid t permission target dev)
     (create_post D T dir pa name n (new_stat uid gid t permission pa hl fs dv)
        (Perm.contains permission Perm.S_IFDIR) t kind)
     (mkS D T n tb).
Proof.
  intros Hd Hacc Hsz Hn Hn64 Hd64 Hfs Hargs Hpar Hkind.
  pose proof (stat_of_range _ _ (ia_stat _ _ _ _ Hd)) as (_ & Hszr & _).
  pose proof Hd as [HD Hkvb Hst].
  pose proof (new_stat_range _ _ _ _ _ _ _ _ _ _ _ Hst Hargs Hpar Hfs) as Hr.
  assert (Hne : ipath dir <> ipath n) by congruence.
  eapply wp_dbfs_common_create; eauto; [|done].
  repeat split; simpl.
  - rewrite inode_stat_insert. by apply new_bucket_stat.
  - rewrite inode_stat_insert_ne, inode_stat_insert by done.
    apply dir_add_stat; [done|unfold u64 in *; lia|apply Hargs].
  - intros name'. rewrite dir_entry_insert_ne, dir_entry_insert, entry_dir_add by done.
    by rewrite (inode_at_entry _ _ _ _ _ Hd).
  - intros name'. rewrite dir_entry_insert. by apply new_bucket_entry.
  - eauto 6 using list_elem_of_here, list_elem_of_further with stat.
Qed.

(** C11: creating [name] in a directory the caller may write returns the
    attributes of a new inode whose number is the counter; afterwards the
    directory has exactly one entry more, its size is one more and its times
    are the call's, the new inode has the attributes that [new_stat] describes
    and (a directory) the entries [.] and [..], the counter is advanced, and
    no other bucket has changed. *)
Theorem create_effect dir name uid gid t permission target dev hl fs dv kind D T n tb pb pa :
  inode_at D dir pb pa -> may_write pa uid gid = true -> st_size pa + 1 < 2 ^ 64 ->
  D !! ipath n = None -> u64 n -> u64 dir -> u64 fs ->
  create_args_ok uid gid t permission target dev ->
  new_inode_params permission target dev = Some (hl, fs, dv) ->
  file_type_of_perm permission = Some kind ->
  wp true (dbfs_common_create dir name uid gid t permission target dev)
     (create_post D T dir pa name n (new_stat uid gid t permission pa hl fs dv)
        (Perm.contains permission Perm.S_IFDIR) t kind)
     (mkS D T n tb).
Proof. apply wp_create_effect. Qed.

(** Looking up a name that was just created gives the new inode, with the
    attributes it was created with; every other name is found as before. *)
Theorem create_then_lookup dir name uid gid t permission target dev hl fs dv kind D T n tb pb pa :
  inode_at D dir pb pa -> may_write pa uid gid = true -> st_size pa + 1 < 2 ^ 64 ->
  D !! ipath n = None -> u64 n -> u64 dir -> fs + SLICE_SIZE < 2 ^ 64 ->
  create_args_ok uid gid t permission target dev ->
  new_inode_params permission target dev = Some (hl, fs, dv) ->
  file_type_of_perm permission = Some kind ->
  (is_device kind = true -> is_Some dv) ->
  wp true (dbfs_common_create dir name uid gid t permission target dev;;
           dbfs_common_lookup dir name)
     (fun o _ => o = Ok (attr_of_stat n (new_stat uid gid t permission pa hl fs dv) kind))
     (mkS D T n tb).
Proof.
  intros Hd Hacc Hsz Hn Hn64 Hd64 Hfs Hargs Hpar Hkind Hdev.
  pose proof SLICE_SIZE_range. pose proof Hd as [HD Hkvb Hst].
  assert (Hf0 : 0 <= fs).
  { unfold new_inode_params, blen in Hpar. repeat case_match; simplify_eq; lia. }
  assert (Hfs' : u64 fs) by (unfold u64; lia).
  pose proof (new_stat_range _ _ _ _ _ _ _ _ _ _ _ Hst Hargs Hpar Hfs') as Hr.
  assert (Hne : ipath dir <> ipath n) by congruence.
  apply wp_bind. eapply wp_dbfs_common_create; eauto; [|done]. cbv beta iota.
  eapply wp_lookup_found with (m := n) (t := kind).
  - simpl. rewrite lookup_insert_ne by congruence. apply lookup_insert_eq.
  - rewrite entry_dir_add by done. by rewrite decide_True.
  - apply lookup_insert_eq.
  - by apply new_bucket_stat.
  - split; [|split; [|split]]; simpl; try lia; [|done].
    by rewrite file_type_new_inode_mode.
  - done.
  - done.
Qed.
End Create.

Section CreateWitness.
#[local] Existing Instance cfg512.

Lemma create_effect_witness :
  wp true (dbfs_common_create 1 (bs "bar") 0 0 t1 (Z.lor Perm.S_IFREG 0x1a4) None None)
    (create_post sample_view [] 1 (stat_at sample_view 1) (bs "bar") 6
       (new_stat 0 0 t1 (Z.lor Perm.S_IFREG 0x1a4) (stat_at sample_view 1) 1 0 None)
       (Perm.contains (Z.lor Perm.S_IFREG 0x1a4) Perm.S_IFDIR) t1 RegularFile)
    sample_state.
Proof.
  apply (create_effect 1 (bs "bar") 0 0 t1 (Z.lor Perm.S_IFREG 0x1a4) None None 1 0 None
           RegularFile sample_view [] 6 ∅ (bucket_of sample_view 1)); concrete.
Defined.

Lemma create_then_lookup_witness :
  wp true (dbfs_common_create 1 (bs "d") 0 0 t1 (Z.lor Perm.S_IFCHR 0x1a4) None (Some 5);;
           dbfs_common_lookup 1 (bs "d"))
    (fun o _ => o = Ok (attr_of_stat 6
       (new_stat 0 0 t1 (Z.lor Perm.S_IFCHR 0x1a4) (stat_at sample_view 1) 1 0 (Some 5))
       CharDevice)) sample_state.
Proof.
  apply (create_then_lookup 1 (bs "d") 0 0 t1 (Z.lor Perm.S_IFCHR 0x1a4) None (Some 5) 1 0
           (Some 5) CharDevice sample_view [] 6 ∅ (bucket_of sample_view 1)); concrete.
Defined.
End CreateWitness.

(** ** Lookup *)

Section Lookup.
Context `{Config}.

(** [lookup] finds exactly the entries of the directory: it returns the
    attributes of the inode the entry refers to, or [NotFound] when there is
    no entry, and changes nothing. *)
Theorem lookup_spec dir name D T n tb pb pa a k :
  inode_at D dir pb pa ->
  match entry pb name with
  | Some m => inode_stat D m = Some a /\ stat_ok a k
  | None => fkv pb (generate_data_key name) = None
  end ->
  wp true (dbfs_common_lookup dir name)
     (fun o s' => s' = mkS D T n tb /\
        o = match dir_entry D dir name with
            | Some m => Ok (attr_of_stat m a k)
            | None => Err NotFound
            end)
     (mkS D T n tb).
Proof.
  intros Hd He. rewrite (inode_at_entry _ _ _ _ _ Hd). destruct Hd as [HD _ _].
  destruct (entry pb name) as [m|] eqn:Een.
  - destruct He as [Hs Hok]. unfold inode_stat in Hs.
    destruct (D !! ipath m) as [b|] eqn:Em; [|done]. simpl in Hs.
    eapply wp_lookup_found; eauto; done.
  - eapply wp_lookup_missing; eauto; done.
Qed.
End Lookup.

(** ** Unlink and rmdir *)

Section Remove.
Context `{Config}.

(** The state after the removal of [name] from [dir]; [stat_m] are the
    attributes of the inode it referred to, if it is still there. *)
Definition remove_post (D : view) (T : list (view * bool)) (n : Z) (dir : Z) (pa : Stat)
    (name : bytes) (m : Z) (bm : option bucket) (stat_m : option Stat) (t : DbfsTimeSpec)
    (o : outcome DbfsError unit) (s' : AState) : Prop :=
  o = Ok tt /\ a_txs s' = T /\ a_ino s' = n /\
  inode_stat (a_db s') dir
    = Some (set_mtime t (set_ctime t (set_size (st_size pa - 1) pa))) /\
  (forall name', dir_entry (a_db s') dir name' =
     if decide (name' = name) then None else dir_entry D dir name') /\
  a_db s' !! ipath m = bm /\ inode_stat (a_db s') m = stat_m /\
  frame [ino_key dir; ino_key m] D (a_db s').

Lemma entry_remove b name name' :
  entry (delete (generate_data_key name) b) name' =
    if decide (name' = name) then None else entry b name'.
Proof.
  case_decide; subst; [apply entry_delete_eq|by apply entry_delete_other].
Qed.

(** C12: [unlink] removes exactly the entry [name]; the inode it referred to
    loses one link, and with the last link it is removed with all its data,
    and in no other case; no other bucket changes. *)
Theorem unlink_effect uid gid dir name ino t D T n tb pb pa m b a :
  inode_at D dir pb pa -> entry pb name = Some m -> inode_at D m b a ->
  ino_key dir <> ino_key m -> (ino = None \/ ino = Some m) -> time_ok t ->
  may_write pa uid gid = true ->
  sticky_denies (st_mode pa) uid (st_uid pa) (st_uid a) = false ->
  1 <= st_size pa -> 1 <= st_nlink a ->
  wp true (dbfs_common_unlink uid gid dir name ino t)
     (if st_nlink a =? 1 then remove_post D T n dir pa name m None None t
      else remove_post D T n dir pa name m (Some (touch_links (st_nlink a - 1) t b))
             (Some (set_ctime t (set_nlink (st_nlink a - 1) a))) t)
     (mkS D T n tb).
Proof.
  intros Hd He Hm Hne Hino Ht Hacc Hst Hsz Hnl. pose proof Hd as [HD Hkvb Hsd].
  pose proof (stat_of_range _ _ Hsd) as (_ & Hszr & _).
  pose proof (stat_of_range _ _ (ia_stat _ _ _ _ Hm)) as (_ & _ & Hnlr & _).
  assert (Hne' : ipath dir <> ipath m) by congruence.
  assert (Hs : stat_of (touch_dir (st_size pa - 1) t (delete (generate_data_key name) pb))
               = Some (set_mtime t (set_ctime t (set_size (st_size pa - 1) pa)))).
  { apply touch_dir_stat; [eauto with stat word|unfold u64 in *; lia|done]. }
  eapply wp_dbfs_common_unlink; eauto; [|done]. unfold unlink_view.
  destruct (st_nlink a =? 1) eqn:E1; repeat split; simpl.
  - unfold inode_stat. rewrite lookup_drop_inode_ne by done. by rewrite lookup_insert_eq.
  - intros name'. unfold dir_entry at 1. rewrite lookup_drop_inode_ne, lookup_insert_eq by done.
    simpl. by rewrite entry_touch_dir, entry_remove, (inode_at_entry _ _ _ _ _ Hd).
  - apply lookup_drop_inode_eq.
  - unfold inode_stat. by rewrite lookup_drop_inode_eq.
  - unfold drop_inode. eauto 6 using list_elem_of_here, list_elem_of_further with stat.
  - by rewrite inode_stat_insert_ne, inode_stat_insert.
  - intros name'. rewrite dir_entry_insert_ne, dir_entry_insert by done.
    by rewrite entry_touch_dir, entry_remove, (inode_at_entry _ _ _ _ _ Hd).
  - apply lookup_insert_eq.
  - rewrite inode_stat_insert. apply touch_links_stat; [apply Hm|unfold u32 in *; lia|done].
  - eauto 6 using list_elem_of_here, list_elem_of_further with stat.
Qed.

(** [rmdir] of an empty directory removes exactly the entry [name] and
    the inode it referred to. *)
Theorem rmdir_effect uid gid dir name t D T n tb pb pa m b a :
  inode_at D dir pb pa -> entry pb name = Some m -> inode_at D m b a ->
  ino_key dir <> ino_key m -> st_size a <= 2 -> time_ok t ->
  may_write pa uid gid = true ->
  sticky_denies (st_mode pa) uid (st_uid pa) (st_uid a) = false ->
  1 <= st_size pa ->
  wp true (dbfs_common_rmdir uid gid dir name t)
     (remove_post D T n dir pa name m None None t) (mkS D T n tb).
Proof.
  intros Hd He Hm Hne Hempty Ht Hacc Hst Hsz. pose proof Hd as [HD Hkvb Hsd].
  pose proof (stat_of_range _ _ Hsd) as (_ & Hszr & _).
  eapply wp_dbfs_common_rmdir; eauto; [|done]. repeat split; simpl.
  - unfold inode_stat. rewrite lookup_drop_inode_ne, lookup_insert_eq by done. simpl.
    replace (set_mtime t (set_ctime t (set_size (st_size pa - 1) pa)))
      with (set_size (st_size pa - 1) (set_ctime t (set_mtime t pa))) by done.
    apply stat_put_size; [eauto 6 with stat word|unfold u64 in *; lia].
  - intros name'. unfold dir_entry at 1. rewrite lookup_drop_inode_ne, lookup_insert_eq by done.
    simpl. fld. rewrite entry_remove. fld. by rewrite (inode_at_entry _ _ _ _ _ Hd).
  - apply lookup_drop_inode_eq.
  - unfold inode_stat. by rewrite lookup_drop_inode_eq.
  - unfold drop_inode. eauto 6 using list_elem_of_here, list_elem_of_further with stat.
Qed.

(** On every platform, reliable or not, [rmdir] of a directory with more
    than the entries [.] and [..] fails and leaves the database as it was; on
    a reliable one the error is [NotEmpty]. *)
Theorem rmdir_not_empty uid gid dir name t D T n tb pb m b a rel :
  D !! ipath dir = Some pb -> entry pb name = Some m ->
  D !! ipath m = Some b -> stat_of b = Some a -> 2 < st_size a ->
  wp rel (dbfs_common_rmdir uid gid dir name t)
     (fun o s' => s' = mkS D T n tb /\
        if rel then o = Err NotEmpty else exists e, o = Err e)
     (mkS D T n tb).
Proof.
  intros. eapply wp_rmdir_not_empty; eauto; destruct rel; eauto; done.
Qed.

(** [unlink] and [rmdir] of a name that is not in the directory panic
    instead of failing with an error. *)
Theorem remove_missing_panics uid gid dir name ino t D T n tb pb :
  D !! ipath dir = Some pb -> fkv pb (generate_data_key name) = None ->
  wp true (dbfs_common_unlink uid gid dir name ino t)
     (fun o s' => o = Panic /\ s' = mkS D T n tb) (mkS D T n tb) /\
  wp true (dbfs_common_rmdir uid gid dir name t)
     (fun o s' => o = Panic /\ s' = mkS D T n tb) (mkS D T n tb).
Proof.
  split; [eapply wp_unlink_missing|eapply wp_rmdir_missing]; eauto; done.
Qed.
End Remove.

Section RemoveWitness.
#[local] Existing Instance cfg512.

Lemma lookup_spec_witness :
  wp true (dbfs_common_lookup 1 (bs "foo"))
     (fun o s' => s' = sample_state /\
        o = match dir_entry sample_view 1 (bs "foo") with
            | Some m => Ok (attr_of_stat m (stat_at sample_view 2) RegularFile)
            | None => Err NotFound
            end) sample_state.
Proof.
  apply (lookup_spec 1 (bs "foo") sample_view [] 6 ∅ (bucket_of sample_view 1)
           (stat_at sample_view 1)); [concrete|].
  replace (entry _ _) with (Some 2) by concrete. concrete.
Defined.

Lemma unlink_effect_witness :
  wp true (dbfs_common_unlink 0 0 1 (bs "foo") None t1)
     (if st_nlink (stat_at sample_view 2) =? 1
      then remove_post sample_view [] 6 1 (stat_at sample_view 1) (bs "foo") 2 None None t1
      else remove_post sample_view [] 6 1 (stat_at sample_view 1) (bs "foo") 2
             (Some (touch_links (st_nlink (stat_at sample_view 2) - 1) t1 (bucket_of sample_view 2)))
             (Some (set_ctime t1 (set_nlink (st_nlink (stat_at sample_view 2) - 1)
                      (stat_at sample_view 2)))) t1)
     sample_state.
Proof.
  apply (unlink_effect 0 0 1 (bs "foo") None t1 sample_view [] 6 ∅ (bucket_of sample_view 1)
           (stat_at sample_view 1)); concrete.
Defined.

Lemma rmdir_effect_witness :
  wp true (dbfs_common_rmdir 0 0 1 (bs "sub") t1)
     (remove_post sample_view [] 6 1 (stat_at sample_view 1) (bs "sub") 3 None None t1)
     sample_state.
Proof.
  apply (rmdir_effect 0 0 1 (bs "sub") t1 sample_view [] 6 ∅ (bucket_of sample_view 1)
           (stat_at sample_view 1) 3 (bucket_of sample_view 3) (stat_at sample_view 3)); concrete.
Defined.

(** The root is the entry [.] of itself, and is not empty. *)
Lemma rmdir_not_empty_witness :
  wp false (dbfs_common_rmdir 0 0 1 (bs ".") t1)
     (fun o s' => s' = sample_state /\ exists e, o = Err e) sample_state.
Proof.
  apply (rmdir_not_empty 0 0 1 (bs ".") t1 sample_view [] 6 ∅ (bucket_of sample_view 1) 1
           (bucket_of sample_view 1) (stat_at sample_view 1) false);
    [apply sample_root|concrete|apply sample_root|apply sample_root|concrete].
Defined.

Lemma remove_missing_panics_witness :
  wp true (dbfs_common_unlink 0 0 1 (bs "bar") None t1)
     (fun o s' => o = Panic /\ s' = sample_state) sample_state /\
  wp true (dbfs_common_rmdir 0 0 1 (bs "bar") t1)
     (fun o s' => o = Panic /\ s' = sample_state) sample_state.
Proof.
  apply (remove_missing_panics 0 0 1 (bs "bar") None t1 sample_view [] 6 ∅
           (bucket_of sample_view 1)); [apply sample_root|concrete].
Defined.
End RemoveWitness.

(** ** Links *)

Section Links.
Context `{Config}.

Lemma entry_link_dir pb pa name m t name' :
  u64 m -> entry (link_dir pb pa name m t) name' =
    if decide (name' = name) then Some m else entry pb name'.
Proof.
  intros Hm. unfold link_dir. by rewrite entry_touch_dir, entry_put.
Qed.

Lemma link_dir_stat pb pa name m t :
  stat_of pb = Some pa -> u64 (st_size pa + 1) -> time_ok t ->
  stat_of (link_dir pb pa name m t)
    = Some (set_mtime t (set_ctime t (set_size (st_size pa + 1) pa))).
Proof. intros. unfold link_dir. apply touch_dir_stat; eauto with stat word. Qed.

Lemma touch_links_kvb b nlink t : kvb b -> kvb (touch_links nlink t b).
Proof. unfold touch_links. eauto with kvb. Qed.
Lemma link_dir_kvb pb pa name m t : kvb pb -> kvb (link_dir pb pa name m t).
Proof. unfold link_dir, touch_dir. eauto with kvb. Qed.

(** C13: [link] adds the entry [name] for the inode [m] to the directory,
    counts the link in the inode, and changes nothing else: the entry refers
    to [m], the other entries are kept, the inode's data is untouched. *)
Theorem link_effect uid gid m dir name t D T n tb pb pa pt b a k :
  inode_at D dir pb pa -> stat_ok pa pt -> inode_at D m b a -> stat_ok a k ->
  ino_key dir <> ino_key m -> u64 m -> time_ok t -> may_write pa uid gid = true ->
  st_size pa + 1 < 2 ^ 64 -> st_nlink a + 1 < 2 ^ 32 ->
  wp true (dbfs_common_link uid gid m dir name t)
     (fun o s' =>
        o = Ok (attr_of_stat m (set_ctime t (set_nlink (st_nlink a + 1) a)) k) /\
        a_txs s' = T /\ a_ino s' = n /\
        inode_stat (a_db s') m = Some (set_ctime t (set_nlink (st_nlink a + 1) a)) /\
        inode_stat (a_db s') dir
          = Some (set_mtime t (set_ctime t (set_size (st_size pa + 1) pa))) /\
        (forall name', dir_entry (a_db s') dir name' =
           if decide (name' = name) then Some m else dir_entry D dir name') /\
        (forall key, key <> k_hard_links -> key <> k_ctime ->
           (a_db s' !! ipath m ≫= fun b' => b' !! key) = b !! key) /\
        frame [ino_key dir; ino_key m] D (a_db s'))
     (mkS D T n tb).
Proof.
  intros Hd Hok Hm Hokm Hne Hm64 Ht Hacc Hsz Hnl.
  pose proof (stat_of_range _ _ (ia_stat _ _ _ _ Hd)) as (_ & Hszr & _).
  pose proof (stat_of_range _ _ (ia_stat _ _ _ _ Hm)) as (_ & _ & Hnlr & _).
  assert (Hne' : ipath dir <> ipath m) by congruence.
  eapply wp_dbfs_common_link; eauto. repeat split; simpl.
  - rewrite inode_stat_insert. apply touch_links_stat; [apply Hm|unfold u32 in *; lia|done].
  - rewrite inode_stat_insert_ne, inode_stat_insert by done.
    apply link_dir_stat; [apply Hd|unfold u64 in *; lia|done].
  - intros name'. rewrite dir_entry_insert_ne, dir_entry_insert by done.
    by rewrite entry_link_dir, (inode_at_entry _ _ _ _ _ Hd).
  - intros key H1 H2. rewrite lookup_insert_eq. simpl. unfold touch_links.
    by rewrite !lookup_insert_ne.
  - eauto 6 using list_elem_of_here, list_elem_of_further with stat.
Qed.

(** A link and its removal cancel out: afterwards the directory has the
    entries and the size it had, and the inode the links and the data it had
    (only times differ). *)
Theorem link_then_unlink uid gid m dir name t t' D T n tb pb pa pt b a k :
  inode_at D dir pb pa -> stat_ok pa pt -> inode_at D m b a -> stat_ok a k ->
  fkv pb (generate_data_key name) = None ->
  ino_key dir <> ino_key m -> u64 m -> time_ok t -> time_ok t' -> may_write pa uid gid = true ->
  sticky_denies (st_mode pa) uid (st_uid pa) (st_uid a) = false ->
  st_size pa + 1 < 2 ^ 64 -> 1 <= st_nlink a -> st_nlink a + 1 < 2 ^ 32 ->
  wp true (dbfs_common_link uid gid m dir name t;; dbfs_common_unlink uid gid dir name None t')
     (fun o s' => o = Ok tt /\ a_ino s' = n /\
        inode_stat (a_db s') dir = Some (set_mtime t' (set_ctime t' pa)) /\
        inode_stat (a_db s') m = Some (set_ctime t' a) /\
        (forall name', dir_entry (a_db s') dir name' = dir_entry D dir name') /\
        (forall key, key <> k_hard_links -> key <> k_ctime ->
           (a_db s' !! ipath m ≫= fun b' => b' !! key) = b !! key) /\
        frame [ino_key dir; ino_key m] D (a_db s'))
     (mkS D T n tb).
Proof.
  intros Hd Hok Hm Hokm Hnew Hne Hm64 Ht Ht' Hacc Hst Hsz Hn1 Hnl.
  pose proof (stat_of_range _ _ (ia_stat _ _ _ _ Hd)) as (_ & Hszr & _).
  pose proof (stat_of_range _ _ (ia_stat _ _ _ _ Hm)) as (_ & _ & Hnlr & _).
  assert (Hne' : ipath dir <> ipath m) by congruence.
  assert (Hsl : stat_of (link_dir pb pa name m t)
     = Some (set_mtime t (set_ctime t (set_size (st_size pa + 1) pa)))).
  { apply link_dir_stat; [apply Hd|unfold u64 in *; lia|done]. }
  assert (Hsm : stat_of (touch_links (st_nlink a + 1) t b)
     = Some (set_ctime t (set_nlink (st_nlink a + 1) a))).
  { apply touch_links_stat; [apply Hm|unfold u32 in *; lia|done]. }
  apply wp_bind. eapply wp_dbfs_common_link; eauto.
  eapply (wp_dbfs_common_unlink true uid gid dir name None t' _ _ _ _ _ _ m _ _).
  { split; [by rewrite lookup_insert_ne, lookup_insert_eq by congruence| |exact Hsl].
    apply link_dir_kvb, Hd. }
  { rewrite entry_link_dir by done. by rewrite decide_True. }
  { split; [apply lookup_insert_eq|apply touch_links_kvb, Hm|exact Hsm]. }
  all: try done.
  { by left. }
  { simpl. unfold u64 in *; lia. }
  { simpl. lia. }
  unfold unlink_view. simpl st_nlink. rewrite (proj2 (Z.eqb_neq _ _)) by lia.
  simpl st_size. rewrite !Z.add_simpl_r. repeat split; simpl.
  - rewrite inode_stat_insert_ne, inode_stat_insert by done.
    rewrite (touch_dir_stat _ _ _ _ (stat_delete_other' _ _ _ Hsl (data_key_other _))) by done.
    by destruct pa.
  - rewrite inode_stat_insert, (touch_links_stat _ _ _ _ Hsm) by done. by destruct a.
  - intros name'. rewrite dir_entry_insert_ne, dir_entry_insert by done.
    rewrite entry_touch_dir, entry_remove, entry_link_dir, (inode_at_entry _ _ _ _ _ Hd) by done.
    case_decide as Hn; [|done]. subst. unfold entry. by rewrite Hnew.
  - intros key H1 H2. rewrite lookup_insert_eq. simpl. unfold touch_links.
    by rewrite !lookup_insert_ne.
  - eauto 8 using list_elem_of_here, list_elem_of_further with stat.
Qed.

(** A symbolic link can be read back: creating it and reading it into a
    buffer that is large enough gives the target path. *)
Theorem symlink_then_readlink dir name uid gid t permission target buf hl fs dv D T n tb pb pa :
  inode_at D dir pb pa -> may_write pa uid gid = true -> st_size pa + 1 < 2 ^ 64 ->
  D !! ipath n = None -> u64 n -> u64 dir ->
  create_args_ok uid gid t permission (Some target) None ->
  Perm.contains permission Perm.S_IFLNK = true ->
  new_inode_params permission (Some target) None = Some (hl, fs, dv) ->
  blen target <= blen buf ->
  wp true (dbfs_common_create dir name uid gid t permission (Some target) None;;
           dbfs_common_readlink n buf)
     (fun o _ => exists buf', o = Ok (blen target, buf') /\ take (length target) buf' = target /\
        length buf' = length buf)
     (mkS D T n tb).
Proof.
  intros Hd Hacc Hsz Hn Hn64 Hd64 Hargs Hlnk Hpar Hbuf. pose proof Hd as [HD Hkvb Hst].
  assert (Hkind : exists kind, file_type_of_perm permission = Some kind).
  { unfold file_type_of_perm. rewrite Hlnk. case_match; eauto. }
  destruct Hkind as [kind Hkind].
  apply wp_bind. eapply wp_dbfs_common_create; eauto; [|done]. cbv beta iota.
  eapply wp_dbfs_common_readlink.
  - apply lookup_insert_eq.
  - rewrite new_bucket_target, Hlnk. reflexivity.
  - rewrite Z.min_l by done. eexists; split; [reflexivity|].
    rewrite slice_all, splice_0, take_app_length. split; [done|].
    unfold blen in Hbuf. rewrite length_app, length_drop. lia.
  - done.
Qed.

(** Every permission with the type bits of a symbolic link also contains
    those of a character device, so the branch that stores the length of the
    target is never taken: a symbolic link is created with size 0. *)
Theorem symlink_size_zero permission target dev :
  Perm.contains permission Perm.S_IFLNK = true ->
  new_inode_params permission target dev = Some (1, 0, dev).
Proof.
  intros Hl. assert (Hc : Perm.contains permission Perm.S_IFCHR = true).
  { rewrite contains_spec in *. intros i Hi Hb. apply Hl; [done|].
    assert (i = 13) as ->; [|done]. change Perm.S_IFCHR with (2 ^ 13) in Hb.
    destruct (decide (13 = i)) as [<-|Hn]; [done|]. by rewrite Z.pow2_bits_false in Hb. }
  unfold new_inode_params. by rewrite Hc, orb_true_r.
Qed.
End Links.

Section LinksWitness.
#[local] Existing Instance cfg512.

Lemma link_effect_witness :
  let a := stat_at sample_view 2 in
  wp true (dbfs_common_link 0 0 2 3 (bs "foo2") t1)
     (fun o s' =>
        o = Ok (attr_of_stat 2 (set_ctime t1 (set_nlink (st_nlink a + 1) a)) RegularFile) /\
        a_txs s' = [] /\ a_ino s' = 6 /\
        inode_stat (a_db s') 2 = Some (set_ctime t1 (set_nlink (st_nlink a + 1) a)) /\
        inode_stat (a_db s') 3
          = Some (set_mtime t1 (set_ctime t1
              (set_size (st_size (stat_at sample_view 3) + 1) (stat_at sample_view 3)))) /\
        (forall name', dir_entry (a_db s') 3 name' =
           if decide (name' = bs "foo2") then Some 2 else dir_entry sample_view 3 name') /\
        (forall key, key <> k_hard_links -> key <> k_ctime ->
           (a_db s' !! ipath 2 ≫= fun b' => b' !! key) = bucket_of sample_view 2 !! key) /\
        frame [ino_key 3; ino_key 2] sample_view (a_db s'))
     sample_state.
Proof.
  apply (link_effect 0 0 2 3 (bs "foo2") t1 sample_view [] 6 ∅ (bucket_of sample_view 3)
           (stat_at sample_view 3) Directory (bucket_of sample_view 2)); concrete.
Defined.

Lemma link_then_unlink_witness :
  wp true (dbfs_common_link 0 0 2 3 (bs "foo2") t0;; dbfs_common_unlink 0 0 3 (bs "foo2") None t1)
     (fun o s' => o = Ok tt /\ a_ino s' = 6 /\
        inode_stat (a_db s') 3 = Some (set_mtime t1 (set_ctime t1 (stat_at sample_view 3))) /\
        inode_stat (a_db s') 2 = Some (set_ctime t1 (stat_at sample_view 2)) /\
        (forall name', dir_entry (a_db s') 3 name' = dir_entry sample_view 3 name') /\
        (forall key, key <> k_hard_links -> key <> k_ctime ->
           (a_db s' !! ipath 2 ≫= fun b' => b' !! key) = bucket_of sample_view 2 !! key) /\
        frame [ino_key 3; ino_key 2] sample_view (a_db s'))
     sample_state.
Proof.
  apply (link_then_unlink 0 0 2 3 (bs "foo2") t0 t1 sample_view [] 6 ∅ (bucket_of sample_view 3)
           (stat_at sample_view 3) Directory (bucket_of sample_view 2) (stat_at sample_view 2)
           RegularFile); concrete.
Defined.

Lemma symlink_then_readlink_witness :
  wp true (dbfs_common_create 1 (bs "l2") 0 0 t1 0xa1ff (Some (bs "foo")) None;;
           dbfs_common_readlink 6 (replicate 8 x00))
     (fun o _ => exists buf', o = Ok (3, buf') /\ take 3 buf' = bs "foo" /\ length buf' = 8%nat)
     sample_state.
Proof.
  apply (symlink_then_readlink 1 (bs "l2") 0 0 t1 0xa1ff (bs "foo") (replicate 8 x00) 1 0 None
           sample_view [] 6 ∅ (bucket_of sample_view 1) (stat_at sample_view 1)); concrete.
Defined.

Lemma symlink_size_zero_witness :
  new_inode_params 0xa1ff (Some (bs "foo")) None = Some (1, 0, None).
Proof. apply (symlink_size_zero 0xa1ff (Some (bs "foo")) None). concrete. Defined.
End LinksWitness.
