(* ===== verification/Moves.v ===== *)
(** * Rename: what it does to the tree *)

From S2P Require Import Prelude Jammdb Effects Run RustStd Common Buckets Access Inode Create.
From S2P Require Import FsType Link Rename Samples Namespace.

Section Moves.
Context `{Config}.

Lemma rename_src_stat name pa t pb :
  stat_of pb = Some pa -> 1 <= st_size pa -> time_ok t ->
  stat_of (rename_src name pa t pb)
    = Some (set_mtime t (set_ctime t (set_size (st_size pa - 1) pa))).
Proof.
  intros Hs H1 Ht. pose proof (stat_of_range _ _ Hs) as (_ & Hr & _). unfold u64 in Hr.
  apply touch_dir_stat; [eauto with stat word|unfold u64; lia|done].
Qed.
Lemma rename_dst_stat name m pa t pb :
  stat_of pb = Some pa -> st_size pa + 1 < 2 ^ 64 -> time_ok t ->
  stat_of (rename_dst name m pa t pb)
    = Some (set_mtime t (set_ctime t (set_size (st_size pa + 1) pa))).
Proof.
  intros Hs H1 Ht. pose proof (stat_of_range _ _ Hs) as (_ & Hr & _). unfold u64 in Hr.
  apply touch_dir_stat; [eauto with stat word|unfold u64; lia|done].
Qed.
Lemma rename_moved_stat isdir new_dir t b a :
  stat_of b = Some a -> time_ok t ->
  stat_of (rename_moved isdir new_dir t b) = Some (set_ctime t a).
Proof. intros. unfold rename_moved. case_match; eauto with stat word. Qed.

Lemma rename_moved_entry isdir new_dir t b name :
  u64 new_dir ->
  entry (rename_moved isdir new_dir t b) name =
    if isdir && bool_decide (name = bs "..") then Some new_dir else entry b name.
Proof.
  intros Hd. unfold rename_moved. destruct isdir; simpl.
  - case_bool_decide; [subst; by apply entry_insert_eq|].
    rewrite entry_insert_other by done. by fld.
  - by fld.
Qed.

(** The callers a rename out of [pa] and into [qa] accepts. *)
Definition rename_allowed (pa qa a : Stat) (r_uid r_gid : Z) : Prop :=
  may_write pa r_uid r_gid = true /\ may_write qa r_uid r_gid = true /\
  sticky_denies (st_mode pa) r_uid (st_uid pa) (st_uid a) = false.

(** C14: a rename between two directories takes exactly the entry [old_name]
    out of the first and puts [new_name] into the second, for the same inode;
    a directory that is moved gets the new parent as its [..]; sizes and times
    follow, no other bucket changes. *)
Theorem rename_across_effect r_uid r_gid old_dir old_name new_dir new_name flags t D T n tb
    pb pa qb qa m b a :
  inode_at D old_dir pb pa -> inode_at D new_dir qb qa -> inode_at D m b a ->
  entry pb old_name = Some m -> fkv qb (generate_data_key new_name) = None ->
  rename_allowed pa qa a r_uid r_gid -> Z.land flags RENAME_EXCHANGE = 0 ->
  old_dir <> new_dir -> ino_key old_dir <> ino_key new_dir ->
  ino_key m <> ino_key old_dir -> ino_key m <> ino_key new_dir ->
  (is_dir a = true -> may_write a r_uid r_gid = true) ->
  1 <= st_size pa -> st_size qa + 1 < 2 ^ 64 -> u64 m -> u64 new_dir -> time_ok t ->
  wp true (dbfs_common_rename r_uid r_gid old_dir old_name new_dir new_name flags t)
     (fun o s' =>
        o = Ok tt /\ a_txs s' = T /\ a_ino s' = n /\
        inode_stat (a_db s') old_dir
          = Some (set_mtime t (set_ctime t (set_size (st_size pa - 1) pa))) /\
        inode_stat (a_db s') new_dir
          = Some (set_mtime t (set_ctime t (set_size (st_size qa + 1) qa))) /\
        inode_stat (a_db s') m = Some (set_ctime t a) /\
        (forall name, dir_entry (a_db s') old_dir name =
           if decide (name = old_name) then None else dir_entry D old_dir name) /\
        (forall name, dir_entry (a_db s') new_dir name =
           if decide (name = new_name) then Some m else dir_entry D new_dir name) /\
        (forall name, dir_entry (a_db s') m name =
           if is_dir a && bool_decide (name = bs "..") then Some new_dir else dir_entry D m name) /\
        frame [ino_key old_dir; ino_key new_dir; ino_key m] D (a_db s'))
     (mkS D T n tb).
Proof.
  intros Hp Hq Hm He Hnew (Hw1 & Hw2 & Hst) Hfl Hne Hk1 Hk2 Hk3 Hdir Hs1 Hs2 Hm64 Hn64 Ht.
  unfold dbfs_common_rename. apply wp_bind. eapply wp_rename_read_old; eauto.
  apply wp_bind. eapply wp_rename_read_new; eauto. cbv beta iota. rewrite Hfl. simpl negb. cbv iota.
  eapply wp_rename_move_across; [exact Hp|exact Hq|exact Hm|done..|].
  intros D' HDp HDq HDm Hfr. repeat split; simpl; auto; unfold inode_stat, dir_entry.
  - rewrite HDp. apply rename_src_stat; [apply Hp|done..].
  - rewrite HDq. apply rename_dst_stat; [apply Hq|done..].
  - rewrite HDm. apply rename_moved_stat; [apply Hm|done].
  - intros name. rewrite HDp, (ia_bucket _ _ _ _ Hp). simpl. unfold rename_src.
    by rewrite entry_touch_dir, entry_remove.
  - intros name. rewrite HDq, (ia_bucket _ _ _ _ Hq). simpl. unfold rename_dst.
    by rewrite entry_touch_dir, entry_put.
  - intros name. rewrite HDm, (ia_bucket _ _ _ _ Hm). simpl. by apply rename_moved_entry.
Qed.


(** A rename of a name that is not in the directory fails and changes
    nothing, on every platform; on a reliable one with [NotFound]. *)
Theorem rename_missing rel r_uid r_gid old_dir old_name new_dir new_name flags t D T n tb pb :
  D !! ipath old_dir = Some pb -> fkv pb (generate_data_key old_name) = None ->
  wp rel (dbfs_common_rename r_uid r_gid old_dir old_name new_dir new_name flags t)
     (fun o s' => s' = mkS D T n tb /\ if rel then o = Err NotFound else exists e, o = Err e)
     (mkS D T n tb).
Proof.
  intros HD Hn. unfold dbfs_common_rename. apply wp_bind.
  eapply wp_rename_read_old_missing; eauto; cbv beta iota; destruct rel; eauto; done.
Qed.

(** A rename onto an existing file of a sticky directory panics, whoever
    calls it: the link count of the replaced file, which is stored in four
    bytes, is read as eight. *)
Theorem rename_replace_panics r_uid r_gid old_dir old_name new_dir new_name flags t D T n tb
    pb pa qb qa m b a m' b' a' :
  inode_at D old_dir pb pa -> inode_at D new_dir qb qa -> inode_at D m b a ->
  inode_at D m' b' a' -> entry pb old_name = Some m -> entry qb new_name = Some m' ->
  rename_allowed pa qa a r_uid r_gid ->
  (r_uid =? 0) || (r_uid =? st_uid qa) || (r_uid =? st_uid a') = true ->
  sticky qa = true -> Z.land flags RENAME_EXCHANGE = 0 ->
  ino_key m' <> ino_key new_dir -> is_dir a' = false -> is_dir a = false -> 1 <= st_size qa ->
  wp true (dbfs_common_rename r_uid r_gid old_dir old_name new_dir new_name flags t)
     (fun o s' => o = Panic /\ s' = mkS D T n tb) (mkS D T n tb).
Proof.
  intros Hp Hq Hm Hm' He He' (Hw1 & Hw2 & Hst) Hown Hsticky Hfl Hk Hd' Hd Hs.
  unfold dbfs_common_rename. apply wp_bind. eapply wp_rename_read_old; eauto.
  apply wp_bind. eapply wp_rename_read_new_target; eauto.
  cbv beta iota. rewrite Hfl. simpl negb. cbv iota.
  eapply wp_rename_move_replace; [exact Hp|exact Hq|exact Hm|exact Hm'|done..].
Qed.

(** A rename onto an existing entry of a directory that is not sticky
    does not release what it replaces: the entry refers to the moved inode,
    but the replaced inode is still stored with the link count it had, and the
    directory still counts the entry that is gone. *)
Theorem rename_leaks_target r_uid r_gid dir old_name new_name flags t D T n tb pb pa m b a m' b' a' :
  inode_at D dir pb pa -> inode_at D m b a -> inode_at D m' b' a' ->
  entry pb old_name = Some m -> entry pb new_name = Some m' -> old_name <> new_name ->
  sticky pa = false -> may_write pa r_uid r_gid = true -> Z.land flags RENAME_EXCHANGE = 0 ->
  ino_key m <> ino_key dir -> ino_key m' <> ino_key dir -> ino_key m' <> ino_key m ->
  u64 m -> time_ok t -> 1 <= st_size pa ->
  wp true (dbfs_common_rename r_uid r_gid dir old_name dir new_name flags t)
     (fun o s' =>
        o = Ok tt /\ dir_entry (a_db s') dir new_name = Some m /\
        dir_entry (a_db s') dir old_name = None /\
        a_db s' !! ipath m' = Some b' /\
        (st_size <$> inode_stat (a_db s') dir) = Some (st_size pa))
     (mkS D T n tb).
Proof.
  intros Hp Hm Hm' He He' Hnn Hst Hw Hfl Hk Hk' Hk'' Hm64 Ht Hs1.
  assert (Hsd : sticky_denies (st_mode pa) r_uid (st_uid pa) (st_uid a) = false).
  { unfold sticky_denies. unfold sticky in Hst. by rewrite Hst. }
  unfold dbfs_common_rename. apply wp_bind. eapply wp_rename_read_old; eauto.
  apply wp_bind. eapply wp_rename_read_new; eauto. cbv beta iota. rewrite Hfl. simpl negb. cbv iota.
  eapply wp_rename_move_within; [exact Hp|exact Hm|done..|].
  intros D' qb HDp Hkvb Hs Hent _ HDm Hfr. unfold inode_stat, dir_entry. simpl. rewrite HDp. simpl.
  rewrite !Hent, Hs. rewrite (decide_True _ _ eq_refl), decide_False by done.
  rewrite (decide_True _ _ eq_refl). repeat split; auto.
  rewrite Hfr; [apply Hm'|]. rewrite !elem_of_cons, elem_of_nil. intros [?|[?|?]]; done.
Qed.
End Moves.

Section MovesWitness.
#[local] Existing Instance cfg512.

Lemma rename_across_effect_witness :
  let pa := stat_at sample_view 1 in let qa := stat_at sample_view 3 in
  let a := stat_at sample_view 2 in
  wp true (dbfs_common_rename 0 0 1 (bs "foo") 3 (bs "bar") 0 t1)
     (fun o s' =>
        o = Ok tt /\ a_txs s' = [] /\ a_ino s' = 6 /\
        inode_stat (a_db s') 1
          = Some (set_mtime t1 (set_ctime t1 (set_size (st_size pa - 1) pa))) /\
        inode_stat (a_db s') 3
          = Some (set_mtime t1 (set_ctime t1 (set_size (st_size qa + 1) qa))) /\
        inode_stat (a_db s') 2 = Some (set_ctime t1 a) /\
        (forall name, dir_entry (a_db s') 1 name =
           if decide (name = bs "foo") then None else dir_entry sample_view 1 name) /\
        (forall name, dir_entry (a_db s') 3 name =
           if decide (name = bs "bar") then Some 2 else dir_entry sample_view 3 name) /\
        (forall name, dir_entry (a_db s') 2 name =
           if is_dir a && bool_decide (name = bs "..") then Some 3 else dir_entry sample_view 2 name) /\
        frame [ino_key 1; ino_key 3; ino_key 2] sample_view (a_db s'))
     sample_state.
Proof.
  apply (rename_across_effect 0 0 1 (bs "foo") 3 (bs "bar") 0 t1 sample_view [] 6 ∅
    (bucket_of sample_view 1) (stat_at sample_view 1) (bucket_of sample_view 3)
    (stat_at sample_view 3) 2 (bucket_of sample_view 2)); concrete.
Defined.


Lemma rename_missing_witness :
  wp true (dbfs_common_rename 0 0 1 (bs "none") 3 (bs "bar") 0 t1)
     (fun o s' => s' = sample_state /\ o = Err NotFound) sample_state.
Proof.
  apply (rename_missing true 0 0 1 (bs "none") 3 (bs "bar") 0 t1 sample_view [] 6 ∅
    (bucket_of sample_view 1)); [apply sample_root|concrete].
Defined.

Lemma rename_leaks_target_witness :
  wp true (dbfs_common_rename 0 0 1 (bs "foo") 1 (bs "ln") 0 t1)
     (fun o s' =>
        o = Ok tt /\ dir_entry (a_db s') 1 (bs "ln") = Some 2 /\
        dir_entry (a_db s') 1 (bs "foo") = None /\
        a_db s' !! ipath 4 = Some (bucket_of sample_view 4) /\
        (st_size <$> inode_stat (a_db s') 1) = Some (st_size (stat_at sample_view 1)))
     sample_state.
Proof.
  apply (rename_leaks_target 0 0 1 (bs "foo") (bs "ln") 0 t1 sample_view [] 6 ∅
    (bucket_of sample_view 1) (stat_at sample_view 1) 2 (bucket_of sample_view 2)
    (stat_at sample_view 2) 4 (bucket_of sample_view 4) (stat_at sample_view 4)); concrete.
Defined.

(** The sample with the files [x] and [y] (inodes 6 and 7) in the sticky
    directory [home]. *)
Definition sticky_world : @World map_platform :=
  snd (run (
    dbfs_common_create 5 (bs "x") 7 7 t0 0x81a4 None None;;
    dbfs_common_create 5 (bs "y") 7 7 t0 0x81a4 None None) sample_world).
Definition sticky_view : view := a_db (st sticky_world).

Lemma rename_replace_panics_witness :
  wp true (dbfs_common_rename 7 7 5 (bs "x") 5 (bs "y") 0 t1)
     (fun o s' => o = Panic /\ s' = mkS sticky_view [] 8 ∅) (mkS sticky_view [] 8 ∅).
Proof.
  apply (rename_replace_panics 7 7 5 (bs "x") 5 (bs "y") 0 t1 sticky_view [] 8 ∅
    (bucket_of sticky_view 5) (stat_at sticky_view 5) (bucket_of sticky_view 5)
    (stat_at sticky_view 5) 6 (bucket_of sticky_view 6) (stat_at sticky_view 6) 7
    (bucket_of sticky_view 7) (stat_at sticky_view 7)); concrete.
Defined.
End MovesWitness.
