(* ===== verification/Exchange.v ===== *)
(** * Rename with [RENAME_EXCHANGE]

    The effect of [rename_exchange] on the two entries and on the inodes they
    refer to, when both directories differ; what it does to a directory it
    moves; and when it refuses. *)

From S2P Require Import Prelude Jammdb Effects Run RustStd Common Buckets Access Inode Create.
From S2P Require Import FsType Link Rename Samples Namespace Moves.

(** A directory whose entry [name] refers to inode [m] after the exchange, and
    the inode that moves to [new_dir]: the code stores its new parent as the
    entry [.]. *)
Definition exchange_dir (name : bytes) (m : Z) (t : DbfsTimeSpec) (pb : bucket) : bucket :=
  <[k_mtime := KeyValue (time_to_be_bytes t)]> (<[k_ctime := KeyValue (time_to_be_bytes t)]>
    (<[generate_data_key name := KeyValue (fmt_usize m)]> pb)).
Definition exchange_old (isdir : bool) (new_dir : Z) (t : DbfsTimeSpec) (b : bucket) : bucket :=
  let b := <[k_ctime := KeyValue (time_to_be_bytes t)]> b in
  if isdir then <[generate_data_key (bs ".") := KeyValue (fmt_usize new_dir)]> b else b.

Lemma exchange_dir_stat name m t pb pa :
  stat_of pb = Some pa -> time_ok t ->
  stat_of (exchange_dir name m t pb) = Some (set_mtime t (set_ctime t pa)).
Proof. intros. unfold exchange_dir. eauto 10 with stat word. Qed.
Lemma exchange_dir_entry name m t pb nm :
  u64 m -> entry (exchange_dir name m t pb) nm = if decide (nm = name) then Some m else entry pb nm.
Proof. intros Hm. unfold exchange_dir. fld. by apply entry_put. Qed.
Lemma exchange_old_stat isdir new_dir t b a :
  stat_of b = Some a -> time_ok t -> stat_of (exchange_old isdir new_dir t b) = Some (set_ctime t a).
Proof. intros. unfold exchange_old. case_match; eauto with stat word. Qed.
Lemma exchange_old_entry isdir new_dir t b name :
  u64 new_dir ->
  entry (exchange_old isdir new_dir t b) name =
    if isdir && bool_decide (name = bs ".") then Some new_dir else entry b name.
Proof.
  intros Hd. unfold exchange_old. destruct isdir; simpl.
  - case_bool_decide; [subst; by apply entry_insert_eq|].
    rewrite entry_insert_other by done. by fld.
  - by fld.
Qed.

Section Exchange.
Context `{Config}.

(** Four buckets that differ from each other. *)
Definition four (old_dir new_dir m m' : Z) : Prop :=
  NoDup [ino_key old_dir; ino_key new_dir; ino_key m; ino_key m'].

Lemma wp_rename_exchange old_dir old_name new_dir new_name t D T n tb
    pb pa qb qa m b a m' b' a' Q :
  inode_at D old_dir pb pa -> inode_at D new_dir qb qa -> inode_at D m b a -> inode_at D m' b' a' ->
  four old_dir new_dir m m' ->
  (forall D', D' !! ipath old_dir = Some (exchange_dir old_name m' t pb) ->
     D' !! ipath new_dir = Some (exchange_dir new_name m t qb) ->
     D' !! ipath m = Some (exchange_old (is_dir a) new_dir t b) ->
     D' !! ipath m' = Some (rename_moved (is_dir a') old_dir t b') ->
     frame [ino_key old_dir; ino_key new_dir; ino_key m; ino_key m'] D D' ->
     Q (Ok tt) (mkS D' T n tb)) ->
  wp true (rename_exchange (old_info old_name m a) (new_info new_name m' a') old_dir new_dir t)
     Q (mkS D T n tb).
Proof.
  intros [HD Hkvb Hst] [HDq Hkvbq Hstq] [HDm Hkvbm Hstm] [HDm' Hkvbm' Hstm'] Hne HQ.
  unfold four in Hne. rewrite !list.NoDup_cons, !elem_of_cons, elem_of_nil in Hne.
  destruct Hne as (Hn1 & Hn2 & Hn3 & _).
  assert (Hp : forall x y, ino_key x <> ino_key y -> ipath x <> ipath y) by congruence.
  assert (ipath old_dir <> ipath new_dir) by (apply Hp; tauto).
  assert (ipath old_dir <> ipath m) by (apply Hp; tauto).
  assert (ipath old_dir <> ipath m') by (apply Hp; tauto).
  assert (ipath new_dir <> ipath m) by (apply Hp; tauto).
  assert (ipath new_dir <> ipath m') by (apply Hp; tauto).
  assert (ipath m <> ipath m') by (apply Hp; tauto).
  open_stat Hst. open_stat Hstq. open_stat Hstm. open_stat Hstm'.
  unfold rename_exchange.
  cbn [rn_number rn_perm rn_key new_info old_info ro_perm ro_key ro_number].
  fold (is_dir a) (is_dir a'). apply wp_tx_q; [done|]. wnorm. wgo.
  unfold exchange_old, exchange_dir, rename_moved in HQ.
  destruct (is_dir a); wgo; destruct (is_dir a'); wgo.
  all: eapply wp_commit; [reflexivity|done|]; wnorm.
  all: apply HQ; cbn [a_db]; vlk; try done;
    eauto 20 using list_elem_of_here, list_elem_of_further with stat.
Qed.

(** Who may exchange: [rename_allowed], and in the sticky target directory the
    owner of the directory or of the target. *)
Definition exchange_allowed (pa qa a a' : Stat) (r_uid r_gid : Z) : Prop :=
  rename_allowed pa qa a r_uid r_gid /\
  (r_uid =? 0) || (r_uid =? st_uid qa) || (r_uid =? st_uid a') = true.

(** The state after an exchange of [old_name] and [new_name]. *)
Definition exchange_post (D : view) (T : list (view * bool)) (n old_dir new_dir : Z)
    (old_name new_name : bytes) (pa qa : Stat) (m : Z) (a : Stat) (m' : Z) (a' : Stat)
    (t : DbfsTimeSpec) (o : outcome DbfsError unit) (s' : AState) : Prop :=
  o = Ok tt /\ a_txs s' = T /\ a_ino s' = n /\
  inode_stat (a_db s') old_dir = Some (set_mtime t (set_ctime t pa)) /\
  inode_stat (a_db s') new_dir = Some (set_mtime t (set_ctime t qa)) /\
  inode_stat (a_db s') m = Some (set_ctime t a) /\
  inode_stat (a_db s') m' = Some (set_ctime t a') /\
  (forall name, dir_entry (a_db s') old_dir name =
     if decide (name = old_name) then Some m' else dir_entry D old_dir name) /\
  (forall name, dir_entry (a_db s') new_dir name =
     if decide (name = new_name) then Some m else dir_entry D new_dir name) /\
  (forall name, dir_entry (a_db s') m' name =
     if is_dir a' && bool_decide (name = bs "..") then Some old_dir else dir_entry D m' name) /\
  frame [ino_key old_dir; ino_key new_dir; ino_key m; ino_key m'] D (a_db s').

Lemma wp_exchange r_uid r_gid old_dir old_name new_dir new_name flags t D T n tb
    pb pa qb qa m b a m' b' a' :
  inode_at D old_dir pb pa -> inode_at D new_dir qb qa -> inode_at D m b a -> inode_at D m' b' a' ->
  entry pb old_name = Some m -> entry qb new_name = Some m' ->
  exchange_allowed pa qa a a' r_uid r_gid -> sticky qa = true -> Z.land flags RENAME_EXCHANGE <> 0 ->
  four old_dir new_dir m m' -> u64 m -> u64 m' -> u64 old_dir -> u64 new_dir -> time_ok t ->
  wp true (dbfs_common_rename r_uid r_gid old_dir old_name new_dir new_name flags t)
     (fun o s' =>
        exchange_post D T n old_dir new_dir old_name new_name pa qa m a m' a' t o s' /\
        (forall name, dir_entry (a_db s') m name =
           if is_dir a && bool_decide (name = bs ".") then Some new_dir else dir_entry D m name))
     (mkS D T n tb).
Proof.
  intros Hp Hq Hm Hm' He He' [(Hw1 & Hw2 & Hsd) Hown] Hst Hfl Hf Hm64 Hm64' Ho64 Hn64 Ht.
  unfold dbfs_common_rename. apply wp_bind. eapply wp_rename_read_old; eauto.
  apply wp_bind. eapply wp_rename_read_new_target; eauto. cbv beta iota.
  rewrite (proj2 (Z.eqb_neq _ _) Hfl). simpl negb. cbv iota.
  eapply wp_rename_exchange; [exact Hp|exact Hq|exact Hm|exact Hm'|done|].
  intros D' HDp HDq HDm HDm' Hfr. unfold exchange_post, inode_stat, dir_entry. simpl.
  rewrite HDp, HDq, HDm, HDm', (ia_bucket _ _ _ _ Hp), (ia_bucket _ _ _ _ Hq),
    (ia_bucket _ _ _ _ Hm), (ia_bucket _ _ _ _ Hm'). simpl.
  split_and!; try done.
  - apply exchange_dir_stat; [apply Hp|done].
  - apply exchange_dir_stat; [apply Hq|done].
  - apply exchange_old_stat; [apply Hm|done].
  - apply rename_moved_stat; [apply Hm'|done].
  - intros name. by apply exchange_dir_entry.
  - intros name. by apply exchange_dir_entry.
  - intros name. by apply rename_moved_entry.
  - intros name. by apply exchange_old_entry.
Qed.

(** C36: a rename with [RENAME_EXCHANGE] between two different directories, of
    which the target is sticky, of something that is not a directory with an
    entry of the other, by a caller who may do it, swaps the inodes of the two
    entries and nothing else in either directory: the old name refers to the
    inode of the new one and the other way round, a directory that comes to the
    old place gets it as its [..], sizes and link counts stay, times follow, and
    no other bucket changes.  (When the target directory is not sticky the call
    fails: [exchange_needs_sticky].) *)
Theorem rename_exchange_effect r_uid r_gid old_dir old_name new_dir new_name flags t D T n tb
    pb pa qb qa m b a m' b' a' :
  inode_at D old_dir pb pa -> inode_at D new_dir qb qa -> inode_at D m b a -> inode_at D m' b' a' ->
  entry pb old_name = Some m -> entry qb new_name = Some m' -> is_dir a = false ->
  exchange_allowed pa qa a a' r_uid r_gid -> sticky qa = true -> Z.land flags RENAME_EXCHANGE <> 0 ->
  four old_dir new_dir m m' -> u64 m -> u64 m' -> u64 old_dir -> u64 new_dir -> time_ok t ->
  wp true (dbfs_common_rename r_uid r_gid old_dir old_name new_dir new_name flags t)
     (fun o s' =>
        exchange_post D T n old_dir new_dir old_name new_name pa qa m a m' a' t o s' /\
        (forall name, dir_entry (a_db s') m name = dir_entry D m name))
     (mkS D T n tb).
Proof.
  intros. eapply wp_mono; [by apply (wp_exchange _ _ _ _ _ _ _ _ _ _ _ _ pb pa qb qa m b a m' b' a')|]. intros o s' [Hpost Hm]. split; [done|].
  intros name. rewrite Hm. replace (is_dir a) with false by done. done.
Qed.

(** An exchange that moves a directory makes its entry [.] refer to the new
    parent and leaves [..] as it was. *)
Theorem exchange_breaks_dot r_uid r_gid old_dir old_name new_dir new_name flags t D T n tb
    pb pa qb qa m b a m' b' a' :
  inode_at D old_dir pb pa -> inode_at D new_dir qb qa -> inode_at D m b a -> inode_at D m' b' a' ->
  entry pb old_name = Some m -> entry qb new_name = Some m' -> is_dir a = true ->
  exchange_allowed pa qa a a' r_uid r_gid -> sticky qa = true -> Z.land flags RENAME_EXCHANGE <> 0 ->
  four old_dir new_dir m m' -> u64 m -> u64 m' -> u64 old_dir -> u64 new_dir -> time_ok t ->
  wp true (dbfs_common_rename r_uid r_gid old_dir old_name new_dir new_name flags t)
     (fun o s' => o = Ok tt /\ dir_entry (a_db s') m (bs ".") = Some new_dir /\
        dir_entry (a_db s') m (bs "..") = dir_entry D m (bs ".."))
     (mkS D T n tb).
Proof.
  intros. eapply wp_mono; [by apply (wp_exchange _ _ _ _ _ _ _ _ _ _ _ _ pb pa qb qa m b a m' b' a')|]. intros o s' [Hpost Hm].
  rewrite !Hm. replace (is_dir a) with true by done. split; [apply Hpost|done].
Qed.

(** In a target directory that is not sticky an exchange is refused, although
    the name exists. *)
Theorem exchange_needs_sticky r_uid r_gid old_dir old_name new_dir new_name flags t D T n tb
    pb pa qb qa m b a :
  inode_at D old_dir pb pa -> inode_at D new_dir qb qa -> inode_at D m b a ->
  entry pb old_name = Some m -> rename_allowed pa qa a r_uid r_gid -> sticky qa = false ->
  Z.land flags RENAME_EXCHANGE <> 0 ->
  wp true (dbfs_common_rename r_uid r_gid old_dir old_name new_dir new_name flags t)
     (fun o s' => o = Err NotFound /\ s' = mkS D T n tb) (mkS D T n tb).
Proof.
  intros Hp Hq Hm He (Hw1 & Hw2 & Hsd) Hst Hfl.
  unfold dbfs_common_rename. apply wp_bind. eapply wp_rename_read_old; eauto.
  apply wp_bind. eapply wp_rename_read_new; eauto. cbv beta iota.
  rewrite (proj2 (Z.eqb_neq _ _) Hfl). simpl negb. cbv iota. by apply wp_done.
Qed.
End Exchange.

Section ExchangeWitness.
#[local] Existing Instance cfg512.

Lemma rename_exchange_effect_witness :
  wp true (dbfs_common_rename 0 0 1 (bs "foo") 5 (bs "x") RENAME_EXCHANGE t1)
     (fun o s' =>
        exchange_post sticky_view [] 8 1 5 (bs "foo") (bs "x") (stat_at sticky_view 1)
          (stat_at sticky_view 5) 2 (stat_at sticky_view 2) 6 (stat_at sticky_view 6) t1 o s' /\
        (forall name, dir_entry (a_db s') 2 name = dir_entry sticky_view 2 name))
     (mkS sticky_view [] 8 ∅).
Proof.
  apply (rename_exchange_effect 0 0 1 (bs "foo") 5 (bs "x") RENAME_EXCHANGE t1 sticky_view [] 8 ∅
    (bucket_of sticky_view 1) (stat_at sticky_view 1) (bucket_of sticky_view 5) (stat_at sticky_view 5)
    2 (bucket_of sticky_view 2) (stat_at sticky_view 2) 6 (bucket_of sticky_view 6)
    (stat_at sticky_view 6)); try concrete.
  all: try (by unfold exchange_allowed, rename_allowed; vm_compute).
  all: by apply (bool_decide_unpack _).
Defined.

Lemma exchange_breaks_dot_witness :
  wp true (dbfs_common_rename 0 0 1 (bs "sub") 5 (bs "x") RENAME_EXCHANGE t1)
     (fun o s' => o = Ok tt /\ dir_entry (a_db s') 3 (bs ".") = Some 5 /\
        dir_entry (a_db s') 3 (bs "..") = dir_entry sticky_view 3 (bs ".."))
     (mkS sticky_view [] 8 ∅).
Proof.
  apply (exchange_breaks_dot 0 0 1 (bs "sub") 5 (bs "x") RENAME_EXCHANGE t1 sticky_view [] 8 ∅
    (bucket_of sticky_view 1) (stat_at sticky_view 1) (bucket_of sticky_view 5) (stat_at sticky_view 5)
    3 (bucket_of sticky_view 3) (stat_at sticky_view 3) 6 (bucket_of sticky_view 6)
    (stat_at sticky_view 6)); try concrete.
  all: try (by unfold exchange_allowed, rename_allowed; vm_compute).
  all: by apply (bool_decide_unpack _).
Defined.

Lemma exchange_needs_sticky_witness :
  wp true (dbfs_common_rename 0 0 1 (bs "foo") 1 (bs "ln") RENAME_EXCHANGE t1)
     (fun o s' => o = Err NotFound /\ s' = sample_state) sample_state.
Proof.
  apply (exchange_needs_sticky 0 0 1 (bs "foo") 1 (bs "ln") RENAME_EXCHANGE t1 sample_view [] 6 ∅
    (bucket_of sample_view 1) (stat_at sample_view 1) (bucket_of sample_view 1) (stat_at sample_view 1)
    2 (bucket_of sample_view 2) (stat_at sample_view 2)); try concrete.
  all: by apply (bool_decide_unpack _).
Defined.
End ExchangeWitness.
