(* ===== verification/Listing.v ===== *)
(** * Reading a directory: what is listed *)

From S2P Require Import Prelude Jammdb Effects Run RustStd Common Buckets Slices Access Inode.
From S2P Require Import Create FsType Link Readdir Samples Namespace.

Lemma data_item_key k d name v :
  data_item (k, d) = Some (name, v) <-> k = generate_data_key name /\ d = KeyValue v.
Proof.
  unfold data_item. simpl. split.
  - destruct d as [v'|]; [|done]. destruct (starts_with (bs "data:") k) eqn:E; [|done].
    intros [= <- <-]. split; [|done]. by apply starts_with_data.
  - intros [-> ->]. assert (Hs : starts_with (bs "data:") (generate_data_key name) = true)
      by apply starts_with_app. rewrite Hs. done.
Qed.

Lemma data_items_elem b name v :
  (name, v) ∈ omap data_item (sorted_entries b) <-> fkv b (generate_data_key name) = Some v.
Proof.
  rewrite list_elem_of_omap. split.
  - intros ([k d] & Hin & [-> ->]%data_item_key). apply elem_of_sorted_entries in Hin.
    unfold fkv. by rewrite Hin.
  - intros Hv%fkv_lookup. exists (generate_data_key name, KeyValue v).
    split; [by apply elem_of_sorted_entries|by apply data_item_key].
Qed.

Lemma data_items_NoDup es : NoDup es.*1 -> NoDup (omap data_item es).*1.
Proof.
  induction es as [|[k d] es IH]; simpl; [done|]. intros [Hk Hn]%list.NoDup_cons.
  destruct (data_item (k, d)) as [[name v]|] eqn:E; [|auto]. simpl.
  apply list.NoDup_cons. split; [|auto]. intros Hin. apply Hk.
  apply data_item_key in E as [-> ->].
  apply list_elem_of_fmap in Hin as ([name' v'] & Hnm & Hin). simpl in Hnm. subst name'.
  apply list_elem_of_omap in Hin as ([k' d'] & Hin & [-> ->]%data_item_key).
  apply list_elem_of_fmap. by exists (generate_data_key name, KeyValue v').
Qed.

(** The last entry of a directory. *)
Lemma last_item_split es :
  omap data_item es <> [] -> exists es1 es2 name v,
    es = es1 ++ (generate_data_key name, KeyValue v) :: es2 /\ omap data_item es2 = [] /\
    omap data_item es !! (length (omap data_item es) - 1)%nat = Some (name, v).
Proof.
  induction es as [|x es IH] using rev_ind; [done|]. rewrite omap_app. intros Hne.
  destruct (data_item x) as [[name v]|] eqn:Ex; simpl; rewrite ?Ex.
  - destruct x as [k d]. apply data_item_key in Ex as [-> ->]. exists es, [], name, v.
    repeat split. rewrite length_app. simpl. rewrite Nat.add_sub. by rewrite list_lookup_middle.
  - assert (Ho : omap data_item [x] = []) by (simpl; by rewrite Ex).
    rewrite Ho, app_nil_r in *. destruct (IH Hne) as (es1 & es2 & name & v & -> & H2 & Hl).
    exists es1, (es2 ++ [x]), name, v. split; [by rewrite <- app_assoc|].
    by rewrite omap_app, H2, Ho.
Qed.

Lemma length_items es : (length (omap data_item es) <= length es)%nat.
Proof.
  induction es as [|e es IH]; [done|]. simpl omap. unfold omap, list_omap in *.
  case_match; simpl in *; lia.
Qed.

(** [l] lists the directory [ino] from [offset] on: every entry of the
    directory exactly once and nothing else, each with the inode it refers to,
    the type of that inode and consecutive offsets. *)
Record listing (D : view) (ino offset : Z) (l : list DbfsDirEntry) : Prop := {
  ls_once : NoDup (de_name <$> l);
  ls_entries : forall name m, dir_entry D ino name = Some m <->
    exists e, e ∈ l /\ de_name e = name /\ de_ino e = m;
  ls_kind : forall e, e ∈ l ->
    (D !! ipath (de_ino e) ≫= fun bm => fbe 2 bm k_mode ≫= file_type_of_perm) = Some (de_kind e);
  ls_offset : forall (i : nat) e, l !! i = Some e -> de_offset e = offset + Z.of_nat i
}.

Section Listing.
Context `{Config}.

(** The names are those of the directory, in the order of its keys. *)
Lemma listing_names D b offset l :
  let items := omap data_item (sorted_entries b) in
  length l = length items ->
  (forall (i : nat) name v, items !! i = Some (name, v) ->
     exists e, l !! i = Some e /\ lists D name v (offset + Z.of_nat i) e) ->
  de_name <$> l = items.*1.
Proof.
  intros items Hlen Hitems. apply list_eq. intros i. rewrite !list_lookup_fmap.
  destruct (items !! i) as [[name v]|] eqn:Hi; simpl.
  - destruct (Hitems i name v Hi) as (e & -> & Hn & _). simpl. by rewrite Hn.
  - apply lookup_ge_None in Hi. rewrite <- Hlen in Hi. by rewrite lookup_ge_None_2.
Qed.

Lemma listing_intro D ino b offset l :
  let items := omap data_item (sorted_entries b) in
  D !! ipath ino = Some b -> length l = length items ->
  (forall (i : nat) name v, items !! i = Some (name, v) ->
     exists e, l !! i = Some e /\ lists D name v (offset + Z.of_nat i) e) ->
  listing D ino offset l.
Proof.
  intros items HD Hlen Hitems.
  assert (Hback : forall (i : nat) e, l !! i = Some e -> exists name v,
    items !! i = Some (name, v) /\ lists D name v (offset + Z.of_nat i) e).
  { intros i e He. destruct (lookup_lt_is_Some_2 items i) as [[name v] Hi].
    { rewrite <- Hlen. by eapply lookup_lt_Some. }
    destruct (Hitems i name v Hi) as (e' & He' & Hle). exists name, v.
    split; [done|]. by simplify_eq. }
  pose proof (listing_names D b offset l Hlen Hitems) as Hnames. fold items in Hnames.
  split.
  - rewrite Hnames. apply data_items_NoDup. rewrite sorted_entries_perm.
    apply NoDup_fst_map_to_list.
  - intros name m. unfold dir_entry. rewrite HD. simpl. unfold entry. split.
    + destruct (fkv b _) as [v|] eqn:Ev; [|done]. simpl. intros Hp.
      apply data_items_elem in Ev. apply list_elem_of_lookup in Ev as [i Hi].
      destruct (Hitems i name v Hi) as (e & He & Hn & Hp' & _).
      exists e. split; [by eapply list_elem_of_lookup_2|]. split; [done|]. congruence.
    + intros (e & [i He]%list_elem_of_lookup & <- & <-).
      destruct (Hback i e He) as (name & v & Hi & Hn & Hp & _).
      apply list_elem_of_lookup_2, data_items_elem in Hi. rewrite Hn, Hi. done.
  - intros e [i He]%list_elem_of_lookup. destruct (Hback i e He) as (? & ? & _ & _ & _ & _ & Hk). done.
  - intros i e He. destruct (Hback i e He) as (? & ? & _ & _ & _ & Hof & _). done.
Qed.

(** Reading on after the last entry of a directory: nothing is left. *)
Lemma wp_readdir_end ino D T n tb b x (Q : outcome DbfsError _ -> AState -> Prop) :
  let items := omap data_item (sorted_entries b) in
  D !! ipath ino = Some b -> listable D b ->
  Z.of_nat (length (sorted_entries b)) < 2 ^ 62 ->
  de_offset x = Z.of_nat (length items - 1) ->
  (exists v, items !! (length items - 1)%nat = Some (de_name x, v)) ->
  let s := mkS D T n (<[ino := {| rd_offset := de_offset x; rd_key := de_name x |}]> tb) in
  Q (Ok (0, [])) s ->
  wp true (dbfs_common_readdir ino (de_offset x + 1) false) Q s.
Proof.
  intros items HD Hl Hmax Hx [v Hv] s HQ.
  assert (Hne : items <> []) by (intros E; by rewrite E in Hv).
  pose proof (length_items (sorted_entries b)) as Hlen. fold items in Hlen.
  destruct (last_item_split _ Hne) as (es1 & es2 & name & v' & Hes & H2 & Hl').
  fold items in Hl'. rewrite Hv in Hl'. injection Hl' as <- <-.
  eapply wp_readdir_from; [exact HD|exact Hl|apply lookup_insert_eq|exact Hes|..];
    simpl; [lia|done|lia|].
  intros l Hll _. rewrite H2 in Hll. by destruct l.
Qed.

(** C27: listing a directory from its start returns every entry of the
    directory exactly once and nothing else, each with the inode it refers to,
    the type of that inode and consecutive offsets, and changes nothing. *)
Theorem readdir_complete ino offset D T n tb b :
  D !! ipath ino = Some b -> listable D b -> tb !! ino = None ->
  0 <= offset -> offset + Z.of_nat (length (sorted_entries b)) < 2 ^ 64 ->
  wp true (dbfs_common_readdir ino offset false)
     (fun o s' => s' = mkS D T n tb /\ exists l,
        o = Ok (Z.of_nat (length l), l) /\ listing D ino offset l)
     (mkS D T n tb).
Proof.
  intros HD Hl Ht Ho Hmax. eapply wp_dbfs_common_readdir; eauto.
  intros l Hlen Hitems. split; [done|]. exists l. split; [done|]. by eapply listing_intro.
Qed.
End Listing.

Section ListingWitness.
#[local] Existing Instance cfg512.

(** [listable] by computation. *)
Definition list_check (D : view) (b : bucket) : bool :=
  forallb (fun nv =>
    utf8_valid nv.1 &&
    match parse_usize nv.2 with
    | Some m =>
        match D !! ipath m with
        | Some bm =>
            match fbe 2 bm k_mode with
            | Some mode => bool_decide (is_Some (file_type_of_perm mode))
            | None => false
            end
        | None => false
        end
    | None => false
    end) (omap data_item (sorted_entries b)).

Lemma list_check_sound D b : list_check D b = true -> listable D b.
Proof.
  intros Hc name v Hv. apply data_items_elem, list_elem_of_In in Hv.
  unfold list_check in Hc. rewrite forallb_forall in Hc. specialize (Hc _ Hv). simpl in Hc.
  apply andb_true_iff in Hc as [Hu Hc]. split; [done|].
  destruct (parse_usize v) as [m|]; [|done]. destruct (D !! ipath m) as [bm|] eqn:Em; [|done].
  destruct (fbe 2 bm k_mode) as [mode|] eqn:Ef; [|done].
  apply bool_decide_eq_true in Hc as [kind Hk]. by exists m, bm, mode, kind.
Qed.

Lemma readdir_complete_witness :
  wp true (dbfs_common_readdir 1 0 false)
     (fun o s' => s' = sample_state /\ exists l,
        o = Ok (Z.of_nat (length l), l) /\ listing sample_view 1 0 l) sample_state.
Proof.
  apply (readdir_complete 1 0 sample_view [] 6 ∅ (bucket_of sample_view 1));
    [apply sample_root|apply list_check_sound; vm_compute; reflexivity|concrete..].
Defined.
End ListingWitness.
