(* ===== verification/Data.v ===== *)
(** * File data: what reads and writes do

    The theorems on [write], [read], [copy_data], stated on the bytes of the
    file before and after the call. *)

From S2P Require Import Prelude Jammdb Effects Run RustStd Common Buckets Slices Access Inode.
From S2P Require Import Create FsType Link Truncate File Samples Namespace.

(** ** Attributes and slices are stored apart *)

Lemma attr_key_not_slice k : k ∈ attr_keys -> ~ bs "zdata:" `prefix_of` k.
Proof.
  intros Hk. assert (Hall : Forall (fun k => ~ bs "zdata:" `prefix_of` k) attr_keys)
    by (by apply (bool_decide_unpack _)).
  rewrite list.Forall_forall in Hall. by apply Hall.
Qed.

Section Apart.
Context `{Config}.

Lemma written_stat b b' pos data : written b b' pos data -> stat_of b' = stat_of b.
Proof.
  intros Hw. apply stat_of_lookup. intros k Hk%list_elem_of_In.
  by apply (wr_other _ _ _ _ Hw), attr_key_not_slice.
Qed.

Lemma byte_at_other b k d p :
  ~ bs "zdata:" `prefix_of` k -> byte_at (<[k := d]> b) p = byte_at b p.
Proof.
  intros Hk. unfold byte_at, slice_at. rewrite fkv_insert_ne; [done|].
  intros <-. apply Hk. by eexists.
Qed.

Lemma slices_ok_other b k d :
  ~ bs "zdata:" `prefix_of` k -> slices_ok b -> slices_ok (<[k := d]> b).
Proof.
  intros Hk Hok k' d'. rewrite lookup_insert. case_decide; [by intros _ ?; subst|apply Hok].
Qed.

Lemma size_not_slice : ~ bs "zdata:" `prefix_of` k_size.
Proof. apply attr_key_not_slice. by apply (bool_decide_unpack _). Qed.

Lemma byte_at_grow size end_ b p : byte_at (grow size end_ b) p = byte_at b p.
Proof. unfold grow. case_match; [apply byte_at_other, size_not_slice|done]. Qed.

Lemma grow_stat size end_ b a :
  stat_of b = Some a -> st_size a = size -> u64 end_ ->
  stat_of (grow size end_ b) = Some (set_size (Z.max size end_) a).
Proof.
  intros Hs Hsz He. unfold grow. destruct (Z.ltb_spec size end_).
  - rewrite Z.max_r by lia. by apply stat_put_size.
  - rewrite Z.max_l by lia. destruct a; simpl in *; by subst.
Qed.

Lemma grow_ok size end_ b : slices_ok b -> slices_ok (grow size end_ b).
Proof. intros. unfold grow. case_match; [by apply slices_ok_other, H0; [apply size_not_slice]|done]. Qed.
Lemma grow_kvb size end_ b : kvb b -> kvb (grow size end_ b).
Proof. unfold grow. case_match; eauto with kvb. Qed.

(** The byte at position [p] of inode [n], if it is stored. *)
Definition file_byte (V : view) (n p : Z) : option byte := V !! ipath n ≫= fun b => byte_at b p.

(** Inode [n] is well formed and its data is stored in whole slices. *)
Definition file_at (V : view) (n : Z) (b : bucket) (a : Stat) : Prop :=
  inode_at V n b a /\ slices_ok b.

(** Inode [n] keeps its entries other than slices and the attributes [ks], and
    the slices that the range [pos .. pos + len) does not meet. *)
Definition data_frame (V V' : view) (n : Z) (ks : list bytes) (pos len : Z) : Prop :=
  exists b b', V !! ipath n = Some b /\ V' !! ipath n = Some b' /\
    (forall k, ~ bs "zdata:" `prefix_of` k -> k ∉ ks -> b' !! k = b !! k) /\
    (forall i, u32 i -> (i + 1) * SLICE_SIZE <= pos \/ pos + len <= i * SLICE_SIZE ->
       slice_at b' i = slice_at b i).

Lemma grow_lookup size end_ b k : k <> k_size -> grow size end_ b !! k = b !! k.
Proof. intros Hk. unfold grow. case_match; [by rewrite lookup_insert_ne|done]. Qed.
Lemma grow_slice size end_ b i : slice_at (grow size end_ b) i = slice_at b i.
Proof.
  unfold slice_at, fkv. rewrite grow_lookup; [done|]. intros Hk. apply size_not_slice. rewrite <- Hk.
  by eexists.
Qed.

(** A write to a file, from the caller's side. *)
Definition write_post (D : view) (T : list (view * bool)) (n : Z) (number : Z) (a : Stat)
    (buf : bytes) (offset : Z) (o : outcome DbfsError Z) (s' : AState) : Prop :=
  o = Ok (blen buf) /\ a_txs s' = T /\ a_ino s' = n /\
  (exists b', file_at (a_db s') number b' (set_size (Z.max (st_size a) (offset + blen buf)) a)) /\
  (forall (i : nat) x, buf !! i = Some x ->
     file_byte (a_db s') number (offset + Z.of_nat i) = Some x) /\
  (forall p x, 0 <= p < 2 ^ 32 * SLICE_SIZE -> ~ (offset <= p < offset + blen buf) ->
     file_byte D number p = Some x -> file_byte (a_db s') number p = Some x) /\
  data_frame D (a_db s') number [k_size] offset (blen buf) /\
  frame [ino_key number] D (a_db s').

(** C8: a write of a buffer that is not empty returns its length; afterwards the
    file holds the buffer at the offset, every byte that was stored outside the
    written range is as before, the slices that the range does not meet are as
    before, stored or not, and the size is the larger of the old size and the
    end of the range.  All else is unchanged: the other attributes, the
    directory entries and the extended attributes of the inode, and every other
    bucket.  The bytes around the buffer in a slice that was not stored are
    left open: they are memory of the allocator
    ([write_stores_allocator_memory]). *)
Theorem write_effect number buf offset D T n tb b a :
  file_at D number b a -> 0 <= offset -> 0 < blen buf ->
  offset + blen buf <= 2 ^ 32 * SLICE_SIZE ->
  wp true (dbfs_common_write number buf offset) (write_post D T n number a buf offset)
     (mkS D T n tb).
Proof.
  intros [Hin Hok] Ho Hbuf Hmax. pose proof SLICE_SIZE_range.
  eapply wp_dbfs_common_write; eauto. intros b' Hw.
  assert (Hst : stat_of b' = Some a) by (rewrite (written_stat _ _ _ _ Hw); apply Hin).
  repeat split; simpl.
  - eexists. split; [split|].
    + apply lookup_insert_eq.
    + apply grow_kvb, Hw.
    + apply grow_stat; [done..|]. unfold u64. lia.
    + apply grow_ok, Hw.
  - intros i x Hx. unfold file_byte. rewrite lookup_insert_eq. simpl.
    rewrite byte_at_grow. by apply (wr_new _ _ _ _ Hw).
  - intros p x Hp Hout. unfold file_byte. rewrite lookup_insert_eq, (ia_bucket _ _ _ _ Hin).
    simpl. rewrite byte_at_grow. by apply (wr_old _ _ _ _ Hw).
  - exists b, (grow (st_size a) (offset + blen buf) b'). split; [apply Hin|].
    split; [apply lookup_insert_eq|]. split.
    + intros k Hk1 Hk2. rewrite grow_lookup; [by apply (wr_other _ _ _ _ Hw)|].
      intros ->. apply Hk2, list_elem_of_here.
    + intros i Hi Hout. rewrite grow_slice. by apply (wr_slices _ _ _ _ Hw).
  - eauto using list_elem_of_here with stat.
Qed.

(** A read that fills [n] bytes of [buf] from position [base] of the file. *)
Definition read_post (D : view) (number : Z) (buf : bytes) (base n : Z) (s : AState)
    (o : outcome DbfsError (Z * bytes)) (s' : AState) : Prop :=
  s' = s /\ exists buf', o = Ok (n, buf') /\ length buf' = length buf /\
    (forall j : nat, Z.of_nat j < n -> buf' !! j = file_byte D number (base + Z.of_nat j)) /\
    (forall j : nat, n <= Z.of_nat j -> buf' !! j = buf !! j).

Lemma read_post_base number buf offset D T n tb b a :
  file_at D number b a -> 0 <= offset < st_size a -> 0 < blen buf ->
  offset + blen buf < 2 ^ 64 -> st_size a < (2 ^ 32 - 1) * SLICE_SIZE ->
  let base := read_base offset in
  let end_ := Z.min (base + blen buf) (st_size a) in
  (forall j, offset / SLICE_SIZE <= j -> j * SLICE_SIZE < end_ -> is_Some (slice_at b j)) ->
  wp true (dbfs_common_read number buf offset)
     (read_post D number buf base (end_ - base) (mkS D T n tb)) (mkS D T n tb).
Proof.
  intros [Hin Hok] Ho Hbuf Hmax Hsz base end_ Hst.
  eapply wp_dbfs_common_read; eauto using ia_bucket, ia_stat; [|done].
  intros buf' [Hl Hn Hold]. split; [done|]. exists buf'. split; [done|]. split; [done|].
  split; [|done]. intros j Hj. rewrite Hn by done. unfold file_byte.
  by rewrite (ia_bucket _ _ _ _ Hin).
Qed.

(** C10: a read at an offset in the first slice or at the start of a slice
    returns the bytes of the file from that offset on, as many as the buffer
    or the file holds, provided the slices of the range are stored; it changes
    nothing else. *)
Theorem read_spec number buf offset D T n tb b a :
  file_at D number b a -> 0 <= offset < st_size a -> 0 < blen buf ->
  offset + blen buf < 2 ^ 64 -> st_size a < (2 ^ 32 - 1) * SLICE_SIZE ->
  offset < SLICE_SIZE \/ offset `mod` SLICE_SIZE = 0 ->
  let count := Z.min (blen buf) (st_size a - offset) in
  (forall j, offset / SLICE_SIZE <= j -> j * SLICE_SIZE < offset + count ->
     is_Some (slice_at b j)) ->
  wp true (dbfs_common_read number buf offset)
     (read_post D number buf offset count (mkS D T n tb)) (mkS D T n tb).
Proof.
  intros Hf Ho Hbuf Hmax Hsz Hal count Hst. pose proof SLICE_SIZE_range.
  assert (Hbase : read_base offset = offset).
  { unfold read_base. destruct (Z.ltb_spec offset SLICE_SIZE); [done|].
    pose proof (pos_split offset). lia. }
  replace count with (Z.min (read_base offset + blen buf) (st_size a) - read_base offset) by lia.
  rewrite <- Hbase at 2. eapply read_post_base; eauto. intros j Hj1 Hj2. apply Hst; lia.
Qed.

(** A read at any other offset returns the bytes from the start of the
    slice that contains the offset instead of the bytes at the offset (so it
    returns too many near the end of the file). *)
Theorem read_unaligned number buf offset D T n tb b a :
  file_at D number b a -> SLICE_SIZE <= offset < st_size a -> 0 < blen buf ->
  offset + blen buf < 2 ^ 64 -> st_size a < (2 ^ 32 - 1) * SLICE_SIZE ->
  let start := offset / SLICE_SIZE * SLICE_SIZE in
  let count := Z.min (blen buf) (st_size a - start) in
  (forall j, offset / SLICE_SIZE <= j -> j * SLICE_SIZE < start + count ->
     is_Some (slice_at b j)) ->
  wp true (dbfs_common_read number buf offset)
     (read_post D number buf start count (mkS D T n tb)) (mkS D T n tb).
Proof.
  intros Hf Ho Hbuf Hmax Hsz start count Hst. pose proof SLICE_SIZE_range.
  assert (Hbase : read_base offset = start).
  { unfold read_base. by rewrite (proj2 (Z.ltb_ge _ _)) by lia. }
  replace count with (Z.min (read_base offset + blen buf) (st_size a) - read_base offset) by lia.
  rewrite <- Hbase. eapply read_post_base; eauto; [lia|]. intros j Hj1 Hj2. apply Hst; lia.
Qed.

(** A byte of the range is stored only if its slice is. *)
Lemma byte_at_stored b i p :
  i * SLICE_SIZE <= p < (i + 1) * SLICE_SIZE -> is_Some (byte_at b p) -> is_Some (slice_at b i).
Proof.
  intros Hp [x Hx]. unfold byte_at in Hx.
  replace p with (i * SLICE_SIZE + (p - i * SLICE_SIZE)) in Hx by lia.
  rewrite div_slice in Hx by lia. destruct (slice_at b i); [eauto|done].
Qed.

(** A read of a range that was just written. *)
Lemma wp_read_back number buf buf0 offset D T n tb b b' a
    (Q : outcome DbfsError (Z * bytes) -> AState -> Prop) :
  file_at D number b a -> 0 <= offset -> 0 < blen buf -> length buf0 = length buf ->
  Z.max (st_size a) (offset + blen buf) < (2 ^ 32 - 1) * SLICE_SIZE ->
  offset < SLICE_SIZE \/ offset `mod` SLICE_SIZE = 0 ->
  written b b' offset buf ->
  let s := mkS (<[ipath number := grow (st_size a) (offset + blen buf) b']> D) T n tb in
  Q (Ok (blen buf, buf)) s ->
  wp true (dbfs_common_read number buf0 offset) Q s.
Proof.
  intros [Hin Hok] Ho Hbuf Hlen Hmax Hal Hw s HQ. pose proof SLICE_SIZE_range.
  assert (Hbase : read_base offset = offset).
  { unfold read_base. destruct (Z.ltb_spec offset SLICE_SIZE); [done|].
    pose proof (pos_split offset). lia. }
  assert (Hbl : blen buf0 = blen buf) by (unfold blen; lia).
  assert (Hst : stat_of b' = Some a) by (rewrite (written_stat _ _ _ _ Hw); apply Hin).
  set (a' := set_size (Z.max (st_size a) (offset + blen buf)) a).
  set (b'' := grow _ _ b') in s.
  assert (Hst' : stat_of b'' = Some a') by (apply grow_stat; [done..|unfold u64; lia]).
  assert (Hok' : slices_ok b'') by apply grow_ok, Hw.
  assert (Hend : Z.min (offset + blen buf) (st_size a') = offset + blen buf) by (simpl; lia).
  assert (Hbyte : forall (i : nat) x, buf !! i = Some x ->
    byte_at b'' (offset + Z.of_nat i) = Some x).
  { intros i x Hx. unfold b''. rewrite byte_at_grow. by apply (wr_new _ _ _ _ Hw). }
  eapply (wp_dbfs_common_read true number buf0 offset _ T n tb b'' a');
    [apply lookup_insert_eq|done|done|simpl; lia|lia|lia|simpl; lia| | |done].
  - rewrite Hbase, Hbl, Hend. intros j Hj1 Hj2.
    (** the first position of the written range in slice [j] *)
    set (p := Z.max offset (j * SLICE_SIZE)).
    apply (byte_at_stored b'' j p).
    + pose proof (pos_split offset). unfold p. nia.
    + destruct (lookup_lt_is_Some_2 buf (Z.to_nat (p - offset))) as [x Hx].
      { unfold blen in *. lia. }
      exists x. rewrite <- (Hbyte _ _ Hx). f_equal. lia.
  - rewrite Hbase, Hbl, Hend. intros buf' [Hl Hn Hold].
    replace (offset + blen buf - offset) with (blen buf) in * by lia.
    replace buf' with buf; [done|]. apply list_eq. intros i. destruct (buf !! i) as [x|] eqn:Ex.
    + rewrite Hn; [by rewrite (Hbyte _ _ Ex)|]. apply lookup_lt_Some in Ex. unfold blen. lia.
    + apply lookup_ge_None in Ex. symmetry. apply lookup_ge_None. lia.
Qed.

(** C9: what was written is read back: a write followed by a read of the same
    length at the same offset (in the first slice or at the start of a slice)
    gives the buffer that was written. *)
Theorem write_then_read number buf buf0 offset D T n tb b a :
  file_at D number b a -> 0 <= offset -> 0 < blen buf -> length buf0 = length buf ->
  Z.max (st_size a) (offset + blen buf) < (2 ^ 32 - 1) * SLICE_SIZE ->
  offset < SLICE_SIZE \/ offset `mod` SLICE_SIZE = 0 ->
  wp true (dbfs_common_write number buf offset;; dbfs_common_read number buf0 offset)
     (fun o _ => o = Ok (blen buf, buf)) (mkS D T n tb).
Proof.
  intros Hf Ho Hbuf Hlen Hmax Hal. pose proof SLICE_SIZE_range. pose proof Hf as [Hin Hok].
  apply wp_bind. eapply wp_dbfs_common_write; eauto; [lia|]. intros b' Hw. cbv beta iota.
  eapply wp_read_back; eauto.
Qed.

(** A read at or past the end of the file returns 0 and leaves the
    buffer and the database as they were, on every platform on which the
    transaction starts. *)
Theorem read_at_end number buf offset D T n tb b a :
  D !! ipath number = Some b -> stat_of b = Some a -> st_size a <= offset ->
  wp false (dbfs_common_read number buf offset)
     (fun o s' => s' = mkS D T n tb /\ (o = Ok (0, buf) \/ exists e, o = Err e))
     (mkS D T n tb).
Proof. intros. eapply wp_read_eof; eauto. Qed.
End Apart.

(** ** Truncation and preallocation *)

(** The free space recorded in the super block. *)
Definition disk_space (V : view) : option Z :=
  V !! sb_path ≫= fun sb => fbe 8 sb k_disk_size.

Section Resize.
Context `{Config}.

Lemma other_byte_at b b' p :
  (forall k, bs "zdata:" `prefix_of` k -> b' !! k = b !! k) -> byte_at b' p = byte_at b p.
Proof.
  intros Hk. unfold byte_at, slice_at, fkv. rewrite Hk; [done|]. by eexists.
Qed.

Lemma touch_file_slices size t mode b k :
  bs "zdata:" `prefix_of` k -> touch_file size t mode b !! k = b !! k.
Proof.
  intros Hk. unfold touch_file.
  rewrite !lookup_insert_ne; [done|intros <-; revert Hk; apply attr_key_not_slice;
    by apply (bool_decide_unpack _)..].
Qed.

Lemma disk_space_put V sb ds :
  V !! sb_path = Some (<[k_disk_size := KeyValue (to_be 8 ds)]> sb) -> u64 ds ->
  disk_space V = Some ds.
Proof. intros HV Hd. unfold disk_space. rewrite HV. simpl. by apply (fbe_insert_eq 8). Qed.

(** Truncating a file within its last slice or below keeps every byte
    before the new size; every byte that is still stored behind it is zero, so
    that a later extension cannot bring old data back; size, times and mode
    (set-id bits cleared) are updated, the freed slices are counted as free
    space, nothing else changes. *)
Theorem truncate_shrink_effect r_uid r_gid ino t f_size D T n tb b a k sb ds :
  file_at D ino b a -> stat_ok a k -> sb_at D sb ds ->
  file_writable a r_uid r_gid = true -> u64 f_size -> time_ok t ->
  let start := f_size / SLICE_SIZE in
  let cur := st_size a / SLICE_SIZE in
  let ds' := ds + (cur - start) * SLICE_SIZE in
  start <= cur -> cur < 2 ^ 32 -> ds' < 2 ^ 64 ->
  wp true (dbfs_common_truncate r_uid r_gid ino t f_size)
     (fun o s' =>
        o = Ok (trunc_attr ino f_size t a k) /\ a_txs s' = T /\ a_ino s' = n /\
        inode_stat (a_db s') ino = Some (trunc_stat f_size t a) /\
        (forall p, 0 <= p < f_size -> p < (cur + 1) * SLICE_SIZE ->
           file_byte (a_db s') ino p = file_byte D ino p) /\
        (forall p x, f_size <= p < (cur + 1) * SLICE_SIZE ->
           file_byte (a_db s') ino p = Some x -> x = x00) /\
        disk_space (a_db s') = Some ds' /\
        frame [ino_key ino; k_super_blk] D (a_db s'))
     (mkS D T n tb).
Proof.
  intros [Hin Hok] Hsok Hsb Hacc Hf Ht start cur ds' Hsc Hc Hds. unfold u64 in Hf.
  pose proof SLICE_SIZE_range. pose proof (pos_split f_size) as [Hp Hm]. fold start in Hp.
  assert (0 <= start) by (apply Z.div_pos; lia).
  assert (Hs32 : u32 start) by (unfold u32; lia).
  pose proof (fbe_range _ _ _ _ (sb_disk _ _ _ Hsb)) as Hdr.
  eapply wp_truncate_shrink; eauto; [lia|]. fold start cur ds'. intros D' HD' Hsb' Hfr.
  assert (Hcut : forall p, 0 <= p -> p < (cur + 1) * SLICE_SIZE ->
    file_byte D' ino p = if decide (p < f_size) then file_byte D ino p
      else if decide (p < (start + 1) * SLICE_SIZE) then (fun _ => x00) <$> file_byte D ino p
      else None).
  { intros p Hp0 Hp1. unfold file_byte. rewrite HD', (ia_bucket _ _ _ _ Hin). simpl.
    rewrite (other_byte_at (trim start (f_size `mod` SLICE_SIZE) cur b))
      by (intros; by apply touch_file_slices).
    rewrite trim_byte by (done || lia || (apply Z.lt_succ_r, Z.div_lt_upper_bound; lia)).
    by rewrite <- Hp. }
  repeat split; simpl; auto.
  - unfold inode_stat. rewrite HD'. simpl. apply touch_file_stat; [|done|done|].
    + rewrite <- (ia_stat _ _ _ _ Hin). apply stat_of_lookup. intros k' Hk%list_elem_of_In.
      by apply trim_other, attr_key_not_slice.
    + eapply trunc_mode_u16, Hin.
  - intros p Hp0 Hp1. rewrite Hcut, decide_True by lia. done.
  - intros p x Hp0. rewrite Hcut, decide_False by lia. case_decide; [|done].
    destruct (file_byte D ino p); simpl; congruence.
  - eapply disk_space_put; [exact Hsb'|]. unfold u64. nia.
Qed.

(** Truncating past the last slice changes the size, the times and the
    mode but no data, and takes the added bytes from the free space. *)
Theorem truncate_extend_effect r_uid r_gid ino t f_size D T n tb b a k sb ds :
  inode_at D ino b a -> stat_ok a k -> sb_at D sb ds ->
  file_writable a r_uid r_gid = true -> u64 f_size -> time_ok t ->
  st_size a / SLICE_SIZE < f_size / SLICE_SIZE -> f_size - st_size a <= ds ->
  wp true (dbfs_common_truncate r_uid r_gid ino t f_size)
     (fun o s' =>
        o = Ok (trunc_attr ino f_size t a k) /\ a_txs s' = T /\ a_ino s' = n /\
        inode_stat (a_db s') ino = Some (trunc_stat f_size t a) /\
        (forall p, file_byte (a_db s') ino p = file_byte D ino p) /\
        disk_space (a_db s') = Some (ds - (f_size - st_size a)) /\
        frame [ino_key ino; k_super_blk] D (a_db s'))
     (mkS D T n tb).
Proof.
  intros Hin Hsok Hsb Hacc Hf Ht Hlt Hgap.
  pose proof (fbe_range _ _ _ _ (sb_disk _ _ _ Hsb)) as Hdr.
  assert (Hg0 : 0 <= f_size - st_size a).
  { pose proof SLICE_SIZE_range. pose proof (pos_split f_size). pose proof (pos_split (st_size a)). nia. }
  eapply wp_truncate_extend; eauto. intros D' HD' Hsb' Hfr. repeat split; simpl; auto.
  - unfold inode_stat. rewrite HD'. simpl.
    apply touch_file_stat; [apply Hin|done|done|eapply trunc_mode_u16, Hin].
  - intros p. unfold file_byte. rewrite HD', (ia_bucket _ _ _ _ Hin). simpl.
    apply other_byte_at. intros. by apply touch_file_slices.
  - eapply disk_space_put; [exact Hsb'|]. unfold u64.
    change (2 ^ (8 * Z.of_nat 8)) with (2 ^ 64) in Hdr. lia.
Qed.

(** [truncate] and [fallocate] of more than the free space fail with
    [NoSpace] and change nothing. *)
Theorem resize_no_space r_uid r_gid ino t f_size mode D T n tb b a k sb ds :
  inode_at D ino b a -> stat_ok a k -> sb_at D sb ds ->
  file_writable a r_uid r_gid = true -> u64 f_size ->
  st_size a / SLICE_SIZE < f_size / SLICE_SIZE -> ds < f_size - st_size a ->
  wp true (dbfs_common_truncate r_uid r_gid ino t f_size)
     (fun o s' => o = Err NoSpace /\ s' = mkS D T n tb) (mkS D T n tb) /\
  wp true (dbfs_common_fallocate r_uid r_gid ino 0 f_size mode t)
     (fun o s' => o = Err NoSpace /\ s' = mkS D T n tb) (mkS D T n tb).
Proof.
  intros Hin Hsok Hsb Hacc Hf Hlt Hgap. unfold u64 in Hf.
  pose proof (fbe_range _ _ _ _ (sb_disk _ _ _ Hsb)) as Hdr.
  split; [eapply wp_truncate_nospace; eauto|].
  eapply wp_fallocate_nospace; eauto; try lia. rewrite Z.add_0_l. unfold falloc_need.
  rewrite (proj2 (Z.ltb_lt _ _)) by lia. lia.
Qed.

(** [fallocate] makes the file at least [offset + size] bytes long, unless
    it was asked to keep the size, reserves the space that an extension past
    the last slice needs, and changes no data. *)
Theorem fallocate_effect r_uid r_gid ino offset size mode t D T n tb b a sb ds :
  inode_at D ino b a -> sb_at D sb ds -> file_writable a r_uid r_gid = true ->
  0 <= offset -> 0 <= size -> offset + size < 2 ^ 64 -> time_ok t ->
  falloc_need (offset + size) a <= ds ->
  wp true (dbfs_common_fallocate r_uid r_gid ino offset size mode t)
     (fun o s' =>
        o = Ok tt /\ a_txs s' = T /\ a_ino s' = n /\
        inode_stat (a_db s') ino =
          Some (if Z.land mode FALLOC_FL_KEEP_SIZE =? 0
                then set_size (Z.max (st_size a) (offset + size)) (set_mtime t (set_ctime t a))
                else a) /\
        (forall p, file_byte (a_db s') ino p = file_byte D ino p) /\
        disk_space (a_db s') = Some (ds - falloc_need (offset + size) a) /\
        frame [ino_key ino; k_super_blk] D (a_db s'))
     (mkS D T n tb).
Proof.
  intros Hin Hsb Hacc Ho Hs Hmax Ht Hneed.
  pose proof (stat_of_range _ _ (ia_stat _ _ _ _ Hin)) as (_ & Hszr & _). unfold u64 in Hszr.
  eapply wp_dbfs_common_fallocate; eauto. intros D' HD' [sb' [Hsb' _ Hds']] Hfr.
  repeat split; simpl; auto.
  - unfold inode_stat. rewrite HD'. simpl. unfold falloc_file. case_match; [|apply Hin].
    destruct (Z.ltb_spec (st_size a) (offset + size)).
    + rewrite Z.max_r by lia. apply stat_put_size; [|unfold u64; lia].
      apply stat_put_mtime; [|done]. apply stat_put_ctime; [apply Hin|done].
    + rewrite Z.max_l by lia.
      replace (set_size (st_size a) (set_mtime t (set_ctime t a)))
        with (set_mtime t (set_ctime t a)) by done.
      apply stat_put_mtime; [|done]. apply stat_put_ctime; [apply Hin|done].
  - intros p. unfold file_byte. rewrite HD', (ia_bucket _ _ _ _ Hin). simpl.
    apply other_byte_at. intros k Hk. unfold falloc_file.
    repeat case_match; rewrite ?lookup_insert_ne; try done; intros <-; revert Hk;
      apply attr_key_not_slice; by apply (bool_decide_unpack _).
  - unfold disk_space. by rewrite Hsb'.
Qed.
End Resize.

(** ** [copy_data] *)

Lemma copy_width_divides src dest len :
  0 < copy_width src dest len /\ len `mod` copy_width src dest len = 0.
Proof.
  unfold copy_width.
  repeat case_match;
    repeat match goal with
      | H : _ && _ = true |- _ => apply andb_true_iff in H as [? ?]
      | H : (_ =? _) = true |- _ => apply Z.eqb_eq in H
      end; split; try lia. apply Z.mod_1_r.
Qed.

(** C40: whatever width it chooses for the alignment of the addresses,
    [copy_data] copies exactly [len] bytes from [src] to [dest] and leaves the
    rest of the memory alone. *)
Theorem copy_data_spec mem src dest len addr :
  copy_data mem src dest len addr =
    if decide (dest <= addr < dest + len) then mem (src + (addr - dest)) else mem addr.
Proof.
  unfold copy_data, copy_words. pose proof (copy_width_divides src dest len) as [Hw Hm].
  set (w := copy_width src dest len) in *.
  replace (w * (len / w)) with len by (rewrite Z.mul_comm; pose proof (Z.div_mod len w); lia).
  destruct (Z.leb_spec dest addr), (Z.ltb_spec addr (dest + len)); simpl;
    case_decide; lia || done.
Qed.

(** ** What the allocator's memory and holes do to the contents *)

Section DataWitness.
#[local] Existing Instance cfg512.

(** [slices_ok] by computation. *)
Definition slices_check (b : bucket) : bool :=
  forallb (fun e =>
    negb (starts_with (bs "zdata:") e.1)
    || match e.2 with
       | KeyValue v =>
           bool_decide (e.1 = generate_data_key_with_number (from_be (drop 6 e.1)))
           && bool_decide (u32 (from_be (drop 6 e.1))) && (blen v =? SLICE_SIZE)
       | Bucket => false
       end) (map_to_list b).

Lemma slices_check_sound b : slices_check b = true -> slices_ok b.
Proof.
  intros Hb k d Hk Hp. apply elem_of_map_to_list, list_elem_of_In in Hk.
  unfold slices_check in Hb. rewrite forallb_forall in Hb. specialize (Hb _ Hk). cbn [fst snd] in Hb.
  unfold starts_with in Hb. rewrite bool_decide_eq_true_2 in Hb by done. simpl in Hb.
  destruct d as [v|]; [|done]. apply andb_true_iff in Hb as [[H1 H2]%andb_true_iff H3].
  exists (from_be (drop 6 k)), v. apply bool_decide_eq_true in H1, H2. apply Z.eqb_eq in H3. done.
Qed.

Lemma sample_file : file_at sample_view 2 (bucket_of sample_view 2) (stat_at sample_view 2).
Proof. split; [concrete|]. apply slices_check_sound. by vm_compute. Qed.

(** [foo] with 1300 bytes of data, which fill three slices. *)
Definition sample_data : bytes := (fun i => byte_of_Z (i / 8)) <$> seqZ 0 1300.
Definition data_world : @World map_platform :=
  snd (run (dbfs_common_write 2 sample_data 0) sample_world).
Definition data_view : view := a_db (st data_world).

Lemma data_file : file_at data_view 2 (bucket_of data_view 2) (stat_at data_view 2).
Proof. split; [concrete|]. apply slices_check_sound. by vm_compute. Qed.

Lemma data_stored j : 0 <= j <= 2 -> is_Some (slice_at (bucket_of data_view 2) j).
Proof.
  intros Hj. assert (j = 0 \/ j = 1 \/ j = 2) as [-> | [-> | ->]] by lia;
    eexists; vm_compute; reflexivity.
Qed.

Lemma read_spec_witness :
  wp true (dbfs_common_read 2 (replicate 1000 x00) 100)
    (read_post data_view 2 (replicate 1000 x00) 100
       (Z.min (blen (replicate 1000 x00)) (st_size (stat_at data_view 2) - 100))
       (mkS data_view [] 6 ∅))
    (mkS data_view [] 6 ∅).
Proof.
  apply (read_spec 2 (replicate 1000 x00) 100 data_view [] 6 ∅ (bucket_of data_view 2)
           (stat_at data_view 2)); [exact data_file|concrete..|].
  intros j Hj1 Hj2. change (100 / SLICE_SIZE) with 0 in Hj1. change SLICE_SIZE with 512 in Hj2.
  replace (Z.min _ _) with 1000 in Hj2 by concrete. apply data_stored. lia.
Defined.

Lemma read_unaligned_witness :
  wp true (dbfs_common_read 2 (replicate 100 x00) 612)
    (read_post data_view 2 (replicate 100 x00) (612 / SLICE_SIZE * SLICE_SIZE)
       (Z.min (blen (replicate 100 x00))
          (st_size (stat_at data_view 2) - 612 / SLICE_SIZE * SLICE_SIZE))
       (mkS data_view [] 6 ∅))
    (mkS data_view [] 6 ∅).
Proof.
  apply (read_unaligned 2 (replicate 100 x00) 612 data_view [] 6 ∅ (bucket_of data_view 2)
           (stat_at data_view 2)); [exact data_file|concrete..|].
  intros j Hj1 Hj2. change (612 / SLICE_SIZE) with 1 in *. change SLICE_SIZE with 512 in Hj2.
  replace (Z.min _ _) with 100 in Hj2 by concrete. apply data_stored. lia.
Defined.

Lemma read_at_end_witness :
  wp false (dbfs_common_read 2 (replicate 10 x00) 1300)
    (fun o s' => s' = mkS data_view [] 6 ∅ /\
       (o = Ok (0, replicate 10 x00) \/ exists e, o = Err e)) (mkS data_view [] 6 ∅).
Proof.
  apply (read_at_end 2 (replicate 10 x00) 1300 data_view [] 6 ∅ (bucket_of data_view 2)
           (stat_at data_view 2)); [apply data_file|apply data_file|concrete].
Defined.

Lemma write_effect_witness :
  wp true (dbfs_common_write 2 (replicate 1300 x41) 0)
    (write_post sample_view [] 6 2 (stat_at sample_view 2) (replicate 1300 x41) 0) sample_state.
Proof.
  apply (write_effect 2 (replicate 1300 x41) 0 sample_view [] 6 ∅ (bucket_of sample_view 2));
    [exact sample_file|concrete..].
Defined.

Lemma write_then_read_witness :
  wp true (dbfs_common_write 2 (replicate 700 x41) 512;;
           dbfs_common_read 2 (replicate 700 x00) 512)
    (fun o _ => o = Ok (700, replicate 700 x41)) sample_state.
Proof.
  apply (write_then_read 2 (replicate 700 x41) (replicate 700 x00) 512 sample_view [] 6 ∅
           (bucket_of sample_view 2) (stat_at sample_view 2));
    [exact sample_file|concrete..].
Defined.

Definition sample_sb : bucket := default ∅ (data_view !! sb_path).
Definition sb_check (V : view) (ds : Z) : bool :=
  match V !! sb_path with
  | Some sb => is_kvb sb && bool_decide (fbe 8 sb k_disk_size = Some ds)
  | None => false
  end.

Lemma sb_check_sound V ds : sb_check V ds = true -> sb_at V (default ∅ (V !! sb_path)) ds.
Proof.
  unfold sb_check. destruct (V !! _) as [sb|] eqn:E; [|done].
  intros [Hk Hd]%andb_true_iff. apply bool_decide_eq_true in Hd. split; simpl; auto.
  by apply is_kvb_sound.
Qed.

Lemma sample_sb_at : sb_at data_view sample_sb (2 ^ 20).
Proof. apply sb_check_sound. vm_compute. reflexivity. Qed.

Lemma truncate_shrink_effect_witness :
  let a := stat_at data_view 2 in
  wp true (dbfs_common_truncate 0 0 2 t1 600)
     (fun o s' =>
        o = Ok (trunc_attr 2 600 t1 a RegularFile) /\ a_txs s' = [] /\ a_ino s' = 6 /\
        inode_stat (a_db s') 2 = Some (trunc_stat 600 t1 a) /\
        (forall p, 0 <= p < 600 -> p < (st_size a / SLICE_SIZE + 1) * SLICE_SIZE ->
           file_byte (a_db s') 2 p = file_byte data_view 2 p) /\
        (forall p x, 600 <= p < (st_size a / SLICE_SIZE + 1) * SLICE_SIZE ->
           file_byte (a_db s') 2 p = Some x -> x = x00) /\
        disk_space (a_db s')
          = Some (2 ^ 20 + (st_size a / SLICE_SIZE - 600 / SLICE_SIZE) * SLICE_SIZE) /\
        frame [ino_key 2; k_super_blk] data_view (a_db s'))
     (mkS data_view [] 6 ∅).
Proof.
  apply (truncate_shrink_effect 0 0 2 t1 600 data_view [] 6 ∅ (bucket_of data_view 2)
           (stat_at data_view 2) RegularFile sample_sb (2 ^ 20));
    [exact data_file|concrete|exact sample_sb_at|concrete..].
Defined.

Lemma truncate_extend_effect_witness :
  let a := stat_at data_view 2 in
  wp true (dbfs_common_truncate 0 0 2 t1 5000)
     (fun o s' =>
        o = Ok (trunc_attr 2 5000 t1 a RegularFile) /\ a_txs s' = [] /\ a_ino s' = 6 /\
        inode_stat (a_db s') 2 = Some (trunc_stat 5000 t1 a) /\
        (forall p, file_byte (a_db s') 2 p = file_byte data_view 2 p) /\
        disk_space (a_db s') = Some (2 ^ 20 - (5000 - st_size a)) /\
        frame [ino_key 2; k_super_blk] data_view (a_db s'))
     (mkS data_view [] 6 ∅).
Proof.
  apply (truncate_extend_effect 0 0 2 t1 5000 data_view [] 6 ∅ (bucket_of data_view 2)
           (stat_at data_view 2) RegularFile sample_sb (2 ^ 20));
    [apply data_file|concrete|exact sample_sb_at|concrete..].
Defined.

Lemma resize_no_space_witness :
  wp true (dbfs_common_truncate 0 0 2 t1 (2 ^ 21))
     (fun o s' => o = Err NoSpace /\ s' = mkS data_view [] 6 ∅) (mkS data_view [] 6 ∅) /\
  wp true (dbfs_common_fallocate 0 0 2 0 (2 ^ 21) 0 t1)
     (fun o s' => o = Err NoSpace /\ s' = mkS data_view [] 6 ∅) (mkS data_view [] 6 ∅).
Proof.
  apply (resize_no_space 0 0 2 t1 (2 ^ 21) 0 data_view [] 6 ∅ (bucket_of data_view 2)
           (stat_at data_view 2) RegularFile sample_sb (2 ^ 20));
    [apply data_file|concrete|exact sample_sb_at|concrete..].
Defined.

Lemma fallocate_effect_witness :
  let a := stat_at data_view 2 in
  wp true (dbfs_common_fallocate 0 0 2 1000 4000 0 t1)
     (fun o s' =>
        o = Ok tt /\ a_txs s' = [] /\ a_ino s' = 6 /\
        inode_stat (a_db s') 2 =
          Some (if Z.land 0 FALLOC_FL_KEEP_SIZE =? 0
                then set_size (Z.max (st_size a) (1000 + 4000)) (set_mtime t1 (set_ctime t1 a))
                else a) /\
        (forall p, file_byte (a_db s') 2 p = file_byte data_view 2 p) /\
        disk_space (a_db s') = Some (2 ^ 20 - falloc_need (1000 + 4000) a) /\
        frame [ino_key 2; k_super_blk] data_view (a_db s'))
     (mkS data_view [] 6 ∅).
Proof.
  apply (fallocate_effect 0 0 2 1000 4000 0 t1 data_view [] 6 ∅ (bucket_of data_view 2)
           (stat_at data_view 2) sample_sb (2 ^ 20));
    [apply data_file|exact sample_sb_at|concrete..].
Defined.

(** The first write to a slice that does not fill it stores the rest of
    the block the allocator returned: on a platform whose fresh blocks hold
    the byte 0xee, writing one byte at offset 4 of an empty file and reading
    from 0 returns four bytes of that memory, not zeros. *)
Theorem write_stores_allocator_memory :
  fst (run (dbfs_common_write 2 [x41] 4;; dbfs_common_read 2 (replicate 5 x00) 0) sample_world)
  = Ok (5, [xee; xee; xee; xee; x41]).
Proof. by vm_compute. Qed.

(** Writing takes no blocks off the free space and truncating gives them back:
    after 1300 bytes were written and cut off again, the recorded free space is
    larger than the disk. *)
Theorem truncate_creates_space :
  disk_space (a_db (st root_world)) = Some (2 ^ 20) /\
  disk_space (a_db (st (snd (run (dbfs_common_truncate 0 0 2 t1 0) data_world))))
    = Some (2 ^ 20 + 1024).
Proof. by vm_compute. Qed.

(** The part of a file that a truncation added is not read as zeros: after
    extending a file of 1300 bytes to 5000, a read of 5000 bytes returns the
    1536 bytes of the stored slices, and a read at 2048 returns none. *)
Theorem read_stops_at_hole :
  let w := snd (run (dbfs_common_truncate 0 0 2 t1 5000) data_world) in
  match fst (run (dbfs_common_attr 2) w) with Ok a => attr_size a | _ => 0 end = 5000 /\
  match fst (run (dbfs_common_read 2 (replicate 5000 x00) 0) w) with
  | Ok (n, _) => n | _ => 0 end = 1536 /\
  fst (run (dbfs_common_read 2 (replicate 100 x01) 2048) w) = Ok (0, replicate 100 x01).
Proof. by vm_compute. Qed.
End DataWitness.
