(* ===== verification/CopyRange.v ===== *)
(** * [copy_file_range]: the bytes it copies

    The call reads a range of one file into a buffer, writes the buffer to
    another file and sets the times of that file, in four transactions. *)

From S2P Require Import Prelude Jammdb Effects Run RustStd Common Buckets Slices Access Inode.
From S2P Require Import Create FsType Link Truncate File Samples Namespace Data.

Section CopyRange.
Context `{Config}.

(** The state after [count] bytes were copied from [src] to [dest]. *)
Definition copy_post (D : view) (T : list (view * bool)) (n src offset_src dest offset_dest count : Z)
    (a : Stat) (t : DbfsTimeSpec) (o : outcome DbfsError Z) (s' : AState) : Prop :=
  o = Ok count /\ a_txs s' = T /\ a_ino s' = n /\
  inode_stat (a_db s') dest
    = Some (set_mtime t (set_ctime t (set_size (Z.max (st_size a) (offset_dest + count)) a))) /\
  (forall j, 0 <= j < count ->
     file_byte (a_db s') dest (offset_dest + j) = file_byte D src (offset_src + j)) /\
  (forall p x, 0 <= p < 2 ^ 32 * SLICE_SIZE -> ~ (offset_dest <= p < offset_dest + count) ->
     file_byte D dest p = Some x -> file_byte (a_db s') dest p = Some x) /\
  data_frame D (a_db s') dest [k_size; k_ctime; k_mtime] offset_dest count /\
  frame [ino_key dest] D (a_db s').

(** The bucket of the destination after [data] was written to it. *)
Definition copied (size end_ : Z) (t : DbfsTimeSpec) (b : bucket) : bucket :=
  <[k_mtime := KeyValue (time_to_be_bytes t)]>
    (<[k_ctime := KeyValue (time_to_be_bytes t)]> (grow size end_ b)).

Lemma copied_byte size end_ t b p : byte_at (copied size end_ t b) p = byte_at b p.
Proof.
  unfold copied. rewrite !byte_at_other, byte_at_grow; [done|..];
    apply attr_key_not_slice; by apply (bool_decide_unpack _).
Qed.

Lemma copied_lookup size end_ t b k :
  k ∉ [k_size; k_ctime; k_mtime] -> copied size end_ t b !! k = b !! k.
Proof.
  intros Hk. unfold copied. rewrite !lookup_insert_ne by (intros <-; apply Hk; repeat constructor).
  apply grow_lookup. intros ->. apply Hk. constructor.
Qed.
Lemma copied_slice size end_ t b i : slice_at (copied size end_ t b) i = slice_at b i.
Proof.
  unfold slice_at, fkv. rewrite copied_lookup; [done|]. intros Hk.
  assert (Ha : generate_data_key_with_number i ∈ attr_keys)
    by (revert Hk; (rewrite !list.elem_of_cons; intros [->|[->|[->|H0]]]; [by apply (bool_decide_unpack _)..|by apply not_elem_of_nil in H0])).
  apply (attr_key_not_slice _ Ha). by eexists.
Qed.

Lemma wp_copy_range src offset_src dest offset_dest len t D T n tb b a b' a' :
  file_at D src b a -> file_at D dest b' a' ->
  0 <= offset_src < st_size a -> st_size a < (2 ^ 32 - 1) * SLICE_SIZE -> 0 < len ->
  offset_src < SLICE_SIZE \/ offset_src `mod` SLICE_SIZE = 0 ->
  let count := Z.min (st_size a - offset_src) len in
  (forall j, offset_src / SLICE_SIZE <= j -> j * SLICE_SIZE < offset_src + count ->
     is_Some (slice_at b j)) ->
  0 <= offset_dest -> offset_dest + count <= 2 ^ 32 * SLICE_SIZE ->
  wp true (dbfs_common_copy_file_range src offset_src dest offset_dest len t)
     (fun o s' => exists buf b2, blen buf = count /\
        (forall j : nat, Z.of_nat j < count -> buf !! j = byte_at b (offset_src + Z.of_nat j)) /\
        written b' b2 offset_dest buf /\ o = Ok count /\
        s' = mkS (<[ipath dest := copied (st_size a') (offset_dest + count) t b2]> D) T n tb)
     (mkS D T n tb).
Proof.
  intros [Hin Hok] [Hin' Hok'] Ho Hsz Hlen Hal count Hst Hod Hmax. pose proof SLICE_SIZE_range.
  assert (Hbase : read_base offset_src = offset_src).
  { unfold read_base. destruct (Z.ltb_spec offset_src SLICE_SIZE); [done|].
    pose proof (pos_split offset_src). lia. }
  pose proof Hin as [HD Hkvb Hs]. pose proof (stat_of_range _ _ Hs) as (_ & Hr & _). unfold u64 in Hr.
  unfold dbfs_common_copy_file_range. apply wp_bind. open_stat Hs. apply wp_tx_q; [done|].
  wnorm. wgo. unfold saturating_sub. rewrite Z.max_r by lia. fold count.
  assert (Hbl : blen (replicate (Z.to_nat count) x00) = count)
    by (unfold blen; rewrite length_replicate; lia).
  eapply (wp_dbfs_common_read true src _ offset_src D T n tb b a);
    [done|done|done|lia|lia|lia|lia| | |done]; rewrite Hbase, Hbl.
  { intros j Hj1 Hj2. apply Hst; lia. }
  intros buf [Hl Hn _]. assert (Hbc : blen buf = count) by (unfold blen in *; lia).
  replace (Z.min (offset_src + count) (st_size a) - offset_src) with count in * by lia.
  wnorm. rewrite <- Hbc, slice_all. apply wp_bind.
  eapply (wp_dbfs_common_write dest buf offset_dest D T n tb b' a'); [done|done|lia|lia|lia|].
  intros b2 Hw. pose proof (grow_kvb (st_size a') (offset_dest + blen buf) b2 (wr_kvb _ _ _ _ Hw)) as Hkg.
  wnorm. apply wp_bind. apply wp_tx_q; [done|]. wnorm. wstep. wstep. eapply wp_get_bucket_ok; [reflexivity|apply lookup_insert_eq|]. wnorm. wgo.
  eapply wp_commit; [reflexivity|done|]. wnorm. cbn [a_db].
  exists buf, b2. split_and!; [done| |done|done|].
  - intros j Hj. apply Hn. lia.
  - unfold copied. by rewrite ?insert_insert_eq.
Qed.

(** C35: when the offset in the source is in its first slice or at the start of
    a slice, and all the slices of the source range are stored, copying a range
    between two files (or within one) copies exactly the bytes that the source
    has there, at most [len] and at most to its end: it returns their number,
    the destination holds them at its offset, every byte that was stored
    outside that range and every slice that the range does not meet is as
    before, its size is the larger of the old size and the end of the range,
    its times are the given one, its other entries are unchanged, and no other
    bucket changes.  The bytes around the range in a slice of the destination
    that was not stored are left open. *)
Theorem copy_file_range_effect src offset_src dest offset_dest len t D T n tb b a b' a' :
  file_at D src b a -> file_at D dest b' a' ->
  0 <= offset_src < st_size a -> st_size a < (2 ^ 32 - 1) * SLICE_SIZE -> 0 < len ->
  offset_src < SLICE_SIZE \/ offset_src `mod` SLICE_SIZE = 0 ->
  let count := Z.min (st_size a - offset_src) len in
  (forall j, offset_src / SLICE_SIZE <= j -> j * SLICE_SIZE < offset_src + count ->
     is_Some (slice_at b j)) ->
  0 <= offset_dest -> offset_dest + count <= 2 ^ 32 * SLICE_SIZE -> time_ok t ->
  wp true (dbfs_common_copy_file_range src offset_src dest offset_dest len t)
     (copy_post D T n src offset_src dest offset_dest count a' t) (mkS D T n tb).
Proof.
  intros Hf Hf' Ho Hsz Hlen Hal count Hst Hod Hmax Ht. pose proof SLICE_SIZE_range.
  eapply wp_mono; [by apply (wp_copy_range src offset_src dest offset_dest len t D T n tb b a b' a')|].
  intros o s' (buf & b2 & Hbl & Hbuf & Hw & -> & ->). destruct Hf as [[HD _ _] _], Hf' as [[HD' _ Hs'] _].
  unfold copy_post, inode_stat, file_byte. cbn [a_db a_txs a_ino]. rewrite lookup_insert_eq, HD, HD'. simpl.
  fold count. split_and!; try done.
  - assert (stat_of b2 = Some a') by (by rewrite (written_stat _ _ _ _ Hw)).
    unfold copied. assert (stat_of (grow (st_size a') (offset_dest + count) b2)
      = Some (set_size (Z.max (st_size a') (offset_dest + count)) a'))
      by (apply grow_stat; [done..|unfold u64; lia]).
    eauto with stat.
  - intros j Hj. rewrite copied_byte. replace j with (Z.of_nat (Z.to_nat j)) by lia.
    destruct (lookup_lt_is_Some_2 buf (Z.to_nat j)) as [x Hx]; [unfold blen in Hbl; lia|].
    rewrite (wr_new _ _ _ _ Hw _ _ Hx), <- Hx. apply Hbuf. lia.
  - intros p x Hp Hout Hx. rewrite copied_byte. apply (wr_old _ _ _ _ Hw); [done| |done]. by rewrite Hbl.
  - exists b', (copied (st_size a') (offset_dest + count) t b2). split; [done|].
    split; [apply lookup_insert_eq|]. split.
    + intros k Hk1 Hk2. rewrite copied_lookup by done. by apply (wr_other _ _ _ _ Hw).
    + intros i Hi Hout. rewrite copied_slice. apply (wr_slices _ _ _ _ Hw); [done|]. by rewrite Hbl.
  - eauto using list_elem_of_here with stat.
Qed.
End CopyRange.

Section CopyWitness.
#[local] Existing Instance cfg512.

(** The sample with data in [foo], and an empty file [copy] (inode 6). *)
Definition copy_world : @World map_platform :=
  snd (run (dbfs_common_create 1 (bs "copy") 0 0 t0 (Z.lor Perm.S_IFREG 0x1a4) None None) data_world).
Definition copy_view : view := a_db (st copy_world).

Lemma copy_file_range_effect_witness :
  let count := Z.min (st_size (stat_at copy_view 2) - 512) 1000 in
  count = 788 /\
  wp true (dbfs_common_copy_file_range 2 512 6 100 1000 t1)
     (copy_post copy_view [] 7 2 512 6 100 count (stat_at copy_view 6) t1) (mkS copy_view [] 7 ∅).
Proof.
  intros count. assert (Hsize : st_size (stat_at copy_view 2) = 1300) by (by vm_compute).
  split; [unfold count; by rewrite Hsize|].
  apply (copy_file_range_effect 2 512 6 100 1000 t1 copy_view [] 7 ∅ (bucket_of copy_view 2)
    (stat_at copy_view 2) (bucket_of copy_view 6) (stat_at copy_view 6)); rewrite ?Hsize.
  - split; [concrete|]. apply slices_check_sound. by vm_compute.
  - split; [concrete|]. apply slices_check_sound. by vm_compute.
  - lia.
  - by vm_compute.
  - lia.
  - by right.
  - intros j Hj1 Hj2. change (512 / SLICE_SIZE) with 1 in Hj1.
    change (@SLICE_SIZE cfg512) with 512 in Hj2.
    assert (j = 1 \/ j = 2) as [-> | ->] by lia; eexists; vm_compute; reflexivity.
  - lia.
  - by vm_compute.
  - concrete.
Defined.
End CopyWitness.
