(* ===== verification/Metadata.v ===== *)
(** * Metadata: permissions, modes, extended attributes

    The theorems on the access check and the calls that use it, on [chmod],
    [open], [access] and the extended attributes. *)

From S2P Require Import Prelude Jammdb Effects Run RustStd Common Buckets Access Inode Create.
From S2P Require Import FsType Link Truncate Attr Samples Namespace.

(** ** The access check *)

(** C38: [checkout_access] implements the POSIX rule: every requested bit must
    be granted by the owner's, the group's or the others' bits, whichever
    class the caller is in; the super user is granted everything except
    execution of a file that nobody may execute. *)
Theorem checkout_access_spec p_uid p_gid mode uid gid mask :
  checkout_access p_uid p_gid mode uid gid mask = true <->
  access_granted p_uid p_gid mode uid gid mask.
Proof. apply checkout_access_granted. Qed.

Lemma land_high p x : 0 <= p < 2 ^ 12 -> Z.land x 0xf000 = x -> Z.land p x = 0.
Proof.
  intros Hp Hx. rewrite <- Hx, (Z.land_comm x), Z.land_assoc.
  replace (Z.land p 0xf000) with 0; [apply Z.land_0_l|]. symmetry.
  apply Z.bits_inj'. intros i Hi. rewrite Z.land_spec, Z.bits_0.
  destruct (Z.lt_ge_cases i 12).
  - replace 0xf000 with (Z.shiftl 0xf 12) by done. rewrite Z.shiftl_spec_low by done.
    apply andb_false_r.
  - rewrite (Z.bits_above_log2 p); [done|lia|].
    destruct (Z.eq_dec p 0) as [->|]; [simpl; lia|].
    apply Z.lt_le_trans with 12; [apply Z.log2_lt_pow2; lia|done].
Qed.

(** The type of a mode depends on its type bits only. *)
Lemma contains_type m p x :
  0 <= p < 2 ^ 12 -> Z.land x 0xf000 = x -> Perm.contains (Z.lor m p) x = Perm.contains m x.
Proof.
  intros Hp Hx. unfold Perm.contains.
  by rewrite Z.land_lor_distr_l, (land_high p x), Z.lor_0_r.
Qed.

Lemma file_type_low m p :
  0 <= p < 2 ^ 12 -> file_type_of_perm (Z.lor m p) = file_type_of_perm m.
Proof. intros Hp. unfold file_type_of_perm. by rewrite !contains_type. Qed.

(** The type of an inode can be read back from its mode, whatever the
    other twelve bits are; the order of the tests matters, since the bit
    patterns of some types contain those of others. *)
Theorem file_type_roundtrip k p :
  0 <= p < 2 ^ 12 -> file_type_of_perm (Z.lor (mode_bits k) p) = Some k.
Proof. intros Hp. rewrite file_type_low by done. by destruct k. Qed.

Section Calls.
Context `{Config}.

(** [open] succeeds exactly when the access check of the inode's owner,
    group and mode grants the request, and never changes the file system. *)
Theorem open_spec ino uid gid mask D T n tb b a k :
  D !! ipath ino = Some b -> stat_of b = Some a -> stat_ok a k ->
  wp true (dbfs_common_open ino uid gid mask)
     (fun o s' => s' = mkS D T n tb /\
        ((o = Ok tt /\ access_granted (st_uid a) (st_gid a) (st_mode a) uid gid mask) \/
         (o = Err AccessError /\ ~ access_granted (st_uid a) (st_gid a) (st_mode a) uid gid mask)))
     (mkS D T n tb).
Proof.
  intros HD Hst Hok. unfold dbfs_common_open. wgo.
  eapply wp_dbfs_common_attr; [exact HD|exact Hst|exact Hok| |done]. wnorm.
  cbn [attr_uid attr_gid attr_perm attr_of_stat].
  destruct (checkout_access _ _ _ _ _ _) eqn:E; wgo; (split; [done|]); [left|right];
    (split; [done|]).
  - by apply checkout_access_granted.
  - intros Hg%checkout_access_granted. congruence.
Qed.

(** [access] has the caller and the owner the wrong way round: on an
    inode of root every request without the execute bit is granted to every
    caller, whatever the mode. *)
Theorem access_of_root_inode p_uid p_gid ino mask D T n tb b a :
  D !! ipath ino = Some b -> stat_of b = Some a -> st_uid a = 0 ->
  Z.testbit mask 0 = false -> 0 <= mask < 2 ^ 16 ->
  wp true (dbfs_common_access p_uid p_gid ino mask)
     (fun o s' => o = Ok true /\ s' = mkS D T n tb) (mkS D T n tb).
Proof.
  intros HD Hst Hu Hm Hr. open_stat Hst. unfold dbfs_common_access.
  apply wp_tx_q; [done|]. wnorm. wgo. split; [|done]. f_equal.
  rewrite Z.mod_small by done. apply checkout_access_granted. unfold access_granted.
  rewrite Hu, Z.eqb_refl. congruence.
Qed.

(** The mode [chmod] stores is a mode of the same type. *)
Lemma chmod_mode_u16 a mode : u16 (chmod_mode a mode).
Proof.
  assert (Hlow : 0 <= Z.land mode Perm.MODE_777 < 2 ^ 9).
  { change Perm.MODE_777 with (Z.ones 9). rewrite Z.land_ones by lia. apply Z.mod_pos_bound. lia. }
  assert (Hhigh : 0 <= Z.land (st_mode a) Perm.S_IFMT < 2 ^ 16).
  { rewrite Z.land_comm. pose proof (sub_land Perm.S_IFMT (st_mode a)).
    pose proof (ldiff_range 16 Perm.S_IFMT (st_mode a)).
    assert (0 <= Z.land Perm.S_IFMT (st_mode a)) by (apply Z.land_nonneg; left; done).
    unfold Perm.S_IFMT in *. lia. }
  apply (lor_range 16); lia.
Qed.
Lemma chmod_stat_mode a mode t : st_mode (chmod_stat a mode t) = chmod_mode a mode.
Proof. unfold chmod_stat. destruct (Z.eqb_spec (chmod_mode a mode) (st_mode a)); done. Qed.
Lemma chmod_kind a mode t :
  file_type_of_perm (st_mode (chmod_stat a mode t)) = file_type_of_perm (st_mode a).
Proof.
  rewrite chmod_stat_mode. unfold chmod_mode. rewrite file_type_low.
  - unfold file_type_of_perm, Perm.contains. by rewrite <- !Z.land_assoc.
  - change Perm.MODE_777 with (Z.ones 9). rewrite Z.land_ones by lia.
    pose proof (Z.mod_pos_bound mode (2 ^ 9) ltac:(lia)). lia.
Qed.

(** Bits that are not type bits can be removed. *)
Lemma file_type_remove m x :
  Z.land x Perm.S_IFMT = 0 -> file_type_of_perm (Perm.remove m x) = file_type_of_perm m.
Proof.
  intros Hx.
  assert (Hc : forall y, Z.land Perm.S_IFMT y = y -> Perm.contains (Perm.remove m x) y = Perm.contains m y).
  { intros y Hy. unfold Perm.contains, Perm.remove. f_equal. apply Z.bits_inj'. intros i Hi.
    rewrite !Z.land_spec, Z.ldiff_spec. destruct (Z.testbit y i) eqn:Ey; [|by rewrite !andb_false_r].
    rewrite <- Hy, Z.land_spec in Ey. apply andb_true_iff in Ey as [Ei _].
    assert (Hb : Z.testbit (Z.land x Perm.S_IFMT) i = false) by (rewrite Hx; apply Z.bits_0).
    rewrite Z.land_spec, Ei, andb_true_r in Hb. by rewrite Hb, !andb_true_r. }
  unfold file_type_of_perm. by rewrite !Hc.
Qed.
Lemma file_type_truncate m : file_type_of_perm (Perm.from_bits_truncate m) = file_type_of_perm m.
Proof.
  unfold file_type_of_perm, Perm.contains, Perm.from_bits_truncate. by rewrite <- !Z.land_assoc.
Qed.
Lemma chown_kind a uid gid t :
  file_type_of_perm (st_mode (chown_stat a uid gid t)) = file_type_of_perm (st_mode a).
Proof.
  unfold chown_stat. cbn [set_ctime set_mode st_mode]. unfold chown_mode, clear_suid_sgid. cbv zeta.
  destruct gid, uid; repeat case_match; by rewrite ?file_type_remove, file_type_truncate.
Qed.

Lemma trunc_kind size t a :
  file_type_of_perm (st_mode (trunc_stat size t a)) = file_type_of_perm (st_mode a).
Proof.
  unfold trunc_stat. cbn [set_mode st_mode]. unfold trunc_mode, clear_suid_sgid. cbv zeta.
  case_match; by rewrite !file_type_remove, file_type_truncate.
Qed.

(** [chmod] by root or by the owner (with the inode's group) replaces the
    permission bits, keeps the type of the inode and everything else, and
    returns the new attributes. *)
Theorem chmod_effect r_uid r_gid ino mode t D T n tb b a k :
  inode_at D ino b a -> stat_ok a k -> chmod_allowed a r_uid r_gid = true -> time_ok t ->
  wp true (dbfs_common_chmod r_uid r_gid ino mode t)
     (fun o s' =>
        o = Ok (attr_of_stat ino (chmod_stat a mode t) k) /\ a_txs s' = T /\ a_ino s' = n /\
        inode_stat (a_db s') ino = Some (chmod_stat a mode t) /\
        file_type_of_perm (st_mode (chmod_stat a mode t)) = Some k /\
        Z.land (st_mode (chmod_stat a mode t)) Perm.MODE_777 = Z.land mode Perm.MODE_777 /\
        (forall key, key <> k_mode -> key <> k_ctime ->
           (a_db s' !! ipath ino ≫= fun b' => b' !! key) = b !! key) /\
        frame [ino_key ino] D (a_db s'))
     (mkS D T n tb).
Proof.
  intros Hin Hok Hacc Ht. pose proof (stat_of_range _ _ (ia_stat _ _ _ _ Hin)) as (Hm & _).
  eapply wp_chmod_ok; eauto using chmod_mode_u16; [|done]. intros D' b' HD' Hk' Hs' Hother Hfr.
  rewrite chmod_kind, chmod_stat_mode. repeat split; simpl; auto.
  - unfold inode_stat. by rewrite HD'.
  - apply Hok.
  - unfold chmod_mode. rewrite Z.land_lor_distr_l, <- !Z.land_assoc.
    change (Z.land Perm.S_IFMT Perm.MODE_777) with 0.
    by rewrite Z.land_0_r, Z.lor_0_l, Z.land_diag.
  - intros key H1 H2. rewrite HD'. simpl. auto.
Qed.

(** [chmod] by anybody else is refused and changes nothing, on every
    platform. *)
Theorem chmod_denied rel r_uid r_gid ino mode t D T n tb b a k :
  D !! ipath ino = Some b -> stat_of b = Some a -> stat_ok a k ->
  chmod_allowed a r_uid r_gid = false ->
  wp rel (dbfs_common_chmod r_uid r_gid ino mode t)
     (fun o s' => s' = mkS D T n tb /\
        if rel then o = Err PermissionDenied else exists e, o = Err e)
     (mkS D T n tb).
Proof. intros. eapply wp_chmod_denied; eauto; destruct rel; eauto; done. Qed.

(** An extended attribute that was set is read back, and setting it
    changes no attribute of the inode but its change time, no entry and no
    data. *)
Theorem setxattr_then_getxattr r_uid r_gid ino key value buf t D T n tb b a :
  inode_at D ino b a -> xattr_allowed key ACCESS_R_OK r_uid r_gid a = None ->
  0 < blen buf -> blen value <= blen buf -> time_ok t ->
  wp true (dbfs_common_setxattr r_uid r_gid ino key value t;;
           dbfs_common_getxattr r_uid r_gid ino key buf)
     (fun o s' =>
        o = Ok (blen value, value ++ drop (length value) buf) /\
        inode_stat (a_db s') ino = Some (set_ctime t a) /\
        (forall k, k <> key -> k <> k_ctime ->
           (a_db s' !! ipath ino ≫= fun b' => b' !! k) = b !! k) /\
        frame [ino_key ino] D (a_db s'))
     (mkS D T n tb).
Proof.
  intros Hin Hacc Hb Hlen Ht.
  destruct (xattr_check_namespace _ _ _ _ _ _ _ Hacc) as [ns Hns].
  destruct (xattr_key_other _ _ Hns) as [Hk1 Hk2].
  assert (Hst : stat_of (<[k_ctime := KeyValue (time_to_be_bytes t)]> (<[key := KeyValue value]> b))
                = Some (set_ctime t a)).
  { apply stat_put_ctime; [|done]. rewrite stat_put_other by done. apply Hin. }
  apply wp_bind. eapply wp_dbfs_common_setxattr; eauto; [|done]. cbv beta iota.
  eapply wp_dbfs_common_getxattr with (a := set_ctime t a).
  - apply lookup_insert_eq.
  - exact Hst.
  - exact Hacc.
  - rewrite fkv_insert_ne by done. apply fkv_insert_eq.
  - done.
  - done.
  - rewrite splice_0. split; [done|]. simpl. unfold inode_stat. rewrite lookup_insert_eq. simpl.
    split; [done|]. split; [|eauto using list_elem_of_here with stat].
    intros k H1 H2. by rewrite !lookup_insert_ne.
  - done.
Qed.

(** [removexattr] reports success for an attribute that exists but does
    not commit: the attribute is still there. *)
Theorem removexattr_no_effect r_uid r_gid ino key t D T n tb b a v :
  inode_at D ino b a -> xattr_allowed key ACCESS_W_OK r_uid r_gid a = None ->
  fkv b key = Some v ->
  wp true (dbfs_common_removexattr r_uid r_gid ino key t)
     (fun o s' => o = Ok tt /\ s' = mkS D T n tb) (mkS D T n tb).
Proof. apply wp_removexattr_ok. Qed.
End Calls.

Section MetadataWitness.
#[local] Existing Instance cfg512.

Lemma file_type_roundtrip_witness : file_type_of_perm (Z.lor (mode_bits Socket) 0x1ed) = Some Socket.
Proof. apply (file_type_roundtrip Socket 0x1ed). lia. Defined.

Lemma sample_foo : inode_at sample_view 2 (bucket_of sample_view 2) (stat_at sample_view 2).
Proof. concrete. Qed.

Lemma open_spec_witness :
  let a := stat_at sample_view 2 in
  wp true (dbfs_common_open 2 7 7 2)
     (fun o s' => s' = sample_state /\
        ((o = Ok tt /\ access_granted (st_uid a) (st_gid a) (st_mode a) 7 7 2) \/
         (o = Err AccessError /\ ~ access_granted (st_uid a) (st_gid a) (st_mode a) 7 7 2)))
     sample_state.
Proof.
  apply (open_spec 2 7 7 2 sample_view [] 6 ∅ (bucket_of sample_view 2) (stat_at sample_view 2)
           RegularFile); [apply sample_foo|apply sample_foo|concrete].
Defined.

Lemma access_of_root_inode_witness :
  wp true (dbfs_common_access 7 7 2 ACCESS_W_OK)
     (fun o s' => o = Ok true /\ s' = sample_state) sample_state.
Proof.
  apply (access_of_root_inode 7 7 2 ACCESS_W_OK sample_view [] 6 ∅ (bucket_of sample_view 2)
           (stat_at sample_view 2)); [apply sample_foo|apply sample_foo|concrete..].
Defined.

Lemma chmod_effect_witness :
  let a' := chmod_stat (stat_at sample_view 2) 0x1ed t1 in
  wp true (dbfs_common_chmod 0 0 2 0x1ed t1)
     (fun o s' =>
        o = Ok (attr_of_stat 2 a' RegularFile) /\ a_txs s' = [] /\ a_ino s' = 6 /\
        inode_stat (a_db s') 2 = Some a' /\
        file_type_of_perm (st_mode a') = Some RegularFile /\
        Z.land (st_mode a') Perm.MODE_777 = Z.land 0x1ed Perm.MODE_777 /\
        (forall key, key <> k_mode -> key <> k_ctime ->
           (a_db s' !! ipath 2 ≫= fun b' => b' !! key) = bucket_of sample_view 2 !! key) /\
        frame [ino_key 2] sample_view (a_db s'))
     sample_state.
Proof.
  apply (chmod_effect 0 0 2 0x1ed t1 sample_view [] 6 ∅ (bucket_of sample_view 2)
           (stat_at sample_view 2) RegularFile); concrete.
Defined.

Lemma chmod_denied_witness :
  wp false (dbfs_common_chmod 7 7 2 0x1ff t1)
     (fun o s' => s' = sample_state /\ exists e, o = Err e) sample_state.
Proof.
  apply (chmod_denied false 7 7 2 0x1ff t1 sample_view [] 6 ∅ (bucket_of sample_view 2)
           (stat_at sample_view 2) RegularFile); [apply sample_foo|apply sample_foo|concrete..].
Defined.

Lemma setxattr_then_getxattr_witness :
  wp true (dbfs_common_setxattr 0 0 2 (bs "user.k") (bs "v") t1;;
           dbfs_common_getxattr 0 0 2 (bs "user.k") (replicate 4 x00))
     (fun o s' =>
        o = Ok (blen (bs "v"), bs "v" ++ drop (length (bs "v")) (replicate 4 x00)) /\
        inode_stat (a_db s') 2 = Some (set_ctime t1 (stat_at sample_view 2)) /\
        (forall k, k <> bs "user.k" -> k <> k_ctime ->
           (a_db s' !! ipath 2 ≫= fun b' => b' !! k) = bucket_of sample_view 2 !! k) /\
        frame [ino_key 2] sample_view (a_db s'))
     sample_state.
Proof.
  apply (setxattr_then_getxattr 0 0 2 (bs "user.k") (bs "v") (replicate 4 x00) t1 sample_view []
           6 ∅ (bucket_of sample_view 2)); concrete.
Defined.

(** [foo] with the attribute [user.k]. *)
Definition xattr_view : view :=
  a_db (st (snd (run (dbfs_common_setxattr 0 0 2 (bs "user.k") (bs "v") t1) sample_world))).

Lemma removexattr_no_effect_witness :
  wp true (dbfs_common_removexattr 0 0 2 (bs "user.k") t1)
     (fun o s' => o = Ok tt /\ s' = mkS xattr_view [] 6 ∅) (mkS xattr_view [] 6 ∅).
Proof.
  apply (removexattr_no_effect 0 0 2 (bs "user.k") t1 xattr_view [] 6 ∅ (bucket_of xattr_view 2)
           (stat_at xattr_view 2) (bs "v")); concrete.
Defined.
End MetadataWitness.
