(* ===== verification/Refusals.v ===== *)
(** * Refused calls

    What the calls that change a directory do when the access check or the
    sticky bit refuses them: they answer [AccessError], and the database is
    left as it was.  A refused creation has drawn an inode number already.
    Also preallocation and the calls on extended attributes, when they are
    refused or do not find or cannot return a value. *)

From S2P Require Import Prelude Jammdb Effects Run RustStd Common Buckets Access Inode Create.
From S2P Require Import Link Truncate Rename Attr Metadata.

Section Rules.
Context `{Config} (rel : bool).
Context (D : view) (T : list (view * bool)) (n : Z) (tb : gmap Z ReadDirInfo).
Abbreviation s := (mkS D T n tb).

Lemma wp_create_denied dir name uid gid t permission target dev pb pa
    (Q : outcome DbfsError DbfsAttr -> AState -> Prop) :
  inode_at D dir pb pa -> may_write pa uid gid = false ->
  let s' := mkS D T ((n + 1) `mod` 2 ^ 64) tb in
  Q (Err AccessError) s' ->
  (rel = false -> forall e, Q (Err (from_jerror e)) s') ->
  wp rel (dbfs_common_create dir name uid gid t permission target dev) Q s.
Proof.
  intros [HD Hkvb Hst] Hacc s' HQ Hf. open_stat Hst. unfold may_write, ACCESS_W_OK in Hacc.
  unfold dbfs_common_create. wgo. apply wp_tx_q; [exact Hf|]. wnorm. wgo.
  unfold guard_err. rewrite Hacc. simpl. wgo. exact HQ.
Qed.

Lemma wp_link_denied uid gid m dir name t pb pa k Q :
  inode_at D dir pb pa -> stat_ok pa k -> may_write pa uid gid = false ->
  Q (Err AccessError) s -> (rel = false -> forall e, Q (Err e) s) ->
  wp rel (dbfs_common_link uid gid m dir name t) Q s.
Proof.
  intros [HD Hkvb Hst] Hok Hacc HQ Hf. unfold may_write, ACCESS_W_OK in Hacc.
  unfold dbfs_common_link. wgo.
  eapply wp_dbfs_common_attr; [exact HD|exact Hst|exact Hok| |intros; by apply Hf]. wnorm. wgo.
  cbn [attr_uid attr_gid attr_perm attr_of_stat]. unfold guard_err. rewrite Hacc. simpl. wgo. exact HQ.
Qed.

Lemma wp_fallocate_denied uid gid ino offset size mode t b a
    (Q : outcome DbfsError unit -> AState -> Prop) :
  inode_at D ino b a -> file_writable a uid gid = false ->
  Q (Err AccessError) s -> (rel = false -> forall e, Q (Err (from_jerror e)) s) ->
  (rel = false -> Q Panic s) ->
  wp rel (dbfs_common_fallocate uid gid ino offset size mode t) Q s.
Proof.
  intros [HD Hkvb Hst] Hacc HQ Hf Hp. open_stat Hst. unfold file_writable in Hacc.
  unfold dbfs_common_fallocate. apply wp_tx_q; [exact Hf|]. wnorm. wgo.
  unfold guard_err. rewrite Hacc. simpl. wgo. exact HQ.
Qed.

Lemma wp_setxattr_denied uid gid ino key value t b a e Q :
  inode_at D ino b a -> xattr_allowed key ACCESS_R_OK uid gid a = Some e ->
  Q (Err e) s -> (rel = false -> Q Panic s) ->
  wp rel (dbfs_common_setxattr uid gid ino key value t) Q s.
Proof.
  intros [HD Hkvb Hst] Hacc HQ Hf. open_stat Hst. unfold xattr_allowed in Hacc.
  unfold dbfs_common_setxattr. apply wp_tx_unwrap; [apply Hf|]. wnorm. wgo.
  rewrite Hacc. apply wp_check_err. wnorm. exact HQ.
Qed.

Lemma wp_getxattr_denied uid gid ino key buf b a e Q :
  inode_at D ino b a -> xattr_allowed key ACCESS_R_OK uid gid a = Some e ->
  Q (Err e) s -> (rel = false -> Q Panic s) ->
  wp rel (dbfs_common_getxattr uid gid ino key buf) Q s.
Proof.
  intros [HD Hkvb Hst] Hacc HQ Hf. open_stat Hst. unfold xattr_allowed in Hacc.
  unfold dbfs_common_getxattr. apply wp_tx_unwrap; [apply Hf|]. wnorm. wgo.
  rewrite Hacc. apply wp_check_err. wnorm. exact HQ.
Qed.

(** What [getxattr] answers when the caller may read the attribute: an empty
    buffer asks for the length. *)
Definition getxattr_answer (v : option bytes) (buf : bytes) : outcome DbfsError (Z * bytes) :=
  match v with
  | None => Err NoData
  | Some v =>
      if blen buf =? 0 then Ok (blen v, buf)
      else if blen buf <? blen v then Err RangeError
      else Ok (blen v, splice buf 0 v)
  end.

Lemma wp_getxattr_answer uid gid ino key buf b a Q :
  inode_at D ino b a -> xattr_allowed key ACCESS_R_OK uid gid a = None ->
  Q (getxattr_answer (fkv b key) buf) s -> (rel = false -> Q Panic s) ->
  wp rel (dbfs_common_getxattr uid gid ino key buf) Q s.
Proof.
  intros [HD Hkvb Hst] Hacc HQ Hf. open_stat Hst. unfold xattr_allowed in Hacc.
  unfold dbfs_common_getxattr. apply wp_tx_unwrap; [apply Hf|]. wnorm. wgo.
  rewrite Hacc. apply wp_check_err. wnorm. wgo. unfold getxattr_answer, guard_err in *.
  destruct (fkv b key) as [v|]; [|wgo; exact HQ].
  destruct (blen buf =? 0); [wgo; exact HQ|]. destruct (blen buf <? blen v); wgo; exact HQ.
Qed.

(** The directory [dir] has the entry [name] of [m]. *)
Context (dir : Z) (name : bytes) (pb b : bucket) (pa a : Stat) (m : Z).
Hypothesis Hdir : inode_at D dir pb pa.
Hypothesis Hent : entry pb name = Some m.
Hypothesis Hm : inode_at D m b a.

(** The caller may not remove the entry. *)
Definition removal_refused (uid gid : Z) : Prop :=
  may_write pa uid gid = false \/ sticky_denies (st_mode pa) uid (st_uid pa) (st_uid a) = true.

Ltac refuse Hacc :=
  unfold guard_err; unfold removal_refused, may_write in *;
  match goal with |- context [negb ?c] => destruct c eqn:?; simpl negb; cbv iota; wgo; [|assumption] end;
  destruct Hacc as [|]; [congruence|].

Lemma wp_unlink_refused uid gid t (Q : outcome DbfsError unit -> AState -> Prop) :
  removal_refused uid gid ->
  Q (Err AccessError) s -> (rel = false -> forall e, Q (Err (from_jerror e)) s) ->
  wp rel (dbfs_common_unlink uid gid dir name None t) Q s.
Proof.
  intros Hacc HQ Hf. destruct Hdir as [HD Hkvb Hst], Hm as [HDm Hkvbm Hstm].
  apply entry_fkv in Hent as (v & Hv & Hparse). open_stat Hst. open_stat Hstm.
  unfold dbfs_common_unlink. apply wp_tx_q; [exact Hf|]. wnorm. wgo. rewrite Hv. wgo.
  refuse Hacc. unfold parse_ino. rewrite Hparse. wgo.
  match goal with H : sticky_denies _ _ _ _ = true |- _ => rewrite H end. wgo. exact HQ.
Qed.

Lemma wp_rmdir_refused uid gid t (Q : outcome DbfsError unit -> AState -> Prop) :
  st_size a <= 2 -> removal_refused uid gid ->
  Q (Err AccessError) s -> (rel = false -> forall e, Q (Err (from_jerror e)) s) ->
  wp rel (dbfs_common_rmdir uid gid dir name t) Q s.
Proof.
  intros Hsz Hacc HQ Hf. destruct Hdir as [HD Hkvb Hst], Hm as [HDm Hkvbm Hstm].
  apply entry_fkv in Hent as (v & Hv & Hparse). open_stat Hst. open_stat Hstm.
  unfold dbfs_common_rmdir. apply wp_tx_q; [exact Hf|]. wnorm. wgo. rewrite Hv. wgo.
  unfold parse_ino. rewrite Hparse. wgo. unfold guard_err at 1. rewrite (proj2 (Z.ltb_ge _ _)) by lia. wgo.
  refuse Hacc.
  match goal with H : sticky_denies _ _ _ _ = true |- _ => rewrite H end. wgo. exact HQ.
Qed.

Lemma wp_rename_refused uid gid new_dir new_name flags t (Q : outcome DbfsError unit -> AState -> Prop) :
  removal_refused uid gid ->
  Q (Err AccessError) s -> (rel = false -> forall e, Q (Err (from_jerror e)) s) ->
  (rel = false -> Q Panic s) ->
  wp rel (dbfs_common_rename uid gid dir name new_dir new_name flags t) Q s.
Proof.
  intros Hacc HQ Hf Hp. destruct Hdir as [HD Hkvb Hst], Hm as [HDm Hkvbm Hstm].
  apply entry_fkv in Hent as (v & Hv & Hparse). open_stat Hst. open_stat Hstm.
  unfold dbfs_common_rename. apply wp_bind.
  unfold rename_read_old. apply wp_tx_q; [exact Hf|]. wnorm. wgo. rewrite Hv. wgo.
  refuse Hacc. unfold parse_ino. rewrite Hparse. wgo.
  match goal with H : sticky_denies _ _ _ _ = true |- _ => rewrite H end. wgo. exact HQ.
Qed.
End Rules.
