(* ===== verification/Xattrs.v ===== *)
(** * The keys of extended attributes

    An inode's bucket holds its extended attributes beside its attributes, its
    entries, the slices of its data and the target of a link.  The keys of the
    latter are never names of extended attributes, so that a call that writes
    them keeps the extended attributes. *)

From S2P Require Import Prelude Jammdb Effects Run RustStd Common Buckets Access Inode.

(** The keys of extended attributes. *)
Definition xattr_key (key : bytes) : Prop := exists ns, parse_xattr_namespace key = inr ns.

(** [b'] has the extended attributes of [b]. *)
Definition same_xattrs (b b' : bucket) : Prop := forall key, xattr_key key -> fkv b' key = fkv b key.

Lemma not_xattr key e : parse_xattr_namespace key = inl e -> ~ xattr_key key.
Proof. intros He [ns Hns]. congruence. Qed.
Lemma not_xattr_entry l : bs "data:" `prefix_of` l -> ~ xattr_key l.
Proof.
  intros [r ->]. apply (not_xattr _ NotSupported). unfold parse_xattr_namespace, starts_with.
  by rewrite !bool_decide_eq_false_2 by (by intros [? [=]]).
Qed.
Lemma not_xattr_slice l : bs "zdata:" `prefix_of` l -> ~ xattr_key l.
Proof.
  intros [r ->]. apply (not_xattr _ NotSupported). unfold parse_xattr_namespace, starts_with.
  by rewrite !bool_decide_eq_false_2 by (by intros [? [=]]).
Qed.
Lemma not_xattr_name name : ~ xattr_key (generate_data_key name).
Proof. apply not_xattr_entry. by eexists. Qed.

Lemma same_refl b : same_xattrs b b.
Proof. done. Qed.
Lemma put_same_xattrs b b' k v : same_xattrs b b' -> ~ xattr_key k -> same_xattrs b (<[k := v]> b').
Proof.
  intros Hs Hk key Hkey. rewrite <- Hs by done. unfold fkv.
  by rewrite lookup_insert_ne by (by intros <-).
Qed.
Lemma delete_same_xattrs b b' k : same_xattrs b b' -> ~ xattr_key k -> same_xattrs b (delete k b').
Proof.
  intros Hs Hk key Hkey. rewrite <- Hs by done. unfold fkv.
  by rewrite lookup_delete_ne by (by intros <-).
Qed.
(** A bucket that agrees with [b] on every key but those in [P]. *)
Lemma same_except b b' (P : bytes -> Prop) :
  (forall key, P key -> ~ xattr_key key) -> (forall key, ~ P key -> b' !! key = b !! key) ->
  same_xattrs b b'.
Proof.
  intros HP Hb key Hkey. unfold fkv. rewrite Hb; [done|]. intros Hk. by apply (HP key).
Qed.

(** Proves [same_xattrs] of a bucket that a call updated. *)
Ltac xattrs :=
  repeat first [ apply same_refl | apply put_same_xattrs | apply delete_same_xattrs ];
  first [ apply not_xattr_name | apply (not_xattr _ NotSupported); reflexivity ].
