(* ===== verification/Mount.v ===== *)
(** * Making, mounting and unmounting a file system

    The theorems on [init_db], [dbfs_common_root_inode], the super block and
    the inode counter that it keeps across mounts. *)

From S2P Require Import Prelude Jammdb Effects Run RustStd Common Buckets Access Inode Create.
From S2P Require Import FsType Link Attr Samples Namespace.

Section Mount.
Context `{Config}.

(** The super block of a new file system. *)
Definition new_sb (size : Z) : bucket :=
  <[k_disk_size := KeyValue (to_be 8 size)]>
    (<[k_blk_size := KeyValue (to_be 4 SLICE_SIZE)]>
      (<[k_magic := KeyValue (to_be 4 1111)]>
        (<[k_continue_number := KeyValue (to_be 8 1)]> ∅))).

Lemma wp_init_db_new {E : Type} size D T n tb (Q : outcome E unit -> AState -> Prop) :
  D !! sb_path = None ->
  Q (Ok tt) (mkS (<[sb_path := new_sb size]> D) T n tb) ->
  wp true (init_db size) Q (mkS D T n tb).
Proof.
  intros HD HQ. unfold init_db. apply wp_tx_unwrap; [done|]. wnorm. apply wp_bind, wp_attempt.
  eapply wp_get_bucket_missing; [reflexivity|exact HD|]. wnorm. wgo.
  eapply wp_create_bucket_ok; [reflexivity|exact HD|]. wnorm. wgo.
  eapply wp_commit; [reflexivity|done|]. wnorm. exact HQ.
Qed.

Lemma wp_init_db_again {E : Type} rel size D T n tb sb (Q : outcome E unit -> AState -> Prop) :
  D !! sb_path = Some sb -> Q (Ok tt) (mkS D T n tb) ->
  (rel = false -> Q Panic (mkS D T n tb)) ->
  wp rel (init_db size) Q (mkS D T n tb).
Proof.
  intros HD HQ Hf. unfold init_db. apply wp_tx_unwrap; [done|]. wnorm. apply wp_bind, wp_attempt.
  wgo. exact HQ.
Qed.

(** The attributes of the root inode. *)
Definition root_stat (uid gid : Z) (t : DbfsTimeSpec) : Stat := {|
  st_mode := Z.lor Perm.MODE_777 Perm.S_IFDIR; st_size := 1; st_nlink := 2;
  st_uid := uid; st_gid := gid; st_blksize := SLICE_SIZE;
  st_atime := t; st_mtime := t; st_ctime := t; st_dev := None |}.

Definition root_bucket (uid gid : Z) (t : DbfsTimeSpec) : bucket :=
  <[generate_data_key (bs ".") := KeyValue (bs "1")]>
    (<[k_size := KeyValue (to_be 8 1)]>
      (<[k_block_size := KeyValue (to_be 4 SLICE_SIZE)]>
        (<[k_ctime := KeyValue (time_to_be_bytes t)]>
          (<[k_mtime := KeyValue (time_to_be_bytes t)]>
            (<[k_atime := KeyValue (time_to_be_bytes t)]>
              (<[k_gid := KeyValue (to_be 4 gid)]>
                (<[k_uid := KeyValue (to_be 4 uid)]>
                  (<[k_hard_links := KeyValue (to_be 4 2)]>
                    (<[k_mode := KeyValue (to_be 2 (permission_from_mode S_DIR))]> ∅))))))))).

Lemma root_bucket_stat uid gid t :
  u32 uid -> u32 gid -> time_ok t -> stat_of (root_bucket uid gid t) = Some (root_stat uid gid t).
Proof.
  intros Hu Hg Ht. pose proof SLICE_SIZE_range.
  apply stat_of_intro; unfold root_bucket, root_stat; cbn [st_mode st_size st_nlink st_uid st_gid
    st_blksize st_atime st_mtime st_ctime st_dev]; fld;
    first [ by apply (fbe_insert_eq _) | by apply ftime_insert_eq | done
          | apply (fbe_insert_eq 4); change (2 ^ (8 * Z.of_nat 4)) with (2 ^ 32); lia ].
Qed.

Lemma root_bucket_entry uid gid t name :
  entry (root_bucket uid gid t) name = if decide (name = bs ".") then Some 1 else None.
Proof.
  unfold root_bucket. case_decide as Hn.
  - subst. unfold entry. rewrite fkv_insert_eq. by vm_compute.
  - rewrite entry_insert_other by done. by fld.
Qed.

Lemma wp_root_inode_new uid gid t D T tb (Q : outcome DbfsError Z -> AState -> Prop) :
  D !! ipath 1 = None ->
  Q (Ok 1) (mkS (<[ipath 1 := root_bucket uid gid t]> D) T 2 tb) ->
  wp true (dbfs_common_root_inode uid gid t) Q (mkS D T 1 tb).
Proof.
  intros HD HQ. unfold dbfs_common_root_inode. apply wp_tx_q; [done|]. wnorm.
  apply wp_bind, wp_attempt.
  eapply wp_get_bucket_missing; [reflexivity|exact HD|]. wnorm. wgo.
  eapply wp_create_bucket_ok; [reflexivity|exact HD|]. wnorm. wgo.
  unfold assert_prog. rewrite Z.eqb_refl. wgo.
  rewrite (Z.mod_small (1 + 1)) by lia. change (1 + 1) with 2.
  eapply (wp_read_be true 8) with (z := 1); [reflexivity|apply lookup_insert_eq| |].
  { fld. by apply (fbe_insert_eq 8). }
  wnorm. wgo. eapply wp_commit; [reflexivity|done|]. wnorm. wgo. exact HQ.
Qed.

(** Making a file system on an empty database and creating its root gives
    a super block with the whole disk free and a root directory, inode 1, with
    the entry [.] only, owned by the caller; the next inode number is 2; doing
    [mkfs] again changes nothing. *)
Theorem mkfs_root_effect uid gid t size size' :
  u32 uid -> u32 gid -> time_ok t -> u64 size ->
  wp true (init_db size;; count ← dbfs_common_root_inode uid gid t; init_db size';; ret count)
     (fun o s' =>
        o = Ok 1 /\ a_ino s' = 2 /\
        (a_db s' !! sb_path ≫= fun sb => fbe 8 sb k_disk_size) = Some size /\
        (a_db s' !! sb_path ≫= fun sb => fbe 4 sb k_blk_size) = Some SLICE_SIZE /\
        inode_stat (a_db s') 1 = Some (root_stat uid gid t) /\
        stat_ok (root_stat uid gid t) Directory /\
        (forall name, dir_entry (a_db s') 1 name = if decide (name = bs ".") then Some 1 else None))
     (mkS ∅ [] 1 ∅).
Proof.
  intros Hu Hg Ht Hs. pose proof SLICE_SIZE_range. assert (Hne : ipath 1 <> sb_path) by apply ipath_sb.
  apply wp_bind, wp_init_db_new; [done|]. cbv beta iota.
  apply wp_bind. eapply wp_root_inode_new; [by rewrite lookup_insert_ne|]. cbv beta iota.
  apply wp_bind. eapply wp_init_db_again; [by rewrite lookup_insert_ne, lookup_insert_eq| |done].
  cbv beta iota. apply wp_ret. unfold inode_stat, dir_entry. simpl.
  rewrite !lookup_insert_eq, lookup_insert_ne, lookup_insert_eq by done. simpl.
  repeat split; try done.
  - unfold new_sb. by apply (fbe_insert_eq 8).
  - unfold new_sb. fld. apply (fbe_insert_eq 4). change (2 ^ (8 * Z.of_nat 4)) with (2 ^ 32). lia.
  - by apply root_bucket_stat.
  - simpl. lia.
  - simpl. lia.
  - intros name. apply root_bucket_entry.
Qed.

(** C39: the inode counter survives an unmount: what [umount] stores is what
    mounting loads, whatever the counter of the new process was. *)
Theorem umount_then_mount D T n m tb sb blk magic :
  D !! sb_path = Some sb -> kvb sb -> fbe 4 sb k_blk_size = Some blk ->
  fbe 4 sb k_magic = Some magic -> u64 n ->
  wp true dbfs_common_umount
     (fun o s' => o = Ok tt /\ a_ino s' = n /\ frame [k_super_blk] D (a_db s') /\
        wp true dbfs_load_super_blk
           (fun o' s'' => o' = Ok (blk, magic) /\ a_ino s'' = n /\ a_db s'' = a_db s')
           (mkS (a_db s') [] m tb))
     (mkS D T n tb).
Proof.
  intros HD Hk Hb Hm Hn. unfold dbfs_common_umount. apply wp_tx_q; [done|]. wnorm. wgo.
  eapply wp_commit; [reflexivity|done|]. wnorm. simpl. repeat split; try done.
  { eauto using list_elem_of_here with stat. }
  unfold dbfs_load_super_blk. apply wp_with_tx; [done|]. wnorm.
  set (D' := <[sb_path := _]> D).
  assert (HD' : D' !! sb_path = Some (<[k_continue_number := KeyValue (to_be 8 n)]> sb))
    by apply lookup_insert_eq.
  wgo. eapply (wp_read_be true 8) with (z := n); [reflexivity|exact HD'| |].
  { by apply (fbe_insert_eq 8). }
  wnorm. apply wp_bind, wp_ino_store. wnorm. wgo. done.
Qed.

(** [statfs] reports the free space of the super block in blocks of the
    size asked for (the slice size by default), the inode counter as the number
    of files, and changes nothing. *)
Theorem statfs_spec blk_size flags D T n tb sb ds magic :
  D !! sb_path = Some sb -> fbe 8 sb k_disk_size = Some ds -> fbe 4 sb k_magic = Some magic ->
  (forall z, blk_size = Some z -> 0 < z) ->
  wp true (dbfs_common_statfs blk_size None flags)
     (fun o s' => s' = mkS D T n tb /\ exists r, o = Ok r /\
        f_bsize r = default SLICE_SIZE blk_size /\
        f_blocks r * f_bsize r <= ds < (f_blocks r + 1) * f_bsize r /\
        f_bfree r = f_blocks r /\ f_files r = n /\ f_fsid r = magic /\
        length (f_name r) = 32%nat)
     (mkS D T n tb).
Proof.
  intros HD Hds Hm Hblk. pose proof SLICE_SIZE_range.
  assert (Hpos : 0 < default SLICE_SIZE blk_size) by (destruct blk_size; simpl; [auto|lia]).
  unfold dbfs_common_statfs. apply wp_bind, wp_tx_q; [done|]. wnorm. wgo.
  unfold div64. rewrite (proj2 (Z.eqb_neq _ _)) by lia. wgo.
  split; [done|]. eexists; split; [reflexivity|]. cbn [f_bsize f_blocks f_bfree f_files f_fsid f_name].
  repeat split; try done.
  - rewrite Z.mul_comm. apply Z.mul_div_le. done.
  - rewrite Z.mul_comm. replace (ds / _ + 1) with (Z.succ (ds / default SLICE_SIZE blk_size)) by lia.
    by apply Z.mul_succ_div_gt.
Qed.
End Mount.

Section MountWitness.
#[local] Existing Instance cfg512.

Lemma mkfs_root_effect_witness :
  wp true (init_db (2 ^ 20);; count ← dbfs_common_root_inode 0 0 t0; init_db (2 ^ 21);; ret count)
     (fun o s' =>
        o = Ok 1 /\ a_ino s' = 2 /\
        (a_db s' !! sb_path ≫= fun sb => fbe 8 sb k_disk_size) = Some (2 ^ 20) /\
        (a_db s' !! sb_path ≫= fun sb => fbe 4 sb k_blk_size) = Some SLICE_SIZE /\
        inode_stat (a_db s') 1 = Some (root_stat 0 0 t0) /\
        stat_ok (root_stat 0 0 t0) Directory /\
        (forall name, dir_entry (a_db s') 1 name = if decide (name = bs ".") then Some 1 else None))
     (mkS ∅ [] 1 ∅).
Proof. apply (mkfs_root_effect 0 0 t0 (2 ^ 20) (2 ^ 21)); concrete. Defined.

Definition the_sb : bucket := default ∅ (sample_view !! sb_path).
Lemma the_sb_ok : sample_view !! sb_path = Some the_sb /\ kvb the_sb.
Proof.
  unfold the_sb. destruct (sample_view !! sb_path) as [sb|] eqn:E.
  - split; [done|]. apply is_kvb_sound. rewrite <- E. vm_compute. reflexivity.
  - exfalso. revert E. rewrite eq_None_not_Some. intros []. apply (bool_decide_unpack _). by vm_compute.
Qed.

Lemma umount_then_mount_witness :
  wp true dbfs_common_umount
     (fun o s' => o = Ok tt /\ a_ino s' = 6 /\ frame [k_super_blk] sample_view (a_db s') /\
        wp true dbfs_load_super_blk
           (fun o' s'' => o' = Ok (512, 1111) /\ a_ino s'' = 6 /\ a_db s'' = a_db s')
           (mkS (a_db s') [] 1 ∅))
     sample_state.
Proof.
  apply (umount_then_mount sample_view [] 6 1 ∅ the_sb 512 1111);
    [apply the_sb_ok|apply the_sb_ok|concrete..].
Defined.

Lemma statfs_spec_witness :
  wp true (dbfs_common_statfs None None None)
     (fun o s' => s' = sample_state /\ exists r, o = Ok r /\
        f_bsize r = default SLICE_SIZE None /\
        f_blocks r * f_bsize r <= 2 ^ 20 < (f_blocks r + 1) * f_bsize r /\
        f_bfree r = f_blocks r /\ f_files r = 6 /\ f_fsid r = 1111 /\
        length (f_name r) = 32%nat)
     sample_state.
Proof.
  apply (statfs_spec None None sample_view [] 6 ∅ the_sb (2 ^ 20) 1111);
    [apply the_sb_ok|concrete..].
Defined.
End MountWitness.
