(* ===== verification/ExtendSafe.v ===== *)
(** * User buckets: what the operations may touch, and what they do

    The operations of [extend.rs] run inside one top-level bucket: whatever
    they are and however they end, no other bucket changes; if they do not
    succeed, nothing changes; a renamed bucket is moved with everything nested
    in it. *)

From S2P Require Import Prelude Jammdb Effects Run RustStd Common Buckets Slices Safe Atomic.
From S2P Require Import Extend.

(** ** Confinement to a top-level bucket *)

Definition below (root : bytes) (p : path) : Prop := exists q, p = root :: q.

Lemma below_snoc root p n : below root p -> below root (p ++ [n]).
Proof. intros [q ->]. by exists (q ++ [n]). Qed.

(** Commands that only change buckets below [root]. *)
Definition req_below (root : bytes) (c : Cmd) : Prop :=
  match c with
  | CPut p _ _ | CDelete p _ | CCreateBucket p _ | CDeleteBucket p _ => below root p
  | _ => True
  end.

(** The path of a bucket handle. *)
Definition ens_path (c : Cmd) : resp c -> Prop :=
  match c with
  | CGetBucket p n | CCreateBucket p n => fun r => forall q, r = JOk q -> q = p ++ [n]
  | _ => fun _ => True
  end.

Abbreviation confined root := (safe (req_below root) ens_path).

Section Confined.
Context {E : Type} (root : bytes).

Lemma confined_get_bucket p n : confined root (get_bucket p n) (fun q => q = p ++ [n]).
Proof. simpl. split; [done|]. intros [q|e|] Hr; simpl; auto. Qed.
Lemma confined_create_bucket p n :
  below root p -> confined root (create_bucket p n) (fun q => q = p ++ [n]).
Proof. intros Hp. simpl. split; [done|]. intros [q|e|] Hr; simpl; auto. Qed.
Lemma confined_put p k v : below root p -> confined root (put p k v) (fun _ => True).
Proof. intros Hp. simpl. split; [done|]. by intros [] _. Qed.
Lemma confined_bdelete p k : below root p -> confined root (bdelete p k) (fun _ => True).
Proof. intros Hp. simpl. split; [done|]. by intros [] _. Qed.
Lemma confined_delete_bucket p n : below root p -> confined root (delete_bucket p n) (fun _ => True).
Proof. intros Hp. simpl. split; [done|]. by intros [] _. Qed.
Lemma confined_cursor p : confined root (cursor (E := E) p) (fun _ => True).
Proof. simpl. split; [done|]. by intros [] _. Qed.
Lemma confined_bget p k : confined root (bget (E := E) p k) (fun _ => True).
Proof. simpl. split; [done|]. by intros [] _. Qed.
Lemma confined_get_kv p k : confined root (get_kv (E := E) p k) (fun _ => True).
Proof. apply safe_bind. eapply safe_mono; [apply confined_bget|]. done. Qed.
Lemma confined_commit : confined root commit (fun _ => True).
Proof. simpl. split; [done|]. by intros [] _. Qed.

Lemma confined_iter {A} (l : list A) (body : A -> Prog E unit) :
  (forall x, confined root (body x) (fun _ => True)) ->
  confined root (iter_prog l body) (fun _ => True).
Proof.
  intros Hb. induction l as [|x l IH]; simpl; [done|].
  apply safe_bind. eapply safe_mono; [apply Hb|]. done.
Qed.
End Confined.

Create HintDb confined.
#[export] Hint Resolve below_snoc : confined.

(** One step, by the shape of the program. *)
Ltac cstep :=
  lazymatch goal with
  | |- confined _ (bind _ _) _ => apply safe_bind
  | |- confined _ (unwrap _) _ => apply safe_unwrap
  | |- confined _ (attempt _) _ => apply safe_attempt; [intros|]
  | |- confined _ (tx_unwrap _ _) _ => apply safe_with_tx; [done..|]
  | |- confined _ (ret _) _ => apply safe_ret
  | |- confined _ (throw _) _ => exact I
  | |- confined _ panic _ => exact I
  | |- confined _ (unwrap_option _) _ => apply safe_unwrap_option; intros
  | |- confined _ (get_bucket _ _) _ =>
      eapply safe_mono; [apply confined_get_bucket|intros ? ->; cbv beta]
  | |- confined _ (create_bucket _ _) _ =>
      eapply safe_mono; [apply confined_create_bucket; eauto with confined|intros ? ->; cbv beta]
  | |- confined _ (put _ _ _) _ =>
      eapply safe_mono; [apply confined_put; eauto with confined|intros; cbv beta]
  | |- confined _ (bdelete _ _) _ =>
      eapply safe_mono; [apply confined_bdelete; eauto with confined|intros; cbv beta]
  | |- confined _ (delete_bucket _ _) _ =>
      eapply safe_mono; [apply confined_delete_bucket; eauto with confined|intros; cbv beta]
  | |- confined _ (cursor _) _ => eapply safe_mono; [apply confined_cursor|intros; cbv beta]
  | |- confined _ (bget _ _) _ => eapply safe_mono; [apply confined_bget|intros; cbv beta]
  | |- confined _ (get_kv _ _) _ => eapply safe_mono; [apply confined_get_kv|intros; cbv beta]
  | |- confined _ commit _ => eapply safe_mono; [apply confined_commit|intros; cbv beta]
  | |- confined _ (match ?x with _ => _ end) _ => destruct x
  end.
Ltac cgo := repeat cstep.

Section ConfinedOps.
Context {E : Type} (root : bytes).

Lemma confined_copy fuel old new :
  below root new ->
  confined root (copy_bucket_data_recursive (E := E) fuel old new) (fun _ => True).
Proof.
  revert old new. induction fuel as [|fuel IH]; intros old new Hn; [done|].
  cbn [copy_bucket_data_recursive]. cgo. apply confined_iter. intros [k [v|]]; cgo; [done|].
  apply IH. eauto with confined.
Qed.

Lemma confined_rename fuel p old new :
  below root p -> confined root (rename_key (E := E) fuel p old new) (fun _ => True).
Proof.
  intros Hp. unfold rename_key. cgo; try done.
  eapply safe_mono; [apply confined_copy; eauto with confined|intros; cbv beta]. by cgo.
Qed.

Lemma confined_read_keys p keys size offset out :
  confined root (read_keys (E := E) p keys size offset out) (fun _ => True).
Proof.
  revert offset out. induction keys as [|k keys IH]; intros offset out; [done|].
  cbn [read_keys]. cgo. apply IH.
Qed.
End ConfinedOps.

(** ** Induction on operations *)

(** Operations nest through lists and options. *)
Section OperateInd.
Context (P : Operate -> Prop) (Q : list Operate -> Prop).
Context (Hrename : forall a b, P (RenameKey a b)) (Hadd : forall l, P (AddKey l)).
Context (Hdel : forall l, P (DeleteKey l)) (Hread : forall l a n, P (Read l a n)).
Context (Hbucket0 : forall k, P (AddBucket k None)) (Hstep0 : forall k, P (StepInto k None)).
Context (Hbucket : forall k l, Q l -> P (AddBucket k (Some (mkOperateSet l)))).
Context (Hstep : forall k l, Q l -> P (StepInto k (Some (mkOperateSet l)))).
Context (Hnil : Q []) (Hcons : forall o l, P o -> Q l -> Q (o :: l)).

Fixpoint operate_rec (o : Operate) : P o :=
  let fix all (l : list Operate) : Q l :=
    match l with
    | [] => Hnil
    | o :: l => Hcons o l (operate_rec o) (all l)
    end in
  match o with
  | RenameKey a b => Hrename a b
  | AddKey l => Hadd l
  | DeleteKey l => Hdel l
  | Read l a n => Hread l a n
  | AddBucket k None => Hbucket0 k
  | AddBucket k (Some (mkOperateSet l)) => Hbucket k l (all l)
  | StepInto k None => Hstep0 k
  | StepInto k (Some (mkOperateSet l)) => Hstep k l (all l)
  end.

Lemma operates_rec l : Q l.
Proof. induction l as [|o l IH]; [exact Hnil|]. apply Hcons; [apply operate_rec|exact IH]. Qed.
End OperateInd.

Section ConfinedRun.
Context {E : Type} (root : bytes).

Lemma confined_one fuel o : forall p,
  below root p -> confined root (execute_operate_one (E := E) fuel p o) (fun _ => True).
Proof.
  apply (operate_rec
    (fun o => forall p, below root p ->
       confined root (execute_operate_one (E := E) fuel p o) (fun _ => True))
    (fun l => forall p, below root p ->
       confined root (execute_all (execute_operate_one (E := E) fuel) p l) (fun _ => True)));
    intros; cbn [execute_operate_one execute_all].
  - cgo. eapply safe_mono; [by apply confined_rename|]. done.
  - cgo. eapply safe_mono; [apply confined_iter; intros; by cgo|]. done.
  - cgo. eapply safe_mono; [apply confined_iter; intros; by cgo|]. done.
  - cgo. eapply safe_mono; [apply confined_read_keys|]. done.
  - by cgo.
  - by cgo.
  - cgo. all: try done. all: eauto with confined.
  - cgo. eauto with confined.
  - done.
  - cgo. eapply safe_mono; [eauto|]. intros; cbv beta. cgo. eapply safe_mono; [eauto|]. done.
Qed.

Lemma confined_all fuel p l :
  below root p -> confined root (execute_all (execute_operate_one (E := E) fuel) p l) (fun _ => True).
Proof.
  intros Hp. induction l as [|o l IH]; [done|]. cbn [execute_all]. cgo.
  eapply safe_mono; [by apply confined_one|]. intros; cbv beta. cgo. eapply safe_mono; [exact IH|]. done.
Qed.

Lemma confined_descend p names :
  below root p -> confined root (descend (E := E) p names) (below root).
Proof.
  revert p. induction names as [|n names IH]; intros p Hp; [done|]. cbn [descend]. cgo.
  apply IH. eauto with confined.
Qed.

Lemma confined_execute fuel bucket ops :
  hd_error (split_on x3a bucket) = Some root ->
  confined root (execute_operate (E := E) fuel bucket ops) (fun _ => True).
Proof.
  intros Hs. unfold execute_operate. destruct (split_on x3a bucket) as [|r names]; [done|].
  injection Hs as ->. cgo. eapply safe_mono; [apply confined_descend; by exists []|]. intros p Hp. cbv beta. cgo.
  eapply safe_mono; [by apply confined_all|]. intros; cbv beta. by cgo.
Qed.
End ConfinedRun.

(** ** Soundness of confinement *)

(** Two views agree on every bucket that is not below [root]. *)
Definition same_outside (root : bytes) (V V' : view) : Prop :=
  forall p, ~ below root p -> V' !! p = V !! p.

Record outside_world (root : bytes) (V : view) `{Platform} (w : World) : Prop := {
  ow_db : same_outside root V (db_view (w_db w));
  ow_txs : Forall (fun t => same_outside root V (tx_view t)) (w_txs w)
}.

Lemma same_put root wr V V' p k v :
  same_outside root V V' -> below root p -> same_outside root V (spec_put wr V' p k v).2.
Proof.
  intros HV Hp q Hq. rewrite <- HV by done. unfold spec_put. repeat case_match; simpl; try done;
    apply lookup_insert_ne; intros ->; by apply Hq.
Qed.
Lemma same_delete root wr V V' p k :
  same_outside root V V' -> below root p -> same_outside root V (spec_delete wr V' p k).2.
Proof.
  intros HV Hp q Hq. rewrite <- HV by done. unfold spec_delete. repeat case_match; simpl; try done;
    apply lookup_insert_ne; intros ->; by apply Hq.
Qed.
Lemma same_create root wr V V' p n :
  same_outside root V V' -> below root p -> same_outside root V (spec_create_bucket wr V' p n).2.
Proof.
  intros HV Hp q Hq. rewrite <- HV by done. unfold spec_create_bucket.
  destruct Hp as [p' ->]. repeat case_match; simplify_eq/=; try done.
  rewrite lookup_insert_ne, lookup_alter_ne; [done|..]; intros <-; apply Hq.
  - by exists p'.
  - exists (p' ++ [n]). done.
Qed.
Lemma same_delete_bucket root wr V V' p n :
  same_outside root V V' -> below root p -> same_outside root V (spec_delete_bucket wr V' p n).2.
Proof.
  intros HV Hp q Hq. rewrite <- HV by done. unfold spec_delete_bucket.
  destruct (spec_get_bucket V' p n) as [r|e|] eqn:Er; [|done..]. destruct wr; [|done]. simpl.
  destruct Hp as [p' ->]. simpl in Er. repeat case_match; simplify_eq/=.
  rewrite lookup_alter_ne by (intros <-; apply Hq; by exists p').
  rewrite lookup_drop_tree. case_decide as Hpre; [|done]. destruct Hq.
  destruct Hpre as [q' ->]. eexists. simpl. reflexivity.
Qed.

Section Sound.
Context `{Platform} (root : bytes) (V : view).

Lemma outside_in_tx {A} (w : World) (f : Tx -> jres A * Tx) :
  outside_world root V w ->
  (forall t, same_outside root V (tx_view t) -> same_outside root V (tx_view (f t).2)) ->
  outside_world root V (in_tx w f).2.
Proof.
  intros [Hdb Htx] Hf. unfold in_tx. destruct (w_txs w) as [|t ts] eqn:Et.
  - split; simpl; [done|by rewrite Et].
  - apply list.Forall_cons in Htx as [Ht Hts]. specialize (Hf t Ht).
    destruct (f t) as [r t']. split; simpl; auto.
Qed.

Lemma outside_read {A} (w : World) (f : Tx -> jres A) :
  outside_world root V w -> outside_world root V (read_tx w f).2.
Proof. intros Hw. by apply outside_in_tx. Qed.

Lemma get_bucket_path V' p n q : spec_get_bucket V' p n = JOk q -> q = p ++ [n].
Proof. unfold spec_get_bucket. intros. repeat case_match; by simplify_eq/=. Qed.
Lemma create_bucket_path wr V' p n q : (spec_create_bucket wr V' p n).1 = JOk q -> q = p ++ [n].
Proof. unfold spec_create_bucket. intros. repeat case_match; by simplify_eq/=. Qed.

Lemma handle_outside c w : 
  req_below root c -> outside_world root V w -> outside_world root V (handle c w).2.
Proof.
  intros Hc Hw. pose proof Hw as [Hdb Htx]. destruct c; cbn [handle req_below] in *;
    try (by apply outside_read); try (by split);
    try (by destruct (heap_alloc _ _); split);
    try (apply outside_in_tx; [done|]; intros t Ht).
  - pose proof (db_tx_keeps (w_db w) writable) as Hk.
    destruct (db_tx (w_db w) writable) as [[e|t] d] eqn:Ed; simpl in Hk; split; simpl;
      try (by rewrite Hk).
    + done.
    + constructor; [|done]. by apply db_tx_view in Ed as [-> _].
  - split; simpl; [done|]. by destruct Htx.
  - destruct (w_txs w) as [|t ts] eqn:Et; [done|].
    destruct (db_commit (w_db w) t) as [[e|[]] d] eqn:Ed; split; simpl; rewrite ?Et; try done.
    + by rewrite (db_commit_keeps _ _ _ _ Ed).
    + rewrite (db_commit_view _ _ _ Ed). by apply list.Forall_cons in Htx as [? _].
  - pose proof (f_equal snd (j_create_bucket_spec t p n)) as Hs. cbn [snd] in Hs. rewrite Hs. by apply same_create.
  - pose proof (f_equal snd (j_delete_bucket_spec t p n)) as Hs. cbn [snd] in Hs. rewrite Hs. by apply same_delete_bucket.
  - pose proof (f_equal snd (j_put_spec t p k v)) as Hs. cbn [snd] in Hs. rewrite Hs. by apply same_put.
  - pose proof (f_equal snd (j_delete_spec t p k)) as Hs. cbn [snd] in Hs. rewrite Hs. by apply same_delete.
Qed.

Lemma handle_path c w : ens_path c (handle c w).1.
Proof.
  destruct c; cbn [ens_path]; try done; intros r Hr; cbn [handle] in Hr; unfold read_tx, in_tx in Hr;
    (destruct (w_txs w) as [|t ts]; [done|]).
  - cbn in Hr. rewrite j_get_bucket_spec in Hr. by eapply get_bucket_path.
  - pose proof (f_equal fst (j_create_bucket_spec t p n)) as Hs. cbn [fst] in Hs.
    destruct (j_create_bucket t p n) as [r' t']. cbn in *. subst r'. by eapply create_bucket_path.
Qed.

Lemma confined_run {E A} (p : Prog E A) Q w :
  confined root p Q -> outside_world root V w -> outside_world root V (run p w).2.
Proof.
  intros Hp Hw.
  assert (Hh : forall c w, req_below root c -> outside_world root V w ->
            let '(r, w') := handle c w in outside_world root V w' /\ ens_path c r).
  { intros c w' Hc Hw'. pose proof (handle_outside c w' Hc Hw'). pose proof (handle_path c w').
    by destruct (handle c w'). }
  pose proof (safe_run _ _ _ Hh p Q w Hp Hw) as Hr. destruct (run p w) as [o w']. exact (proj1 Hr).
Qed.
End Sound.

(** ** Nested buckets *)

(** Every nested bucket is listed in the bucket around it, and conversely. *)
Definition nest_ok (V : view) : Prop :=
  forall p n, p <> [] ->
    is_Some (V !! (p ++ [n])) <-> exists b, V !! p = Some b /\ b !! n = Some Bucket.

(** [V'] is [V] with the tree of buckets at [old] copied to [new]. *)
Record copied (V V' : view) (old new : path) : Prop := {
  cp_new : forall q, V' !! (new ++ q) = V !! (old ++ q);
  cp_frame : forall r, ~ new `prefix_of` r -> V' !! r = V !! r
}.

(** The tree at [p] is at most [d] levels deep. *)
Definition shallow (V : view) (p : path) (d : nat) : Prop :=
  forall q, is_Some (V !! (p ++ q)) -> (length q < d)%nat.

Lemma nest_ok_below V p q : nest_ok V -> p <> [] -> V !! p = None -> V !! (p ++ q) = None.
Proof.
  intros HV Hp Hn. induction q as [|n q IH] using rev_ind; [by rewrite app_nil_r|].
  destruct (V !! (p ++ q ++ [n])) as [b|] eqn:E; [|done]. rewrite app_assoc in E.
  destruct (proj1 (HV (p ++ q) n ltac:(by destruct p))) as (b' & Hb' & _); [by rewrite E|].
  congruence.
Qed.

Lemma alter_to_insert (V : view) (p : path) (f : bucket -> bucket) b :
  V !! p = Some b -> alter f p V = <[p := f b]> V.
Proof.
  intros Hb. apply map_eq. intros q. destruct (decide (p = q)) as [<-|Hq].
  - by rewrite lookup_alter_eq, Hb, lookup_insert_eq.
  - by rewrite lookup_alter_ne, lookup_insert_ne.
Qed.

Section NestedRules.
Context (rel : bool) (V : view) (ts : list (view * bool)) (s : AState).
Hypothesis Htx : a_txs s = (V, true) :: ts.

Lemma wp_get_sub p n b (Q : outcome JError path -> AState -> Prop) :
  p <> [] -> V !! p = Some b -> b !! n = Some Bucket -> Q (Ok (p ++ [n])) s ->
  wp rel (get_bucket p n) Q s.
Proof.
  intros Hp HV Hn HQ. eapply wp_get_bucket; [exact Htx|]. destruct p as [|x p]; [done|].
  cbn [spec_get_bucket]. rewrite HV, Hn. by apply wp_done.
Qed.

Lemma wp_create_sub p n b (Q : outcome JError path -> AState -> Prop) :
  p <> [] -> V !! p = Some b -> b !! n = None ->
  Q (Ok (p ++ [n])) (set_tx (<[p ++ [n] := ∅]> (<[p := <[n := Bucket]> b]> V)) s) ->
  wp rel (create_bucket p n) Q s.
Proof.
  intros Hp HV Hn HQ. eapply wp_create_bucket; [exact Htx|]. destruct p as [|x p]; [done|].
  unfold spec_create_bucket. cbn [live]. rewrite bool_decide_true by eauto. cbn [negb].
  rewrite HV. cbn [mbind option_bind]. rewrite Hn. cbn [fst snd].
  rewrite (alter_to_insert V _ _ b) by done. by apply wp_done.
Qed.

Lemma wp_put_free p k v b (Q : outcome JError unit -> AState -> Prop) :
  V !! p = Some b -> b !! k <> Some Bucket ->
  Q (Ok tt) (set_tx (<[p := <[k := KeyValue v]> b]> V) s) -> wp rel (put p k v) Q s.
Proof.
  intros HV Hk HQ. eapply wp_put; [exact Htx|]. unfold spec_put. rewrite HV.
  repeat case_match; simplify_eq; by apply wp_done.
Qed.
End NestedRules.

(** ** Copying a tree of buckets *)

(** The tree at [p] satisfies [nest_ok]. *)
Definition closed (V : view) (p : path) : Prop :=
  forall q n, is_Some (V !! (p ++ q ++ [n])) <->
    exists b, V !! (p ++ q) = Some b /\ b !! n = Some Bucket.

(** Neither path leads through the other. *)
Definition apart (p p' : path) : Prop := ~ p `prefix_of` p' /\ ~ p' `prefix_of` p.

Lemma apart_app p p' q : apart p p' -> ~ p' `prefix_of` (p ++ q).
Proof.
  intros [H1 H2] Hq. destruct (prefix_weak_total p p' (p ++ q)); try done. by apply prefix_app_r.
Qed.
Lemma apart_snoc p p' n : apart p p' -> apart (p ++ [n]) (p' ++ [n]).
Proof.
  intros Ha. pose proof (apart_app _ _ [n] Ha) as H1.
  assert (apart p' p) as Ha' by (destruct Ha; by split). pose proof (apart_app _ _ [n] Ha') as H2.
  split; intros Hq; [apply H2 | apply H1]; (etrans; [|exact Hq]); by apply prefix_app_r.
Qed.

(** The part of the tree at [old] whose keys are in [bn] is copied to [new]. *)
Record copying (V V1 : view) (old new : path) (bn : bucket) : Prop := {
  cg_new : V1 !! new = Some bn;
  cg_sub : forall n q, V1 !! (new ++ n :: q) =
    match bn !! n with Some Bucket => V !! (old ++ n :: q) | _ => None end;
  cg_frame : forall r, ~ new `prefix_of` r -> V1 !! r = V !! r
}.

Lemma copying_old V V1 old new bn q :
  copying V V1 old new bn -> apart old new -> V1 !! (old ++ q) = V !! (old ++ q).
Proof. intros Hc Ha. apply (cg_frame _ _ _ _ _ Hc). by apply apart_app. Qed.

Lemma copying_put V V1 old new bn k v :
  copying V V1 old new bn -> bn !! k = None ->
  copying V (<[new := <[k := KeyValue v]> bn]> V1) old new (<[k := KeyValue v]> bn).
Proof.
  intros [H1 H2 H3] Hk. split.
  - apply lookup_insert_eq.
  - intros n q. rewrite lookup_insert_ne by (intros E; apply (f_equal length) in E;
      rewrite length_app in E; simpl in E; lia).
    rewrite H2, lookup_insert. case_decide as E; [|done]. subst n. by rewrite Hk.
  - intros r Hr. rewrite lookup_insert_ne; [auto|]. by intros ->.
Qed.

Lemma snoc_ne {A} (p : list A) n q : p <> p ++ n :: q.
Proof. intros E. apply (f_equal length) in E. rewrite length_app in E. simpl in E. lia. Qed.

(** Entering a nested bucket, and leaving it. *)
Lemma copying_enter V V1 old new bn n q :
  copying V V1 old new bn -> bn !! n = None ->
  let V2 := <[new ++ [n] := ∅]> (<[new := <[n := Bucket]> bn]> V1) in
  V2 !! (new ++ [n]) = Some ∅ /\ V2 !! (new ++ n :: q) = (if decide (q = []) then Some ∅ else None).
Proof.
  intros [H1 H2 H3] Hn V2. split; [apply lookup_insert_eq|]. unfold V2. rewrite lookup_insert.
  case_decide as E1; case_decide as E2; try done.
  - apply app_inv_head in E1. by simplify_eq.
  - by subst q.
  - rewrite lookup_insert_ne by apply snoc_ne. by rewrite H2, Hn.
Qed.

Lemma copying_leave V V1 V3 old new bn n :
  copying V V1 old new bn -> apart old new -> bn !! n = None ->
  copied (<[new ++ [n] := ∅]> (<[new := <[n := Bucket]> bn]> V1)) V3 (old ++ [n]) (new ++ [n]) ->
  copying V V3 old new (<[n := Bucket]> bn).
Proof.
  intros Hc Ha Hn [C1 C2]. pose proof Hc as [H1 H2 H3].
  assert (Hold : forall q, ~ new `prefix_of` (old ++ q)) by (intros q; by apply apart_app).
  split.
  - rewrite C2 by (intros [q E]; rewrite <- app_assoc in E; by apply snoc_ne in E).
    rewrite lookup_insert_ne by (apply not_eq_sym, snoc_ne). apply lookup_insert_eq.
  - intros m q. destruct (decide (m = n)) as [->|Hm].
    + rewrite lookup_insert_eq. specialize (C1 q). rewrite <- !app_assoc in C1. simpl in C1.
      rewrite C1, !lookup_insert_ne; [by apply H3|..]; intros E; apply (Hold (n :: q)); rewrite <- E;
        first [done|by apply prefix_app_r].
    + rewrite (lookup_insert_ne _ n m) by done. rewrite C2.
      2:{ intros [q' E]. rewrite <- app_assoc in E. apply app_inv_head in E. by simplify_eq/=. }
      rewrite lookup_insert_ne by (intros E; apply app_inv_head in E; by simplify_eq/=).
      rewrite lookup_insert_ne by apply snoc_ne. apply H2.
  - intros r Hr. rewrite C2 by (intros Hp; apply Hr; etrans; [|exact Hp]; by apply prefix_app_r).
    rewrite !lookup_insert_ne; [auto|..]; intros <-; apply Hr; [done|by apply prefix_app_r].
Qed.

(** Nothing is stored below a name that is not a bucket. *)
Lemma closed_below V p n q :
  closed V p -> ~ (exists b, V !! p = Some b /\ b !! n = Some Bucket) -> V !! (p ++ n :: q) = None.
Proof.
  intros Hc Hn. apply eq_None_not_Some. induction q as [|m q IH] using rev_ind; intros Hs.
  - apply Hn. destruct (proj1 (Hc [] n)) as (b & Hb & ?); [done|]. rewrite app_nil_r in Hb. eauto.
  - apply IH. destruct (proj1 (Hc (n :: q) m)) as (b & Hb & ?); [done|]. by rewrite Hb.
Qed.

Section Copy.
Context {E : Type} (rel : bool).

(** What the copy does, for trees at most [fuel] deep. *)
Definition copy_rule (fuel : nat) : Prop :=
  forall V old new ts s (Q : outcome E unit -> AState -> Prop),
    a_txs s = (V, true) :: ts -> old <> [] -> new <> [] -> apart old new ->
    is_Some (V !! old) -> closed V old -> shallow V old fuel ->
    V !! new = Some ∅ -> (forall n q, V !! (new ++ n :: q) = None) ->
    (forall V', copied V V' old new -> Q (Ok tt) (set_tx V' s)) ->
    wp rel (copy_bucket_data_recursive fuel old new) Q s.

Lemma set_tx_set V V' s : set_tx V (set_tx V' s) = set_tx V s.
Proof. unfold set_tx. by destruct s as [db [|[V0 wr] ts] n tb]. Qed.
Lemma set_tx_txs V V' wr ts s : a_txs s = (V', wr) :: ts -> a_txs (set_tx V s) = (V, wr) :: ts.
Proof. intros Hs. unfold set_tx. by rewrite Hs. Qed.

(** One entry. *)
Lemma wp_copy_entry fuel V V1 old new bo bn ts s k d (Q : outcome E unit -> AState -> Prop) :
  copy_rule fuel -> a_txs s = (V1, true) :: ts -> old <> [] -> new <> [] -> apart old new ->
  V !! old = Some bo -> closed V old -> shallow V old (S fuel) -> copying V V1 old new bn ->
  bo !! k = Some d -> bn !! k = None ->
  (forall V', copying V V' old new (<[k := d]> bn) -> Q (Ok tt) (set_tx V' s)) ->
  wp rel (match (k, d) with
          | (key, KeyValue value) => unwrap (put new key value)
          | (bucket_name, Bucket) =>
              new_bucket' ← unwrap (create_bucket new bucket_name);
              old_bucket' ← unwrap (get_bucket old bucket_name);
              copy_bucket_data_recursive fuel old_bucket' new_bucket'
          end) Q s.
Proof.
  intros IH Htx Ho Hn Ha HV Hcl Hsh Hc Hbo Hbn HQ. destruct d as [v|]; wstep.
  - eapply (wp_put_free _ _ _ _ Htx); [apply Hc|by rewrite Hbn|]. by apply HQ, copying_put.
  - wstep. eapply (wp_create_sub _ _ _ _ Htx); [done|apply Hc|done|].
    set (V2 := <[new ++ [k] := ∅]> _). wstep. wstep.
    assert (HV2 : forall q, V2 !! (old ++ q) = V !! (old ++ q)).
    { intros q. pose proof (apart_app _ _ q Ha) as Hq. rewrite <- (copying_old _ _ _ _ _ q Hc Ha).
      unfold V2. rewrite !lookup_insert_ne; [done|..]; intros Eq; rewrite <- Eq in Hq; apply Hq;
        first [done|by apply prefix_app_r]. }
    eapply (wp_get_sub _ V2 ts); [by eapply set_tx_txs|done| |exact Hbo|].
    { pose proof (HV2 []) as H0. rewrite app_nil_r in H0. by rewrite H0. }
    assert (Hk : is_Some (V !! (old ++ [k]))).
    { apply (Hcl [] k). exists bo. by rewrite app_nil_r. }
    cbv beta. eapply (IH V2); [by eapply set_tx_txs|by destruct old|by destruct new|
      by apply apart_snoc|by rewrite HV2|..].
    + intros q n. rewrite <- !app_assoc, !HV2. simpl. apply (Hcl (k :: q) n).
    + intros q Hq. rewrite <- app_assoc, HV2 in Hq. apply Hsh in Hq. simpl in Hq. lia.
    + apply lookup_insert_eq.
    + intros n q. rewrite <- app_assoc. by apply (copying_enter _ _ _ _ _ _ (n :: q) Hc Hbn).
    + intros V' Hcp. rewrite set_tx_set. apply HQ. by eapply copying_leave.
Qed.

(** The loop over the remaining entries. *)
Lemma wp_copy_entries fuel V old new bo ts es :
  copy_rule fuel -> old <> [] -> new <> [] -> apart old new ->
  V !! old = Some bo -> closed V old -> shallow V old (S fuel) ->
  NoDup es.*1 -> (forall k d, (k, d) ∈ es -> bo !! k = Some d) ->
  forall V1 bn s (Q : outcome E unit -> AState -> Prop),
  a_txs s = (V1, true) :: ts -> copying V V1 old new bn ->
  (forall k, k ∈ es.*1 -> bn !! k = None) ->
  (forall V', copying V V' old new (list_to_map es ∪ bn) -> Q (Ok tt) (set_tx V' s)) ->
  wp rel (iter_prog es (fun data =>
        match data with
        | (key, KeyValue value) => unwrap (put new key value)
        | (bucket_name, Bucket) =>
            new_bucket' ← unwrap (create_bucket new bucket_name);
            old_bucket' ← unwrap (get_bucket old bucket_name);
            copy_bucket_data_recursive fuel old_bucket' new_bucket'
        end)) Q s.
Proof.
  intros IH Ho Hn Ha HV Hcl Hsh. induction es as [|[k d] es IHes]; intros Hnd Hes V1 bn s Q Htx Hc Hf HQ.
  - apply wp_ret. replace s with (set_tx V1 s).
    + apply HQ. by rewrite list_to_map_nil, map_empty_union.
    + unfold set_tx. destruct s; simpl in *. by subst.
  - apply list.NoDup_cons in Hnd as [Hk Hnd]. cbn [iter_prog]. apply wp_bind.
    eapply (wp_copy_entry fuel V V1); try done; [apply Hes; set_solver|apply Hf; set_solver|].
    intros V' Hc'. cbv beta. eapply (IHes Hnd); [|by eapply set_tx_txs|exact Hc'|..].
    + intros k' d' Hin. apply Hes. set_solver.
    + intros k' Hk'. rewrite lookup_insert_ne by (intros ->; by apply Hk). apply Hf. by right.
    + intros V'' Hc''. rewrite set_tx_set. apply HQ. rewrite list_to_map_cons.
      rewrite <- insert_union_l, insert_union_r; [done|]. by apply not_elem_of_list_to_map_1.
Qed.

Lemma copy_rule_all fuel : copy_rule fuel.
Proof.
  induction fuel as [|fuel IH]; intros V old new ts s Q Htx Ho Hn Ha [bo HV] Hcl Hsh Hnew Hsub HQ.
  { exfalso. apply (Nat.nlt_0_r 0), (Hsh []). by rewrite app_nil_r, HV. }
  cbn [copy_bucket_data_recursive]. apply wp_bind.
  eapply wp_cursor; [exact Htx|]. unfold spec_cursor. rewrite HV. apply wp_done.
  eapply (wp_copy_entries fuel V old new bo ts (sorted_entries bo) IH Ho Hn Ha HV Hcl Hsh); [..|exact Htx| | |].
  - rewrite sorted_entries_perm. apply NoDup_fst_map_to_list.
  - intros k d. by rewrite elem_of_sorted_entries.
  - split; [exact Hnew| |done]. intros n q. rewrite lookup_empty. apply Hsub.
  - intros k _. apply lookup_empty.
  - intros V' [H1 H2 H3]. apply HQ. split; [|done]. rewrite map_union_empty in *.
    assert (list_to_map (sorted_entries bo) = bo) as Hm.
    { rewrite (list_to_map_proper _ (map_to_list bo)); [apply list_to_map_to_list| |apply sorted_entries_perm].
      rewrite sorted_entries_perm. apply NoDup_fst_map_to_list. }
    rewrite Hm in *. intros [|n q]; [by rewrite !app_nil_r, H1|]. rewrite H2.
    destruct (bo !! n) as [[v|]|] eqn:En; try done; symmetry;
      apply (closed_below V old n q Hcl); intros (b & Hb & ?); congruence.
Qed.
End Copy.
