(* ===== verification/ExtendEffects.v ===== *)
(** * User buckets: what the operations do *)

From S2P Require Import Prelude Jammdb Effects Run RustStd Common Buckets Slices Safe Atomic.
From S2P Require Import Extend ExtendSafe.

(** ** Whatever the operations are *)

(** The top-level bucket the string [root:key1:key2] names. *)
Definition top_bucket (bucket : bytes) : bytes := hd [] (split_on x3a bucket).

Lemma split_on_head c s : hd_error (split_on c s) = Some (hd [] (split_on c s)).
Proof. destruct s as [|x s]; simpl; [done|]. case_bool_decide; [done|]. by destruct (split_on c s). Qed.

(** C22: Whatever operations a client asks for, on whatever platform and
    however the call ends (also with a panic), no bucket outside the top-level
    bucket it names changes; in particular no inode does. *)
Theorem operate_confined `{K : Platform} {E} fuel bucket ops (w : World) p :
  w_txs w = [] -> ~ below (top_bucket bucket) p ->
  db_view (w_db (run (execute_operate (E := E) fuel bucket ops) w).2) !! p = db_view (w_db w) !! p.
Proof.
  intros Htx Hp. pose proof (confined_execute (E := E) (top_bucket bucket) fuel bucket ops) as Hc.
  specialize (Hc (split_on_head _ _)).
  apply (confined_run (top_bucket bucket) (db_view (w_db w)) _ _ w) in Hc as [Hdb _].
  - by apply Hdb.
  - split; [done|]. by rewrite Htx.
Qed.

Lemma quiet_iter {E A} (l : list A) (body : A -> Prog E unit) :
  (forall x, quiet (body x)) -> quiet (iter_prog l body).
Proof. intros Hb. induction l; cbn [iter_prog]; quiets. Qed.

Lemma quiet_bget {E} p k : quiet (bget (E := E) p k).
Proof. quiet_call. Qed.
#[export] Hint Resolve quiet_bget : quiet.

Lemma quiet_copy {E} fuel old new : quiet (copy_bucket_data_recursive (E := E) fuel old new).
Proof.
  revert old new. induction fuel as [|fuel IH]; intros old new; [done|].
  cbn [copy_bucket_data_recursive]. apply quiet_bind; [quiets|]. intros es. apply quiet_iter.
  intros [k [v|]]; quiets; apply IH.
Qed.
Lemma quiet_rename {E} fuel p old new : quiet (rename_key (E := E) fuel p old new).
Proof. unfold rename_key. quiets; apply quiet_copy. Qed.
Lemma quiet_read_keys {E} p keys size offset out : quiet (read_keys (E := E) p keys size offset out).
Proof.
  revert offset out. induction keys as [|k keys IH]; intros offset out; [done|].
  cbn [read_keys]. quiets; apply IH.
Qed.

Lemma quiet_one {E} fuel o : forall p, quiet (execute_operate_one (E := E) fuel p o).
Proof.
  apply (operate_rec
    (fun o => forall p, quiet (execute_operate_one (E := E) fuel p o))
    (fun l => forall p, quiet (execute_all (execute_operate_one (E := E) fuel) p l)));
    intros; cbn [execute_operate_one execute_all]; quiets; auto using quiet_rename, quiet_read_keys;
    apply quiet_iter; quiets.
Qed.
Lemma quiet_all {E} fuel p l : quiet (execute_all (execute_operate_one (E := E) fuel) p l).
Proof.
  induction l as [|o l IH]; [done|]. cbn [execute_all]. apply quiet_bind; [apply quiet_one|]. quiets; exact IH.
Qed.
Lemma quiet_descend {E} p names : quiet (descend (E := E) p names).
Proof. revert p. induction names as [|n names IH]; intros p; [done|]. cbn [descend]. quiets; apply IH. Qed.

#[export] Hint Resolve quiet_copy quiet_rename quiet_read_keys quiet_one quiet_all quiet_descend : quiet.

(** C23: A set of operations is applied as a whole: if the call does not
    succeed, on any platform, the committed database is what it was. *)
Theorem operate_all_or_nothing `{K : Platform} {E} fuel bucket ops (w : World) :
  (exists out, (run (execute_operate (E := E) fuel bucket ops) w).1 = Ok out) \/
  db_view (w_db (run (execute_operate (E := E) fuel bucket ops) w).2) = db_view (w_db w).
Proof.
  apply atomic_run. unfold execute_operate, execute_operate_real. atomics.
Qed.

(** ** Moving a bucket *)

(** In [V'] the bucket [old] of the bucket at [p] is called [new], with all
    that is nested in it; everything else is as in [V]. *)
Record moved (V V' : view) (p : path) (old new : bytes) (b : bucket) : Prop := {
  mv_dir : V' !! p = Some (<[new := Bucket]> (delete old b));
  mv_new : forall q, V' !! (p ++ new :: q) = V !! (p ++ old :: q);
  mv_old : forall q, V' !! (p ++ old :: q) = None;
  mv_frame : forall r, r <> p -> ~ (p ++ [old]) `prefix_of` r -> ~ (p ++ [new]) `prefix_of` r ->
    V' !! r = V !! r
}.

Lemma nest_ok_prefix V p q : nest_ok V -> p <> [] -> is_Some (V !! (p ++ q)) -> is_Some (V !! p).
Proof.
  intros HV Hp Hq. destruct (V !! p) eqn:Ep; [done|]. by rewrite nest_ok_below in Hq.
Qed.
Lemma nest_ok_closed V p : nest_ok V -> p <> [] -> closed V p.
Proof. intros HV Hp q n. rewrite app_assoc. apply HV. by destruct p. Qed.

Lemma closed_ext V V' p : (forall q, V' !! (p ++ q) = V !! (p ++ q)) -> closed V p -> closed V' p.
Proof. intros He Hc q n. rewrite !He. apply Hc. Qed.
Lemma shallow_ext V V' p d : (forall q, V' !! (p ++ q) = V !! (p ++ q)) -> shallow V p d -> shallow V' p d.
Proof. intros He Hs q. rewrite He. apply Hs. Qed.

Lemma apart_siblings (p : path) a b : a <> b -> apart (p ++ [a]) (p ++ [b]).
Proof.
  intros Hn. split; intros [q Eq]; rewrite <- app_assoc in Eq; apply app_inv_head in Eq; by simplify_eq/=.
Qed.

Section Rename.
Context {E : Type} (rel : bool).

(** The tree at [old] has been copied, and is now dropped. *)
Lemma moved_intro V V2 V3 p old new b :
  V !! p = Some b -> old <> new ->
  V2 = <[p ++ [new] := ∅]> (<[p := <[new := Bucket]> b]> V) ->
  copied V2 V3 (p ++ [old]) (p ++ [new]) ->
  moved V (alter (delete old) p (drop_tree (p ++ [old]) V3)) p old new b.
Proof.
  intros HV Hne -> [C1 C2].
  assert (Hp : forall n, ~ (p ++ [n]) `prefix_of` p)
    by (intros n [q Eq]; rewrite <- app_assoc in Eq; by apply snoc_ne in Eq).
  assert (Hdrop : forall r, r <> p ->
    alter (delete old) p (drop_tree (p ++ [old]) V3) !! r =
    if decide ((p ++ [old]) `prefix_of` r) then None else V3 !! r).
  { intros r Hr. by rewrite lookup_alter_ne, lookup_drop_tree. }
  split.
  - rewrite lookup_alter_eq, lookup_drop_tree, decide_False, C2 by auto.
    rewrite lookup_insert_ne, lookup_insert_eq by (apply not_eq_sym, snoc_ne). simpl.
    by rewrite delete_insert_ne.
  - intros q. rewrite Hdrop by (apply not_eq_sym, snoc_ne). rewrite decide_False.
    2:{ intros [q' Eq]. rewrite <- app_assoc in Eq. apply app_inv_head in Eq. by simplify_eq/=. }
    specialize (C1 q). rewrite <- !app_assoc in C1. simpl in C1. rewrite C1.
    rewrite !lookup_insert_ne; [done|apply snoc_ne|].
    intros Eq. apply app_inv_head in Eq. by simplify_eq.
  - intros q. rewrite Hdrop by (apply not_eq_sym, snoc_ne). rewrite decide_True; [done|].
    exists q. by rewrite <- app_assoc.
  - intros r H1 H2 H3. rewrite Hdrop, decide_False, C2 by done.
    rewrite !lookup_insert_ne; [done|..]; intros <-; first [by apply H1 | by apply H3].
Qed.

Lemma wp_rename_bucket fuel V p old new b ts s (Q : outcome E unit -> AState -> Prop) :
  a_txs s = (V, true) :: ts -> p <> [] -> nest_ok V -> V !! p = Some b ->
  b !! old = Some Bucket -> b !! new = None -> shallow V (p ++ [old]) fuel ->
  (forall V', moved V V' p old new b -> Q (Ok tt) (set_tx V' s)) ->
  wp rel (rename_key fuel p old new) Q s.
Proof.
  intros Htx Hp Hok HV Hold Hnew Hsh HQ. assert (Hne : old <> new) by congruence.
  unfold rename_key. wstep. eapply wp_bget; [exact Htx|]. unfold spec_get. rewrite HV, Hold.
  apply wp_done. rewrite bool_decide_false by done.
  wstep. eapply wp_bget; [exact Htx|]. unfold spec_get. rewrite HV, Hnew. apply wp_done.
  wstep. eapply wp_bget; [exact Htx|]. unfold spec_get. rewrite HV, Hold. apply wp_done.
  do 4 wstep. eapply (wp_create_sub _ _ _ _ Htx); [done|exact HV|done|].
  set (V2 := <[p ++ [new] := ∅]> _).
  assert (HV2 : forall q, V2 !! ((p ++ [old]) ++ q) = V !! ((p ++ [old]) ++ q)).
  { intros q. pose proof (apart_app _ _ q (apart_siblings p old new Hne)) as Hq. unfold V2.
    rewrite !lookup_insert_ne; [done|..].
    - rewrite <- app_assoc. apply snoc_ne.
    - intros Eq. by rewrite <- Eq in Hq. }
  cbv beta iota. do 2 wstep. eapply (wp_get_sub _ V2 ts); [by eapply set_tx_txs|done| |..].
  { unfold V2. rewrite lookup_insert_ne by (apply not_eq_sym, snoc_ne). apply lookup_insert_eq. }
  { by rewrite lookup_insert_ne. }
  cbv beta iota. wstep.
  eapply (copy_rule_all rel fuel V2); [by eapply set_tx_txs|by destruct p|by destruct p|
    by apply apart_siblings|..].
  - pose proof (HV2 []) as H0. rewrite !app_nil_r in H0. rewrite H0. apply Hok; eauto.
  - eapply closed_ext; [exact HV2|]. apply nest_ok_closed; [done|by destruct p].
  - by eapply shallow_ext.
  - apply lookup_insert_eq.
  - intros n q. unfold V2. rewrite !lookup_insert_ne.
    + rewrite <- app_assoc. apply (closed_below V p new (n :: q)); [by apply nest_ok_closed|].
      intros (b' & ? & ?). congruence.
    + rewrite <- app_assoc. apply snoc_ne.
    + apply snoc_ne.
  - intros V3 Hcp. rewrite set_tx_set. wstep.
    eapply wp_delete_bucket; [by eapply set_tx_txs|].
    assert (HV3 : V3 !! p = Some (<[new := Bucket]> b)).
    { rewrite (cp_frame _ _ _ _ Hcp) by (intros [q Eq]; rewrite <- app_assoc in Eq; by apply snoc_ne in Eq).
      unfold V2. rewrite lookup_insert_ne by (apply not_eq_sym, snoc_ne). apply lookup_insert_eq. }
    assert (Hg : spec_get_bucket V3 p old = JOk (p ++ [old])).
    { destruct p as [|x p]; [done|]. cbn [spec_get_bucket]. by rewrite HV3, lookup_insert_ne, Hold. }
    unfold spec_delete_bucket. rewrite Hg. apply wp_done. rewrite set_tx_set. cbn [snd].
    by eapply HQ, moved_intro.
Qed.
End Rename.

(** ** Whole calls *)

Section Calls.
Context {E : Type}.

Lemma wp_descend rel V p names ts s (Q : outcome E path -> AState -> Prop) :
  a_txs s = (V, true) :: ts -> nest_ok V -> p <> [] -> is_Some (V !! (p ++ names)) ->
  Q (Ok (p ++ names)) s -> wp rel (descend p names) Q s.
Proof.
  intros Htx Hok. revert p. induction names as [|n names IH]; intros p Hp Hs HQ.
  { apply wp_ret. by rewrite app_nil_r in HQ. }
  cbn [descend]. do 2 wstep. replace (p ++ n :: names) with ((p ++ [n]) ++ names) in * by
    (by rewrite <- app_assoc).
  destruct (proj1 (Hok p n Hp)) as (b & Hb & Hn); [eapply nest_ok_prefix; eauto; by destruct p|].
  eapply (wp_get_sub _ V ts); eauto. apply IH; auto. by destruct p.
Qed.

Lemma wp_step_all rel V p names ts s (Q : outcome E path -> AState -> Prop) :
  a_txs s = (V, true) :: ts -> nest_ok V -> p <> [] -> is_Some (V !! (p ++ names)) ->
  Q (Ok (p ++ names)) s -> wp rel (step_all p names) Q s.
Proof.
  intros Htx Hok. revert p. induction names as [|n names IH]; intros p Hp Hs HQ.
  { apply wp_ret. by rewrite app_nil_r in HQ. }
  cbn [step_all]. do 2 wstep. unfold step_into. wstep.
  replace (p ++ n :: names) with ((p ++ [n]) ++ names) in * by (by rewrite <- app_assoc).
  destruct (proj1 (Hok p n Hp)) as (b & Hb & Hn); [eapply nest_ok_prefix; eauto; by destruct p|].
  eapply (wp_get_sub _ V ts); eauto. apply IH; auto. by destruct p.
Qed.

(** A call, given what its operations do in the transaction. *)
Lemma wp_execute_operate fuel bucket ops V n tb (Q : outcome E (list (Z * bytes)) -> AState -> Prop) :
  nest_ok V -> is_Some (V !! split_on x3a bucket) ->
  wp true (execute_operate_real (E := E) fuel (split_on x3a bucket) ops)
    (fun o s => exists out V', o = Ok out /\ s = mkS V [(V', true)] n tb /\ Q (Ok out) (mkS V' [] n tb))
    (mkS V [(V, true)] n tb) ->
  wp true (execute_operate fuel bucket ops) Q (mkS V [] n tb).
Proof.
  intros Hok Hs Hbody. unfold execute_operate. apply wp_with_tx; [done|].
  unfold push_tx; cbn [a_db a_txs a_ino a_tbl].
  pose proof (split_on_head x3a bucket) as Hh. destruct (split_on x3a bucket) as [|r names]; [done|].
  destruct (nest_ok_prefix V [r] names Hok ltac:(done) Hs) as [b0 Hb0].
  do 4 wstep. eapply (wp_descend _ V [r] names); [reflexivity|done|done|done|].
  cbv beta iota. wstep. eapply wp_mono; [exact Hbody|]. intros o s (out & V' & -> & -> & HQ).
  cbv beta iota. do 2 wstep. eapply wp_commit; [reflexivity|done|].
  cbv iota. unfold commit_tx; cbn [a_txs a_db a_ino a_tbl]. wstep.
  unfold pop_tx; cbn [a_txs a_db a_ino a_tbl tail]. exact HQ.
Qed.

(** C24: Renaming a bucket in a user bucket moves it: afterwards the new name
    has the whole tree of buckets the old name had, at every depth, the old
    name has nothing, and nothing else has changed.  The recursion ends as
    soon as [fuel] exceeds the depth of the nesting. *)
Theorem rename_moves_bucket fuel bucket V n tb old new b :
  nest_ok V -> V !! split_on x3a bucket = Some b ->
  b !! old = Some Bucket -> b !! new = None ->
  shallow V (split_on x3a bucket ++ [old]) fuel ->
  wp true (execute_operate (E := E) fuel bucket (mkOperateSet [RenameKey old new]))
    (fun o s => o = Ok [] /\ exists V', s = mkS V' [] n tb /\
       moved V V' (split_on x3a bucket) old new b)
    (mkS V [] n tb).
Proof.
  intros Hok Hb Hold Hnew Hsh. apply wp_execute_operate; [done|by rewrite Hb|].
  unfold execute_operate_real. cbn [operate execute_all execute_operate_one]. do 2 wstep.
  eapply wp_rename_bucket; [reflexivity| |done..|].
  { pose proof (split_on_head x3a bucket). by destruct (split_on x3a bucket). }
  intros V' Hm. cbv beta iota. do 4 wstep. exists [], V'. repeat split; eauto.
Qed.

Lemma wp_add_keys rel p kvs ts : forall V b s (Q : outcome E unit -> AState -> Prop),
  a_txs s = (V, true) :: ts -> V !! p = Some b ->
  (forall k, k ∈ kvs.*1 -> b !! k <> Some Bucket) ->
  Q (Ok tt) (set_tx (<[p := foldl (fun b kv => <[kv.1 := KeyValue kv.2]> b) b kvs]> V) s) ->
  wp rel (iter_prog kvs (fun kv => unwrap (put p kv.1 kv.2))) Q s.
Proof.
  induction kvs as [|[k v] kvs IH]; intros V b s Q Htx HV Hk HQ; cbn [iter_prog].
  - apply wp_ret. cbn [foldl] in HQ. rewrite insert_id in HQ by done.
    unfold set_tx in HQ. destruct s; simpl in *. by subst.
  - do 2 wstep. eapply (wp_put_free _ _ _ _ Htx); [exact HV|apply Hk; left|].
    cbv beta iota. eapply IH; [by eapply set_tx_txs|apply lookup_insert_eq|..].
    + intros k' Hk'. rewrite lookup_insert. case_decide; [done|]. apply Hk. by right.
    + rewrite set_tx_set, insert_insert_eq. exact HQ.
Qed.

Lemma take_copied (out v rest : bytes) size :
  blen out <= size ->
  take (Z.to_nat size) ((out ++ slice v 0 (Z.min (size - blen out) (blen v))) ++ rest) =
  take (Z.to_nat size) ((out ++ v) ++ rest).
Proof.
  intros Hs. unfold slice, blen in *. rewrite drop_0, Z.sub_0_r.
  destruct (Z.min_spec (size - Z.of_nat (length out)) (Z.of_nat (length v))) as [[Hlt ->]|[Hle ->]].
  - rewrite <- !app_assoc, !take_app, take_take. f_equal.
    rewrite length_take. replace (Z.to_nat size - length out - _)%nat with 0%nat by lia.
    replace (Z.to_nat size - length out - length v)%nat with 0%nat by lia.
    rewrite !take_0, !app_nil_r. f_equal. lia.
  - by rewrite Nat2Z.id, firstn_all.
Qed.

Lemma add_keys_union kvs : forall b : bucket, NoDup kvs.*1 ->
  foldl (fun b kv => <[kv.1 := KeyValue kv.2]> b) b kvs =
  list_to_map ((fun kv => (kv.1, KeyValue kv.2)) <$> kvs) ∪ b.
Proof.
  induction kvs as [|[k v] kvs IH]; intros b Hnd; simpl.
  - by rewrite map_empty_union.
  - apply list.NoDup_cons in Hnd as [Hk Hnd]. rewrite IH by done.
    rewrite <- insert_union_l, insert_union_r; [done|].
    apply not_elem_of_list_to_map_1. by rewrite <- list_fmap_compose.
Qed.

Lemma wp_read_keys rel p V wr ts s b size (vs : list (bytes * bytes)) :
  forall out (Q : outcome E bytes -> AState -> Prop),
  a_txs s = (V, wr) :: ts -> V !! p = Some b ->
  (forall k v, (k, v) ∈ vs -> b !! k = Some (KeyValue v)) ->
  blen out <= size ->
  Q (Ok (take (Z.to_nat size) (out ++ concat vs.*2))) s ->
  wp rel (read_keys p vs.*1 size (blen out) out) Q s.
Proof.
  induction vs as [|[k v] vs IH]; intros out Q Htx HV Hv Hsz HQ; cbn [fmap list_fmap read_keys fst].
  - apply wp_ret. simpl in HQ. rewrite app_nil_r, take_ge in HQ; [done|]. unfold blen in Hsz. lia.
  - wstep. eapply wp_get_kv; [exact Htx|exact HV|]. unfold fkv. rewrite (Hv k v) by left.
    cbv beta iota. do 2 wstep. pose proof (blen_nonneg v) as Hv0.
    assert (Hl : blen (slice v 0 (Z.min (size - blen out) (blen v))) = Z.min (size - blen out) (blen v))
      by (rewrite blen_slice; lia).
    replace (blen out + _) with (blen (out ++ slice v 0 (Z.min (size - blen out) (blen v))))
      by (rewrite blen_app, Hl; lia).
    apply IH; [done..|intros; apply Hv; by right|rewrite blen_app; lia|].
    cbn [concat fmap list_fmap snd] in HQ. rewrite app_assoc in HQ. by rewrite take_copied.
Qed.

(** Keys added to a user bucket are read back by the same call: the
    reader's buffer gets the values in the order of the keys, cut off at the
    size of the buffer, and the bucket holds the new values with its other
    keys, and every other bucket, unchanged. *)
Theorem add_then_read fuel bucket V n tb b kvs addr size :
  nest_ok V -> V !! split_on x3a bucket = Some b -> 0 <= size -> NoDup kvs.*1 ->
  (forall k, k ∈ kvs.*1 -> b !! k <> Some Bucket) ->
  wp true (execute_operate (E := E) fuel bucket (mkOperateSet [AddKey kvs; Read kvs.*1 addr size]))
    (fun o s => o = Ok [(addr, take (Z.to_nat size) (concat kvs.*2))] /\
       s = mkS (<[split_on x3a bucket :=
                   list_to_map ((fun kv => (kv.1, KeyValue kv.2)) <$> kvs) ∪ b]> V) [] n tb)
    (mkS V [] n tb).
Proof.
  intros Hok Hb Hsz Hnd Hk. apply wp_execute_operate; [done|by rewrite Hb|].
  unfold execute_operate_real. cbn [operate execute_all execute_operate_one]. do 2 wstep.
  eapply wp_add_keys; [reflexivity|exact Hb|done|]. cbv beta iota.
  rewrite add_keys_union by done. set (b' := _ ∪ b). do 4 wstep.
  eapply (wp_read_keys _ _ _ true [] _ b' size kvs []); [reflexivity|apply lookup_insert_eq| |done|].
  - intros k v Hin. apply lookup_union_Some_l, elem_of_list_to_map_1.
    + by rewrite <- list_fmap_compose.
    + apply list_elem_of_fmap. by exists (k, v).
  - cbv beta iota. do 4 wstep. exists [(addr, take (Z.to_nat size) (concat kvs.*2))], (<[split_on x3a bucket := b']> V).
    by repeat split.
Qed.

(** A key-value pair is renamed by a copy: the old key keeps its value. *)
Theorem rename_keeps_old_key fuel bucket V n tb old new b v :
  nest_ok V -> V !! split_on x3a bucket = Some b ->
  b !! old = Some (KeyValue v) -> b !! new = None ->
  wp true (execute_operate (E := E) fuel bucket (mkOperateSet [RenameKey old new]))
    (fun o s => o = Ok [] /\
       s = mkS (<[split_on x3a bucket := <[new := KeyValue v]> b]> V) [] n tb /\
       <[new := KeyValue v]> b !! old = Some (KeyValue v))
    (mkS V [] n tb).
Proof.
  intros Hok Hb Hold Hnew. apply wp_execute_operate; [done|by rewrite Hb|].
  assert (Hne : old <> new) by congruence.
  unfold execute_operate_real. cbn [operate execute_all execute_operate_one]. do 2 wstep.
  unfold rename_key. wstep. eapply wp_bget; [reflexivity|]. unfold spec_get. rewrite Hb, Hold.
  apply wp_done. rewrite bool_decide_false by done.
  wstep. eapply wp_bget; [reflexivity|]. unfold spec_get. rewrite Hb, Hnew. apply wp_done.
  wstep. eapply wp_bget; [reflexivity|]. unfold spec_get. rewrite Hb, Hold. apply wp_done.
  do 3 wstep. eapply wp_put_free; [reflexivity|exact Hb|by rewrite Hnew|].
  cbv beta iota. do 4 wstep. eexists [], _. repeat split. by rewrite lookup_insert_ne.
Qed.

(** The call of a user function on the bucket it names: what the function does
    in the transaction is committed, and its result returned. *)
Theorem execute_commits {R} key (func : bytes -> path -> bytes -> Prog E R) buf V n tb
    (Q : outcome E R -> AState -> Prop) :
  let component := split_on x3a key in
  let p := hd [] component :: take (length component - 2) (tail component) in
  nest_ok V -> is_Some (V !! p) ->
  wp true (func (List.last component []) p buf)
    (fun o s => exists r V', o = Ok r /\ s = mkS V [(V', true)] n tb /\ Q (Ok r) (mkS V' [] n tb))
    (mkS V [(V, true)] n tb) ->
  wp true (execute key func buf) Q (mkS V [] n tb).
Proof.
  intros component p Hok Hs Hbody. subst component p. unfold execute.
  apply wp_with_tx; [done|]. unfold push_tx; cbn [a_db a_txs a_ino a_tbl]. cbv zeta.
  pose proof (split_on_head x3a key) as Hh. destruct (split_on x3a key) as [|r names]; [done|].
  cbn [hd tail length] in *. replace (S (length names) - 2)%nat with (length names - 1)%nat in * by lia.
  destruct (nest_ok_prefix V [r] _ Hok ltac:(done) Hs) as [b0 Hb0].
  do 4 wstep. eapply (wp_step_all _ V [r]); [reflexivity|done|done|done|].
  cbv beta iota. wstep. eapply wp_mono; [exact Hbody|]. intros o s (res & V' & -> & -> & HQ).
  cbv beta iota. do 2 wstep. eapply wp_commit; [reflexivity|done|].
  cbv iota. unfold commit_tx; cbn [a_txs a_db a_ino a_tbl]. wstep.
  unfold pop_tx; cbn [a_txs a_db a_ino a_tbl tail]. exact HQ.
Qed.
End Calls.

(** ** Examples *)

(** [nest_ok] by computation. *)
Definition nest_check (V : view) : bool :=
  forallb (fun e : path * bucket =>
    match rev e.1 with
    | n :: q =>
        match q with
        | [] => true
        | _ => match V !! rev q with
               | Some b => bool_decide (b !! n = Some Bucket)
               | None => false
               end
        end
    | [] => true
    end &&
    forallb (fun kd => match kd.2 with
                       | Bucket => bool_decide (is_Some (V !! (e.1 ++ [kd.1])))
                       | _ => true
                       end) (map_to_list e.2)) (map_to_list V).

Lemma nest_check_sound V : nest_check V = true -> nest_ok V.
Proof.
  unfold nest_check. rewrite forallb_forall. intros HV p n Hp. split.
  - intros [b' Hb']. apply elem_of_map_to_list, list_elem_of_In, HV in Hb'. simpl in Hb'.
    rewrite rev_app_distr in Hb'. simpl in Hb'. apply andb_prop in Hb' as [Hb' _].
    destruct (rev p) eqn:Er; [by apply (f_equal (@rev _)) in Er; rewrite rev_involutive in Er|].
    rewrite <- Er, rev_involutive in Hb'. case_match; [|done]. apply bool_decide_eq_true in Hb'. eauto.
  - intros (b & Hb & Hn). apply elem_of_map_to_list, list_elem_of_In, HV in Hb. simpl in Hb.
    apply andb_prop in Hb as [_ Hb]. rewrite forallb_forall in Hb.
    apply elem_of_map_to_list, list_elem_of_In, Hb in Hn. by apply bool_decide_eq_true in Hn.
Qed.

Definition shallow_check (V : view) (p : path) (d : nat) : bool :=
  forallb (fun e : path * bucket =>
    negb (bool_decide (p `prefix_of` e.1)) || (length e.1 <? length p + d)%nat) (map_to_list V).

Lemma shallow_check_sound V p d : shallow_check V p d = true -> shallow V p d.
Proof.
  unfold shallow_check. rewrite forallb_forall. intros HV q [b Hb].
  apply elem_of_map_to_list, list_elem_of_In, HV in Hb. simpl in Hb.
  rewrite bool_decide_true in Hb by (by exists q). simpl in Hb. apply Nat.ltb_lt in Hb.
  rewrite length_app in Hb. lia.
Qed.

(** The bucket [u] with a key-value pair and the buckets [d] and [d:e]. *)
Definition user_world : @World map_platform :=
  snd (run (unwrap (E' := unit) (extend_create_global_bucket (bs "u"));;
    execute_operate 1 (bs "u") (mkOperateSet
      [AddKey [(bs "k", bs "1")];
       AddBucket (bs "d") (Some (mkOperateSet
         [AddKey [(bs "x", bs "2")];
          AddBucket (bs "e") (Some (mkOperateSet [AddKey [(bs "y", bs "3")]]))]))]))
    (@mkW map_platform (∅ : view) [] 1 ∅ 0)).
Definition user_view : view := a_db (st user_world).

Lemma user_nested : nest_ok user_view.
Proof. apply nest_check_sound. by vm_compute. Qed.

Definition user_bucket : bucket := default ∅ (user_view !! [bs "u"]).
Lemma user_bucket_at : user_view !! [bs "u"] = Some user_bucket.
Proof.
  assert (Hs : bool_decide (is_Some (user_view !! [bs "u"])) = true) by (by vm_compute).
  apply bool_decide_eq_true in Hs as [b Hb]. unfold user_bucket. by rewrite Hb.
Qed.

Lemma operate_confined_witness :
  db_view (w_db (run (execute_operate (E := unit) 1 (bs "u:d")
    (mkOperateSet [DeleteKey [bs "x"]; RenameKey (bs "e") (bs "f")])) user_world).2) !! [bs "v"] = None.
Proof.
  refine (eq_trans (operate_confined 1 (bs "u:d")
    (mkOperateSet [DeleteKey [bs "x"]; RenameKey (bs "e") (bs "f")]) user_world [bs "v"] _ _) _).
  - done.
  - intros [q Hq]. discriminate Hq.
  - apply (bool_decide_unpack _). by vm_compute.
Defined.

Lemma rename_moves_bucket_witness :
  wp true (execute_operate (E := unit) 2 (bs "u") (mkOperateSet [RenameKey (bs "d") (bs "z")]))
    (fun o s => o = Ok [] /\ exists V', s = mkS V' [] 1 ∅ /\
       moved user_view V' [bs "u"] (bs "d") (bs "z") user_bucket)
    (mkS user_view [] 1 ∅).
Proof.
  apply (rename_moves_bucket 2 (bs "u") user_view 1 ∅ (bs "d") (bs "z") user_bucket).
  - exact user_nested.
  - exact user_bucket_at.
  - apply (bool_decide_unpack _). by vm_compute.
  - apply (bool_decide_unpack _). by vm_compute.
  - apply shallow_check_sound. by vm_compute.
Defined.

Lemma add_then_read_witness :
  wp true (execute_operate (E := unit) 0 (bs "u")
      (mkOperateSet [AddKey [(bs "a", bs "hello"); (bs "k", bs "world")];
                     Read [bs "a"; bs "k"] 4096 8]))
    (fun o s => o = Ok [(4096, bs "hellowor")] /\
       s = mkS (<[[bs "u"] := list_to_map [(bs "a", KeyValue (bs "hello")); (bs "k", KeyValue (bs "world"))]
                              ∪ user_bucket]> user_view) [] 1 ∅)
    (mkS user_view [] 1 ∅).
Proof.
  apply (add_then_read 0 (bs "u") user_view 1 ∅ user_bucket
           [(bs "a", bs "hello"); (bs "k", bs "world")] 4096 8).
  - exact user_nested.
  - exact user_bucket_at.
  - done.
  - by apply (bool_decide_unpack _).
  - intros k Hk. apply list_elem_of_In in Hk.
    destruct Hk as [<-|[<-|[]]]; apply (bool_decide_unpack _); by vm_compute.
Defined.

(** The moved tree, by running the call: [z:e:y] is where [d:e:y] was. *)
Example rename_example :
  let V := a_db (st (run (execute_operate (E := unit) 2 (bs "u")
             (mkOperateSet [RenameKey (bs "d") (bs "z")])) user_world).2) in
  (V !! [bs "u"; bs "z"; bs "e"] ≫= fun b => b !! bs "y", V !! [bs "u"; bs "d"])
  = (Some (KeyValue (bs "3")), None).
Proof. by vm_compute. Qed.
