(* ===== verification/Storage.v ===== *)
(** * The storage back end of the FUSE build ([fuse/mkfs.rs])

    The database runs on a file of the host ([FakeFile]) and reads its pages
    through a memory map of it, made once per process ([MMAP]).  [std::fs::File]
    is modelled as its bytes and its cursor; what the host does with a call
    (refuse it, transfer fewer bytes than asked for) is an argument of the
    operation, [Host]. *)

From S2P Require Import Prelude Jammdb Effects RustStd Common FsType.

(** ** [std::fs::File] *)

Record OsFile := mkOsFile { f_data : bytes; f_pos : Z }.

(** What the host does with a call: fail, or transfer at most [n] bytes. *)
Inductive Host := Refuse | Grant (n : Z).

Definition os_len (f : OsFile) : Z := blen (f_data f).

(** The bytes of a file cut off, or extended with zeros, to [n]. *)
Definition resize_bytes (n : Z) (l : bytes) : bytes :=
  take (Z.to_nat n) l ++ replicate (Z.to_nat n - length l) x00.

Definition os_set_len (h : Host) (n : Z) (f : OsFile) : option OsFile :=
  match h with
  | Refuse => None
  | Grant _ => Some (mkOsFile (resize_bytes n (f_data f)) (f_pos f))
  end.

Inductive SeekFrom := Start (x : Z) | End_ (x : Z) | Current (x : Z).

Definition seek_target (f : OsFile) (pos : SeekFrom) : Z :=
  match pos with
  | Start x => x
  | End_ x => os_len f + x
  | Current x => f_pos f + x
  end.

(** Offsets are signed 64-bit integers of the host; negative ones are errors. *)
Definition os_seek (pos : SeekFrom) (f : OsFile) : option (Z * OsFile) :=
  let p := seek_target f pos in
  if (0 <=? p) && (p <? 2 ^ 63) then Some (p, mkOsFile (f_data f) p) else None.

Definition os_read (h : Host) (want : Z) (f : OsFile) : option (bytes * OsFile) :=
  match h with
  | Refuse => None
  | Grant n =>
      let len := Z.max 0 (Z.min (Z.min n want) (os_len f - f_pos f)) in
      Some (slice (f_data f) (f_pos f) (f_pos f + len), mkOsFile (f_data f) (f_pos f + len))
  end.

(** A write past the end fills the gap with zeros. *)
Definition os_write (h : Host) (buf : bytes) (f : OsFile) : option (Z * OsFile) :=
  match h with
  | Refuse => None
  | Grant n =>
      let len := Z.max 0 (Z.min n (blen buf)) in
      let l := resize_bytes (Z.max (os_len f) (f_pos f + len)) (f_data f) in
      Some (len, mkOsFile (splice l (f_pos f) (slice buf 0 len)) (f_pos f + len))
  end.

(** ** [FakeFile] *)

Record FakeFile := mkFakeFile { ff_file : OsFile; ff_size : Z }.

(** [core2::io::Error]: its message. *)
Definition io_err {A} (msg : bytes) (o : option A) : bytes + A :=
  match o with Some a => inr a | None => inl msg end.

Module FakeFileM.
Definition new (f : OsFile) : FakeFile := mkFakeFile f (os_len f).

Definition seek (pos : SeekFrom) (f : FakeFile) : (bytes + Z) * FakeFile :=
  match os_seek pos (ff_file f) with
  | Some (p, g) => (inr p, mkFakeFile g (ff_size f))
  | None => (inl (bs "seek error"), f)
  end.

Definition read (h : Host) (want : Z) (f : FakeFile) : (bytes + bytes) * FakeFile :=
  match os_read h want (ff_file f) with
  | Some (b, g) => (inr b, mkFakeFile g (ff_size f))
  | None => (inl (bs "read error"), f)
  end.

Definition write (h : Host) (buf : bytes) (f : FakeFile) : (bytes + Z) * FakeFile :=
  match os_write h buf (ff_file f) with
  | Some (n, g) => (inr n, mkFakeFile g (ff_size f))
  | None => (inl (bs "write error"), f)
  end.

(** [flush] and [sync_all] do nothing. *)
Definition flush (f : FakeFile) : (bytes + unit) * FakeFile := (inr tt, f).
Definition sync_all (f : FakeFile) : bytes + unit := inr tt.

Definition allocate (h : Host) (new_size : Z) (f : FakeFile) : (bytes + unit) * FakeFile :=
  if new_size <? ff_size f then (inr tt, f)
  else
    match os_set_len h new_size (ff_file f) with
    | Some g => (inr tt, mkFakeFile g new_size)
    | None => (inl (bs "allocate error"), f)
    end.

Definition metadata (h : Host) (f : FakeFile) : bytes + Z :=
  match h with
  | Refuse => inl (bs "metadata error")
  | Grant _ => inr (os_len (ff_file f))
  end.
Definition size (f : FakeFile) : Z := ff_size f.
Definition addr (f : FakeFile) : Z := 0.
End FakeFileM.

(** ** [MyOpenOptions<S>] *)

Record MyOpenOptions := mkOptions { oo_read : bool; oo_write : bool; oo_create : bool; oo_size : Z }.

Module OpenOptionsM.
Definition new (S : Z) : MyOpenOptions := mkOptions false false false S.
Definition read (b : bool) (o : MyOpenOptions) : MyOpenOptions :=
  mkOptions b (oo_write o) (oo_create o) (oo_size o).
Definition write (b : bool) (o : MyOpenOptions) : MyOpenOptions :=
  mkOptions (oo_read o) b (oo_create o) (oo_size o).
Definition create (b : bool) (o : MyOpenOptions) : MyOpenOptions :=
  mkOptions (oo_read o) (oo_write o) b (oo_size o).

(** [OpenOptions::open] of the host: an existing file is opened at position 0,
    a missing one is created empty when [create] and [write] are set. *)
Definition os_open (o : MyOpenOptions) (old : option bytes) : option OsFile :=
  if negb (oo_read o || oo_write o) then None
  else if oo_create o && negb (oo_write o) then None
  else match old with
       | Some l => Some (mkOsFile l 0)
       | None => if oo_create o then Some (mkOsFile [] 0) else None
       end.

(** [open]: every failure is an [unwrap]; [set_len] needs write access. *)
Definition open (h : Host) (o : MyOpenOptions) (S : Z) (old : option bytes) : outcome bytes FakeFile :=
  match os_open o old with
  | None => Panic
  | Some f =>
      match (if oo_write o then os_set_len h S f else None) with
      | None => Panic
      | Some f => Ok (FakeFileM.new f)
      end
  end.
End OpenOptionsM.

(** ** The memory map *)

(** [memmap2::Mmap]: a shared map of the first [map_len] bytes of the file,
    whose contents are those of the file at the time of the access. *)
Record Mmap := mkMmap { map_len : Z }.

(** [mmap]: the map has the size the file has now.  The host may refuse it. *)
Definition mmap (h : Host) (f : OsFile) : outcome bytes Mmap :=
  match h with
  | Refuse => Panic
  | Grant _ => Ok (mkMmap (os_len f))
  end.

(** [spin::Once]: [call_once] has an effect the first time only. *)
Definition call_once {A} (a : A) (cell : option A) : option A :=
  match cell with Some x => Some x | None => Some a end.

(** [FakeMMap::do_map], with the static [MMAP]. *)
Definition do_map (h : Host) (f : FakeFile) (MMAP : option Mmap) : outcome bytes Mmap * option Mmap :=
  match MMAP with
  | Some m => (Ok m, MMAP)
  | None =>
      match mmap h (ff_file f) with
      | Ok m =>
          let cell := call_once m MMAP in
          (match cell with Some m => Ok m | None => Panic end, cell)
      | Err e => (Err e, MMAP)
      | Panic => (Panic, MMAP)
      end
  end.

(** [IndexByPageIDImpl::index]: the bytes of a page, as the file has them. *)
Definition index `{Config} (m : Mmap) (f : OsFile) (page_id page_size : Z) : Prog bytes bytes :=
  start ← mul64 page_id page_size;
  stop ← add64 start page_size;
  if (start <=? stop) && (stop <=? map_len m) then ret (slice (f_data f) start stop) else panic.

Definition map_size (m : Mmap) : Z := map_len m.

(** ** The process-wide database ([lib.rs]) *)

Definition init_dbfs {DB : Type} (db : DB) (cell : option DB) : option DB := call_once db cell.
Definition clone_db {DB : Type} (cell : option DB) : outcome bytes DB :=
  match cell with Some db => Ok db | None => Panic end.

(** [init_dbfs_fuse], once the database is open. *)
Definition init_dbfs_fuse `{Config} (uid gid : Z) (time : DbfsTimeSpec) (size : Z) : Prog unit unit :=
  init_db size;;
  unwrap (dbfs_common_root_inode uid gid time);;
  ret tt.
