(* ===== verification/StorageEffects.v ===== *)
(** * The storage back end: bounds, sizes and pages *)

From S2P Require Import Prelude Jammdb Effects RustStd Common FsType Samples Storage.

(** ** Bytes of a resized file *)

Lemma blen_resize n l : 0 <= n -> blen (resize_bytes n l) = n.
Proof. intros. unfold blen, resize_bytes. rewrite length_app, length_take, length_replicate. lia. Qed.

Lemma lookup_resize n l (j : nat) :
  0 <= n -> resize_bytes n l !! j =
    if decide (Z.of_nat j < n) then Some (default x00 (l !! j)) else None.
Proof.
  intros Hn. unfold resize_bytes. case_decide as Hj.
  - destruct (l !! j) as [x|] eqn:E.
    + rewrite lookup_app_l by (rewrite length_take; apply lookup_lt_Some in E; lia).
      by rewrite lookup_take_lt by lia.
    + apply lookup_ge_None in E. rewrite lookup_app_r by (rewrite length_take; lia).
      rewrite lookup_replicate_2; [done|]. rewrite length_take. lia.
  - apply lookup_ge_None. rewrite length_app, length_take, length_replicate. lia.
Qed.

(** ** Steps of the back end *)

Record Back := mkBack { bk_file : FakeFile; bk_map : option Mmap }.

Inductive BackOp :=
  | OSeek (pos : SeekFrom) | ORead (h : Host) (want : Z) | OWrite (h : Host) (buf : bytes)
  | OAllocate (h : Host) (n : Z) | OMap (h : Host) | OFlush.

Definition back_step (b : Back) (o : BackOp) : Back :=
  let f := bk_file b in
  match o with
  | OSeek pos => mkBack (FakeFileM.seek pos f).2 (bk_map b)
  | ORead h want => mkBack (FakeFileM.read h want f).2 (bk_map b)
  | OWrite h buf => mkBack (FakeFileM.write h buf f).2 (bk_map b)
  | OAllocate h n => mkBack (FakeFileM.allocate h n f).2 (bk_map b)
  | OMap h => mkBack f (do_map h f (bk_map b)).2
  | OFlush => mkBack (FakeFileM.flush f).2 (bk_map b)
  end.

(** The database allocates the space before it writes to it. *)
Definition op_ok (b : Back) (o : BackOp) : Prop :=
  match o with
  | OAllocate _ n => 0 <= n
  | OWrite _ buf => f_pos (ff_file (bk_file b)) + blen buf <= ff_size (bk_file b)
  | _ => True
  end.

(** The recorded size is that of the file, and the map does not reach past its
    end. *)
Record back_ok (b : Back) : Prop := {
  bo_size : ff_size (bk_file b) = os_len (ff_file (bk_file b));
  bo_pos : 0 <= f_pos (ff_file (bk_file b));
  bo_map : forall m, bk_map b = Some m -> map_len m <= os_len (ff_file (bk_file b))
}.

(** A run of operations. *)
Inductive back_run : Back -> Back -> Prop :=
  | run_nil b : back_run b b
  | run_cons b o b' : op_ok b o -> back_run (back_step b o) b' -> back_run b b'.

Lemma os_len_nonneg f : 0 <= os_len f.
Proof. apply blen_nonneg. Qed.

Lemma os_write_len h buf f n g :
  0 <= f_pos f -> os_write h buf f = Some (n, g) ->
  0 <= n <= blen buf /\ os_len g = Z.max (os_len f) (f_pos f + n) /\ f_pos g = f_pos f + n.
Proof.
  intros Hp. destruct h as [|k]; simpl; [done|]. intros [= <- <-]. unfold os_len; cbn [f_data f_pos].
  pose proof (blen_nonneg buf). pose proof (blen_nonneg (f_data f)).
  split; [lia|]. split; [|done]. rewrite blen_splice; rewrite ?blen_resize, ?blen_slice; lia.
Qed.

(** One step keeps the sizes in step, keeps a map that has been made, and
    never makes the file shorter. *)
Lemma back_step_ok b o :
  back_ok b -> op_ok b o ->
  back_ok (back_step b o) /\
  os_len (ff_file (bk_file b)) <= os_len (ff_file (bk_file (back_step b o))) /\
  (forall m, bk_map b = Some m -> bk_map (back_step b o) = Some m).
Proof.
  destruct b as [[f sz] mm]. intros [H1 H2 H3] Ho. cbn [bk_file bk_map ff_file ff_size] in *.
  assert (Hsame : forall g, f_data g = f_data f -> 0 <= f_pos g -> back_ok (mkBack (mkFakeFile g sz) mm) /\
    os_len f <= os_len g /\ (forall m, mm = Some m -> mm = Some m)).
  { intros g Hg Hp. assert (os_len g = os_len f) as El by (unfold os_len; by rewrite Hg).
    split; [split|]; simpl; rewrite ?El; auto with lia. }
  destruct o as [pos|h want|h buf|h n|h|]; cbn [back_step bk_file bk_map].
  - unfold FakeFileM.seek, os_seek. simpl ff_file. case_match eqn:Es; [|by apply Hsame].
    simplify_eq. destruct ((0 <=? _) && _) eqn:Ep; simplify_eq/=.
    apply Hsame; [done|]. simpl. apply andb_true_iff in Ep as [?%Z.leb_le _]. lia.
  - unfold FakeFileM.read, os_read. simpl ff_file. destruct h as [|k]; [by apply Hsame|].
    apply Hsame; simpl; [done|lia].
  - unfold FakeFileM.write. simpl ff_file. destruct (os_write h buf f) as [[n g]|] eqn:Ew; [|by apply Hsame].
    apply os_write_len in Ew as (Hn & Hl & Hp); [|done]. simpl in Ho.
    assert (os_len g = os_len f) as El by lia.
    split; [split|]; simpl; rewrite ?El; auto with lia.
  - unfold FakeFileM.allocate. simpl ff_size. case_match eqn:En; [by apply Hsame|].
    apply Z.ltb_ge in En. destruct h as [|k]; simpl; [by apply Hsame|].
    assert (os_len (mkOsFile (resize_bytes n (f_data f)) (f_pos f)) = n) as El
      by (by apply blen_resize).
    split; [split|]; simpl; rewrite ?El; auto with lia.
    intros m Hm. apply H3 in Hm. lia.
  - destruct mm as [m0|]; simpl; [by apply Hsame|]. destruct h as [|k]; simpl; [by apply Hsame|].
    split; [split|split]; simpl; [lia|lia|by intros m [= <-]|lia|done].
  - by apply Hsame.
Qed.

Lemma back_run_ok b b' :
  back_run b b' -> back_ok b ->
  back_ok b' /\ (forall m, bk_map b = Some m -> bk_map b' = Some m).
Proof.
  induction 1 as [b|b o b' Ho _ IH]; intros Hb; [done|].
  destruct (back_step_ok b o Hb Ho) as (Hb1 & _ & Hm1). destruct (IH Hb1) as [Hb' Hm']. auto.
Qed.

(** Arithmetic that fits, and that does not. *)
Lemma wrapping_in `{Config} {E} z : 0 <= z < 2 ^ 64 -> wrapping (E := E) 64 z = ret z.
Proof. intros. unfold wrapping. by rewrite (proj2 (Z.leb_le _ _)), (proj2 (Z.ltb_lt _ _)) by lia. Qed.
Lemma wrapping_out `{Config} {E} z :
  2 ^ 64 <= z -> overflow_checks = true -> wrapping (E := E) 64 z = panic.
Proof. intros Hz Ho. unfold wrapping. rewrite (proj2 (Z.ltb_ge _ _)), andb_false_r, Ho by lia. done. Qed.

Lemma slice_splice_same d at_ src :
  0 <= at_ -> at_ + blen src <= blen d -> slice (splice d at_ src) at_ (at_ + blen src) = src.
Proof.
  intros Ha Hl. apply list_eq. intros j. rewrite lookup_slice by done. unfold blen in *. case_decide.
  - rewrite lookup_splice by (unfold blen; lia). rewrite decide_True by (unfold blen; lia).
    f_equal. lia.
  - symmetry. apply lookup_ge_None. lia.
Qed.
Lemma slice_splice_other d at_ src a b :
  0 <= at_ -> at_ + blen src <= blen d -> 0 <= a -> b <= at_ \/ at_ + blen src <= a ->
  slice (splice d at_ src) a b = slice d a b.
Proof.
  intros Ha Hl H0 Hd. apply list_eq. intros j. rewrite !lookup_slice by done. case_decide; [|done].
  rewrite lookup_splice by done. by rewrite decide_False by lia.
Qed.

(** ** Theorems *)

(** C26: in a build with overflow checks, and in one without them as long as the
    end of the page is below 2^64, a page is read from the map if and only if
    it lies inside the map, and what is read are the bytes of the file at its
    offset; any other page is a panic.  (Without the checks the offset of a
    larger page number wraps: [index_wraps].) *)
Theorem index_bounds `{Config} m f id ps :
  u64 id -> 0 < ps < 2 ^ 64 -> 0 <= map_len m < 2 ^ 64 ->
  overflow_checks = true \/ (id + 1) * ps < 2 ^ 64 ->
  index m f id ps =
    if (id + 1) * ps <=? map_len m then ret (slice (f_data f) (id * ps) ((id + 1) * ps)) else panic.
Proof.
  intros [Hid _] Hps Hm Ho. unfold index, mul64, add64. assert (Hs : 0 <= id * ps) by nia.
  destruct (Z.lt_ge_cases (id * ps) (2 ^ 64)) as [Hlt|Hge].
  - rewrite (wrapping_in (id * ps)) by lia. cbn [bind graft ret].
    replace (id * ps + ps) with ((id + 1) * ps) by lia.
    destruct (Z.lt_ge_cases ((id + 1) * ps) (2 ^ 64)) as [Hlt'|Hge'].
    + rewrite wrapping_in by lia. cbn [bind graft ret].
      by rewrite (proj2 (Z.leb_le (id * ps) _)) by lia.
    + destruct Ho as [Ho|]; [|lia]. rewrite wrapping_out by (done || lia).
      by rewrite (proj2 (Z.leb_gt _ _)) by lia.
  - destruct Ho as [Ho|]; [|lia]. rewrite wrapping_out by (done || lia).
    by rewrite (proj2 (Z.leb_gt _ _)) by lia.
Qed.

(** Without overflow checks the offset of a page wraps: a page number whose
    offset is the same modulo 2^64 reads the same page. *)
Theorem index_wraps `{Config} m f id ps j :
  overflow_checks = false -> 0 <= id * ps -> 0 <= j * ps -> (id * ps) `mod` 2 ^ 64 = (j * ps) `mod` 2 ^ 64 ->
  index m f id ps = index m f j ps.
Proof.
  intros Ho Hi Hj Hmod. unfold index.
  assert (Hm : forall a, 0 <= a * ps -> mul64 (E := bytes) a ps = ret ((a * ps) `mod` 2 ^ 64)).
  { intros a Ha. unfold mul64, wrapping. rewrite (proj2 (Z.leb_le _ _)) by done. cbn [andb].
    destruct (Z.ltb_spec (a * ps) (2 ^ 64)); [by rewrite Z.mod_small|by rewrite Ho]. }
  by rewrite !Hm, Hmod.
Qed.

(** C25: after any run of the back end in which the database writes only below
    the recorded size (seeks, reads, such writes, allocations, maps, with any
    refusals and short transfers), the recorded size is that of the file and
    every page of the map is backed by the file: reading it gives a whole page
    and not a fault.  (A write past the recorded size breaks this:
    [write_past_size_unbacks].) *)
Theorem mapped_pages_backed `{Config} b b' m id ps :
  back_ok b -> back_run b b' -> bk_map b' = Some m ->
  u64 id -> 0 < ps < 2 ^ 64 -> 0 <= map_len m < 2 ^ 64 -> (id + 1) * ps <= map_len m ->
  ff_size (bk_file b') = os_len (ff_file (bk_file b')) /\
  exists page, index m (ff_file (bk_file b')) id ps = ret page /\ blen page = ps.
Proof.
  intros Hb Hr Hm Hid Hps Hl Hin. apply back_run_ok in Hr as [Hb' _]; [|done].
  split; [apply Hb'|]. rewrite index_bounds by (done || right; lia).
  rewrite (proj2 (Z.leb_le _ _)) by done. eexists; split; [reflexivity|].
  pose proof (bo_map _ Hb' m Hm) as Hbk. destruct Hid. unfold os_len in Hbk. rewrite blen_slice; nia.
Qed.

(** The map is made once: whatever happens to the file afterwards,
    another [do_map] returns the map of the size the file had then, so that a
    page behind that size cannot be read, however far the file has grown. *)
Theorem map_never_grows `{Config} b b' m h id ps :
  back_ok b -> bk_map b = Some m -> back_run b b' ->
  u64 id -> 0 < ps < 2 ^ 64 -> 0 <= map_len m < 2 ^ 64 -> map_len m < (id + 1) * ps < 2 ^ 64 ->
  do_map h (bk_file b') (bk_map b') = (Ok m, Some m) /\
  index m (ff_file (bk_file b')) id ps = panic.
Proof.
  intros Hb Hm Hr Hid Hps Hl Hout. apply back_run_ok in Hr as [_ Hk]; [|done]. rewrite (Hk m Hm).
  split; [done|]. rewrite index_bounds by (done || right; lia).
  by rewrite (proj2 (Z.leb_gt _ _)) by lia.
Qed.

(** A page that is written to the file at its offset is the page that the
    map returns, and the other pages are unchanged. *)
Theorem page_write_then_index `{Config} m f id ps page id' :
  u64 id -> u64 id' -> 0 < ps < 2 ^ 63 -> blen page = ps -> 0 <= map_len m < 2 ^ 63 ->
  map_len m <= os_len (ff_file f) ->
  (id + 1) * ps <= map_len m -> (id' + 1) * ps <= map_len m ->
  let '(r1, f1) := FakeFileM.seek (Start (id * ps)) f in
  let '(r2, f2) := FakeFileM.write (Grant ps) page f1 in
  r1 = inr (id * ps) /\ r2 = inr ps /\
  index m (ff_file f2) id' ps =
    (if decide (id' = id) then ret page else index m (ff_file f) id' ps) /\
  ff_size f2 = ff_size f /\ os_len (ff_file f2) = os_len (ff_file f).
Proof.
  intros [Hi _] [Hi' _] Hps Hpg Hm Hmf Hin Hin'. assert (Hs : 0 <= id * ps) by nia.
  assert (Hs' : 0 <= id' * ps) by nia.
  unfold FakeFileM.seek, os_seek. cbn [seek_target].
  rewrite (proj2 (Z.leb_le _ _)), (proj2 (Z.ltb_lt _ _)) by lia. cbn [andb].
  unfold FakeFileM.write. cbn [ff_file os_write f_pos f_data].
  unfold os_len in *. cbn [f_data]. rewrite Hpg, Z.min_id, (Z.max_r 0 ps) by lia.
  rewrite Z.max_l by lia. assert (slice page 0 ps = page) as -> by (rewrite <- Hpg; apply slice_all).
  set (d := f_data (ff_file f)) in *.
  assert (Hd : resize_bytes (blen d) d = d).
  { unfold resize_bytes, blen. rewrite Nat2Z.id, firstn_all, Nat.sub_diag. apply app_nil_r. }
  rewrite Hd. split; [done|]. split; [done|]. split.
  - assert (Hx : forall g, index m g id' ps = ret (slice (f_data g) (id' * ps) ((id' + 1) * ps))).
    { intros g. rewrite index_bounds; [|split; lia|lia|lia|right; lia].
      by rewrite (proj2 (Z.leb_le _ _)) by done. }
    rewrite !Hx. cbn [ff_file f_data]. fold d. case_decide as E.
    + subst id'. f_equal. replace ((id + 1) * ps) with (id * ps + blen page) by lia.
      apply slice_splice_same; lia.
    + f_equal. apply slice_splice_other; [lia..|]. rewrite Hpg. nia.
  - split; [done|]. cbn [ff_file f_data]. rewrite blen_splice; lia.
Qed.

(** Opening the database file gives it exactly the configured size: what
    an existing file has below that size is kept, zeros follow, and what it has
    behind that size is lost. *)
Theorem open_resizes h o S old f :
  0 <= S -> OpenOptionsM.open h o S old = Ok f ->
  ff_size f = S /\ os_len (ff_file f) = S /\ f_pos (ff_file f) = 0 /\
  (forall j : nat, Z.of_nat j < S ->
     f_data (ff_file f) !! j = Some (default x00 (default [] old !! j))) /\
  back_ok (mkBack f None).
Proof.
  intros HS. unfold OpenOptionsM.open, OpenOptionsM.os_open. intros Ho.
  assert (exists l, default [] old = l /\ f = FakeFileM.new (mkOsFile (resize_bytes S l) 0)) as (l & Hl & ->).
  { destruct (negb _); [done|]. destruct (oo_create o && _); [done|].
    destruct old as [l|]; [|destruct (oo_create o); [|done]];
      (destruct (oo_write o); [|done]); (destruct h; [done|]); injection Ho as <-; eauto. }
  unfold FakeFileM.new. cbn [ff_size ff_file f_pos f_data]. unfold os_len. cbn [f_data].
  rewrite blen_resize by done. split; [done|]. split; [done|]. split; [done|]. split.
  - intros j Hj. rewrite lookup_resize, decide_True by done. by rewrite Hl.
  - split; cbn [bk_file ff_file ff_size bk_map f_pos]; unfold os_len; cbn [f_data]; [|lia|done].
    by rewrite blen_resize.
Qed.

(** ** Witnesses *)

Section Witnesses.
#[local] Existing Instance cfg512.

(** A file of two pages of 4 bytes, opened anew and mapped. *)
Definition rw_create : MyOpenOptions :=
  OpenOptionsM.create true (OpenOptionsM.write true (OpenOptionsM.read true (OpenOptionsM.new 8))).
Definition small_file : FakeFile :=
  match OpenOptionsM.open (Grant 0) rw_create 8 (Some (bs "abcdefghijk")) with
  | Ok f => f
  | _ => mkFakeFile (mkOsFile [] 0) 0
  end.
Definition small_back : Back := back_step (mkBack small_file None) (OMap (Grant 0)).
Definition small_map : Mmap := mkMmap 8.

Lemma small_back_ok : back_ok small_back.
Proof. split; [done|done|]. intros m [= <-]. done. Qed.

Lemma index_bounds_witness :
  index small_map (ff_file small_file) 1 4 = ret (bs "efgh") /\
  index small_map (ff_file small_file) 2 4 = panic.
Proof.
  split.
  - apply (index_bounds small_map (ff_file small_file) 1 4); [by split|done|done|by left].
  - apply (index_bounds small_map (ff_file small_file) 2 4); [by split|done|done|by left].
Defined.

(** In a release build a page number of 2^62 reads the first page of four bytes. *)
Lemma index_wraps_witness :
  let release := {| SLICE_SIZE := 512; SLICE_SIZE_feature := ltac:(set_solver); overflow_checks := false |} in
  @index release small_map (ff_file small_file) (2 ^ 62) 4 = ret (bs "abcd").
Proof. intros release. by rewrite (@index_wraps release small_map (ff_file small_file) (2 ^ 62) 4 0). Defined.

(** [write] does not record that the file has grown.  A write of one page past
    the end, a map of the larger file and an [allocate] of the size the record
    still has, which cuts the file: the third page of the map has no bytes
    behind it. *)
Theorem write_past_size_unbacks :
  let b := foldl back_step (mkBack small_file None)
    [OSeek (Start 8); OWrite (Grant 4) (bs "ijkl"); OMap (Grant 0); OAllocate (Grant 0) 8] in
  bk_map b = Some (mkMmap 12) /\ os_len (ff_file (bk_file b)) = 8 /\
  index (mkMmap 12) (ff_file (bk_file b)) 2 4 = ret [].
Proof. by vm_compute. Qed.

(** The file grows to four pages. *)
Definition grown_back : Back := back_step small_back (OAllocate (Grant 0) 16).
Lemma grown_run : back_run small_back grown_back.
Proof. eapply (run_cons _ (OAllocate (Grant 0) 16)); [done|constructor]. Qed.

Lemma mapped_pages_backed_witness :
  ff_size (bk_file grown_back) = os_len (ff_file (bk_file grown_back)) /\
  exists page, index small_map (ff_file (bk_file grown_back)) 1 4 = ret page /\ blen page = 4.
Proof.
  apply (mapped_pages_backed small_back grown_back small_map 1 4);
    [exact small_back_ok|exact grown_run|done|by split|done..].
Defined.

Lemma map_never_grows_witness :
  do_map (Grant 0) (bk_file grown_back) (bk_map grown_back) = (Ok small_map, Some small_map) /\
  index small_map (ff_file (bk_file grown_back)) 2 4 = panic.
Proof.
  apply (map_never_grows small_back grown_back small_map (Grant 0) 2 4);
    [exact small_back_ok|done|exact grown_run|by split|done..].
Defined.

Lemma page_write_then_index_witness :
  let '(r1, f1) := FakeFileM.seek (Start (1 * 4)) small_file in
  let '(r2, f2) := FakeFileM.write (Grant 4) (bs "WXYZ") f1 in
  r1 = inr (1 * 4) /\ r2 = inr 4 /\
  index small_map (ff_file f2) 0 4 =
    (if decide (0 = 1) then ret (bs "WXYZ") else index small_map (ff_file small_file) 0 4) /\
  ff_size f2 = ff_size small_file /\ os_len (ff_file f2) = os_len (ff_file small_file).
Proof.
  apply (page_write_then_index small_map small_file 1 4 (bs "WXYZ") 0); [by split|by split|done..].
Defined.

Lemma open_resizes_witness :
  ff_size small_file = 8 /\ os_len (ff_file small_file) = 8 /\ f_pos (ff_file small_file) = 0 /\
  (forall j : nat, Z.of_nat j < 8 ->
     f_data (ff_file small_file) !! j =
       Some (default x00 (default [] (Some (bs "abcdefghijk")) !! j))) /\
  back_ok (mkBack small_file None).
Proof. apply (open_resizes (Grant 0) rw_create 8 (Some (bs "abcdefghijk")) small_file); done. Defined.
End Witnesses.
