(* ===== verification/SpecialRead.v ===== *)
(** * [dbfs_fuse_special_read] ([fuse/file.rs])

    A second read path, which gathers pieces of the stored slices instead of
    copying them; slices that are not stored are read as zeros. *)

From S2P Require Import Prelude Jammdb Effects Run RustStd Common Buckets Slices Access Inode.
From S2P Require Import Samples Truncate File Namespace Data.

Section SpecialRead.
Context `{Config}.

(** [let tmp = [0u8; SLICE_SIZE]] *)
Definition zero_slice : bytes := replicate (Z.to_nat SLICE_SIZE) x00.

(** One iteration per slice; [fuel] bounds their number.  The result is the
    next count and the pieces gathered.  Reading past the end of a stored
    slice is undefined behaviour in the source and a panic here. *)
Fixpoint special_loop (fuel : nat) (bucket : path) (size need_size start_num offset count : Z)
    (res_slice : list bytes) : Prog DbfsError (Z * list bytes) :=
  match fuel with
  | O => panic
  | S fuel =>
      let key := generate_data_key_with_number (as_u32 start_num) in
      value ← get_kv bucket key;
      t ← mul64 start_num SLICE_SIZE;
      rest ← sub64 size t;
      let real_size := Z.min rest SLICE_SIZE in
      need ← sub64 need_size count;
      let len := Z.min need (saturating_sub real_size offset) in
      let data := default zero_slice value in
      assert_prog (SLICE_SIZE <=? blen data);;
      let res_slice := res_slice ++ [slice data offset (offset + len)] in
      let count := count + len in
      let offset := (offset + len) `mod` SLICE_SIZE in
      if (count =? size) || (count =? need_size) then ret (count, res_slice)
      else
        start_num ← add64 start_num 1;
        special_loop fuel bucket size need_size start_num offset count res_slice
  end.

Definition special_fuel (need_size : Z) : nat := Z.to_nat (need_size / SLICE_SIZE + 2).

(** The result is the number of bytes read, with the pieces gathered for the
    reply. *)
Definition dbfs_fuse_special_read (ino old_offset need_size : Z) : Prog DbfsError (Z * list bytes) :=
  assert_prog (0 <=? old_offset);;
  let offset := old_offset in
  tx_q false (
    bucket ← q (get_bucket [] (ino_key ino));
    size ← read_usize bucket k_size;
    if size <=? offset then ret (0, [])
    else
      let start_num := offset / SLICE_SIZE in
      let offset := offset `mod` SLICE_SIZE in
      '(count, res_slice) ←
        special_loop (special_fuel need_size) bucket size need_size start_num offset 0 [];
      let res_slice :=
        if negb (count =? need_size) then
          res_slice ++ replicate (Z.to_nat ((need_size - count) / SLICE_SIZE)) zero_slice
                    ++ [slice zero_slice 0 ((need_size - count) `mod` SLICE_SIZE)]
        else res_slice in
      ret (count, res_slice)).

(** ** The bytes of a file, with zeros where nothing is stored *)

Definition zbytes (b : bucket) (p : Z) (n : nat) : bytes :=
  (fun j => default x00 (byte_at b (p + Z.of_nat j))) <$> seq 0 n.

Lemma length_zbytes b p n : length (zbytes b p n) = n.
Proof. unfold zbytes. by rewrite length_fmap, length_seq. Qed.
Lemma lookup_zbytes b p n (j : nat) :
  zbytes b p n !! j =
    if decide (j < n)%nat then Some (default x00 (byte_at b (p + Z.of_nat j))) else None.
Proof.
  unfold zbytes. rewrite list_lookup_fmap. case_decide.
  - by rewrite lookup_seq_lt.
  - by rewrite lookup_seq_ge by lia.
Qed.
Lemma zbytes_app b p n k : zbytes b p n ++ zbytes b (p + Z.of_nat n) k = zbytes b p (n + k).
Proof.
  apply list_eq. intros j. rewrite lookup_zbytes. destruct (decide (j < n)%nat).
  - rewrite lookup_app_l, lookup_zbytes by (by rewrite length_zbytes).
    by rewrite !decide_True by lia.
  - rewrite lookup_app_r, length_zbytes, lookup_zbytes by (rewrite length_zbytes; lia).
    repeat case_decide; try lia; [|done]. do 3 f_equal. lia.
Qed.

(** The piece of slice [i] from [off] on. *)
Lemma zbytes_slice b i off len :
  slices_ok b -> 0 <= off -> 0 <= len -> off + len <= SLICE_SIZE ->
  slice (default zero_slice (slice_at b i)) off (off + len) =
  zbytes b (i * SLICE_SIZE + off) (Z.to_nat len).
Proof.
  intros Hok Ho Hl Hm. pose proof SLICE_SIZE_range. apply list_eq. intros j.
  rewrite lookup_slice, lookup_zbytes by done.
  case_decide as Hj; case_decide as Hj'; try lia; [|done].
  unfold byte_at. rewrite <- Z.add_assoc, div_slice, mod_slice by lia.
  replace (Z.to_nat (off + Z.of_nat j)) with (Z.to_nat off + j)%nat by lia.
  destruct (slice_at b i) as [v|] eqn:Ev; simpl.
  - pose proof (slice_at_blen _ _ _ Hok Ev) as Hv. unfold blen in Hv.
    destruct (lookup_lt_is_Some_2 v (Z.to_nat off + j)) as [x ->]; [lia|done].
  - unfold zero_slice. by rewrite lookup_replicate_2 by lia.
Qed.

Lemma wp_special_loop fuel number b size need D T n tb :
  forall i off count res (Q : outcome DbfsError _ -> AState -> Prop),
  D !! ipath number = Some b -> slices_ok b ->
  0 <= i -> 0 <= off < SLICE_SIZE -> 0 <= count -> count < need ->
  i * SLICE_SIZE + off + (need - count) <= size -> size < (2 ^ 32 - 1) * SLICE_SIZE ->
  need <= size -> off + (need - count) <= Z.of_nat fuel * SLICE_SIZE ->
  (forall res', concat res' = concat res ++ zbytes b (i * SLICE_SIZE + off) (Z.to_nat (need - count)) ->
     Q (Ok (need, res')) (mkS D ((D, false) :: T) n tb)) ->
  wp true (special_loop fuel (ipath number) size need i off count res) Q
     (mkS D ((D, false) :: T) n tb).
Proof.
  pose proof SLICE_SIZE_range as HS.
  induction fuel as [|fuel IH]; intros i off count res Q HD Hok Hi Hoff Hc Hn Hin Hsz Hns Hf HQ; [lia|].
  assert (Hi32 : i < 2 ^ 32 - 1) by nia.
  cbn [special_loop]. unfold as_u32. rewrite Z.mod_small by lia. wstep.
  eapply wp_get_kv; [reflexivity|exact HD|]. fold (slice_at b i). wnorm.
  wstep. apply wp_wrapping; [nia|]. wstep. apply wp_wrapping; [nia|]. wstep. apply wp_wrapping; [lia|].
  wstep. set (len := Z.min (need - count) _).
  assert (Hlen : len = Z.min (need - count) (SLICE_SIZE - off)) by (unfold len, saturating_sub; lia).
  clearbody len.
  assert (Hdata : blen (default zero_slice (slice_at b i)) = SLICE_SIZE).
  { destruct (slice_at b i) as [v|] eqn:Ev; simpl; [by eapply slice_at_blen|].
    unfold blen, zero_slice. rewrite length_replicate. lia. }
  rewrite Hdata, Z.leb_refl. apply wp_ret; wnorm. rewrite zbytes_slice by (done || lia).
  destruct (Z.eqb_spec (count + len) need) as [He|Hne].
  - rewrite orb_true_r. wstep. rewrite He. apply HQ. rewrite concat_app. simpl.
    rewrite app_nil_r. do 2 f_equal. lia.
  - rewrite (proj2 (Z.eqb_neq (count + len) size)) by lia. cbn [orb]. wstep. apply wp_wrapping; [lia|].
    assert (len = SLICE_SIZE - off) as -> by lia.
    replace (off + (SLICE_SIZE - off)) with SLICE_SIZE by lia. rewrite Z_mod_same_full.
    eapply IH; [done|done|lia..|]. intros res' Hres. apply HQ. rewrite Hres, concat_app. simpl.
    rewrite app_nil_r, <- app_assoc. f_equal.
    replace ((i + 1) * SLICE_SIZE + 0) with (i * SLICE_SIZE + off + Z.of_nat (Z.to_nat (SLICE_SIZE - off))) by lia.
    rewrite zbytes_app. f_equal. lia.
Qed.

(** A read of a range of the file gathers its bytes, for every offset, with
    zeros where no slice is stored; the loop ends within its fuel. *)
Theorem special_read_spec number offset need D T n tb b a :
  file_at D number b a -> 0 <= offset -> 0 < need -> offset + need <= st_size a ->
  st_size a < (2 ^ 32 - 1) * SLICE_SIZE ->
  wp true (dbfs_fuse_special_read number offset need)
     (fun o s' => s' = mkS D T n tb /\ exists res, o = Ok (need, res) /\
        concat res = zbytes b offset (Z.to_nat need))
     (mkS D T n tb).
Proof.
  intros [Hin Hok] Ho Hn Hend Hsz. pose proof SLICE_SIZE_range as HS.
  pose proof (pos_split offset) as [Hp1 Hp2]. open_stat (ia_stat _ _ _ _ Hin).
  unfold dbfs_fuse_special_read. rewrite (proj2 (Z.leb_le 0 offset)) by done. wstep. apply wp_ret; wnorm.
  apply wp_tx_q; [done|]. wnorm. pose proof (ia_bucket _ _ _ _ Hin) as HD. do 5 wstep.
  rewrite (proj2 (Z.leb_gt _ _)) by lia. wstep.
  pose proof (pos_split need) as [Hq1 Hq2].
  assert (0 <= need / SLICE_SIZE) by (apply Z.div_pos; lia).
  assert (0 <= offset / SLICE_SIZE) by (apply Z.div_pos; lia).
  eapply (wp_special_loop _ number b); [done|done|lia..|unfold special_fuel; nia|].
  intros res' Hres. wnorm. rewrite Z.eqb_refl. cbn [negb]. wstep. split; [done|]. exists res'. split; [done|].
  rewrite Hres, Z.sub_0_r. simpl. do 2 f_equal. lia.
Qed.
End SpecialRead.

(** With overflow checks, a request that reaches past the end of the file from
    any offset but 0 panics: the loop goes on after the last slice, where
    [size - start_num * SLICE_SIZE] is negative. *)
Example special_read_past_end :
  let w := (run (dbfs_common_write (H := cfg512) 2 (bs "hello") 0) sample_world).2 in
  (fst (run (dbfs_fuse_special_read (H := cfg512) 2 0 10) w),
   fst (run (dbfs_fuse_special_read (H := cfg512) 2 1 4) w),
   fst (run (dbfs_fuse_special_read (H := cfg512) 2 1 10) w))
  = (Ok (5, [bs "hello"; [x00; x00; x00; x00; x00]]), Ok (4, [bs "ello"]), Panic).
Proof. by vm_compute. Qed.
