(* ===== verification/RvfsRules.v ===== *)
(** * The rvfs adapter: rules of the object store, and a sample store

    How the helpers that read and update the objects run, the tactic that
    steps through an operation, and the objects the witnesses are stated on. *)

From S2P Require Import Prelude Jammdb Effects Run RustStd Common Buckets Access Inode Create FsType Link Attr Readdir Rvfs Samples.

(** ** Reading the store *)

(** The dentry [dh] is named [name] and refers to an inode object of number [n]. *)
Definition names_inode (m : VfsMem) (dh : handle_t) (name : bytes) (n : Z) : Prop :=
  exists d i, vm_dentries m !! dh = Some d /\ d_name d = name /\
    vm_inodes m !! d_inode d = Some i /\ i_number i = n.

Section Rules.
Context `{Config} (rel : bool).

Lemma wp_deref_inode {E : Type} m h i (Q : outcome E VInode -> AState -> Prop) s :
  vm_inodes m !! h = Some i -> Q (Ok i) s -> wp rel (deref_inode m h) Q s.
Proof. intros Hi HQ. unfold deref_inode. rewrite Hi. by apply wp_ret. Qed.
Lemma wp_deref_dentry {E : Type} m h d (Q : outcome E VDentry -> AState -> Prop) s :
  vm_dentries m !! h = Some d -> Q (Ok d) s -> wp rel (deref_dentry m h) Q s.
Proof. intros Hd HQ. unfold deref_dentry. rewrite Hd. by apply wp_ret. Qed.
Lemma wp_dentry_number {E : Type} m dh name n (Q : outcome E Z -> AState -> Prop) s :
  names_inode m dh name n -> Q (Ok n) s -> wp rel (dentry_number m dh) Q s.
Proof.
  intros (d & i & Hd & _ & Hi & Hn) HQ. unfold dentry_number. apply wp_bind.
  eapply wp_deref_dentry; [done|]. cbv beta iota. apply wp_bind.
  eapply wp_deref_inode; [done|]. cbv beta iota. apply wp_ret. by rewrite Hn.
Qed.

(** An attribute whose value has another length panics. *)
Lemma wp_read_be_len {E : Type} w p k b v (Q : outcome E Z -> AState -> Prop) s V wr ts :
  a_txs s = (V, wr) :: ts -> V !! p = Some b -> fkv b k = Some v -> length v <> w ->
  Q Panic s -> wp rel (read_be w p k) Q s.
Proof.
  intros Htx HV Hv Hl HQ. apply wp_bind. eapply wp_get_kv; [exact Htx|exact HV|]. rewrite Hv.
  apply wp_bind, wp_ret. unfold be_macro. rewrite (proj2 (Nat.eqb_neq _ _) Hl). by apply wp_done.
Qed.

Lemma wp_links_plus {E : Type} h d m i (Q : outcome E VfsMem -> AState -> Prop) s :
  vm_inodes m !! h = Some i -> 0 <= i_hard_links i + d < 2 ^ 32 ->
  Q (Ok (with_inodes (insert h (set_links (i_hard_links i + d) i)) m)) s ->
  wp rel (links_plus h d m) Q s.
Proof.
  intros Hi Hr HQ. unfold links_plus. apply wp_bind. eapply wp_deref_inode; [done|]. cbv beta iota.
  apply wp_bind, wp_wrapping; [done|]. cbv beta iota. by apply wp_ret.
Qed.
Lemma wp_fsize_plus {E : Type} h d m i (Q : outcome E VfsMem -> AState -> Prop) s :
  vm_inodes m !! h = Some i -> 0 <= i_file_size i + d < 2 ^ 64 ->
  Q (Ok (with_inodes (insert h (set_fsize (i_file_size i + d) i)) m)) s ->
  wp rel (fsize_plus h d m) Q s.
Proof.
  intros Hi Hr HQ. unfold fsize_plus. apply wp_bind. eapply wp_deref_inode; [done|]. cbv beta iota.
  apply wp_bind, wp_wrapping; [done|]. cbv beta iota. by apply wp_ret.
Qed.
End Rules.

(** One step on the store, then the rules of the database. *)
Ltac vstep :=
  lazymatch goal with
  | |- wp _ (deref_inode _ _) _ _ => eapply wp_deref_inode; [eassumption|]
  | |- wp _ (deref_dentry _ _) _ _ => eapply wp_deref_dentry; [eassumption|]
  | |- wp _ (dentry_number _ _) _ _ => eapply wp_dentry_number; [eassumption|]
  | |- wp _ (parse_ino ?v) _ _ =>
      unfold parse_ino; match goal with H : parse_usize v = Some _ |- _ => rewrite H end
  | |- wp _ (assert_prog ?b) _ _ =>
      match goal with H : b = true |- _ => rewrite H; unfold assert_prog end
  | |- wp _ (tx_unwrap _ _) _ _ => apply wp_tx_unwrap; [done|]
  | |- _ => wstep_call
  end; wnorm.
Ltac vgo := repeat vstep.

(** ** A sample store *)

(** A library that meets the assumptions: the name of a record follows 19 bytes
    of fields, which [pad] bytes of padding make the size of the structure. *)
#[refine] Definition rvfs_with (pad : nat) : Rvfs := {|
  create_tmp_inode_from_sb_blk sb n m ops fops :=
    inr {| i_number := n; i_super_blk := sb; i_mode := m; i_ops := ops; i_file_ops := fops;
           i_hard_links := 1; i_file_size := 0; i_uid := 0; i_gid := 0 |};
  DirEntry_new i n := {| d_name := n; d_inode := i; d_parent := None |};
  find_super_blk l f := fst <$> List.find (fun x => f x.2) l;
  insert_super_blk h l := h :: l;
  dirent_len n _ _ _ := 20 + blen n;
  dirent_name_offset := 19;
  dirent_size := 19 + Z.of_nat pad
|}.
Proof.
  - intros *. by intros [= <-].
  - intros *. by intros [= <-].
  - done.
  - intros l f h. destruct (List.find _ l) as [[h' s]|] eqn:E; [|done]. intros [= <-].
    apply List.find_some in E as [Hin Hf]. exists s. split; [by apply list_elem_of_In|done].
  - intros l f h s. destruct (List.find _ l) eqn:E; [done|]. intros _ Hin.
    apply list_elem_of_In in Hin. exact (List.find_none _ _ E _ Hin).
  - intros. apply list.elem_of_cons.
  - done.
  - intros. lia.
  - lia.
Defined.

(** The structure as [repr(C)] lays it out: 24 bytes. *)
Definition sample_rvfs : Rvfs := rvfs_with 5.

(** The objects of the sample file system: its root, [foo], [sub] and [home],
    and dentries for them and for the names [bar] and [x] that are not there. *)
Definition sample_inode (n links size : Z) (md : InodeMode) : VInode := {|
  i_number := n; i_super_blk := 0; i_mode := md; i_ops := inode_ops_from_inode_mode md;
  i_file_ops := file_ops_from_inode_mode md; i_hard_links := links; i_file_size := size;
  i_uid := 0; i_gid := 0 |}.
Definition sample_dentry (name : bytes) (h : handle_t) : VDentry :=
  {| d_name := name; d_inode := h; d_parent := None |}.

Definition sample_vfs : VfsMem := {|
  vm_inodes := <[1 := sample_inode 1 2 5 S_DIR]> (<[2 := sample_inode 2 1 0 S_FILE]>
    (<[3 := sample_inode 3 2 2 S_DIR]> {[5 := sample_inode 5 2 2 S_DIR]}));
  vm_dentries := <[10 := sample_dentry (bs "/") 1]> (<[12 := sample_dentry (bs "foo") 2]>
    (<[13 := sample_dentry (bs "sub") 3]> (<[15 := sample_dentry (bs "home") 5]>
      (<[16 := sample_dentry (bs "bar") 1]> {[17 := sample_dentry (bs "x") 1]}))));
  vm_supers := {[0 := {| sb_block_size := 512; sb_magic := 1111; sb_mount_flag := 0;
                         sb_dev_name := bs "disk"; sb_root := Some 10 |}]};
  vm_mounted := [0]
|}.
