(* ===== verification/RvfsEffects.v ===== *)
(** * The rvfs adapter: what its operations do

    Theorems on the operations [rvfs] calls, stated on the database and on the
    object store before and after the call. *)

From S2P Require Import Prelude Jammdb Effects Run RustStd Common Buckets Slices Access Inode Create.
From S2P Require Import FsType Link Truncate File Rename Attr Readdir Rvfs Samples Namespace Mount RvfsRules.

(** ** Rename *)

Section Rename.
Context `{Config} `{Rvfs}.

(** A rename between two directories breaks both of them: it stores their
    sizes as decimal text instead of eight bytes, so that afterwards every call
    that reads the attributes of the old or of the new directory panics (the
    sizes have fewer than eight digits), and the new entry refers to the new
    directory itself instead of the inode that was renamed. *)
Theorem vfs_rename_across_corrupts old_dir old_dentry new_dir new_dentry m D T n tb
    oi od ni nd pb pa qb qa v k :
  vm_inodes m !! old_dir = Some oi -> vm_dentries m !! old_dentry = Some od ->
  vm_inodes m !! new_dir = Some ni -> vm_dentries m !! new_dentry = Some nd ->
  inode_at D (i_number oi) pb pa -> inode_at D (i_number ni) qb qa ->
  i_number oi <> i_number ni -> u64 (i_number oi) -> u64 (i_number ni) ->
  fkv pb (generate_data_key (d_name od)) = Some v -> utf8_valid v = true ->
  parse_usize v = Some k ->
  1 <= st_size pa < 10 ^ 7 -> st_size qa + 1 < 10 ^ 7 ->
  1 <= i_file_size oi < 2 ^ 64 -> 0 <= i_file_size ni < 2 ^ 64 - 1 -> old_dir <> new_dir ->
  wp true (dbfs_rename old_dir old_dentry new_dir new_dentry m)
     (fun o s' => (exists m', o = Ok m') /\
        dir_entry (a_db s') (i_number oi) (d_name od) = None /\
        dir_entry (a_db s') (i_number ni) (d_name nd) = Some (i_number ni) /\
        forall j, j = i_number oi \/ j = i_number ni ->
          wp true (dbfs_common_attr j) (fun o' _ => o' = Panic) s')
     (mkS D T n tb).
Proof.
  intros Hoi Hod Hni Hnd [HD Hkv Hst] [HDq Hkvq Hstq] Hne Ho64 Hn64 Hv Hutf Hp Hs1 Hs2 Hf1 Hf2 Hh.
  assert (Hk : ipath (i_number oi) <> ipath (i_number ni)) by eauto with word.
  pose proof (stat_of_range _ _ Hst) as (_ & Hr1 & _).
  pose proof (stat_of_range _ _ Hstq) as (_ & Hr2 & _). unfold u64 in Hr1, Hr2.
  open_stat Hst. open_stat Hstq.
  unfold dbfs_rename. vgo. rewrite Hv. vgo.
  rewrite (proj2 (Z.eqb_neq _ _)) by congruence. vgo.
  eapply wp_bdelete_ok; [reflexivity|side_lookup|by apply fkv_lookup|]. wnorm. vgo.
  apply wp_sub64; [lia|]. vgo. apply wp_add64; [lia|]. vgo.
  eapply wp_fsize_plus; [done|lia|]. vgo.
  eapply wp_fsize_plus; [simpl; by rewrite lookup_insert_ne|lia|]. vgo.
  eapply wp_commit; [reflexivity|done|]. vgo.
  split; [eauto|]. unfold pop_tx. cbn [a_db a_txs a_ino a_tbl tail]. unfold dir_entry. vlk. simpl.
  split; [by fld; apply entry_delete_eq|]. split; [by fld; apply entry_insert_eq|].
  intros j [-> | ->]; (apply wp_tx_q; [done|]; unfold push_tx; wnorm; vgo);
    (eapply wp_read_be_len; [reflexivity|side_lookup|apply fkv_insert_eq| |done]).
  - pose proof (length_to_dec 20 (st_size pa - 1) 6 ltac:(simpl; lia)). unfold fmt_usize. lia.
  - pose proof (length_to_dec 20 (st_size qa + 1) 6 ltac:(simpl; lia)). unfold fmt_usize. lia.
Qed.

(** A rename within a directory does not use the new name: the old entry is
    made to refer to the directory itself and no entry is added. *)
Theorem vfs_rename_within_wrong old_dir old_dentry new_dir new_dentry m D T n tb
    oi od ni nd pb pa v k :
  vm_inodes m !! old_dir = Some oi -> vm_dentries m !! old_dentry = Some od ->
  vm_inodes m !! new_dir = Some ni -> vm_dentries m !! new_dentry = Some nd ->
  inode_at D (i_number oi) pb pa -> i_number ni = i_number oi -> u64 (i_number oi) ->
  fkv pb (generate_data_key (d_name od)) = Some v -> utf8_valid v = true ->
  parse_usize v = Some k ->
  wp true (dbfs_rename old_dir old_dentry new_dir new_dentry m)
     (fun o s' => o = Ok m /\
        forall name, dir_entry (a_db s') (i_number oi) name =
          if decide (name = d_name od) then Some (i_number oi)
          else dir_entry D (i_number oi) name)
     (mkS D T n tb).
Proof.
  intros Hoi Hod Hni Hnd Hd Hnum Ho64 Hv Hutf Hp. pose proof Hd as [HD Hkv Hst].
  unfold dbfs_rename. vgo. rewrite Hv. vgo. rewrite Hnum, Z.eqb_refl. vgo.
  eapply wp_commit; [reflexivity|done|]. vgo. split; [done|].
  unfold pop_tx. cbn [a_db a_txs a_ino a_tbl tail]. intros name.
  by rewrite dir_entry_insert, entry_put, (inode_at_entry _ _ _ _ _ Hd).
Qed.
End Rename.

(** ** Extended attributes *)

(** The attribute [key] of inode [n]. *)
Definition vattr (V : view) (n : Z) (key : bytes) : option bytes :=
  V !! ipath n ≫= fun b => fkv b (attr_key key).

(** The names of the attributes of a bucket, in the order of their keys. *)
Definition attr_items (kvs : list (bytes * bytes)) : list bytes :=
  omap (M := list) (fun kv : bytes * bytes =>
    if starts_with (bs "attr:") kv.1 then Some (drop 5 kv.1) else None) kvs.
Definition attr_names (b : bucket) : list bytes :=
  attr_items (omap (M := list) kv_of (sorted_entries b)).

(** The names, each ended by a NUL. *)
Definition join_names (l : list bytes) : bytes := flat_map (fun name => name ++ [x00]) l.

Lemma attr_key_inj a b : attr_key a = attr_key b -> a = b.
Proof. apply app_inv_head. Qed.

Lemma starts_with_attr key : starts_with (bs "attr:") key = true -> key = attr_key (drop 5 key).
Proof. unfold starts_with. rewrite bool_decide_eq_true. intros [l ->]. done. Qed.
Lemma after_first_attr name : after_first x3a (attr_key name) = Some name.
Proof. exact (after_first_app x3a (bs "attr") name ltac:(by apply (bool_decide_unpack _))). Qed.

Lemma join_names_cons k l : join_names (k :: l) = (k ++ [x00]) ++ join_names l.
Proof. done. Qed.

Lemma attr_names_spec b key : key ∈ attr_names b <-> is_Some (fkv b (attr_key key)).
Proof.
  unfold attr_names, attr_items. rewrite list_elem_of_omap. split.
  - intros ([k v] & Hin & Hk). simpl in Hk. destruct (starts_with _ k) eqn:Es; simplify_eq.
    apply list_elem_of_omap in Hin as ([k' d] & Hin & Hkv). unfold kv_of in Hkv.
    destruct d; simplify_eq/=. apply elem_of_sorted_entries in Hin.
    rewrite <- (starts_with_attr _ Es). unfold fkv. rewrite Hin. eauto.
  - intros [v Hv%fkv_lookup]. exists (attr_key key, v). split.
    + apply list_elem_of_omap. exists (attr_key key, KeyValue v). split; [|done].
      by apply elem_of_sorted_entries.
    + done.
Qed.

Lemma attr_key_other key : attr_key key ∉ attr_keys.
Proof. other_key. Qed.

Lemma fkv_put_attr b key v key' :
  fkv (<[attr_key key := KeyValue v]> b) (attr_key key')
    = if decide (key' = key) then Some v else fkv b (attr_key key').
Proof.
  case_decide as Hk; [subst; apply fkv_insert_eq|]. apply fkv_insert_ne.
  by intros ?%attr_key_inj.
Qed.
Lemma fkv_delete_attr b key key' :
  fkv (delete (attr_key key) b) (attr_key key')
    = if decide (key' = key) then None else fkv b (attr_key key').
Proof.
  case_decide as Hk; [subst; apply fkv_delete_eq|]. apply fkv_delete_ne.
  by intros ?%attr_key_inj.
Qed.

Section Attrs.
Context `{Config}.

(** The attributes [rvfs] sets on an inode are a map: after [set_attr],
    [get_attr] of the same name returns the value (as much of it as fits the
    caller's buffer, and its whole length) and of another name what it returned
    before; [remove_attr] removes the name and nothing else, and of a name that
    is not set it reports an error and changes nothing. *)
Theorem vfs_attr_map dentry key val buf m name D T n tb ino b a :
  names_inode m dentry name ino -> inode_at D ino b a ->
  wp true (dbfs_setattr dentry key val m)
     (fun o s' => o = Ok tt /\ frame [ino_key ino] D (a_db s') /\
        inode_stat (a_db s') ino = Some a /\
        (forall key', vattr (a_db s') ino key' =
           if decide (key' = key) then Some val else vattr D ino key') /\
        wp true (dbfs_getattr dentry key buf m)
           (fun o' s'' => s'' = s' /\ o' = Ok (blen val, splice buf 0 (slice val 0 (Z.min (blen val) (blen buf)))))
           s')
     (mkS D T n tb) /\
  wp true (dbfs_removeattr dentry key m)
     (fun o s' => frame [ino_key ino] D (a_db s') /\ inode_stat (a_db s') ino = Some a /\
        (forall key', vattr (a_db s') ino key' =
           if decide (key' = key) then None else vattr D ino key') /\
        o = (if bool_decide (is_Some (vattr D ino key)) then Ok tt else Err (bs "not found")))
     (mkS D T n tb).
Proof.
  intros Hn Hi. pose proof Hi as [HD Hkv Hst]. pose proof (attr_key_other key) as Ho. split.
  - unfold dbfs_setattr. vgo. eapply wp_commit; [reflexivity|done|]. wnorm.
    unfold inode_stat, vattr. simpl. rewrite lookup_insert_eq, HD. simpl.
    repeat split; [eauto using list_elem_of_here with stat|by rewrite stat_put_other| |].
    + intros key'. apply fkv_put_attr.
    + unfold dbfs_getattr. apply wp_tx_unwrap; [done|]. unfold push_tx. wnorm. vgo.
      rewrite fkv_insert_eq. by vgo.
  - unfold dbfs_removeattr. vgo. eapply wp_bdelete; [reflexivity|]. unfold spec_delete.
    unfold vattr, fkv. simpl. rewrite HD. simpl. specialize (Hkv (attr_key key)).
    destruct (b !! attr_key key) as [[v|]|] eqn:Ek; [|done|]; simpl; vgo;
      (eapply wp_commit; [reflexivity|done|]); vgo; unfold inode_stat; simpl.
    + rewrite lookup_insert_eq. simpl. rewrite stat_delete_other by done.
      repeat split; [eauto using list_elem_of_here with stat|done|].
      intros key'. apply fkv_delete_attr.
    + rewrite HD. simpl. repeat split; [done|].
      intros key'. case_decide; [subst; by rewrite Ek|done].
Qed.

(** The listing with [len] bytes used: the length of all names is counted, and
    when they fit the buffer they are there. *)
Lemma wp_listattr_loop rel kvs len total buf (Q : outcome bytes (Z * Z * bytes) -> AState -> Prop) s :
  let names := join_names (attr_items kvs) in
  0 <= len -> 0 <= total -> total + blen names < 2 ^ 64 ->
  (forall len' buf', blen buf' = blen buf ->
     (len + blen names <= blen buf -> buf' = splice buf len names) ->
     Q (Ok (len', total + blen names, buf')) s) ->
  wp rel (listattr_loop kvs (len, total, buf)) Q s.
Proof.
  revert len total buf. induction kvs as [|[k v] kvs IH]; intros len total buf names Hl Ht Hmax HQ.
  { simpl. apply wp_ret. replace total with (total + blen names) by (unfold names, blen; simpl; lia).
    apply HQ; [done|]. intros _. by rewrite splice_nil. }
  assert (Hn : attr_items ((k, v) :: kvs) = if starts_with (bs "attr:") k
             then drop 5 k :: attr_items kvs else attr_items kvs).
  { unfold attr_items. simpl. by destruct (starts_with _ k). }
  unfold names in *. clear names. rewrite Hn in *. clear Hn. cbn [listattr_loop].
  apply wp_bind. unfold listattr_step. simpl fst.
  destruct (starts_with (bs "attr:") k) eqn:Es; [|apply wp_ret; by apply IH].
  rewrite (starts_with_attr _ Es) at 1. rewrite after_first_attr. set (key := drop 5 k) in *.
  rewrite join_names_cons in *. pose proof (blen_nonneg (join_names (attr_items kvs))) as Hp.
  rewrite !blen_app, !blen_one in *. pose proof (blen_nonneg key) as Hk.
  vgo. apply wp_add64; [lia|]. wnorm. destruct (Z.leb_spec (blen buf) (len + blen key)) as [Hf|Hf]; vgo.
  - apply IH; [lia..|]. intros len' buf' Hb Hbuf.
    replace (total + (blen key + 1) + _) with (total + (blen key + 1 + blen (join_names (attr_items kvs)))) by lia.
    apply HQ; [done|lia].
  - assert (Hs : splice (splice buf len key) (len + blen key) [x00] = splice buf len (key ++ [x00]))
      by (apply splice_next; lia).
    assert (Hb1 : blen (splice buf len (key ++ [x00])) = blen buf)
      by (apply blen_splice; rewrite ?blen_app, ?blen_one; lia).
    rewrite Hs. apply IH; [lia..|]. intros len' buf' Hb Hbuf.
    replace (total + (blen key + 1) + _) with (total + (blen key + 1 + blen (join_names (attr_items kvs)))) by lia.
    apply HQ; [lia|]. intros Hfit. rewrite Hbuf by lia.
    replace (len + blen key + 1) with (len + blen (key ++ [x00])) by (rewrite blen_app, blen_one; lia).
    rewrite splice_next by (rewrite ?blen_app, ?blen_one; lia). by rewrite <- app_assoc.
Qed.

(** [list_attr] returns the length of the names of the attributes of the
    inode, each with its NUL, whatever the buffer, and when they fit it stores
    exactly these names in the order of the keys at the start of the buffer and
    leaves the rest of it as it was; a name is listed exactly when it is set. *)
Theorem vfs_listattr_spec dentry buf m name D T n tb ino b a :
  names_inode m dentry name ino -> inode_at D ino b a ->
  blen (join_names (attr_names b)) < 2 ^ 64 ->
  wp true (dbfs_listattr dentry buf m)
     (fun o s' => s' = mkS D T n tb /\ exists buf',
        o = Ok (blen (join_names (attr_names b)), buf') /\ blen buf' = blen buf /\
        (blen (join_names (attr_names b)) <= blen buf ->
         buf' = join_names (attr_names b) ++ drop (length (join_names (attr_names b))) buf) /\
        (forall key, key ∈ attr_names b <-> is_Some (vattr D ino key)))
     (mkS D T n tb).
Proof.
  intros Hn Hi Hmax. pose proof Hi as [HD Hkv Hst].
  unfold dbfs_listattr. vgo. unfold kv_pairs. vgo. eapply wp_cursor; [reflexivity|].
  unfold spec_cursor. cbn [a_db]. rewrite HD. cbn [lift_infallible]. vgo.
  apply wp_listattr_loop; [lia|lia|simpl; exact Hmax|]. intros len' buf' Hb Hbuf. vgo.
  split; [done|]. exists buf'. repeat split; try done.
  all: rewrite attr_names_spec; unfold vattr; by rewrite HD.
Qed.
End Attrs.

(** ** Objects and the inodes they stand for *)

(** The object [i] shows the stored attributes of its inode. *)
Definition coherent (V : view) (i : VInode) : Prop :=
  exists a, inode_stat V (i_number i) = Some a /\
    i_hard_links i = st_nlink a /\ i_file_size i = st_size a.

(** The file type of an inode mode, and the type and the first attributes of a
    new inode. *)
Definition type_of_mode (md : InodeMode) : option DbfsFileType :=
  match md with
  | S_FILE => Some RegularFile
  | S_DIR => Some Directory
  | S_SYMLINK => Some Symlink
  | S_OTHER => None
  end.

Section Objects.
Context `{Config} `{Rvfs}.

Lemma new_handle_fresh {A} (s : gmap Z A) : s !! new_handle s = None.
Proof. unfold new_handle. apply not_elem_of_dom, is_fresh. Qed.

(** C31: creating a file, a directory or a symbolic link through [rvfs]
    creates it in the database, for root, exactly as the common creation does,
    and makes a new object for it that the dentry refers to, with the number of
    the new inode and the tables of its mode; the object of the parent counts
    the new entry, and stays coherent with the database; no other object
    changes. *)
Theorem vfs_create_effect dir dentry mode md target m D T n tb i de pb pa kind hl fs dv ti :
  let permission := permission_from_mode md in
  let name := d_name de in
  let a := new_stat 0 0 time_default permission pa hl fs dv in
  vm_inodes m !! dir = Some i -> vm_dentries m !! dentry = Some de ->
  is_Some (vm_supers m !! i_super_blk i) ->
  create_tmp_inode_from_sb_blk (i_super_blk i) n md (inode_ops_from_inode_mode md)
    (file_ops_from_inode_mode md) = inr ti ->
  inode_at D (i_number i) pb pa -> may_write pa 0 0 = true -> st_size pa + 1 < 2 ^ 64 ->
  D !! ipath n = None -> u64 n -> u64 (i_number i) -> u64 fs ->
  type_of_mode md = Some kind ->
  (md = S_SYMLINK -> is_Some target) ->
  new_inode_params permission target None = Some (hl, fs, dv) ->
  0 <= i_file_size i < 2 ^ 64 - 1 ->
  wp true (dbfs_rvfs_create dir dentry mode md target m)
     (fun o s' => exists m' h, o = Ok m' /\
        create_post D T (i_number i) pa name n a (Perm.contains permission Perm.S_IFDIR)
          time_default kind (Ok (new_attr n a kind)) s' /\
        vm_inodes m !! h = None /\ vm_inodes m' !! h = Some ti /\ i_number ti = n /\
        i_ops ti = inode_ops_from_inode_mode md /\
        vm_dentries m' !! dentry = Some (set_d_inode h de) /\
        vm_inodes m' !! dir = Some (set_fsize (i_file_size i + 1) i) /\
        (coherent D i -> coherent (a_db s') (set_fsize (i_file_size i + 1) i)) /\
        (forall h', h' <> h -> h' <> dir -> vm_inodes m' !! h' = vm_inodes m !! h') /\
        (forall h', h' <> dentry -> vm_dentries m' !! h' = vm_dentries m !! h'))
     (mkS D T n tb).
Proof.
  intros permission name a Hi Hde [sb Hsb] Hti Hd Hacc Hsz Hn Hn64 Hd64 Hfs Hty Htg Hpar Hf.
  assert (Hkind : file_type_of_perm permission = Some kind) by (destruct md; by simplify_eq).
  assert (Hargs : create_args_ok 0 0 time_default permission target None).
  { split; try done.
    - unfold permission. by destruct md.
    - intros Hl. apply Htg. by destruct md. }
  unfold dbfs_rvfs_create. vgo.
  eapply wp_mono; [eapply wp_create_effect; eauto|]. intros o s' Hpost.
  pose proof Hpost as (-> & HT & Hino & Hsn & Hsd & Hent & Hnew & Hfr). wnorm.
  unfold upgrade_super. rewrite Hsb. vgo. cbn [attr_ino new_attr]. unfold tmp_inode. rewrite Hti. vgo.
  unfold alloc_inode. set (h := new_handle (vm_inodes m)).
  pose proof (new_handle_fresh (vm_inodes m)) as Hh. fold h in Hh.
  assert (Hhd : dir <> h) by congruence. apply wp_bind.
  eapply wp_fsize_plus; [simpl; by rewrite lookup_insert_ne by congruence|lia|]. vgo.
  destruct (tmp_inode_fields _ _ _ _ _ _ Hti) as (E1 & _ & _ & E4 & _).
  eexists _, h. split; [reflexivity|]. split; [exact Hpost|]. simpl.
  split; [done|]. split; [by rewrite lookup_insert_ne, lookup_insert_eq|].
  split; [done|]. split; [done|]. split; [by rewrite lookup_alter_eq, Hde|].
  split; [apply lookup_insert_eq|]. split; [|split].
  - intros (a0 & Ha0 & Hl0 & Hs0). rewrite (inode_at_stat _ _ _ _ Hd) in Ha0. simplify_eq.
    eexists. split; [exact Hsd|]. simpl. split; [done|]. lia.
  - intros h' H1 H2. by rewrite !lookup_insert_ne by congruence.
  - intros h' H1. by rewrite lookup_alter_ne.
Qed.

(** C32: a lookup through [rvfs] makes a new object for the inode the name
    refers to, coherent with the database and with the tables of its type, and
    the dentry refers to it; without an entry it fails; the database and all
    other objects are as before. *)
Theorem vfs_lookup_coherent dir dentry m D T n tb i de pb pa j a kind md ti :
  vm_inodes m !! dir = Some i -> vm_dentries m !! dentry = Some de ->
  is_Some (vm_supers m !! i_super_blk i) ->
  inode_at D (i_number i) pb pa ->
  match entry pb (d_name de) with
  | Some j' => j' = j /\ inode_stat D j = Some a /\ stat_ok a kind /\
      inode_mode_of_type kind = Some md /\
      create_tmp_inode_from_sb_blk (i_super_blk i) j md (inode_ops_from_inode_mode md)
        (file_ops_from_inode_mode md) = inr ti
  | None => fkv pb (generate_data_key (d_name de)) = None
  end ->
  wp true (dbfs_lookup dir dentry m)
     (fun o s' => s' = mkS D T n tb /\
        match dir_entry D (i_number i) (d_name de) with
        | None => o = Err (bs "dbfs_common_lookup failed")
        | Some _ => exists m' h i', o = Ok m' /\
            vm_inodes m !! h = None /\ vm_inodes m' = <[h := i']> (vm_inodes m) /\
            vm_dentries m' = <[dentry := set_d_inode h de]> (vm_dentries m) /\
            i_number i' = j /\ coherent D i' /\ i_uid i' = st_uid a /\ i_gid i' = st_gid a /\
            i_ops i' = inode_ops_from_inode_mode md /\ i_file_ops i' = file_ops_from_inode_mode md
        end)
     (mkS D T n tb).
Proof.
  intros Hi Hde [sb Hsb] Hd He. rewrite (inode_at_entry _ _ _ _ _ Hd). destruct Hd as [HD _ _].
  unfold dbfs_lookup. vgo. destruct (entry pb (d_name de)) as [j'|] eqn:Een.
  - destruct He as (-> & Hs & Hok & Hmd & Hti). pose proof Hs as Hs'. unfold inode_stat in Hs.
    destruct (D !! ipath j) as [b|] eqn:Ej; [|done]. simpl in Hs.
    eapply wp_lookup_found; [exact HD|exact Een|exact Ej|exact Hs|exact Hok| |done]. wnorm.
    cbn [attr_kind attr_of_stat]. rewrite Hmd. vgo. unfold upgrade_super. rewrite Hsb. vgo.
    unfold tmp_inode. cbn [attr_ino attr_of_stat]. rewrite Hti. vgo. split; [done|].
    destruct (tmp_inode_fields _ _ _ _ _ _ Hti) as (E1 & _ & _ & E4 & E5).
    eexists _, (new_handle (vm_inodes m)), _. split; [reflexivity|]. simpl.
    split; [apply new_handle_fresh|]. split; [reflexivity|]. split.
    { apply map_eq. intros h'. rewrite lookup_alter, lookup_insert. case_decide; [subst|done]. by rewrite Hde. }
    repeat split; try done. exists a. simpl. by rewrite E1.
  - eapply wp_lookup_missing; [exact HD| |wnorm; done|done]. done.
Qed.

(** A hard link through [rvfs] keeps the objects coherent: if the object
    of the linked inode and the object of the directory show the stored link
    count and size before, they do so afterwards, and the new dentry refers to
    the object of the inode. *)
Theorem vfs_link_coherent old_dentry dir new_dentry m D T n tb od nd oi di pb pa pt b a k :
  vm_dentries m !! old_dentry = Some od -> vm_dentries m !! new_dentry = Some nd ->
  vm_inodes m !! d_inode od = Some oi -> vm_inodes m !! dir = Some di -> d_inode od <> dir ->
  inode_at D (i_number di) pb pa -> stat_ok pa pt -> inode_at D (i_number oi) b a -> stat_ok a k ->
  ino_key (i_number di) <> ino_key (i_number oi) -> u64 (i_number oi) -> may_write pa 0 0 = true ->
  st_size pa + 1 < 2 ^ 64 -> st_nlink a + 1 < 2 ^ 32 ->
  coherent D oi -> coherent D di ->
  wp true (dbfs_link old_dentry dir new_dentry m)
     (fun o s' => exists m' oi' di', o = Ok m' /\
        dir_entry (a_db s') (i_number di) (d_name nd) = Some (i_number oi) /\
        vm_inodes m' !! d_inode od = Some oi' /\ i_number oi' = i_number oi /\
        vm_inodes m' !! dir = Some di' /\ i_number di' = i_number di /\
        coherent (a_db s') oi' /\ coherent (a_db s') di' /\
        vm_dentries m' !! new_dentry = Some (set_d_inode (d_inode od) nd))
     (mkS D T n tb).
Proof.
  intros Hod Hnd Hoi Hdi Hne Hd Hok Hm Hokm Hk Ho64 Hacc Hsz Hnl (a1 & Ha1 & Hl1 & Hs1) (a2 & Ha2 & Hl2 & Hs2).
  rewrite (inode_at_stat _ _ _ _ Hd) in Ha2. rewrite (inode_at_stat _ _ _ _ Hm) in Ha1. simplify_eq.
  pose proof (stat_of_range _ _ (ia_stat _ _ _ _ Hd)) as (_ & Hszr & _).
  pose proof (stat_of_range _ _ (ia_stat _ _ _ _ Hm)) as (_ & _ & Hnlr & _). unfold u64, u32 in *.
  assert (Hk' : ipath (i_number di) <> ipath (i_number oi)) by congruence.
  unfold dbfs_link. vgo. eapply wp_dbfs_common_link; [exact Hd|exact Hok|exact Hm|exact Hokm|done..|].
  wnorm. vgo. eapply wp_links_plus; [exact Hoi|lia|]. vgo.
  eapply wp_fsize_plus; [simpl; by rewrite lookup_insert_ne|lia|]. vgo.
  eexists _, _, _. split; [reflexivity|]. simpl. split.
  { rewrite dir_entry_insert_ne, dir_entry_insert, entry_link_dir by done. by rewrite decide_True. }
  split; [rewrite lookup_insert_ne, lookup_insert_eq by done; reflexivity|]. split; [done|].
  split; [rewrite lookup_insert_eq; reflexivity|]. split; [done|]. split; [|split].
  - eexists. simpl. split; [rewrite inode_stat_insert; apply touch_links_stat; [apply Hm|unfold u32; lia|done]|].
    simpl. split; lia.
  - eexists. simpl. split; [rewrite inode_stat_insert_ne, inode_stat_insert by done;
      apply link_dir_stat; [apply Hd|unfold u64; lia|done]|]. simpl. split; lia.
  - by rewrite lookup_alter_eq, Hnd.
Qed.

(** Unlinking through [rvfs] leaves the object of the directory with its old
    size: it is no longer coherent. *)
Theorem vfs_unlink_stale dir dentry m D T n tb de di i pb pa b a :
  vm_dentries m !! dentry = Some de -> vm_inodes m !! d_inode de = Some i ->
  vm_inodes m !! dir = Some di -> d_inode de <> dir ->
  inode_at D (i_number di) pb pa -> entry pb (d_name de) = Some (i_number i) ->
  inode_at D (i_number i) b a -> ino_key (i_number di) <> ino_key (i_number i) ->
  may_write pa 0 0 = true -> sticky_denies (st_mode pa) 0 (st_uid pa) (st_uid a) = false ->
  1 <= st_size pa -> 1 <= st_nlink a -> coherent D di -> coherent D i ->
  wp true (dbfs_unlink dir dentry m)
     (fun o s' => exists m', o = Ok m' /\ vm_inodes m' !! dir = Some di /\ ~ coherent (a_db s') di)
     (mkS D T n tb).
Proof.
  intros Hde Hi Hdi Hne Hd He Hm Hk Hacc Hst Hsz Hnl (a2 & Ha2 & Hl2 & Hs2) (a1 & Ha1 & Hl1 & Hs1).
  rewrite (inode_at_stat _ _ _ _ Hd) in Ha2. rewrite (inode_at_stat _ _ _ _ Hm) in Ha1.
  injection Ha1 as <-. injection Ha2 as <-.
  pose proof (stat_of_range _ _ (ia_stat _ _ _ _ Hd)) as (_ & Hszr & _).
  pose proof (stat_of_range _ _ (ia_stat _ _ _ _ Hm)) as (_ & _ & Hnlr & _). unfold u64, u32 in *.
  assert (Hk' : ipath (i_number di) <> ipath (i_number i)) by congruence.
  unfold dbfs_unlink. vgo. eapply wp_dbfs_common_unlink; [exact Hd|exact He|exact Hm|done|by right|done..| |done].
  wnorm. eapply wp_links_plus; [exact Hi|lia|]. eexists. split; [reflexivity|]. simpl.
  split; [by rewrite lookup_insert_ne|]. intros (a' & Ha' & _ & Hs').
  assert (Ha2 : inode_stat (unlink_view D (i_number di) (d_name de) pb pa (i_number i) b a time_default)
     (i_number di) = Some (set_mtime time_default (set_ctime time_default (set_size (st_size pa - 1) pa)))).
  { unfold unlink_view, inode_stat. case_match.
    - rewrite lookup_drop_inode_ne, lookup_insert_eq by done.
      apply touch_dir_stat; [apply stat_delete_other'; [apply Hd|apply data_key_other]|unfold u64; lia|done].
    - rewrite lookup_insert_ne, lookup_insert_eq by congruence.
      apply touch_dir_stat; [apply stat_delete_other'; [apply Hd|apply data_key_other]|unfold u64; lia|done]. }
  rewrite Ha2 in Ha'. simplify_eq. simpl in *. lia.
Qed.
End Objects.

(** ** Mounting *)

Section Mounting.
Context `{Config} `{Rvfs}.

(** The root directory exists already. *)
Lemma wp_root_inode_again uid gid t D T n tb b a (Q : outcome DbfsError Z -> AState -> Prop) :
  inode_at D 1 b a -> Q (Ok (st_size a)) (mkS D T n tb) ->
  wp true (dbfs_common_root_inode uid gid t) Q (mkS D T n tb).
Proof.
  intros [HD Hkv Hst] HQ. open_stat Hst. unfold dbfs_common_root_inode. apply wp_tx_q; [done|].
  wnorm. wgo. eapply wp_commit; [reflexivity|done|]. wnorm. wgo. exact HQ.
Qed.

Lemma wp_load_super_blk D T n tb sb c blk magic (Q : outcome bytes (Z * Z) -> AState -> Prop) :
  D !! sb_path = Some sb -> fbe 8 sb k_continue_number = Some c ->
  fbe 4 sb k_blk_size = Some blk -> fbe 4 sb k_magic = Some magic ->
  Q (Ok (blk, magic)) (mkS D T c tb) ->
  wp true dbfs_load_super_blk Q (mkS D T n tb).
Proof.
  intros HD Hc Hb Hm HQ. unfold dbfs_load_super_blk. apply wp_with_tx; [done|]. wnorm. wgo.
  apply wp_ino_store. wnorm. wgo. exact HQ.
Qed.

(** The objects of a mounted file system: [h] is its super block, alive and in
    the list of the mounted ones, with the root [i], inode 1. *)
Definition mounted_at (m : VfsMem) (h : handle_t) (dev : bytes) (size : Z) : Prop :=
  exists sb dh d i, vm_supers m !! h = Some sb /\ h ∈ vm_mounted m /\ sb_dev_name sb = dev /\
    sb_root sb = Some dh /\ vm_dentries m !! dh = Some d /\ d_name d = bs "/" /\
    d_parent d = Some dh /\ vm_inodes m !! d_inode d = Some i /\ i_number i = 1 /\
    i_super_blk i = h /\ i_file_size i = size /\ i_ops i = DBFS_DIR_INODE_OPS.

(** A mount whose root directory has [count] entries. *)
Lemma wp_get_super_blk flags dev m D D' T n n' tb sb c blk magic count ti
    (Q : outcome bytes (handle_t * VfsMem) -> AState -> Prop) :
  (forall h s, (h, s) ∈ mounted_supers m -> sb_dev_name s <> dev) ->
  (forall h, create_tmp_inode_from_sb_blk h 1 S_DIR DBFS_DIR_INODE_OPS DBFS_DIR_FILE_OPS = inr (ti h)) ->
  D !! sb_path = Some sb -> fbe 8 sb k_continue_number = Some c ->
  fbe 4 sb k_blk_size = Some blk -> fbe 4 sb k_magic = Some magic ->
  (forall Q' : outcome DbfsError Z -> AState -> Prop, Q' (Ok count) (mkS D' T n' tb) ->
     wp true (dbfs_common_root_inode 0 0 time_default) Q' (mkS D T c tb)) ->
  (forall h m', mounted_at m' h dev count -> Q (Ok (h, m')) (mkS D' T n' tb)) ->
  wp true (dbfs_get_super_blk flags dev m) Q (mkS D T n tb).
Proof.
  intros Hdev Hti HD Hc Hb Hm Hroot HQ. unfold dbfs_get_super_blk.
  destruct (find_super_blk _ _) as [h0|] eqn:Ef.
  { apply find_super_blk_some in Ef as (s & Hin & Hs). apply bool_decide_eq_true in Hs.
    by destruct (Hdev _ _ Hin). }
  unfold dbfs_create_simple_super_blk. vgo. eapply wp_load_super_blk; eauto. vgo.
  unfold dbfs_fill_super_block, dbfs_create_root_inode. vgo. apply Hroot. vgo.
  unfold tmp_inode. rewrite Hti. vgo. set (h := new_handle (vm_supers m)).
  destruct (tmp_inode_fields _ _ _ _ _ _ (Hti h)) as (E1 & E2 & E3 & E4 & E5).
  unfold dbfs_create_root_dentry, alloc_dentry, alloc_inode. vgo. apply HQ.
  set (dh := new_handle (vm_dentries m)). set (ih := new_handle (vm_inodes m)).
  eexists _, dh, _, _. simpl. split; [by rewrite lookup_alter_eq, lookup_insert_eq|].
  split; [rewrite insert_super_blk_elem; by left|]. split; [done|]. split; [done|].
  split; [apply lookup_insert_eq|]. simpl. split; [apply DirEntry_new_fields|]. split; [done|].
  split; [rewrite (proj1 (DirEntry_new_fields _ _)); apply lookup_insert_eq|]. done.
Qed.

(** The first mount of a new file system creates the root directory and
    the objects for it: a super block with the root dentry [/], whose object is
    inode 1 with one entry; the next inode number is 2; the device cannot be
    mounted a second time. *)
Theorem vfs_mount_first flags flags' dev m D T n tb sb blk magic ti :
  (forall h s, (h, s) ∈ mounted_supers m -> sb_dev_name s <> dev) ->
  (forall h, create_tmp_inode_from_sb_blk h 1 S_DIR DBFS_DIR_INODE_OPS DBFS_DIR_FILE_OPS = inr (ti h)) ->
  D !! sb_path = Some sb -> fbe 8 sb k_continue_number = Some 1 ->
  fbe 4 sb k_blk_size = Some blk -> fbe 4 sb k_magic = Some magic -> D !! ipath 1 = None ->
  wp true (dbfs_get_super_blk flags dev m)
     (fun o s' => exists h m', o = Ok (h, m') /\ mounted_at m' h dev 1 /\ a_ino s' = 2 /\
        inode_stat (a_db s') 1 = Some (root_stat 0 0 time_default) /\
        (forall name, dir_entry (a_db s') 1 name = if decide (name = bs ".") then Some 1 else None) /\
        frame [ino_key 1] D (a_db s') /\
        wp true (dbfs_get_super_blk flags' dev m')
           (fun o' s'' => o' = Err (bs "super block exist, can't create new one") /\ s'' = s') s')
     (mkS D T n tb).
Proof.
  intros Hdev Hti HD Hc Hb Hm Hroot. eapply wp_get_super_blk; eauto.
  { intros Q' HQ'. by eapply wp_root_inode_new. }
  intros h m' Hmt. exists h, m'. split; [done|]. split; [done|]. split; [done|].
  unfold inode_stat, dir_entry. simpl. rewrite lookup_insert_eq. simpl.
  split; [by apply root_bucket_stat|]. split; [intros; apply root_bucket_entry|].
  split; [eauto using list_elem_of_here with stat|].
  destruct Hmt as (s & dh & d & i & Hs & Hin & Hd & _). unfold dbfs_get_super_blk.
  destruct (find_super_blk _ _) as [h'|] eqn:Ef; [by apply wp_done|].
  assert (Hmem : (h, s) ∈ mounted_supers m').
  { unfold mounted_supers. apply list_elem_of_omap. exists h. split; [done|]. by rewrite Hs. }
  pose proof (find_super_blk_none _ _ _ _ Ef Hmem) as Hf. simpl in Hf.
  by apply bool_decide_eq_false in Hf.
Qed.

(** C33: unmounting and mounting again in a new kernel restores the file
    system: the inode counter is the one the unmount saved, the root object
    shows the stored size of the root directory, and the database is as it was
    but for the one value of the saved counter. *)
Theorem vfs_remount flags dev D T T' n n' tb tb' sb blk magic b a ti :
  let m0 := {| vm_inodes := ∅; vm_dentries := ∅; vm_supers := ∅; vm_mounted := [] |} in
  (forall h, create_tmp_inode_from_sb_blk h 1 S_DIR DBFS_DIR_INODE_OPS DBFS_DIR_FILE_OPS = inr (ti h)) ->
  D !! sb_path = Some sb -> kvb sb -> fbe 4 sb k_blk_size = Some blk ->
  fbe 4 sb k_magic = Some magic -> u64 n -> inode_at D 1 b a ->
  wp true (dbfs_kill_super_blk (E := bytes))
     (fun o s' => o = Ok tt /\
        wp true (dbfs_get_super_blk flags dev m0)
           (fun o' s'' => exists h m', o' = Ok (h, m') /\ mounted_at m' h dev (st_size a) /\
              a_ino s'' = n /\
              a_db s'' = <[sb_path := <[k_continue_number := KeyValue (to_be 8 n)]> sb]> D)
           (mkS (a_db s') T' n' tb'))
     (mkS D T n tb).
Proof.
  intros m0 Hti HD Hk Hb Hm Hn Hroot. pose proof Hroot as [HDr Hkr Hsr].
  unfold dbfs_kill_super_blk, dbfs_common_umount. wgo. apply wp_tx_q; [done|]. wnorm. wgo.
  eapply wp_commit; [reflexivity|done|]. wnorm. simpl. split; [done|].
  set (D' := <[sb_path := _]> D).
  eapply (wp_get_super_blk _ _ _ D' D' T' n' n tb' _ n blk magic (st_size a) ti).
  - intros h s Hin. unfold mounted_supers in Hin. simpl in Hin. by apply elem_of_nil in Hin.
  - done.
  - apply lookup_insert_eq.
  - by apply (fbe_insert_eq 8).
  - by fld.
  - by fld.
  - intros Q' HQ'. eapply wp_root_inode_again; [|exact HQ']. split; [|done..].
    unfold D'. rewrite lookup_insert_ne; [done|]. apply not_eq_sym, ipath_sb.
  - intros h m' Hmt. by exists h, m'.
Qed.
End Mounting.

Section Witness.
#[local] Existing Instances cfg512 sample_rvfs.

Lemma vfs_rename_across_corrupts_witness :
  wp true (dbfs_rename 1 12 3 17 sample_vfs)
     (fun o s' => (exists m', o = Ok m') /\
        dir_entry (a_db s') 1 (bs "foo") = None /\
        dir_entry (a_db s') 3 (bs "x") = Some 3 /\
        forall j, j = 1 \/ j = 3 ->
          wp true (dbfs_common_attr j) (fun o' _ => o' = Panic) s')
     sample_state.
Proof.
  apply (vfs_rename_across_corrupts 1 12 3 17 sample_vfs sample_view [] 6 ∅
           (sample_inode 1 2 5 S_DIR) (sample_dentry (bs "foo") 2) (sample_inode 3 2 2 S_DIR)
           (sample_dentry (bs "x") 1) (bucket_of sample_view 1) (stat_at sample_view 1)
           (bucket_of sample_view 3) (stat_at sample_view 3) (bs "2") 2); concrete.
Defined.

Lemma sample_foo_dentry : names_inode sample_vfs 12 (bs "foo") 2.
Proof. by exists (sample_dentry (bs "foo") 2), (sample_inode 2 1 0 S_FILE). Qed.

Lemma vfs_attr_map_witness :
  wp true (dbfs_setattr 12 (bs "k") (bs "value") sample_vfs)
     (fun o s' => o = Ok tt /\ frame [ino_key 2] sample_view (a_db s') /\
        inode_stat (a_db s') 2 = Some (stat_at sample_view 2) /\
        (forall key', vattr (a_db s') 2 key' =
           if decide (key' = bs "k") then Some (bs "value") else vattr sample_view 2 key') /\
        wp true (dbfs_getattr 12 (bs "k") (bs "123") sample_vfs)
           (fun o' s'' => s'' = s' /\ o' = Ok (blen (bs "value"), splice (bs "123") 0 (slice (bs "value") 0 (Z.min (blen (bs "value")) (blen (bs "123")))))) s')
     sample_state /\
  wp true (dbfs_removeattr 12 (bs "k") sample_vfs)
     (fun o s' => frame [ino_key 2] sample_view (a_db s') /\
        inode_stat (a_db s') 2 = Some (stat_at sample_view 2) /\
        (forall key', vattr (a_db s') 2 key' =
           if decide (key' = bs "k") then None else vattr sample_view 2 key') /\
        o = (if bool_decide (is_Some (vattr sample_view 2 (bs "k"))) then Ok tt else Err (bs "not found")))
     sample_state.
Proof.
  apply (vfs_attr_map 12 (bs "k") (bs "value") (bs "123") sample_vfs (bs "foo") sample_view [] 6 ∅ 2
           (bucket_of sample_view 2)); [apply sample_foo_dentry|concrete].
Defined.

Lemma vfs_listattr_spec_witness :
  let b := bucket_of sample_view 2 in
  wp true (dbfs_listattr 12 (bs "12345678") sample_vfs)
     (fun o s' => s' = sample_state /\ exists buf',
        o = Ok (blen (join_names (attr_names b)), buf') /\ blen buf' = blen (bs "12345678") /\
        (blen (join_names (attr_names b)) <= blen (bs "12345678") ->
         buf' = join_names (attr_names b) ++ drop (length (join_names (attr_names b))) (bs "12345678")) /\
        (forall key, key ∈ attr_names b <-> is_Some (vattr sample_view 2 key)))
     sample_state.
Proof.
  apply (vfs_listattr_spec 12 (bs "12345678") sample_vfs (bs "foo") sample_view [] 6 ∅ 2
           (bucket_of sample_view 2) (stat_at sample_view 2)); [apply sample_foo_dentry|concrete|concrete].
Defined.

Lemma vfs_create_effect_witness :
  let a := new_stat 0 0 time_default (permission_from_mode S_DIR) (stat_at sample_view 1) 2 2 None in
  wp true (dbfs_rvfs_create 1 16 3 S_DIR None sample_vfs)
     (fun o s' => exists m' h, o = Ok m' /\
        create_post sample_view [] 1 (stat_at sample_view 1) (bs "bar") 6 a
          (Perm.contains (permission_from_mode S_DIR) Perm.S_IFDIR)
          time_default Directory (Ok (new_attr 6 a Directory)) s' /\
        vm_inodes sample_vfs !! h = None /\ vm_inodes m' !! h = Some (sample_inode 6 1 0 S_DIR) /\
        i_number (sample_inode 6 1 0 S_DIR) = 6 /\
        i_ops (sample_inode 6 1 0 S_DIR) = inode_ops_from_inode_mode S_DIR /\
        vm_dentries m' !! 16 = Some (set_d_inode h (sample_dentry (bs "bar") 1)) /\
        vm_inodes m' !! 1 = Some (set_fsize 6 (sample_inode 1 2 5 S_DIR)) /\
        (coherent sample_view (sample_inode 1 2 5 S_DIR) ->
         coherent (a_db s') (set_fsize 6 (sample_inode 1 2 5 S_DIR))) /\
        (forall h', h' <> h -> h' <> 1 -> vm_inodes m' !! h' = vm_inodes sample_vfs !! h') /\
        (forall h', h' <> 16 -> vm_dentries m' !! h' = vm_dentries sample_vfs !! h'))
     sample_state.
Proof.
  apply (vfs_create_effect 1 16 3 S_DIR None sample_vfs sample_view [] 6 ∅ (sample_inode 1 2 5 S_DIR)
           (sample_dentry (bs "bar") 1) (bucket_of sample_view 1) (stat_at sample_view 1) Directory 2 2 None
           (sample_inode 6 1 0 S_DIR));
    [concrete|concrete|eexists; vm_compute; reflexivity|concrete..].
Defined.

Lemma vfs_lookup_coherent_witness :
  wp true (dbfs_lookup 1 13 sample_vfs)
     (fun o s' => s' = sample_state /\
        match dir_entry sample_view 1 (bs "sub") with
        | None => o = Err (bs "dbfs_common_lookup failed")
        | Some _ => exists m' h i', o = Ok m' /\
            vm_inodes sample_vfs !! h = None /\ vm_inodes m' = <[h := i']> (vm_inodes sample_vfs) /\
            vm_dentries m' = <[13 := set_d_inode h (sample_dentry (bs "sub") 3)]> (vm_dentries sample_vfs) /\
            i_number i' = 3 /\ coherent sample_view i' /\ i_uid i' = st_uid (stat_at sample_view 3) /\
            i_gid i' = st_gid (stat_at sample_view 3) /\
            i_ops i' = inode_ops_from_inode_mode S_DIR /\ i_file_ops i' = file_ops_from_inode_mode S_DIR
        end)
     sample_state.
Proof.
  apply (vfs_lookup_coherent 1 13 sample_vfs sample_view [] 6 ∅ (sample_inode 1 2 5 S_DIR)
           (sample_dentry (bs "sub") 3) (bucket_of sample_view 1) (stat_at sample_view 1) 3
           (stat_at sample_view 3) Directory S_DIR (sample_inode 3 1 0 S_DIR)).
  - by vm_compute.
  - by vm_compute.
  - eexists. vm_compute. reflexivity.
  - concrete.
  - change (entry (bucket_of sample_view 1) (d_name (sample_dentry (bs "sub") 3)))
      with (entry (bucket_of sample_view 1) (bs "sub")).
    assert (E : entry (bucket_of sample_view 1) (bs "sub") = Some 3) by (vm_compute; reflexivity).
    rewrite E. split; [done|]. split; [concrete|]. split; [concrete|]. by split.
Defined.

Lemma vfs_link_coherent_witness :
  wp true (dbfs_link 12 3 17 sample_vfs)
     (fun o s' => exists m' oi' di', o = Ok m' /\
        dir_entry (a_db s') 3 (bs "x") = Some 2 /\
        vm_inodes m' !! 2 = Some oi' /\ i_number oi' = 2 /\
        vm_inodes m' !! 3 = Some di' /\ i_number di' = 3 /\
        coherent (a_db s') oi' /\ coherent (a_db s') di' /\
        vm_dentries m' !! 17 = Some (set_d_inode 2 (sample_dentry (bs "x") 1)))
     sample_state.
Proof.
  apply (vfs_link_coherent 12 3 17 sample_vfs sample_view [] 6 ∅ (sample_dentry (bs "foo") 2)
           (sample_dentry (bs "x") 1) (sample_inode 2 1 0 S_FILE) (sample_inode 3 2 2 S_DIR)
           (bucket_of sample_view 3) (stat_at sample_view 3) Directory (bucket_of sample_view 2)
           (stat_at sample_view 2) RegularFile); [concrete..| |].
  - exists (stat_at sample_view 2). split; [|split]; vm_compute; reflexivity.
  - exists (stat_at sample_view 3). split; [|split]; vm_compute; reflexivity.
Defined.

(** The sample disk before its first mount. *)
Definition new_disk : view := {[sb_path := new_sb 1024]}.
Definition no_vfs : VfsMem := {| vm_inodes := ∅; vm_dentries := ∅; vm_supers := ∅; vm_mounted := [] |}.

Lemma vfs_mount_first_witness :
  wp true (dbfs_get_super_blk 0 (bs "disk") no_vfs)
     (fun o s' => exists h m', o = Ok (h, m') /\ mounted_at m' h (bs "disk") 1 /\ a_ino s' = 2 /\
        inode_stat (a_db s') 1 = Some (root_stat 0 0 time_default) /\
        (forall name, dir_entry (a_db s') 1 name = if decide (name = bs ".") then Some 1 else None) /\
        frame [ino_key 1] new_disk (a_db s') /\
        wp true (dbfs_get_super_blk 1 (bs "disk") m')
           (fun o' s'' => o' = Err (bs "super block exist, can't create new one") /\ s'' = s') s')
     (mkS new_disk [] 1 ∅).
Proof.
  apply (vfs_mount_first 0 1 (bs "disk") no_vfs new_disk [] 1 ∅ (new_sb 1024) 512 1111
           (fun h => {| i_number := 1; i_super_blk := h; i_mode := S_DIR; i_ops := DBFS_DIR_INODE_OPS;
                        i_file_ops := DBFS_DIR_FILE_OPS; i_hard_links := 1; i_file_size := 0;
                        i_uid := 0; i_gid := 0 |}));
    [intros h s Hin; by apply elem_of_nil in Hin|concrete|apply lookup_insert_eq|concrete..].
Defined.

Lemma vfs_remount_witness :
  wp true (dbfs_kill_super_blk (E := bytes))
     (fun o s' => o = Ok tt /\
        wp true (dbfs_get_super_blk 0 (bs "disk") no_vfs)
           (fun o' s'' => exists h m', o' = Ok (h, m') /\
              mounted_at m' h (bs "disk") (st_size (stat_at sample_view 1)) /\
              a_ino s'' = 6 /\
              a_db s'' = <[sb_path := <[k_continue_number := KeyValue (to_be 8 6)]> the_sb]> sample_view)
           (mkS (a_db s') [] 1 ∅))
     sample_state.
Proof.
  apply (vfs_remount 0 (bs "disk") sample_view [] [] 6 1 ∅ ∅ the_sb 512 1111 (bucket_of sample_view 1)
           (stat_at sample_view 1)
           (fun h => {| i_number := 1; i_super_blk := h; i_mode := S_DIR; i_ops := DBFS_DIR_INODE_OPS;
                        i_file_ops := DBFS_DIR_FILE_OPS; i_hard_links := 1; i_file_size := 0;
                        i_uid := 0; i_gid := 0 |}));
    [concrete|apply the_sb_ok|apply the_sb_ok|concrete..].
Defined.
End Witness.
