(* ===== verification/RvfsReaddir.v ===== *)
(** * The rvfs adapter: reading a directory

    [dbfs_readdir] writes records of variable length into a buffer of the
    caller; the theorems bound what it writes and say what is listed. *)

From S2P Require Import Prelude Jammdb Effects Run RustStd Common Buckets Slices Access Inode Create.
From S2P Require Import FsType Link Attr Readdir Rvfs Samples Namespace Listing RvfsRules.

(** ** Records *)

Section Readdir.
Context `{Config} `{Rvfs}.

Definition entry_len (x : DbfsDirEntry) : Z :=
  dirent_len (de_name x) (de_ino x) (de_offset x) (dirent_type (de_kind x)).

(** The length of the records of a list of entries. *)
Fixpoint records_len (l : list DbfsDirEntry) : Z :=
  match l with [] => 0 | x :: l => entry_len x + records_len l end.

(** The records of a list of entries, one after the other from [at_] on. *)
Fixpoint records (at_ : Z) (l : list DbfsDirEntry) : list DirRecord :=
  match l with
  | [] => []
  | x :: l =>
      {| dr_at := at_; dr_name := de_name x; dr_ino := de_ino x; dr_offset := de_offset x;
         dr_type := dirent_type (de_kind x); dr_len := entry_len x |}
        :: records (at_ + entry_len x) l
  end.

(** The bytes that a record is stored to, the structure and then the name, are
    in the buffer. *)
Definition in_buffer (buf_len : Z) (r : DirRecord) : Prop :=
  0 <= dr_at r /\ dr_at r + dr_len r <= buf_len /\ dr_at r + dirent_size <= buf_len /\
  dr_at r + dirent_name_offset + blen (dr_name r) + 1 <= buf_len.

(** The structures of the records are in the buffer. *)
Definition headers_fit (buf_len : Z) (l : list DirRecord) : bool :=
  forallb (fun r => dr_at r + dirent_size <=? buf_len) l.

Lemma entry_len_room x : dirent_name_offset + blen (de_name x) + 1 <= entry_len x /\ 0 < entry_len x.
Proof.
  pose proof (dirent_len_room (de_name x) (de_ino x) (de_offset x) (dirent_type (de_kind x))).
  pose proof (blen_nonneg (de_name x)). unfold entry_len. lia.
Qed.

Lemma records_len_nonneg l : 0 <= records_len l.
Proof. induction l as [|x l IH]; simpl; [lia|]. pose proof (entry_len_room x). lia. Qed.

Lemma records_in_buffer buf_len at_ l :
  0 <= at_ -> at_ + records_len l <= buf_len -> headers_fit buf_len (records at_ l) = true ->
  Forall (in_buffer buf_len) (records at_ l).
Proof.
  revert at_. induction l as [|x l IH]; intros at_ Ha Hl Hh; simpl in *; [done|].
  apply andb_true_iff in Hh as [Hx%Z.leb_le Hh].
  pose proof (entry_len_room x). pose proof (records_len_nonneg l). constructor.
  - repeat split; simpl in *; lia.
  - apply IH; [lia..|done].
Qed.

(** A structure without padding after the name field fits where its record
    does. *)
Lemma headers_fit_packed buf_len at_ l :
  dirent_size <= dirent_name_offset + 1 -> at_ + records_len l <= buf_len ->
  headers_fit buf_len (records at_ l) = true.
Proof.
  intros Hs. revert at_. induction l as [|x l IH]; intros at_ Hl; simpl in *; [done|].
  pose proof (entry_len_room x). pose proof (records_len_nonneg l). pose proof (blen_nonneg (de_name x)).
  apply andb_true_iff. split; [apply Z.leb_le; simpl; lia|]. apply IH. lia.
Qed.

(** The loop writes the records of the longest prefix that fits, if their
    structures do. *)
Lemma readdir_fill_spec l buf_len count offset out :
  count <= buf_len ->
  exists (k : nat) offset',
    readdir_fill l buf_len count offset out
      = (if headers_fit buf_len (records count (take k l)) then
           ret (count + records_len (take k l), offset', bool_decide (k < length l)%nat,
                out ++ records count (take k l))
         else panic) /\
    (k <= length l)%nat /\ count + records_len (take k l) <= buf_len /\
    (count + records_len l <= buf_len -> k = length l) /\
    ((k < length l)%nat -> buf_len < count + records_len (take (S k) l)) /\
    (k = length l -> forall x, l !! (length l - 1)%nat = Some x -> offset' = de_offset x + 1).
Proof.
  revert count offset out. induction l as [|x l IH]; intros count offset out Hc.
  { exists 0%nat, offset. simpl. rewrite Z.add_0_r, app_nil_r. repeat split; lia || done. }
  pose proof (entry_len_room x) as [_ Hx]. pose proof (records_len_nonneg l).
  simpl readdir_fill. fold (entry_len x). destruct (Z.leb_spec (count + entry_len x) buf_len) as [Hf|Hf].
  - pose proof (entry_len_room x) as [Hr _].
    rewrite (proj2 (Z.leb_le (count + dirent_name_offset + _) _)) by lia.
    destruct (IH (count + entry_len x) (de_offset x + 1) (out ++ records count [x]) Hf)
      as (k & offset' & E & Hk & Hb & Hall & Hnext & Hlast). exists (S k), offset'. simpl. simpl in E.
    rewrite E. split; [|split; [lia|split; [lia|split; [lia|split; [intros; simpl in *; lia|]]]]].
    + unfold headers_fit. simpl. destruct (count + dirent_size <=? buf_len); simpl; [|done].
      fold (headers_fit buf_len (records (count + entry_len x) (take k l))).
      destruct (headers_fit _ _); [|done].
      rewrite <- app_assoc, Z.add_assoc. repeat f_equal.
      destruct (decide (k < length l)%nat); [rewrite !bool_decide_eq_true_2|rewrite !bool_decide_eq_false_2]; lia || done.
    + intros Hkl y Hy. destruct l as [|z l].
      * assert (k = 0%nat) as -> by (simpl in Hk; lia). simpl in E, Hy. unfold ret in E. by simplify_eq.
      * apply Hlast; [simpl in *; lia|]. simpl in *. rewrite ?Nat.sub_0_r in *. done.
  - exists 0%nat, (de_offset x + 1). simpl. rewrite Z.add_0_r, app_nil_r. repeat split; lia || done.
Qed.

(** The names of the entries of a directory, and the length they need. *)
Definition names_len (l : list bytes) : Z :=
  foldr (fun name acc => dirent_len name 1 0 DT_EMPTY + acc) 0 l.

Lemma names_len_nonneg l : 0 <= names_len l.
Proof.
  induction l as [|x r IH]; simpl; [lia|].
  pose proof (dirent_len_room x 1 0 DT_EMPTY). pose proof (blen_nonneg x). lia.
Qed.

Lemma records_names l : records_len l = names_len (de_name <$> l).
Proof.
  induction l as [|x l IH]; simpl; [done|]. rewrite IH. unfold entry_len. f_equal. apply dirent_len_name.
Qed.

(** The result of a reading into a buffer of [buf_len] bytes: [k] of the entries
    fit by the lengths of their records. *)
Definition readdir_result (D : view) (ino : Z) (b : bucket) (buf_len : Z)
    (o : outcome bytes (Z * list DirRecord)) : Prop :=
  exists l k,
    listing D ino 0 l /\ de_name <$> l = (omap data_item (sorted_entries b)).*1 /\
    (k <= length l)%nat /\ records_len (take k l) <= buf_len /\
    (names_len (de_name <$> l) <= buf_len -> k = length l) /\
    ((k < length l)%nat -> buf_len < records_len (take (S k) l)) /\
    if headers_fit buf_len (records 0 (take k l)) then
      o = Ok (records_len (take k l), records 0 (take k l)) /\
      Forall (in_buffer buf_len) (records 0 (take k l))
    else o = Panic.

Definition readdir_post (D : view) (T : list (view * bool)) (ino : Z) (b : bucket) (buf_len : Z)
    (o : outcome bytes (Z * list DirRecord)) (s' : AState) : Prop :=
  a_db s' = D /\ a_txs s' = T /\ readdir_result D ino b buf_len o.

Lemma wp_vfs_readdir fuel f_dentry buf_len m name D T n tb ino b :
  names_inode m f_dentry name ino -> D !! ipath ino = Some b -> listable D b ->
  Z.of_nat (length (sorted_entries b)) < 2 ^ 62 -> 0 < buf_len -> (2 <= fuel)%nat ->
  wp true (dbfs_readdir fuel f_dentry buf_len m) (readdir_post D T ino b buf_len) (mkS D T n tb).
Proof.
  intros Hn HD Hl Hmax Hbuf Hfuel. destruct fuel as [|[|fuel]]; [lia..|]. unfold readdir_post.
  unfold dbfs_readdir. vgo. rewrite (proj2 (Z.eqb_neq buf_len 0)) by lia. vgo.
  unfold pop_readdir_table. apply wp_table_pop. wnorm.
  set (items := omap data_item (sorted_entries b)).
  pose proof (length_items (sorted_entries b)) as Hli. fold items in Hli.
  remember (S fuel) as fuel1 eqn:Ef. cbn [readdir_rounds]. vgo.
  eapply wp_dbfs_common_readdir; [exact HD|exact Hl|apply lookup_delete_eq|lia|lia|].
  intros l Hlen Hitems. fold items in Hlen, Hitems. wnorm.
  assert (Hls : listing D ino 0 l) by (by eapply listing_intro).
  pose proof (listing_names D b 0 l Hlen Hitems) as Hnames. fold items in Hnames.
  destruct (Z.eqb_spec (Z.of_nat (length l)) 0) as [E|E].
  { vgo. assert (l = []) as -> by (destruct l; [done|simpl in E; lia]).
    split; [done|]. split; [done|]. exists [], 0%nat. split_and!; try done; simpl; lia. }
  destruct (readdir_fill_spec l buf_len 0 0 [] ltac:(lia)) as (k & offset' & -> & Hk & Hb & Hall & Hnext & Hlast).
  assert (Hpost : forall o : outcome bytes (Z * list DirRecord),
    (if headers_fit buf_len (records 0 (take k l)) then
       o = Ok (records_len (take k l), records 0 (take k l)) else o = Panic) ->
    readdir_result D ino b buf_len o).
  { intros o Ho. exists l, k. rewrite <- records_names. split_and!; try done; [lia..|].
    destruct (headers_fit _ _) eqn:Hfit; [|done]. split; [done|]. apply records_in_buffer; [lia..|done]. }
  destruct (headers_fit buf_len (records 0 (take k l))); [|by vgo; eauto]. vgo.
  case_bool_decide as Hfull; vgo; [by auto|].
  destruct (Z.ltb_spec (Z.of_nat (length l)) 16) as [|H16]; vgo; [by auto|].
  destruct (lookup_lt_is_Some_2 l (length l - 1)) as [x Hx]; [lia|].
  replace (Z.to_nat (Z.of_nat (length l) - 1)) with (length l - 1)%nat by lia. rewrite Hx. vgo.
  unfold push_readdir_table. apply wp_table_push. wnorm.
  assert (Hkl : k = length l) by lia. rewrite (Hlast Hkl x Hx).
  destruct (lookup_lt_is_Some_2 items (length items - 1)) as [[nm v'] Hi]; [lia|].
  pose proof (Hitems _ _ _ Hi) as (x' & Hx' & Hle). rewrite <- Hlen, Hx in Hx'. injection Hx' as <-.
  destruct Hle as (Hnm & _ & Hof & _). rewrite Ef. cbn [readdir_rounds]. vgo.
  eapply wp_readdir_end; eauto; [by rewrite Hnm; eauto|]. wnorm. simpl. vgo. by auto.
Qed.

(** C30: reading a directory into a buffer takes as many of the first entries of
    the directory, in its order, as fit by the lengths of their records, all of
    them when the buffer has the length they need.  When the structures of all
    these records, with their padding, lie in the buffer, the call returns and
    stores inside the buffer only: every record in its place after the ones
    before it, its structure, its name and the NUL.  When one does not, the
    call stores past the end of the buffer: undefined behaviour in the source,
    a panic here.  (The loop reads the directory twice at most.) *)
Theorem vfs_readdir_bounded fuel f_dentry buf_len m name D T n tb ino b :
  names_inode m f_dentry name ino -> D !! ipath ino = Some b -> listable D b ->
  Z.of_nat (length (sorted_entries b)) < 2 ^ 62 -> 0 < buf_len -> (2 <= fuel)%nat ->
  wp true (dbfs_readdir fuel f_dentry buf_len m) (readdir_post D T ino b buf_len) (mkS D T n tb).
Proof. apply wp_vfs_readdir. Qed.

(** ** The query for the length *)

Lemma after_last_app c a l : c ∉ l -> after_last c (a ++ c :: l) = Some l.
Proof.
  intros Hl. assert (Hnone : after_last c l = None).
  { clear a. induction l as [|x l IH]; [done|]. simpl. rewrite IH by set_solver.
    rewrite bool_decide_eq_false_2; [done|]. set_solver. }
  induction a as [|x a IH]; simpl.
  - rewrite Hnone. by rewrite bool_decide_eq_true_2.
  - by rewrite IH.
Qed.

Lemma wp_readdir_needed rel kvs acc (Q : outcome bytes Z -> AState -> Prop) s :
  let names := (omap (M := list) data_item ((fun kv => (kv.1, KeyValue kv.2)) <$> kvs)).*1 in
  0 <= acc -> acc + names_len names < 2 ^ 64 ->
  (forall name, name ∈ names -> utf8_valid name = true /\ x3a ∉ name) ->
  Q (Ok (acc + names_len names)) s -> wp rel (readdir_needed kvs acc) Q s.
Proof.
  revert acc. induction kvs as [|[k v] kvs IH]; intros acc names Ha Hmax Hok HQ.
  { simpl. apply wp_ret. by rewrite Z.add_0_r in HQ. }
  unfold names in *. clear names. rewrite fmap_cons in *. cbn [omap list_omap fst snd] in *.
  unfold data_item in *. cbn [fst snd] in *. cbn [readdir_needed].
  destruct (starts_with (bs "data:") k) eqn:Es; [|by apply IH].
  rewrite fmap_cons in *. cbn [fst names_len foldr] in *.
  set (rest := (omap _ _).*1) in *. fold (names_len rest) in *.
  destruct (Hok (drop 5 k) ltac:(by left)) as [Hu Hc].
  rewrite (starts_with_data _ Es). set (name := drop 5 k) in *.
  assert (Hu' : utf8_valid (generate_data_key name) = true) by exact Hu.
  pose proof (dirent_len_room name 1 0 DT_EMPTY). pose proof (blen_nonneg name).
  pose proof (names_len_nonneg rest) as Hp.
  assert (Hal : after_last x3a (generate_data_key name) = Some name)
    by exact (after_last_app x3a (bs "data") name Hc).
  vgo. rewrite Hal. simpl default. apply wp_add64; [lia|]. wnorm.
  apply IH; [lia|lia|intros; apply Hok; by right|]. by rewrite <- Z.add_assoc.
Qed.

Lemma names_of_pairs es :
  omap (M := list) data_item ((fun kv => (kv.1, KeyValue kv.2)) <$> omap (M := list) kv_of es)
    = omap data_item es.
Proof.
  induction es as [|[k [v|]] es IH]; [done| |exact IH]. simpl.
  destruct (data_item (k, KeyValue v)); [f_equal|]; exact IH.
Qed.

(** C29: asking with an empty buffer for the length a directory needs and then
    reading it into a buffer of that length lists the whole directory, every
    record inside the buffer, when no name has a colon in it and the structures
    of the records lie in the buffer, as they do when the structure has no
    padding ([headers_fit_packed]).  A structure that does not is stored past
    the end of the buffer: undefined behaviour in the source, a panic here
    ([readdir_stores_past_end]). *)
Theorem vfs_readdir_complete fuel f_dentry m name D T n tb ino b :
  let names := (omap data_item (sorted_entries b)).*1 in
  names_inode m f_dentry name ino -> D !! ipath ino = Some b -> listable D b ->
  Z.of_nat (length (sorted_entries b)) < 2 ^ 62 -> (2 <= fuel)%nat ->
  names <> [] -> names_len names < 2 ^ 64 -> (forall x, x ∈ names -> x3a ∉ x) ->
  wp true ('(need, _) ← dbfs_readdir fuel f_dentry 0 m; dbfs_readdir fuel f_dentry need m)
     (fun o s' => a_db s' = D /\ exists l, listing D ino 0 l /\ de_name <$> l = names /\
        if headers_fit (names_len names) (records 0 l) then
          o = Ok (names_len names, records 0 l) /\ Forall (in_buffer (names_len names)) (records 0 l)
        else o = Panic)
     (mkS D T n tb).
Proof.
  intros names Hn HD Hl Hmax Hfuel Hne Hlen Hcolon.
  apply wp_bind. unfold dbfs_readdir at 1. vgo. rewrite Z.eqb_refl. unfold kv_pairs. vgo.
  eapply wp_cursor; [reflexivity|]. unfold spec_cursor. cbn [a_db]. rewrite HD.
  cbn [lift_infallible]. vgo. apply wp_readdir_needed; rewrite ?names_of_pairs; [lia|done| |].
  { intros x Hx. split; [|by apply Hcolon]. apply list_elem_of_fmap in Hx as ([x' v] & -> & Hx).
    apply data_items_elem in Hx. by apply (Hl x' v). }
  fold names. vgo. simpl (0 + _).
  assert (Hpos : 0 < names_len names).
  { destruct names as [|x r]; [done|]. simpl. pose proof (names_len_nonneg r).
    pose proof (dirent_len_room x 1 0 DT_EMPTY). pose proof (blen_nonneg x). lia. }
  eapply wp_mono; [by eapply (wp_vfs_readdir fuel f_dentry (names_len names))|].
  intros o s' (HD' & _ & l & k & Hls & Hnm & _ & _ & Hall & _ & Ho). split; [done|]. exists l.
  fold names in Hnm. rewrite Hnm in Hall. specialize (Hall ltac:(lia)). subst k.
  by rewrite firstn_all, records_names, Hnm in Ho.
Qed.
End Readdir.

Section Witness.
#[local] Existing Instances cfg512 sample_rvfs.

Lemma sample_root_dentry : names_inode sample_vfs 10 (bs "/") 1.
Proof. by exists (sample_dentry (bs "/") 1), (sample_inode 1 2 5 S_DIR). Qed.

(** A buffer of 70 bytes has room for three of the five records. *)
Lemma vfs_readdir_bounded_witness :
  wp true (dbfs_readdir 2 10 70 sample_vfs)
     (readdir_post sample_view [] 1 (bucket_of sample_view 1) 70) sample_state.
Proof.
  apply (vfs_readdir_bounded 2 10 70 sample_vfs (bs "/") sample_view [] 6 ∅ 1 (bucket_of sample_view 1));
    [apply sample_root_dentry|apply sample_root|apply list_check_sound; vm_compute; reflexivity|vm_compute; reflexivity|lia|lia].
Defined.

Lemma vfs_readdir_complete_witness :
  let names := (omap data_item (sorted_entries (bucket_of sample_view 1))).*1 in
  wp true ('(need, _) ← dbfs_readdir 2 10 0 sample_vfs; dbfs_readdir 2 10 need sample_vfs)
     (fun o s' => a_db s' = sample_view /\ exists l, listing sample_view 1 0 l /\ de_name <$> l = names /\
        if headers_fit (names_len names) (records 0 l) then
          o = Ok (names_len names, records 0 l) /\ Forall (in_buffer (names_len names)) (records 0 l)
        else o = Panic)
     sample_state.
Proof.
  apply (vfs_readdir_complete 2 10 sample_vfs (bs "/") sample_view [] 6 ∅ 1 (bucket_of sample_view 1));
    [apply sample_root_dentry|apply sample_root|apply list_check_sound; vm_compute; reflexivity|vm_compute; reflexivity|lia|..].
  - intros E. by vm_compute in E.
  - vm_compute. reflexivity.
  - apply list.Forall_forall, (bool_decide_unpack _). vm_compute. exact I.
Defined.

(** The length a directory needs, and then the reading into a buffer of that
    length. *)
Definition ask_and_read (pad : nat) : outcome bytes (Z * list DirRecord) :=
  let r := rvfs_with pad in
  (@run map_platform _ _
     ('(need, _) ← @dbfs_readdir _ r 2 10 0 sample_vfs; @dbfs_readdir _ r 2 10 need sample_vfs)
     sample_world).1.

(** When the structure has padding after its fields, as [repr(C)] gives it 24
    bytes for 19, the record of a short name that is the last to fit is stored
    past the end of the caller's buffer: the last entry of the root, [sub],
    takes 23 bytes.  Without padding the same reading returns. *)
Theorem readdir_stores_past_end :
  ask_and_read 5 = Panic /\ exists l, ask_and_read 0 = Ok (113, l) /\ length l = 5%nat.
Proof. split; [by vm_compute|]. eexists. split; vm_compute; reflexivity. Qed.
End Witness.
