(* ===== verification/Fuse.v ===== *)
(** * [fuse/]: the FUSE adapter

    The functions of [fuse/inode.rs], [fuse/attr.rs], [fuse/file.rs],
    [fuse/link.rs] and [fuse/sblk.rs] and the handlers of [fuse/mod.rs], which
    turn a request into a [dbfs_common_*] call and its result into a reply.
    The request and reply types are those of the [fuser] crate; a handler
    returns the reply it sends.  [ReplyDirectory::add], which decides whether
    the reply buffer is full, is a parameter.  The clock is a parameter too:
    [clock i] is the result of the [i]-th call site of [SystemTime::now()] of a
    handler. *)

From S2P Require Import Prelude Jammdb Effects Run RustStd Common Buckets Slices Access Inode.
From S2P Require Import Create FsType Link Truncate File Rename Attr Readdir.

(** ** Times ([std::time] and the conversions of [common.rs]) *)

(** [SystemTime]: time since the epoch, with negative seconds before it. *)
Record SystemTime := { tv_sec : Z; tv_nsec : Z }.

Definition NANOS_PER_SEC : Z := 1000000000.

(** [From<SystemTime> for DbfsTimeSpec]: [duration_since(UNIX_EPOCH).unwrap()]. *)
Definition time_of_system {E} (t : SystemTime) : Prog E DbfsTimeSpec :=
  assert_prog (0 <=? tv_sec t);; ret {| sec := tv_sec t; nsec := tv_nsec t |}.

(** [From<DbfsTimeSpec> for SystemTime]: [Duration::new] carries the
    nanoseconds, the addition to the epoch overflows at 63 bits. *)
Definition system_of_time {E} (t : DbfsTimeSpec) : Prog E SystemTime :=
  let s := sec t + nsec t / NANOS_PER_SEC in
  assert_prog (s <? 2 ^ 63);; ret {| tv_sec := s; tv_nsec := nsec t `mod` NANOS_PER_SEC |}.

(** [fuser::TimeOrNow] *)
Inductive TimeOrNow := SpecificTime (t : SystemTime) | Now.

(** ** Attributes *)

Module Fuser.
Inductive FileType :=
  | NamedPipe | CharDevice | BlockDevice | Directory | RegularFile | Symlink | Socket.
End Fuser.

(** [From<DbfsFileType> for FileType] *)
Definition fuse_file_type (value : DbfsFileType) : Fuser.FileType :=
  match value with
  | NamedPipe => Fuser.NamedPipe
  | CharDevice => Fuser.CharDevice
  | BlockDevice => Fuser.BlockDevice
  | Directory => Fuser.Directory
  | RegularFile => Fuser.RegularFile
  | Symlink => Fuser.Symlink
  | Socket => Fuser.Socket
  end.

(** [fuser::FileAttr] *)
Record FileAttr := {
  fa_ino : Z; fa_size : Z; fa_blocks : Z;
  fa_atime : SystemTime; fa_mtime : SystemTime; fa_ctime : SystemTime; fa_crtime : SystemTime;
  fa_kind : Fuser.FileType; fa_perm : Z; fa_nlink : Z; fa_uid : Z; fa_gid : Z;
  fa_rdev : Z; fa_blksize : Z; fa_flags : Z
}.

(** [From<DbfsAttr> for FileAttr] and [From<&DbfsAttr> for FileAttr] *)
Definition file_attr {E} (value : DbfsAttr) : Prog E FileAttr :=
  atime ← system_of_time (attr_atime value);
  mtime ← system_of_time (attr_mtime value);
  ctime ← system_of_time (attr_ctime value);
  crtime ← system_of_time (attr_crtime value);
  ret {|
    fa_ino := attr_ino value; fa_size := attr_size value; fa_blocks := attr_blocks value;
    fa_atime := atime; fa_mtime := mtime; fa_ctime := ctime; fa_crtime := crtime;
    fa_kind := fuse_file_type (attr_kind value);
    fa_perm := Z.land (attr_perm value) Perm.MODE_777; fa_nlink := attr_nlink value;
    fa_uid := attr_uid value; fa_gid := attr_gid value; fa_rdev := attr_rdev value;
    fa_blksize := attr_blksize value; fa_flags := 0
  |}.

(** ** Requests, replies and constants *)

Record Request := { req_uid : Z; req_gid : Z }.

(** [libc] *)
Definition O_ACCMODE : Z := 3.
Definition O_RDONLY : Z := 0.
Definition O_WRONLY : Z := 1.
Definition O_RDWR : Z := 2.
Definition O_TRUNC : Z := 0x200.
Definition X_OK : Z := 1.
Definition W_OK : Z := 2.
Definition R_OK : Z := 4.
Definition ENOENT : Z := 2.
Definition EACCES : Z := 13.
Definition EINVAL : Z := 22.
(** [fuser::consts] *)
Definition FOPEN_DIRECT_IO : Z := 1.
(** Seconds a reply may be cached. *)
Definition TTL : Z := 1.
Definition FILE_SIZE : Z := 1024 * 1024 * 1024 * 20.

(** An entry of a directory reply: inode, offset of the next entry, type, name. *)
Record DirItem := {
  di_ino : Z; di_offset : Z; di_kind : Fuser.FileType; di_name : bytes
}.
(** An entry of a [readdirplus] reply. *)
Record DirPlusItem := {
  dp_ino : Z; dp_offset : Z; dp_name : bytes; dp_ttl : Z; dp_attr : FileAttr;
  dp_generation : Z
}.

(** What a handler sends; [RNothing] is a reply that was dropped unsent. *)
Inductive Reply :=
  | ROk
  | RError (errno : Z)
  | REntry (ttl : Z) (attr : FileAttr) (generation : Z)
  | RAttr (ttl : Z) (attr : FileAttr)
  | RData (data : bytes)
  | ROpened (fh flags : Z)
  | RWritten (size : Z)
  | RStatfs (blocks bfree bavail files ffree bsize namelen frsize : Z)
  | RXattrSize (size : Z)
  | RCreated (ttl : Z) (attr : FileAttr) (generation fh flags : Z)
  | RDirectory (entries : list DirItem)
  | RDirectoryPlus (entries : list DirPlusItem)
  | RNothing.

(** [name.to_str().unwrap()] *)
Definition to_str {E} (name : bytes) : Prog E bytes :=
  assert_prog (utf8_valid name);; ret name.

(** [match res { Ok(a) => .., Err(x) => reply.error(code x) }] *)
Definition answer {E A} (code : E -> Z) (p : Prog E A) (ok : A -> Prog Empty_set Reply)
  : Prog Empty_set Reply :=
  res ← attempt p;
  match res with
  | inr a => ok a
  | inl e => ret (RError (code e))
  end.
Definition no_entry {E} (_ : E) : Z := ENOENT.

(** [mode as u16], [offset as u64], [offset as i64], [x as u32] *)
Definition as_u16 (z : Z) : Z := z `mod` 2 ^ 16.
Definition as_u64 (z : Z) : Z := z `mod` 2 ^ 64.
Definition as_i64 (z : Z) : Z := if z <? 2 ^ 63 then z else z - 2 ^ 64.

Section Ops.
Context `{Config}.

(** [a + b] on [i64] *)
Definition add_i64 {E} (a b : Z) : Prog E Z :=
  let z := a + b in
  if (- 2 ^ 63 <=? z) && (z <? 2 ^ 63) then ret z
  else if overflow_checks then panic else ret (as_i64 (as_u64 z)).

(** ** [fuse/inode.rs] *)

Definition dbfs_fuse_lookup (parent : Z) (name : bytes) : Prog DbfsError FileAttr :=
  guard_err (MAX_PATH_LEN <? blen name) NameTooLong;;
  attr ← dbfs_common_lookup parent name;
  file_attr attr.

(** The access mode is checked and otherwise ignored. *)
Definition dbfs_fuse_create (req : Request) (clock : nat -> SystemTime) (parent : Z) (name : bytes)
    (mode flags : Z) : Prog DbfsError FileAttr :=
  let m := Z.land flags O_ACCMODE in
  guard_err (negb ((m =? O_RDONLY) || (m =? O_WRONLY) || (m =? O_RDWR))) InvalidArgument;;
  let permission := Perm.from_bits_truncate (as_u16 mode) in
  ctime ← time_of_system (clock 0%nat);
  attr ← dbfs_common_create parent name (req_uid req) (req_gid req) ctime permission None None;
  file_attr attr.

Definition dbfs_fuse_mkdir (req : Request) (clock : nat -> SystemTime) (parent : Z) (name : bytes)
    (mode : Z) : Prog unit FileAttr :=
  let permission := Perm.insert (Perm.from_bits_truncate (as_u16 mode)) Perm.S_IFDIR in
  ctime ← time_of_system (clock 0%nat);
  attr ← map_err (fun _ => tt)
    (dbfs_common_create parent name (req_uid req) (req_gid req) ctime permission None None);
  file_attr attr.

Definition dbfs_fuse_truncate (req : Request) (clock : nat -> SystemTime) (ino size : Z)
  : Prog DbfsError DbfsAttr :=
  ctime ← time_of_system (clock 0%nat);
  dbfs_common_truncate (req_uid req) (req_gid req) ino ctime size.

Definition dbfs_fuse_rmdir (req : Request) (clock : nat -> SystemTime) (parent : Z) (name : bytes)
  : Prog DbfsError unit :=
  ctime ← time_of_system (clock 0%nat);
  dbfs_common_rmdir (req_uid req) (req_gid req) parent name ctime.

Definition dbfs_fuse_fallocate (req : Request) (clock : nat -> SystemTime)
    (ino offset size mode : Z) : Prog DbfsError unit :=
  ctime ← time_of_system (clock 0%nat);
  dbfs_common_fallocate (req_uid req) (req_gid req) ino offset size mode ctime.

Definition dbfs_fuse_rename (req : Request) (clock : nat -> SystemTime) (parent : Z) (name : bytes)
    (newparent : Z) (newname : bytes) (flags : Z) : Prog DbfsError unit :=
  ctime ← time_of_system (clock 0%nat);
  dbfs_common_rename (req_uid req) (req_gid req) parent name newparent newname flags ctime.

Definition dbfs_fuse_mknod (req : Request) (clock : nat -> SystemTime) (parent : Z) (name : bytes)
    (mode dev : Z) : Prog DbfsError DbfsAttr :=
  let permission := Perm.from_bits_truncate (as_u16 mode) in
  ctime ← time_of_system (clock 0%nat);
  dbfs_common_create parent name (req_uid req) (req_gid req) ctime permission None (Some dev).

(** ** [fuse/attr.rs] *)

Definition dbfs_fuse_getattr (ino : Z) : Prog DbfsError FileAttr :=
  attr ← dbfs_common_attr ino; file_attr attr.

Definition dbfs_fuse_statfs : Prog DbfsError DbfsFsStat := dbfs_common_statfs None None None.

Definition dbfs_fuse_access (req : Request) (ino mask : Z) : Prog DbfsError bool :=
  dbfs_common_access (req_uid req) (req_gid req) ino mask.

Definition dbfs_fuse_setxattr (req : Request) (clock : nat -> SystemTime) (ino : Z)
    (name value : bytes) : Prog DbfsError unit :=
  time ← time_of_system (clock 0%nat);
  dbfs_common_setxattr (req_uid req) (req_gid req) ino name value time.

Definition dbfs_fuse_getxattr (req : Request) (ino : Z) (name buf : bytes)
  : Prog DbfsError (Z * bytes) :=
  dbfs_common_getxattr (req_uid req) (req_gid req) ino name buf.

Definition dbfs_fuse_listxattr (req : Request) (ino : Z) (buf : bytes)
  : Prog DbfsError (Z * bytes) :=
  dbfs_common_listxattr ino buf.

Definition dbfs_fuse_removexattr (req : Request) (clock : nat -> SystemTime) (ino : Z)
    (name : bytes) : Prog DbfsError unit :=
  time ← time_of_system (clock 0%nat);
  dbfs_common_removexattr (req_uid req) (req_gid req) ino name time.

Definition dbfs_fuse_chmod (req : Request) (clock : nat -> SystemTime) (ino mode : Z)
  : Prog DbfsError DbfsAttr :=
  time ← time_of_system (clock 0%nat);
  dbfs_common_chmod (req_uid req) (req_gid req) ino (as_u16 mode) time.

Definition dbfs_fuse_chown (req : Request) (clock : nat -> SystemTime) (ino : Z)
    (uid gid : option Z) : Prog DbfsError DbfsAttr :=
  time ← time_of_system (clock 0%nat);
  dbfs_common_chown (req_uid req) (req_gid req) ino uid gid time.

(** [t.map(|t| match t { .. })] *)
Definition time_or_now {E} (now : SystemTime) (t : option TimeOrNow)
  : Prog E (option DbfsTimeSpec) :=
  match t with
  | None => ret None
  | Some Now => t ← time_of_system now; ret (Some t)
  | Some (SpecificTime t) => t ← time_of_system t; ret (Some t)
  end.

Definition dbfs_fuse_utimens (req : Request) (clock : nat -> SystemTime) (ino : Z)
    (atime mtime : option TimeOrNow) : Prog DbfsError DbfsAttr :=
  atime ← time_or_now (clock 0%nat) atime;
  mtime ← time_or_now (clock 1%nat) mtime;
  ctime ← time_of_system (clock 2%nat);
  dbfs_common_utimens (req_uid req) (req_gid req) ino atime mtime ctime.

(** ** [fuse/link.rs] *)

Definition dbfs_fuse_link (req : Request) (clock : nat -> SystemTime) (ino newparent : Z)
    (newname : bytes) : Prog DbfsError DbfsAttr :=
  guard_err (MAX_PATH_LEN <? blen newname) NameTooLong;;
  time ← time_of_system (clock 0%nat);
  dbfs_common_link (req_uid req) (req_gid req) ino newparent newname time.

Definition dbfs_fuse_symlink (req : Request) (clock : nat -> SystemTime) (parent : Z)
    (name link : bytes) : Prog DbfsError DbfsAttr :=
  guard_err (MAX_PATH_LEN <? blen name) NameTooLong;;
  time ← time_of_system (clock 0%nat);
  let permission := Perm.insert (Perm.from_bits_truncate Perm.MODE_777) Perm.S_IFLNK in
  dbfs_common_create parent name (req_uid req) (req_gid req) time permission (Some link) None.

(** The whole buffer is returned, not the length that was read. *)
Definition dbfs_fuse_readlink (ino : Z) : Prog DbfsError bytes :=
  '(_, buf) ← dbfs_common_readlink ino (replicate (Z.to_nat MAX_PATH_LEN) x00);
  ret buf.

Definition dbfs_fuse_unlink (req : Request) (clock : nat -> SystemTime) (parent : Z) (name : bytes)
  : Prog DbfsError unit :=
  time ← time_of_system (clock 0%nat);
  dbfs_common_unlink (req_uid req) (req_gid req) parent name None time.

(** ** [fuse/file.rs] *)

Definition dbfs_fuse_read (ino offset : Z) (buf : bytes) : Prog DbfsError (Z * bytes) :=
  assert_prog (0 <=? offset);; dbfs_common_read ino buf (as_u64 offset).

Definition dbfs_fuse_write (ino offset : Z) (buf : bytes) : Prog DbfsError Z :=
  assert_prog (0 <=? offset);; dbfs_common_write ino buf (as_u64 offset).

Definition dbfs_fuse_releasedir (ino : Z) : Prog DbfsError unit :=
  pop_readdir_table ino;; ret tt.

Definition dbfs_fuse_open (req : Request) (ino flags : Z) : Prog Z unit :=
  let m := Z.land flags O_ACCMODE in
  access_mask ←
    (if m =? O_RDONLY then
       guard_err (negb (Z.land flags O_TRUNC =? 0)) EACCES;;
       ret (if negb (Z.land flags FMODE_EXEC =? 0) then X_OK else R_OK)
     else if m =? O_WRONLY then ret W_OK
     else if m =? O_RDWR then ret (Z.lor R_OK W_OK)
     else throw EINVAL);
  map_err errno (dbfs_common_open ino (req_uid req) (req_gid req) (as_u16 access_mask)).

Definition dbfs_fuse_opendir (req : Request) (ino flags : Z) : Prog DbfsError unit :=
  let m := Z.land flags O_ACCMODE in
  access_mask ←
    (if m =? O_RDONLY then
       guard_err (negb (Z.land flags O_TRUNC =? 0)) AccessError;; ret R_OK
     else if m =? O_WRONLY then ret W_OK
     else if m =? O_RDWR then ret (Z.lor R_OK W_OK)
     else throw InvalidArgument);
  dbfs_common_open ino (req_uid req) (req_gid req) (as_u16 access_mask).

Definition dbfs_fuse_copy_file_range (clock : nat -> SystemTime)
    (ino_in offset_in ino_out offset_out len : Z) : Prog DbfsError Z :=
  time ← time_of_system (clock 0%nat);
  dbfs_common_copy_file_range ino_in offset_in ino_out offset_out len time.

(** *** Directories

    [item] makes the reply entry, [full] is [add], given the entries that are
    in the reply: it answers whether the buffer is full, and then does not add
    the entry. *)

Section Directory.
Context {Item : Type} (full : list Item -> Item -> bool)
  (item : DbfsDirEntry -> Z -> Prog Empty_set Item) (plus : bool) (reply : list Item -> Reply).

(** [for i in 0..res { .. }]: the entries in the reply, the offset, and the
    entry that did not fit. *)
Fixpoint readdir_add (es : list DbfsDirEntry) (repl : list Item) (offset : Z)
  : Prog Empty_set (list Item * Z * option DbfsDirEntry) :=
  match es with
  | [] => ret (repl, offset, None)
  | x :: es' =>
      next ← add_i64 (as_i64 (de_offset x)) 1;
      i ← item x next;
      if full repl i then ret (repl, offset, Some x)
      else readdir_add es' (repl ++ [i]) next
  end.

Definition readdir_push (ino : Z) (x : DbfsDirEntry) : Prog Empty_set unit :=
  push_readdir_table ino {| rd_offset := de_offset x; rd_key := de_name x |}.

Fixpoint readdir_reply (fuel : nat) (ino offset : Z) (repl : list Item) : Prog Empty_set Reply :=
  match fuel with
  | O => panic
  | S fuel =>
      res ← attempt (dbfs_common_readdir ino (as_u64 offset) plus);
      match res with
      | inl _ => ret (RError ENOENT)
      | inr (res, entries) =>
          if res =? 0 then ret (reply repl)
          else
            '(repl, offset, stop) ← readdir_add entries repl offset;
            match stop with
            | Some x => readdir_push ino x;; ret (reply repl)
            | None =>
                x ← unwrap_option (entries !! Z.to_nat (res - 1));
                readdir_push ino x;;
                readdir_reply fuel ino offset repl
            end
      end
  end.
End Directory.

Definition dir_item (x : DbfsDirEntry) (next : Z) : Prog Empty_set DirItem :=
  ret {| di_ino := de_ino x; di_offset := next; di_kind := fuse_file_type (de_kind x);
         di_name := de_name x |}.

(** [loop]; [fuel] bounds the rounds: one reading of the directory takes all of
    it, the next one finds its end. *)
Definition dbfs_fuse_readdir (fuel : nat) (full : list DirItem -> DirItem -> bool) (ino offset : Z)
  : Prog Empty_set Reply :=
  assert_prog (0 <=? offset);;
  readdir_reply full dir_item false RDirectory fuel ino offset [].

Definition dir_plus_item (x : DbfsDirEntry) (next : Z) : Prog Empty_set DirPlusItem :=
  attr ← unwrap_option (de_attr x);
  attr ← file_attr attr;
  ret {| dp_ino := de_ino x; dp_offset := next; dp_name := de_name x; dp_ttl := TTL;
         dp_attr := attr; dp_generation := 0 |}.

Definition dbfs_fuse_readdirplus (fuel : nat) (full : list DirPlusItem -> DirPlusItem -> bool)
    (ino offset : Z) : Prog Empty_set Reply :=
  assert_prog (0 <=? offset);;
  readdir_reply full dir_plus_item true RDirectoryPlus fuel ino offset [].
End Ops.

(** ** [fuse/mod.rs] and [fuse/sblk.rs]: the handlers *)

Section Handlers.
Context `{Config}.

(** [init], with the ids of the process; opening the database and setting up
    the cache are the platform's. *)
Definition fuse_init (uid gid : Z) (clock : nat -> SystemTime) : Prog Z unit :=
  init_db FILE_SIZE;;
  time ← time_of_system (clock 0%nat);
  map_err (fun _ => -1) (dbfs_common_root_inode uid gid time);;
  ret tt.

(** [destroy]; syncing the file of the database is the platform's. *)
Definition dbfs_fuse_destroy : Prog Empty_set unit := unwrap dbfs_common_umount.

Definition fuse_destroy : Prog Empty_set unit := dbfs_fuse_destroy.

Definition fuse_lookup (parent : Z) (name : bytes) : Prog Empty_set Reply :=
  name ← to_str name;
  answer errno (dbfs_fuse_lookup parent name) (fun attr => ret (REntry TTL attr 0)).

Definition fuse_getattr (ino : Z) : Prog Empty_set Reply :=
  answer errno (dbfs_fuse_getattr ino) (fun attr => ret (RAttr TTL attr)).

(** [Ok(attr) => reply.attr(&TTL, &attr.into())] *)
Definition reply_attr (attr : DbfsAttr) : Prog Empty_set Reply :=
  attr ← file_attr attr; ret (RAttr TTL attr).
Definition reply_entry (attr : DbfsAttr) : Prog Empty_set Reply :=
  attr ← file_attr attr; ret (REntry TTL attr 0).
Definition reply_ok {A} (_ : A) : Prog Empty_set Reply := ret ROk.

(** Only the first of the four changes that is asked for is made. *)
Definition fuse_setattr (req : Request) (clock : nat -> SystemTime) (ino : Z)
    (mode uid gid size : option Z) (atime mtime : option TimeOrNow) : Prog Empty_set Reply :=
  match mode with
  | Some mode => answer errno (dbfs_fuse_chmod req clock ino mode) reply_attr
  | None =>
      if bool_decide (is_Some uid) || bool_decide (is_Some gid)
      then answer errno (dbfs_fuse_chown req clock ino uid gid) reply_attr
      else
        match size with
        | Some size => answer errno (dbfs_fuse_truncate req clock ino size) reply_attr
        | None =>
            if bool_decide (is_Some atime) || bool_decide (is_Some mtime)
            then answer errno (dbfs_fuse_utimens req clock ino atime mtime) reply_attr
            else ret RNothing
        end
  end.

Definition fuse_readlink (ino : Z) : Prog Empty_set Reply :=
  answer errno (dbfs_fuse_readlink ino) (fun data => ret (RData data)).

Definition fuse_mknod (req : Request) (clock : nat -> SystemTime) (parent : Z) (name : bytes)
    (mode rdev : Z) : Prog Empty_set Reply :=
  name ← to_str name;
  answer errno (dbfs_fuse_mknod req clock parent name mode rdev) reply_entry.

Definition fuse_mkdir (req : Request) (clock : nat -> SystemTime) (parent : Z) (name : bytes)
    (mode : Z) : Prog Empty_set Reply :=
  name ← to_str name;
  answer no_entry (dbfs_fuse_mkdir req clock parent name mode) (fun attr => ret (REntry TTL attr 0)).

Definition fuse_unlink (req : Request) (clock : nat -> SystemTime) (parent : Z) (name : bytes)
  : Prog Empty_set Reply :=
  name ← to_str name; answer errno (dbfs_fuse_unlink req clock parent name) reply_ok.

Definition fuse_rmdir (req : Request) (clock : nat -> SystemTime) (parent : Z) (name : bytes)
  : Prog Empty_set Reply :=
  name ← to_str name; answer errno (dbfs_fuse_rmdir req clock parent name) reply_ok.

Definition fuse_symlink (req : Request) (clock : nat -> SystemTime) (parent : Z)
    (name link : bytes) : Prog Empty_set Reply :=
  name ← to_str name; link ← to_str link;
  answer errno (dbfs_fuse_symlink req clock parent name link) reply_entry.

Definition fuse_rename (req : Request) (clock : nat -> SystemTime) (parent : Z) (name : bytes)
    (newparent : Z) (newname : bytes) (flags : Z) : Prog Empty_set Reply :=
  name ← to_str name; newname ← to_str newname;
  answer errno (dbfs_fuse_rename req clock parent name newparent newname flags) reply_ok.

Definition fuse_link (req : Request) (clock : nat -> SystemTime) (ino newparent : Z)
    (newname : bytes) : Prog Empty_set Reply :=
  newname ← to_str newname;
  answer errno (dbfs_fuse_link req clock ino newparent newname) reply_entry.

Definition open_flags (direct_io : bool) : Z := if direct_io then FOPEN_DIRECT_IO else 0.

Definition fuse_open (direct_io : bool) (req : Request) (ino flags : Z) : Prog Empty_set Reply :=
  answer (fun e => e) (dbfs_fuse_open req ino flags)
    (fun _ => ret (ROpened 0 (open_flags direct_io))).

(** The buffer comes from the allocator; the reply is the part that was read. *)
Definition fuse_read (ino offset size : Z) : Prog Empty_set Reply :=
  '(ptr, data) ← alloc size;
  reply ← answer no_entry (dbfs_fuse_read ino offset data)
    (fun '(x, data) =>
       assert_prog (x <=? blen data);; ret (RData (slice data 0 x)));
  dealloc ptr size;;
  ret reply.

Definition fuse_write (ino offset : Z) (data : bytes) : Prog Empty_set Reply :=
  answer no_entry (dbfs_fuse_write ino offset data) (fun x => ret (RWritten (as_u32 x))).

Definition fuse_flush (ino : Z) : Prog Empty_set Reply := ret ROk.
Definition fuse_release (ino : Z) : Prog Empty_set Reply := ret ROk.
(** Nothing is synchronised. *)
Definition fuse_fsync (ino : Z) (datasync : bool) : Prog Empty_set Reply := ret ROk.
Definition fuse_fsyncdir (ino : Z) (datasync : bool) : Prog Empty_set Reply := ret ROk.

(** [forget] and [batch_forget] have no reply; they only log. *)
Definition fuse_forget (ino nlookup : Z) : Prog Empty_set Reply := ret RNothing.
Fixpoint fuse_batch_forget (nodes : list Z) : Prog Empty_set Reply :=
  match nodes with
  | [] => ret RNothing
  | _ :: nodes => fuse_batch_forget nodes
  end.

Definition fuse_opendir (direct_io : bool) (req : Request) (ino flags : Z)
  : Prog Empty_set Reply :=
  answer errno (dbfs_fuse_opendir req ino flags)
    (fun _ => ret (ROpened 0 (open_flags direct_io))).

Definition fuse_readdir (fuel : nat) (full : list DirItem -> DirItem -> bool) (ino offset : Z)
  : Prog Empty_set Reply := dbfs_fuse_readdir fuel full ino offset.
Definition fuse_readdirplus (fuel : nat) (full : list DirPlusItem -> DirPlusItem -> bool)
    (ino offset : Z) : Prog Empty_set Reply := dbfs_fuse_readdirplus fuel full ino offset.

Definition fuse_releasedir (ino : Z) : Prog Empty_set Reply :=
  unwrap (dbfs_fuse_releasedir ino);; ret ROk.

Definition fuse_statfs : Prog Empty_set Reply :=
  answer no_entry dbfs_fuse_statfs
    (fun s => ret (RStatfs (f_blocks s) (f_bfree s) (f_bavail s) (f_files s) (f_ffree s)
                     (as_u32 (f_bsize s)) (as_u32 (f_namemax s)) (as_u32 (f_frsize s)))).

Definition fuse_setxattr (req : Request) (clock : nat -> SystemTime) (ino : Z)
    (name value : bytes) : Prog Empty_set Reply :=
  name ← to_str name; answer errno (dbfs_fuse_setxattr req clock ino name value) reply_ok.

Definition fuse_getxattr (req : Request) (ino : Z) (name : bytes) (size : Z)
  : Prog Empty_set Reply :=
  let buf := replicate (Z.to_nat size) x00 in
  name ← to_str name;
  answer errno (dbfs_fuse_getxattr req ino name buf)
    (fun '(x, buf) =>
       if size =? 0 then ret (RXattrSize (as_u32 x))
       else assert_prog (x <=? blen buf);; ret (RData (slice buf 0 x))).

(** The whole buffer is sent. *)
Definition fuse_listxattr (req : Request) (ino size : Z) : Prog Empty_set Reply :=
  let buf := replicate (Z.to_nat size) x00 in
  answer errno (dbfs_fuse_listxattr req ino buf)
    (fun '(x, buf) => if size =? 0 then ret (RXattrSize (as_u32 x)) else ret (RData buf)).

Definition fuse_removexattr (req : Request) (clock : nat -> SystemTime) (ino : Z) (name : bytes)
  : Prog Empty_set Reply :=
  name ← to_str name; answer errno (dbfs_fuse_removexattr req clock ino name) reply_ok.

Definition fuse_access (req : Request) (ino mask : Z) : Prog Empty_set Reply :=
  answer errno (dbfs_fuse_access req ino mask)
    (fun b => if b then ret ROk else ret (RError ENOENT)).

Definition fuse_create (req : Request) (clock : nat -> SystemTime) (parent : Z) (name : bytes)
    (mode flags : Z) : Prog Empty_set Reply :=
  name ← to_str name;
  answer errno (dbfs_fuse_create req clock parent name mode flags)
    (fun attr => ret (RCreated TTL attr 0 0 0)).

Definition fuse_fallocate (req : Request) (clock : nat -> SystemTime)
    (ino offset length mode : Z) : Prog Empty_set Reply :=
  answer errno
    (dbfs_fuse_fallocate req clock ino (as_u64 offset) (as_u64 length) (as_u32 mode)) reply_ok.

Definition fuse_copy_file_range (clock : nat -> SystemTime)
    (ino_in offset_in ino_out offset_out len : Z) : Prog Empty_set Reply :=
  answer errno
    (dbfs_fuse_copy_file_range clock ino_in (as_u64 offset_in) ino_out (as_u64 offset_out) len)
    (fun x => ret (RWritten (as_u32 x))).
End Handlers.
