(* ===== verification/System.v ===== *)
(** * The file system as a transition system

    The calls that the kernel and FUSE adapters make are the steps of a
    transition system whose states are worlds.  Every call, with any
    arguments of the Rust types, on any platform and whatever its outcome,
    keeps the stored values well typed ([Typed.v]); almost every call is
    failure-atomic ([Atomic.v]). *)

From S2P Require Import Prelude Jammdb Effects Run RustStd Common Buckets Slices Access Inode.
From S2P Require Import Create FsType Link Truncate File Rename Attr Readdir Safe Typed Atomic Samples.

(** ** Calls *)

Inductive Call :=
  | CallMkfs (size : Z)
  | CallRoot (uid gid : Z) (t : DbfsTimeSpec)
  | CallUmount
  | CallAttr (ino : Z)
  | CallLookup (dir : Z) (name : bytes)
  | CallAccess (uid gid ino mask : Z)
  | CallOpen (ino uid gid mask : Z)
  | CallReaddir (ino offset : Z) (plus : bool)
  | CallReadlink (ino : Z) (buf : bytes)
  | CallStatfs (blk_size magic flags : option Z)
  | CallCreate (dir : Z) (name : bytes) (uid gid : Z) (t : DbfsTimeSpec) (permission : Z)
      (target : option bytes) (dev : option Z)
  | CallLink (uid gid ino new_ino : Z) (name : bytes) (t : DbfsTimeSpec)
  | CallUnlink (uid gid dir : Z) (name : bytes) (ino : option Z) (t : DbfsTimeSpec)
  | CallRmdir (uid gid dir : Z) (name : bytes) (t : DbfsTimeSpec)
  | CallRename (uid gid old_dir : Z) (old_name : bytes) (new_dir : Z) (new_name : bytes)
      (flags : Z) (t : DbfsTimeSpec)
  | CallRead (ino : Z) (buf : bytes) (offset : Z)
  | CallWrite (ino : Z) (buf : bytes) (offset : Z)
  | CallCopyRange (src offset_src dest offset_dest len : Z) (t : DbfsTimeSpec)
  | CallTruncate (uid gid ino : Z) (t : DbfsTimeSpec) (size : Z)
  | CallFallocate (uid gid ino offset size mode : Z) (t : DbfsTimeSpec)
  | CallSetxattr (uid gid ino : Z) (key value : bytes) (t : DbfsTimeSpec)
  | CallGetxattr (uid gid ino : Z) (key buf : bytes)
  | CallListxattr (ino : Z) (buf : bytes)
  | CallRemovexattr (uid gid ino : Z) (key : bytes) (t : DbfsTimeSpec)
  | CallChmod (uid gid ino mode : Z) (t : DbfsTimeSpec)
  | CallChown (uid gid ino : Z) (new_uid new_gid : option Z) (t : DbfsTimeSpec)
  | CallUtimens (uid gid ino : Z) (atime mtime : option DbfsTimeSpec) (t : DbfsTimeSpec).

Section Exec.
Context `{Config}.

(** The program of a call, without its result. *)
Definition exec (c : Call) : Prog DbfsError unit :=
  match c with
  | CallMkfs size => init_db size
  | CallRoot uid gid t => dbfs_common_root_inode uid gid t;; ret tt
  | CallUmount => dbfs_common_umount
  | CallAttr ino => dbfs_common_attr ino;; ret tt
  | CallLookup dir name => dbfs_common_lookup dir name;; ret tt
  | CallAccess uid gid ino mask => dbfs_common_access uid gid ino mask;; ret tt
  | CallOpen ino uid gid mask => dbfs_common_open ino uid gid mask
  | CallReaddir ino offset plus => dbfs_common_readdir ino offset plus;; ret tt
  | CallReadlink ino buf => dbfs_common_readlink ino buf;; ret tt
  | CallStatfs b m f => dbfs_common_statfs b m f;; ret tt
  | CallCreate dir name uid gid t permission target dev =>
      dbfs_common_create dir name uid gid t permission target dev;; ret tt
  | CallLink uid gid ino new_ino name t => dbfs_common_link uid gid ino new_ino name t;; ret tt
  | CallUnlink uid gid dir name ino t => dbfs_common_unlink uid gid dir name ino t
  | CallRmdir uid gid dir name t => dbfs_common_rmdir uid gid dir name t
  | CallRename uid gid old_dir old_name new_dir new_name flags t =>
      dbfs_common_rename uid gid old_dir old_name new_dir new_name flags t
  | CallRead ino buf offset => dbfs_common_read ino buf offset;; ret tt
  | CallWrite ino buf offset => dbfs_common_write ino buf offset;; ret tt
  | CallCopyRange src os dest od len t => dbfs_common_copy_file_range src os dest od len t;; ret tt
  | CallTruncate uid gid ino t size => dbfs_common_truncate uid gid ino t size;; ret tt
  | CallFallocate uid gid ino offset size mode t =>
      dbfs_common_fallocate uid gid ino offset size mode t
  | CallSetxattr uid gid ino key value t => dbfs_common_setxattr uid gid ino key value t
  | CallGetxattr uid gid ino key buf => dbfs_common_getxattr uid gid ino key buf;; ret tt
  | CallListxattr ino buf => dbfs_common_listxattr ino buf;; ret tt
  | CallRemovexattr uid gid ino key t => dbfs_common_removexattr uid gid ino key t
  | CallChmod uid gid ino mode t => dbfs_common_chmod uid gid ino mode t;; ret tt
  | CallChown uid gid ino u g t => dbfs_common_chown uid gid ino u g t;; ret tt
  | CallUtimens uid gid ino atime mtime t => dbfs_common_utimens uid gid ino atime mtime t;; ret tt
  end.

(** The arguments that the Rust types bound and that are stored or used as
    positions. *)
Definition call_ok (c : Call) : Prop :=
  match c with
  | CallCreate dir _ _ _ _ _ _ _ => u64 dir
  | CallLink _ _ ino _ _ _ => u64 ino
  | CallRename _ _ old_dir _ new_dir _ _ _ => u64 old_dir /\ u64 new_dir
  | CallWrite _ _ offset => u64 offset
  | CallCopyRange _ os _ od len _ => u64 os /\ u64 od /\ u64 len
  | CallTruncate _ _ _ _ size => u64 size
  | _ => True
  end.

(** ** Typing the values the calls store *)

Lemma typed_fixed k w v : In (k, w) key_widths -> length v = w -> typed_value k v.
Proof.
  intros Hin Hl. assert (Hk : forall w', In (k, w') key_widths -> w' = w).
  { intros w' Hin'. simpl in Hin, Hin'.
    repeat match goal with H : _ \/ _ |- _ => destruct H as [H|H] end; try done;
      simplify_eq; try done;
      match goal with H : ?a = ?b |- _ => vm_compute in H; discriminate H end. }
  assert (Hd : ~ bs "data:" `prefix_of` k /\ ~ bs "zdata:" `prefix_of` k).
  { assert (Hall : Forall (fun kw => ~ bs "data:" `prefix_of` kw.1 /\ ~ bs "zdata:" `prefix_of` kw.1)
      key_widths) by (by apply (bool_decide_unpack _)).
    rewrite list.Forall_forall in Hall. apply list_elem_of_In in Hin. exact (Hall _ Hin). }
  split; [|tauto|tauto]. intros w' Hin'. rewrite (Hk w' Hin'). done.
Qed.

Lemma typed_no_key k v :
  (forall w, ~ In (k, w) key_widths) -> ~ bs "data:" `prefix_of` k -> ~ bs "zdata:" `prefix_of` k ->
  typed_value k v.
Proof. intros H1 H2 H3. split; [|tauto|tauto]. intros w Hw. by destruct (H1 w). Qed.

Lemma typed_be k w z : In (k, w) key_widths -> typed_value k (to_be w z).
Proof. intros Hin. eapply typed_fixed; [exact Hin|]. apply length_to_be. Qed.
Lemma typed_time k t : In (k, 12%nat) key_widths -> typed_value k (time_to_be_bytes t).
Proof. intros Hin. eapply typed_fixed; [exact Hin|]. apply length_time_to_be_bytes. Qed.

Lemma typed_entry name v : is_Some (parse_usize v) -> typed_value (generate_data_key name) v.
Proof.
  intros Hv. split; [|done|].
  - intros w Hin. simpl in Hin. repeat destruct Hin as [Hin|Hin]; try done;
      apply (f_equal (take 5 ∘ fst)) in Hin; vm_compute in Hin; discriminate Hin.
  - intros [l Hl]. apply (f_equal (take 5)) in Hl. vm_compute in Hl. discriminate Hl.
Qed.
Lemma typed_fmt name n : u64 n -> typed_value (generate_data_key name) (fmt_usize n).
Proof. intros Hn. apply typed_entry. rewrite parse_fmt_usize by done. eauto. Qed.

Lemma typed_slice i v :
  u32 i -> blen v = SLICE_SIZE -> typed_value (generate_data_key_with_number i) v.
Proof.
  intros Hi Hv. split; [| |eauto].
  - intros w Hin. simpl in Hin. repeat destruct Hin as [Hin|Hin]; try done;
      apply (f_equal (take 5 ∘ fst)) in Hin; vm_compute in Hin; discriminate Hin.
  - intros [l Hl]. apply (f_equal (take 5)) in Hl. vm_compute in Hl. discriminate Hl.
Qed.

Lemma typed_link v : typed_value k_data v.
Proof.
  apply typed_no_key; [|by apply (bool_decide_unpack _)..].
  intros w Hin. simpl in Hin. repeat destruct Hin as [Hin|Hin]; try done;
    apply (f_equal fst) in Hin; vm_compute in Hin; discriminate Hin.
Qed.

Lemma typed_xattr key v ns : parse_xattr_namespace key = inr ns -> typed_value key v.
Proof.
  intros Hp. apply typed_no_key.
  - intros w Hin. assert (Hall : Forall (fun kw => parse_xattr_namespace kw.1 = inl NotSupported) key_widths)
      by (repeat (apply list.Forall_cons; split; [by vm_compute|]); apply list.Forall_nil_2).
    rewrite list.Forall_forall in Hall. apply list_elem_of_In, Hall in Hin. simpl in Hin. congruence.
  - intros [l ->]. revert Hp. unfold parse_xattr_namespace, starts_with.
    repeat (rewrite bool_decide_eq_false_2
      by (intros [l' Hl]; apply (f_equal (take 5)) in Hl; vm_compute in Hl; discriminate Hl)). done.
  - intros [l ->]. revert Hp. unfold parse_xattr_namespace, starts_with.
    repeat (rewrite bool_decide_eq_false_2
      by (intros [l' Hl]; apply (f_equal (take 5)) in Hl; vm_compute in Hl; discriminate Hl)). done.
Qed.
End Exec.

(** Types a stored value. *)
Ltac in_widths := simpl; repeat first [left; reflexivity | right].
Ltac typed :=
  lazymatch goal with
  | |- typed_value _ (to_be _ _) => apply typed_be; in_widths; fail
  | |- typed_value _ (time_to_be_bytes _) => apply typed_time; in_widths; fail
  | |- typed_value (generate_data_key _) (fmt_usize _) => apply typed_fmt; eauto with word
  | |- typed_value k_data _ => apply typed_link
  | _ => eapply typed_xattr; eassumption
  end.

(** One step of a [tsafe] proof, by the shape of the program. *)
Ltac tstep :=
  lazymatch goal with
  | |- tsafe (bind _ _) _ => apply tsafe_bind
  | |- tsafe (q _) _ => apply tsafe_map_err
  | |- tsafe (map_err _ _) _ => apply tsafe_map_err
  | |- tsafe (unwrap _) _ => apply tsafe_unwrap
  | |- tsafe (attempt _) _ => apply tsafe_attempt; [intros|]
  | |- tsafe (tx_q _ _) _ => apply tsafe_with_tx; [done|]
  | |- tsafe (tx_unwrap _ _) _ => apply tsafe_with_tx; [done|]
  | |- tsafe (with_tx _ _ _) _ => apply tsafe_with_tx; [done|]
  | |- tsafe (ret _) _ => apply tsafe_ret
  | |- tsafe (throw _) _ => exact I
  | |- tsafe panic _ => exact I
  | |- tsafe (Done _) _ => simpl
  | |- tsafe (unwrap_option _) _ => apply tsafe_unwrap_option; intros
  | |- tsafe (parse_ino _) _ => apply tsafe_unwrap_option; intros
  | |- tsafe (get_bucket _ _) _ => eapply tsafe_mono; [apply tsafe_get_bucket|intros; cbv beta]
  | |- tsafe (create_bucket _ _) _ => eapply tsafe_mono; [apply tsafe_create_bucket|intros; cbv beta]
  | |- tsafe (delete_bucket _ _) _ => eapply tsafe_mono; [apply tsafe_delete_bucket|intros; cbv beta]
  | |- tsafe (bdelete _ _) _ => eapply tsafe_mono; [apply tsafe_bdelete|intros; cbv beta]
  | |- tsafe (put _ _ _) _ =>
      eapply tsafe_mono; [apply tsafe_put; try solve [typed]|intros; cbv beta]
  | |- tsafe commit _ => eapply tsafe_mono; [apply tsafe_commit|intros; cbv beta]
  | |- tsafe (get_kv _ _) _ => eapply tsafe_mono; [apply tsafe_get_kv|intros; cbv beta]
  | |- tsafe (kv_pairs _) _ => eapply tsafe_mono; [apply tsafe_kv_pairs|intros; cbv beta]
  | |- tsafe (cursor _) _ => eapply tsafe_mono; [apply tsafe_cursor|intros; cbv beta]
  | |- tsafe (range _ _ _) _ => eapply tsafe_mono; [apply tsafe_range|intros; cbv beta]
  | |- tsafe (read_be _ _ _) _ => eapply tsafe_mono; [apply tsafe_read_be|intros ? []; cbv beta]
  | |- tsafe (read_time _ _) _ => eapply tsafe_mono; [apply tsafe_read_time|intros; cbv beta]
  | |- tsafe (guard_err _ _) _ => eapply tsafe_mono; [apply tsafe_guard_err|intros; cbv beta]
  | |- tsafe (assert_prog _) _ => eapply tsafe_mono; [apply tsafe_assert|intros; cbv beta]
  | |- tsafe (add64 _ _) _ => eapply tsafe_mono; [apply tsafe_wrapping; lia|intros; cbv beta]
  | |- tsafe (sub64 _ _) _ => eapply tsafe_mono; [apply tsafe_wrapping; lia|intros; cbv beta]
  | |- tsafe (mul64 _ _) _ => eapply tsafe_mono; [apply tsafe_wrapping; lia|intros; cbv beta]
  | |- tsafe (add32 _ _) _ => eapply tsafe_mono; [apply tsafe_wrapping; lia|intros; cbv beta]
  | |- tsafe (sub32 _ _) _ => eapply tsafe_mono; [apply tsafe_wrapping; lia|intros; cbv beta]
  | |- tsafe (div64 _ _) _ => unfold div64
  | |- tsafe (ino_load) _ => eapply tsafe_mono; [apply tsafe_ino_load|intros; cbv beta]
  | |- tsafe (ino_fetch_add _) _ => eapply tsafe_mono; [apply tsafe_ino_fetch_add|intros; cbv beta]
  | |- tsafe (check_err ?o) _ => destruct o eqn:?; [exact I|apply tsafe_ret]
  | |- tsafe (match ?x with _ => _ end) _ => destruct x eqn:?
  end.
Ltac tgo := repeat (tstep; cbv beta zeta).

Section TypedCalls.
Context `{Config}.

Lemma tsafe_attr ino : tsafe (dbfs_common_attr ino) (fun _ => True).
Proof. unfold dbfs_common_attr. tgo; done. Qed.
Lemma tsafe_lookup dir name : tsafe (dbfs_common_lookup dir name) (fun _ => True).
Proof. unfold dbfs_common_lookup. tgo; apply tsafe_attr. Qed.
Lemma tsafe_access uid gid ino mask : tsafe (dbfs_common_access uid gid ino mask) (fun _ => True).
Proof. unfold dbfs_common_access. tgo; done. Qed.
Lemma tsafe_open ino uid gid mask : tsafe (dbfs_common_open ino uid gid mask) (fun _ => True).
Proof.
  unfold dbfs_common_open. tgo. eapply tsafe_mono; [apply tsafe_attr|intros; cbv beta]. tgo; done.
Qed.
Lemma tsafe_init_db {E} size : tsafe (init_db (E := E) size) (fun _ => True).
Proof. unfold init_db. tgo; try exact I; tgo; done. Qed.
Lemma tsafe_root uid gid t : tsafe (dbfs_common_root_inode uid gid t) (fun _ => True).
Proof.
  unfold dbfs_common_root_inode. tgo; try exact I; tgo; try done.
  all: apply typed_entry; eexists; vm_compute; reflexivity.
Qed.
Lemma tsafe_umount : tsafe dbfs_common_umount (fun _ => True).
Proof. unfold dbfs_common_umount. tgo; done. Qed.
Lemma tsafe_statfs b m f : tsafe (dbfs_common_statfs b m f) (fun _ => True).
Proof. unfold dbfs_common_statfs. tgo; done. Qed.
Lemma tsafe_readlink ino buf : tsafe (dbfs_common_readlink ino buf) (fun _ => True).
Proof. unfold dbfs_common_readlink. tgo; done. Qed.
Lemma tsafe_unlink uid gid dir name ino t :
  tsafe (dbfs_common_unlink uid gid dir name ino t) (fun _ => True).
Proof. unfold dbfs_common_unlink. tgo; done. Qed.
Lemma tsafe_rmdir uid gid dir name t :
  tsafe (dbfs_common_rmdir uid gid dir name t) (fun _ => True).
Proof. unfold dbfs_common_rmdir. tgo; done. Qed.
Lemma tsafe_create dir name uid gid t permission target dev :
  u64 dir -> tsafe (dbfs_common_create dir name uid gid t permission target dev) (fun _ => True).
Proof. intros Hd. unfold dbfs_common_create. tgo; done. Qed.
Lemma tsafe_link uid gid ino new_ino name t :
  u64 ino -> tsafe (dbfs_common_link uid gid ino new_ino name t) (fun _ => True).
Proof.
  intros Hi. unfold dbfs_common_link. tgo.
  eapply tsafe_mono; [apply tsafe_attr|intros; cbv beta]. tgo. apply tsafe_attr.
Qed.

(** Apply the lemma of a callee. *)
Local Ltac tcall L := eapply tsafe_mono; [apply L|intros; cbv beta in *].
Local Ltac tcall_pair L := eapply tsafe_mono; [apply L|intros [? ?] ?; cbv beta in *].

Lemma tsafe_rename_read_old uid gid dir name :
  tsafe (rename_read_old uid gid dir name)
    (fun r => u64 (ro_number r) /\ ro_key r = generate_data_key name).
Proof.
  unfold rename_read_old. tgo. cbn [ro_number ro_key].
  split; [eapply parse_usize_u64; eassumption|reflexivity].
Qed.
Lemma tsafe_rename_read_new uid gid dir name :
  tsafe (rename_read_new uid gid dir name)
    (fun r => forall m, rn_number r = Some m -> u64 m /\ rn_key r = generate_data_key name).
Proof.
  unfold rename_read_new. tgo; cbn [rn_number rn_key]; intros m; [|done..].
  intros [= <-]. split; [eapply parse_usize_u64; eassumption|reflexivity].
Qed.
Lemma tsafe_rename_exchange old new old_dir new_dir old_name new_name t :
  u64 old_dir -> u64 new_dir -> u64 (ro_number old) /\ ro_key old = generate_data_key old_name ->
  (forall m, rn_number new = Some m -> u64 m /\ rn_key new = generate_data_key new_name) ->
  tsafe (rename_exchange old new old_dir new_dir t) (fun _ => True).
Proof.
  intros Ho Hn [Hm Hk] Hnew. unfold rename_exchange.
  destruct (rn_number new) as [m'|]; [|exact I]. destruct (Hnew m' eq_refl) as [Hm' Hk'].
  rewrite Hk, Hk'. tgo; done.
Qed.
Lemma tsafe_drop_target p sz new m t : tsafe (rename_drop_target p sz new m t) (fun _ => True).
Proof.
  unfold rename_drop_target. tgo; try done.
  (** the link count cannot have been read in eight bytes *)
  exfalso. match goal with H : forall w', In _ key_widths -> _ |- _ =>
    specialize (H 4%nat ltac:(simpl; tauto)) end. done.
Qed.
Lemma tsafe_rename_move old new uid gid old_dir new_dir old_name new_name t :
  u64 new_dir -> u64 (ro_number old) /\ ro_key old = generate_data_key old_name ->
  (forall m, rn_number new = Some m -> u64 m /\ rn_key new = generate_data_key new_name) ->
  tsafe (rename_move old new uid gid old_dir new_dir new_name t) (fun _ => True).
Proof.
  intros Hn [Hm Hk] Hnew. unfold rename_move. rewrite Hk.
  destruct (rn_number new) as [m'|].
  - destruct (Hnew m' eq_refl) as [Hm' Hk']. rewrite Hk'. tgo; try done.
    all: tcall tsafe_drop_target; tgo; done.
  - tgo; done.
Qed.
Lemma tsafe_rename uid gid old_dir old_name new_dir new_name flags t :
  u64 old_dir -> u64 new_dir ->
  tsafe (dbfs_common_rename uid gid old_dir old_name new_dir new_name flags t) (fun _ => True).
Proof.
  intros Ho Hn. unfold dbfs_common_rename. tgo. tcall tsafe_rename_read_old. tgo.
  tcall tsafe_rename_read_new. destruct (negb _).
  - eapply tsafe_rename_exchange; eauto.
  - eapply tsafe_rename_move; eauto.
Qed.

Lemma tsafe_for_each {E A} (l : list A) (body : A -> Prog E unit) :
  (forall x, tsafe (body x) (fun _ => True)) -> tsafe (for_each l body) (fun _ => True).
Proof. intros Hb. induction l; simpl; tgo; [done|]. tcall Hb. done. Qed.

Lemma as_u32_range i : u32 (as_u32 i).
Proof. apply Z.mod_pos_bound. lia. Qed.

Lemma tsafe_free_slice p i : tsafe (free_slice p i) (fun _ => True).
Proof. unfold free_slice. tgo; done. Qed.
Lemma tsafe_zero_tail p i offset :
  0 <= offset <= SLICE_SIZE -> tsafe (zero_tail p i offset) (fun _ => True).
Proof.
  intros Ho. pose proof SLICE_SIZE_range. unfold zero_tail. tgo; try done. subst.
  match goal with H : forall v, Some _ = Some v -> _ |- _ => specialize (H _ eq_refl) as Hv end.
  destruct (tv_slice _ _ Hv ltac:(by eexists)) as (j & _ & _ & Hl).
  apply typed_slice; [apply as_u32_range|]. rewrite blen_splice; [done|lia|].
  unfold blen at 1. rewrite length_replicate. lia.
Qed.
Lemma tsafe_truncate uid gid ino t size :
  u64 size -> tsafe (dbfs_common_truncate uid gid ino t size) (fun _ => True).
Proof.
  intros Hs. pose proof SLICE_SIZE_range. pose proof (pos_split size) as [_ Hm].
  unfold dbfs_common_truncate. tgo. tcall tsafe_attr. tgo; try done.
  tcall @tsafe_for_each; [apply tsafe_free_slice|]. tgo.
  tcall tsafe_zero_tail; [lia|]. tgo; done.
Qed.
Lemma tsafe_fallocate uid gid ino offset size mode t :
  tsafe (dbfs_common_fallocate uid gid ino offset size mode t) (fun _ => True).
Proof. unfold dbfs_common_fallocate. tgo; done. Qed.

Lemma tsafe_read_slice size offset i v buf bo :
  tsafe (read_slice size offset i v buf bo) (fun _ => True).
Proof. unfold read_slice. tgo; done. Qed.
Lemma tsafe_read_gap size offset l buf bo : tsafe (read_gap size offset l buf bo) (fun _ => True).
Proof.
  revert buf bo. induction l as [|i l IH]; intros buf bo; simpl; tgo; [done|].
  tcall_pair tsafe_read_slice. apply IH.
Qed.
Lemma tsafe_read_loop size offset es buf bo i :
  tsafe (read_loop size offset es buf bo i) (fun _ => True).
Proof.
  revert buf bo i. induction es as [|[k [v|]] es IH]; intros buf bo i; simpl; [done| |done].
  tgo. unfold be_macro. case_match; [|done]. tgo.
  - tcall_pair tsafe_read_gap. tgo. tcall_pair tsafe_read_slice. tgo; [done|apply IH].
  - tcall_pair tsafe_read_slice. tgo; [done|apply IH].
Qed.
Lemma tsafe_read ino buf offset : tsafe (dbfs_common_read ino buf offset) (fun _ => True).
Proof.
  unfold dbfs_common_read. tgo; try done. tcall_pair tsafe_read_loop. done.
Qed.

Lemma tsafe_write_slice p i buf count offset len :
  0 <= count -> 0 <= len -> count + len <= blen buf -> 0 <= offset -> offset + len <= SLICE_SIZE ->
  tsafe (write_slice p (generate_data_key_with_number i) buf count offset len)
    (fun r => blen r.1 = SLICE_SIZE).
Proof.
  intros Hc Hl Hb Ho Hm. pose proof SLICE_SIZE_range. unfold write_slice.
  pose proof (blen_slice buf count (count + len) ltac:(lia) ltac:(lia)) as L1.
  destruct (_ && _) eqn:E.
  { apply andb_true_iff in E as [E1%Z.eqb_eq E2%Z.eqb_eq]. simpl. rewrite <- E1, L1. lia. }
  tgo. eapply tsafe_mono; [apply @tsafe_alloc; lia|]. intros [addr block] Hbk. cbn [snd] in Hbk.
  tgo; simpl.
  - match goal with H : forall v, Some _ = Some v -> _ |- _ => specialize (H _ eq_refl) as Hv end.
    destruct (tv_slice _ _ Hv ltac:(by eexists)) as (j & _ & _ & Hbl).
    assert (L2 : blen (slice l 0 offset) = offset - 0) by (apply blen_slice; lia).
    assert (L3 : blen (slice l (offset + len) SLICE_SIZE) = SLICE_SIZE - (offset + len))
      by (apply blen_slice; lia).
    assert (L4 : blen (splice block 0 (slice l 0 offset)) = SLICE_SIZE)
      by (rewrite blen_splice; lia).
    assert (L5 : blen (splice (splice block 0 (slice l 0 offset)) offset
                  (slice buf count (count + len))) = SLICE_SIZE) by (rewrite blen_splice; lia).
    rewrite blen_splice; lia.
  - rewrite blen_splice; lia.
Qed.
Lemma tsafe_write_loop fuel p buf num offset count ptrs :
  0 <= count <= blen buf -> 0 <= offset < SLICE_SIZE ->
  tsafe (write_loop fuel p buf num offset count ptrs) (fun _ => True).
Proof.
  revert num offset count ptrs. induction fuel as [|fuel IH]; intros num offset count ptrs Hc Ho;
    [done|]. pose proof SLICE_SIZE_range. simpl. tgo.
  eapply tsafe_mono; [apply tsafe_write_slice; lia|]. intros [data pt] Hd. cbn [fst] in Hd.
  tgo; try done.
  - apply typed_slice; [apply as_u32_range|done].
  - apply IH; [lia|]. apply Z.mod_pos_bound. lia.
Qed.
Lemma tsafe_write ino buf offset : tsafe (dbfs_common_write ino buf offset) (fun _ => True).
Proof.
  pose proof SLICE_SIZE_range. pose proof (blen_nonneg buf). pose proof (pos_split offset) as [_ Hm].
  unfold dbfs_common_write. tgo. tcall_pair tsafe_write_loop; [lia|done|].
  tgo; try done; (tcall @tsafe_for_each; [intros; apply tsafe_dealloc|]); done.
Qed.
Lemma tsafe_copy_range src os dest od len t :
  tsafe (dbfs_common_copy_file_range src os dest od len t) (fun _ => True).
Proof.
  unfold dbfs_common_copy_file_range. tgo. tcall_pair tsafe_read. tgo.
  tcall tsafe_write. tgo; done.
Qed.

Lemma tsafe_setxattr uid gid ino key value t :
  tsafe (dbfs_common_setxattr uid gid ino key value t) (fun _ => True).
Proof.
  unfold dbfs_common_setxattr. tgo; try done.
  match goal with H : xattr_access_check _ _ _ _ _ _ _ = None |- _ =>
    apply xattr_check_namespace in H as [ns Hns] end. typed.
Qed.
Lemma tsafe_getxattr uid gid ino key buf :
  tsafe (dbfs_common_getxattr uid gid ino key buf) (fun _ => True).
Proof. unfold dbfs_common_getxattr. tgo; done. Qed.
Lemma tsafe_listxattr ino buf : tsafe (dbfs_common_listxattr ino buf) (fun _ => True).
Proof. unfold dbfs_common_listxattr. tgo; done. Qed.
Lemma tsafe_removexattr uid gid ino key t :
  tsafe (dbfs_common_removexattr uid gid ino key t) (fun _ => True).
Proof. unfold dbfs_common_removexattr. tgo; done. Qed.
Lemma tsafe_chmod uid gid ino mode t : tsafe (dbfs_common_chmod uid gid ino mode t) (fun _ => True).
Proof. unfold dbfs_common_chmod. tgo. tcall tsafe_attr. tgo; done. Qed.
Lemma tsafe_chown uid gid ino u g t : tsafe (dbfs_common_chown uid gid ino u g t) (fun _ => True).
Proof. unfold dbfs_common_chown. tgo. tcall tsafe_attr. tgo; done. Qed.
Lemma tsafe_utimens uid gid ino a m t : tsafe (dbfs_common_utimens uid gid ino a m t) (fun _ => True).
Proof. unfold dbfs_common_utimens. tgo. tcall tsafe_attr. tgo; done. Qed.

Lemma tsafe_readdir_loop plus es offset buf :
  tsafe (readdir_loop plus es offset buf) (fun _ => True).
Proof.
  revert offset buf. induction es as [|[k [v|]] es IH]; intros offset buf; simpl; [done| |apply IH].
  tgo; [|apply IH]. unfold readdir_entry. tgo; try apply IH. tcall tsafe_attr. tgo. apply IH.
Qed.
Lemma tsafe_readdir ino offset plus : tsafe (dbfs_common_readdir ino offset plus) (fun _ => True).
Proof.
  unfold dbfs_common_readdir. tgo. unfold get_readdir_table. split; [done|]. intros r _. simpl. tgo.
  - split; [done|]. intros [[res es]|e|] _; simpl; try done. tgo; try done.
    tcall tsafe_readdir_loop. done.
  - tcall tsafe_readdir_loop. done.
Qed.

(** Every call stores well-typed values only. *)
Lemma exec_tsafe c : call_ok c -> tsafe (exec c) (fun _ => True).
Proof.
  destruct c; cbn [exec call_ok]; intros Hc;
    lazymatch goal with
    | |- tsafe (bind _ _) _ =>
        apply tsafe_bind; eapply tsafe_mono;
        [ eauto using tsafe_root, tsafe_attr, tsafe_lookup, tsafe_access, tsafe_readdir,
            tsafe_readlink, tsafe_statfs, tsafe_create, tsafe_link, tsafe_read, tsafe_write,
            tsafe_copy_range, tsafe_truncate, tsafe_getxattr, tsafe_listxattr, tsafe_chmod,
            tsafe_chown, tsafe_utimens
        | done ]
    | _ =>
        try destruct Hc;
        eauto using tsafe_init_db, tsafe_umount, tsafe_open, tsafe_unlink, tsafe_rmdir,
          tsafe_rename, tsafe_fallocate, tsafe_setxattr, tsafe_removexattr
    end.
Qed.
End TypedCalls.


(** ** Failure atomicity of the calls *)

Section AtomicCalls.
Context `{Config}.

Lemma quiet_attr ino : quiet (dbfs_common_attr ino).
Proof. unfold dbfs_common_attr, div64. quiets. Qed.
#[local] Hint Resolve quiet_attr : quiet.

Lemma quiet_kv_pairs {E} p : quiet (kv_pairs (E := E) p).
Proof. unfold kv_pairs. quiets. Qed.
#[local] Hint Resolve quiet_kv_pairs : quiet.

Lemma quiet_lookup dir name : quiet (dbfs_common_lookup dir name).
Proof. unfold dbfs_common_lookup. quiets. Qed.
Lemma quiet_access uid gid ino mask : quiet (dbfs_common_access uid gid ino mask).
Proof. unfold dbfs_common_access. quiets. Qed.
Lemma quiet_open ino uid gid mask : quiet (dbfs_common_open ino uid gid mask).
Proof. unfold dbfs_common_open. quiets. Qed.
Lemma quiet_readlink ino buf : quiet (dbfs_common_readlink ino buf).
Proof. unfold dbfs_common_readlink. quiets. Qed.
Lemma quiet_statfs b m f : quiet (dbfs_common_statfs b m f).
Proof. unfold dbfs_common_statfs, div64. quiets. Qed.
Lemma quiet_getxattr uid gid ino key buf : quiet (dbfs_common_getxattr uid gid ino key buf).
Proof. unfold dbfs_common_getxattr, check_err. quiets. Qed.
Lemma quiet_listxattr ino buf : quiet (dbfs_common_listxattr ino buf).
Proof. unfold dbfs_common_listxattr. quiets. Qed.
Lemma quiet_removexattr uid gid ino key t : quiet (dbfs_common_removexattr uid gid ino key t).
Proof. unfold dbfs_common_removexattr, check_err. quiets. Qed.

Lemma quiet_read_slice size offset i v buf bo : quiet (read_slice size offset i v buf bo).
Proof. unfold read_slice. quiets. Qed.
Lemma quiet_read_gap size offset l buf bo : quiet (read_gap size offset l buf bo).
Proof. revert buf bo. induction l; intros; simpl; quiets; apply quiet_read_slice. Qed.
Lemma quiet_read_loop size offset es buf bo i : quiet (read_loop size offset es buf bo i).
Proof.
  revert buf bo i. induction es as [|[k [v|]] es IH]; intros; simpl; quiets;
    unfold be_macro; try (by case_match);
    first [ apply quiet_read_slice | apply quiet_read_gap | apply IH ].
Qed.
Lemma quiet_read ino buf offset : quiet (dbfs_common_read ino buf offset).
Proof. unfold dbfs_common_read. quiets. apply quiet_read_loop. Qed.

Lemma quiet_readdir_loop plus es offset buf : quiet (readdir_loop plus es offset buf).
Proof.
  revert offset buf. induction es as [|[k [v|]] es IH]; intros; simpl; quiets;
    unfold readdir_entry; quiets.
Qed.
Lemma quiet_readdir ino offset plus : quiet (dbfs_common_readdir ino offset plus).
Proof.
  unfold dbfs_common_readdir, get_readdir_table. quiets. apply quiet_readdir_loop.
Qed.

Lemma quiet_rename_read_old uid gid dir name : quiet (rename_read_old uid gid dir name).
Proof. unfold rename_read_old. quiets. Qed.
Lemma quiet_rename_read_new uid gid dir name : quiet (rename_read_new uid gid dir name).
Proof. unfold rename_read_new. quiets. Qed.
Lemma quiet_drop_target p sz new m t : quiet (rename_drop_target p sz new m t).
Proof. unfold rename_drop_target. quiets. Qed.
#[local] Hint Resolve quiet_rename_read_old quiet_rename_read_new quiet_drop_target : quiet.

Lemma atomic_rename uid gid old_dir old_name new_dir new_name flags t :
  atomic (dbfs_common_rename uid gid old_dir old_name new_dir new_name flags t).
Proof. unfold dbfs_common_rename, rename_exchange, rename_move. atomics. Qed.

Lemma quiet_for_each {E A} (l : list A) (body : A -> Prog E unit) :
  (forall x, quiet (body x)) -> quiet (for_each l body).
Proof. intros Hb. induction l; simpl; quiets. Qed.
Lemma quiet_free_slices p l : quiet (for_each l (free_slice p)).
Proof. apply quiet_for_each. intros. unfold free_slice. quiets. Qed.
Lemma quiet_zero_tail p i offset : quiet (zero_tail p i offset).
Proof. unfold zero_tail. quiets. Qed.
Lemma quiet_write_slice p k buf count offset len : quiet (write_slice p k buf count offset len).
Proof. unfold write_slice. quiets. Qed.
Lemma quiet_write_loop fuel p buf num offset count ptrs :
  quiet (write_loop fuel p buf num offset count ptrs).
Proof.
  revert num offset count ptrs. induction fuel; intros; simpl; quiets. apply quiet_write_slice.
Qed.
#[local] Hint Resolve quiet_free_slices quiet_zero_tail quiet_write_loop : quiet.

Lemma settled_deallocs {E} n (l : list Z) : settled (for_each l (fun ptr => dealloc (E := E) ptr n)).
Proof. induction l; simpl; eauto. Qed.

Lemma atomic_write ino buf offset : atomic (dbfs_common_write ino buf offset).
Proof.
  unfold dbfs_common_write. apply atomic_with_tx.
  do 2 (apply atomic_bind_quiet; [quiets|]; intros). cbv zeta.
  apply atomic_bind_quiet; [quiets|]; intros [count ptrs].
  do 2 (apply atomic_bind_quiet; [quiets|]; intros).
  apply atomic_bind_settled; [apply atomic_map_err, atomic_commit|]. intros _.
  apply settled_bind; [apply settled_deallocs|simpl; eauto].
Qed.

Lemma atomic_create dir name uid gid t permission target dev :
  is_Some (file_type_of_perm permission) ->
  atomic (dbfs_common_create dir name uid gid t permission target dev).
Proof.
  intros [k Hk]. unfold dbfs_common_create. apply atomic_bind_quiet; [quiets|]. intros n.
  apply atomic_bind_settled.
  - apply atomic_with_tx. atomics.
  - intros [[[[hl fs] dv] mode] g]. rewrite Hk. simpl. eauto.
Qed.

(** The calls that cannot fail after a commit.  [link] reads the attributes of
    the inode again after it has committed, [copy_file_range] commits twice,
    and [create] commits before it finds out that its mode has no file type. *)
Definition call_atomic (c : Call) : Prop :=
  match c with
  | CallLink _ _ _ _ _ _ => False
  | CallCopyRange _ _ _ _ _ _ => False
  | CallCreate _ _ _ _ _ permission _ _ => is_Some (file_type_of_perm permission)
  | _ => True
  end.

(** A call whose result is dropped. *)
Lemma atomic_drop {E A} (p : Prog E A) : atomic p -> atomic (p;; ret tt).
Proof. intros Hp. apply atomic_bind_settled; [done|]. simpl. eauto. Qed.
Lemma quiet_drop {E A} (p : Prog E A) : quiet p -> atomic (p;; ret tt).
Proof. intros Hp. by apply quiet_atomic, quiet_bind. Qed.

Lemma atomic_chmod uid gid ino mode t : atomic (dbfs_common_chmod uid gid ino mode t).
Proof. unfold dbfs_common_chmod. atomics. Qed.
Lemma atomic_chown uid gid ino u g t : atomic (dbfs_common_chown uid gid ino u g t).
Proof. unfold dbfs_common_chown. atomics. Qed.
Lemma atomic_utimens uid gid ino a m t : atomic (dbfs_common_utimens uid gid ino a m t).
Proof. unfold dbfs_common_utimens. atomics. Qed.
Lemma atomic_setxattr uid gid ino key value t : atomic (dbfs_common_setxattr uid gid ino key value t).
Proof. unfold dbfs_common_setxattr, check_err. atomics. Qed.
Lemma atomic_truncate uid gid ino t size : atomic (dbfs_common_truncate uid gid ino t size).
Proof. unfold dbfs_common_truncate. atomics. Qed.
Lemma atomic_fallocate uid gid ino offset size mode t :
  atomic (dbfs_common_fallocate uid gid ino offset size mode t).
Proof. unfold dbfs_common_fallocate. atomics. Qed.
Lemma atomic_unlink uid gid dir name ino t : atomic (dbfs_common_unlink uid gid dir name ino t).
Proof. unfold dbfs_common_unlink. atomics. Qed.
Lemma atomic_rmdir uid gid dir name t : atomic (dbfs_common_rmdir uid gid dir name t).
Proof. unfold dbfs_common_rmdir. atomics. Qed.
Lemma atomic_umount : atomic dbfs_common_umount.
Proof. unfold dbfs_common_umount. atomics. Qed.
Lemma atomic_init_db {E} size : atomic (init_db (E := E) size).
Proof. unfold init_db. atomics. Qed.
Lemma atomic_root uid gid t : atomic (dbfs_common_root_inode uid gid t).
Proof. unfold dbfs_common_root_inode. atomics. Qed.

Lemma exec_atomic c : call_atomic c -> atomic (exec c).
Proof.
  destruct c; cbn [exec call_atomic]; intros Hc; try done;
    lazymatch goal with
    | |- atomic (bind (dbfs_common_create _ _ _ _ _ _ _ _) _) => by apply atomic_drop, atomic_create
    | |- atomic (bind (dbfs_common_write _ _ _) _) => apply atomic_drop, atomic_write
    | |- atomic (bind (dbfs_common_truncate _ _ _ _ _) _) => apply atomic_drop, atomic_truncate
    | |- atomic (bind (dbfs_common_chmod _ _ _ _ _) _) => apply atomic_drop, atomic_chmod
    | |- atomic (bind (dbfs_common_chown _ _ _ _ _ _) _) => apply atomic_drop, atomic_chown
    | |- atomic (bind (dbfs_common_utimens _ _ _ _ _ _) _) => apply atomic_drop, atomic_utimens
    | |- atomic (bind (dbfs_common_root_inode _ _ _) _) => apply atomic_drop, atomic_root
    | |- atomic (bind _ _) => apply quiet_drop
    | |- atomic (dbfs_common_open _ _ _ _) => apply quiet_atomic, quiet_open
    | |- atomic (dbfs_common_removexattr _ _ _ _ _) => apply quiet_atomic, quiet_removexattr
    | |- atomic (dbfs_common_unlink _ _ _ _ _ _) => apply atomic_unlink
    | |- atomic (dbfs_common_rmdir _ _ _ _ _) => apply atomic_rmdir
    | |- atomic (dbfs_common_rename _ _ _ _ _ _ _ _) => apply atomic_rename
    | |- atomic (dbfs_common_fallocate _ _ _ _ _ _ _) => apply atomic_fallocate
    | |- atomic (dbfs_common_setxattr _ _ _ _ _ _) => apply atomic_setxattr
    | |- atomic dbfs_common_umount => apply atomic_umount
    | |- atomic (init_db _) => apply atomic_init_db
    end.
  - apply quiet_attr.
  - apply quiet_lookup.
  - apply quiet_access.
  - apply quiet_readdir.
  - apply quiet_readlink.
  - apply quiet_statfs.
  - apply quiet_read.
  - apply quiet_getxattr.
  - apply quiet_listxattr.
Qed.

Lemma tsafe_load_super_blk : tsafe dbfs_load_super_blk (fun _ => True).
Proof.
  unfold dbfs_load_super_blk. tgo. eapply tsafe_mono; [apply tsafe_ino_store|intros; cbv beta].
  - done.
  - tgo; done.
Qed.
End AtomicCalls.

(** ** Reachable states *)

Section Reachable.
Context `{Config} `{Platform}.

(** A new process: no transaction is open, the counter has its initial value
    and the readdir table is empty. *)
Definition restart (w : World) : World := mkW (w_db w) [] 1 ∅ (w_heap w).

Inductive reachable : World -> Prop :=
  | reach_init w : db_view (w_db w) = ∅ -> reachable (restart w)
  | reach_mount w : reachable w -> reachable (run dbfs_load_super_blk (restart w)).2
  | reach_call w c : reachable w -> call_ok c -> reachable (run (exec c) w).2.

(** C2: in every reachable state of the file system, after any sequence of
    calls with any arguments and any outcomes (errors, panics and failed
    commits included) and any number of restarts, every stored value has the
    type of its key: attributes have the width they are decoded with, entries
    are inode numbers, slices are whole, no bucket is nested in another. *)
Theorem reachable_typed w : reachable w -> typed_view (db_view (w_db w)).
Proof.
  intros Hr. assert (Hw : typed_world w); [|apply Hw].
  induction Hr as [w Hw|w Hr IH|w c Hr IH Hc].
  - split; [intros p b; simpl; by rewrite Hw, lookup_empty|constructor|unfold u64; simpl; lia].
  - assert (Hb : typed_world (restart w)).
    { split; [apply IH|constructor|unfold u64; simpl; lia]. }
    pose proof (tsafe_run _ _ _ tsafe_load_super_blk Hb) as Ht. destruct (run _ _). by apply Ht.
  - pose proof (tsafe_run _ _ _ (exec_tsafe c Hc) IH) as Ht. destruct (run _ _). by apply Ht.
Qed.

(** C3: a call that does not succeed, for whatever reason and on any
    platform, leaves the committed contents of the database as they were. *)
Theorem failed_call_changes_nothing c w :
  call_atomic c ->
  (run (exec c) w).1 = Ok tt \/ db_view (w_db (run (exec c) w).2) = db_view (w_db w).
Proof.
  intros Hc. destruct (atomic_run (exec c) w (exec_atomic c Hc)) as [[[] Ha]|Hk]; auto.
Qed.
End Reachable.

Section SystemWitness.
#[local] Existing Instance cfg512.

Lemma reachable_typed_witness :
  typed_view (db_view (w_db (run (exec (CallMkfs 1024)) (restart blank)).2)).
Proof.
  apply (reachable_typed (run (exec (CallMkfs 1024)) (restart blank)).2).
  apply reach_call; [apply reach_init; reflexivity|exact I].
Defined.

Lemma failed_call_changes_nothing_witness :
  let w := restart blank in
  (run (exec (CallUmount)) w).1 = Ok tt \/
  db_view (w_db (run (exec CallUmount) w).2) = db_view (w_db w).
Proof. apply (failed_call_changes_nothing CallUmount (restart blank)). exact I. Defined.
End SystemWitness.
