(* ===== verification/RvfsSystem.v ===== *)
(** * The rvfs adapter as a transition system

    The operations of the tables, the mount and the unmount as calls on the
    database and the object store, with the invariants they keep: stored values
    are well typed, the store has no dangling handle, every inode object has
    the tables of its mode, and a failed call leaves the database alone. *)

From S2P Require Import Prelude Jammdb Effects Run RustStd Common Buckets Slices Access Inode Create.
From S2P Require Import FsType Link Truncate File Rename Attr Readdir Rvfs Safe Typed Atomic Samples RvfsRules System.

(** ** Calls *)

Inductive VfsCall :=
  | VCreate (dir dentry : handle_t) (mode : Z)
  | VMkdir (dir dentry : handle_t) (mode : Z)
  | VSymlink (dir dentry : handle_t) (target : bytes)
  | VLink (old_dentry dir new_dentry : handle_t)
  | VUnlink (dir dentry : handle_t)
  | VLookup (dir dentry : handle_t)
  | VRmdir (dir dentry : handle_t)
  | VSetattr (dentry : handle_t) (key val : bytes)
  | VRemoveattr (dentry : handle_t) (key : bytes)
  | VGetattr (dentry : handle_t) (key buf : bytes)
  | VListattr (dentry : handle_t) (buf : bytes)
  | VReadlink (dentry : handle_t) (buf : bytes)
  | VFollowlink (dentry : handle_t) (names : list bytes)
  | VRename (old_dir old_dentry new_dir new_dentry : handle_t)
  | VTruncate (inode : handle_t)
  | VWrite (f_dentry : handle_t) (buf : bytes) (offset : Z)
  | VRead (f_dentry : handle_t) (buf : bytes) (offset : Z)
  | VReaddir (fuel : nat) (f_dentry : handle_t) (buf_len : Z)
  | VMount (flags : Z) (dev_name : bytes)
  | VKill
  | VSync
  | VStatfs (sb_blk : handle_t).

Section Exec.
Context `{Config} `{Rvfs}.

(** A call; the result is the store afterwards. *)
Definition vfs_exec (c : VfsCall) (m : VfsMem) : Prog bytes VfsMem :=
  match c with
  | VCreate dir dentry mode => dbfs_create dir dentry mode m
  | VMkdir dir dentry mode => dbfs_mkdir dir dentry mode m
  | VSymlink dir dentry target => dbfs_symlink dir dentry target m
  | VLink old_dentry dir new_dentry => dbfs_link old_dentry dir new_dentry m
  | VUnlink dir dentry => dbfs_unlink dir dentry m
  | VLookup dir dentry => dbfs_lookup dir dentry m
  | VRmdir dir dentry => dbfs_rmdir dir dentry m
  | VSetattr dentry key val => dbfs_setattr dentry key val m;; ret m
  | VRemoveattr dentry key => dbfs_removeattr dentry key m;; ret m
  | VGetattr dentry key buf => dbfs_getattr dentry key buf m;; ret m
  | VListattr dentry buf => dbfs_listattr dentry buf m;; ret m
  | VReadlink dentry buf => dbfs_readlink dentry buf m;; ret m
  | VFollowlink dentry names => dbfs_followlink dentry names m;; ret m
  | VRename old_dir old_dentry new_dir new_dentry =>
      dbfs_rename old_dir old_dentry new_dir new_dentry m
  | VTruncate inode => dbfs_truncate inode m;; ret m
  | VWrite f buf offset => dbfs_file_write f buf offset m;; ret m
  | VRead f buf offset => dbfs_file_read f buf offset m;; ret m
  | VReaddir fuel f buf_len => dbfs_readdir fuel f buf_len m;; ret m
  | VMount flags dev_name => '(_, m') ← dbfs_get_super_blk flags dev_name m; ret m'
  | VKill => dbfs_kill_super_blk;; ret m
  | VSync => dbfs_sync_fs;; ret m
  | VStatfs sb_blk => dbfs_stat_fs sb_blk m;; ret m
  end.

(** ** The store *)

(** Fields in the range of their types, and the tables of the mode. *)
Record vinode_wf (i : VInode) : Prop := {
  vi_number : u64 (i_number i);
  vi_links : u32 (i_hard_links i);
  vi_size : u64 (i_file_size i);
  vi_ops : i_ops i = inode_ops_from_inode_mode (i_mode i);
  vi_file_ops : i_file_ops i = file_ops_from_inode_mode (i_mode i)
}.

Record vm_wf (m : VfsMem) : Prop := {
  wf_inode : forall h i, vm_inodes m !! h = Some i -> vinode_wf i;
  wf_dentry : forall h d, vm_dentries m !! h = Some d -> is_Some (vm_inodes m !! d_inode d);
  wf_root : forall h sb r, vm_supers m !! h = Some sb -> sb_root sb = Some r ->
    is_Some (vm_dentries m !! r);
  wf_mounted : forall h, h ∈ vm_mounted m -> is_Some (vm_supers m !! h)
}.

Lemma wf_insert_inode m h i : vm_wf m -> vinode_wf i -> vm_wf (with_inodes (insert h i) m).
Proof.
  intros [Hi Hd Hr Hm] Hw. split; simpl; auto.
  - intros h' i'. rewrite lookup_insert. case_decide; [by intros [= <-]|eauto].
  - intros h' d' Hd'. rewrite lookup_insert. case_decide; eauto.
Qed.

Lemma wf_alloc_inode m i h m' :
  vm_wf m -> vinode_wf i -> alloc_inode i m = (h, m') ->
  vm_wf m' /\ vm_inodes m' !! h = Some i.
Proof.
  unfold alloc_inode. intros Hm Hi [= <- <-]. split; [by apply wf_insert_inode|].
  simpl. apply lookup_insert_eq.
Qed.

Lemma wf_set_d_inode m dentry h :
  vm_wf m -> is_Some (vm_inodes m !! h) ->
  vm_wf (with_dentries (alter (set_d_inode h) dentry) m).
Proof.
  intros [Hi Hd Hr Hm] Hh. split; simpl; auto.
  - intros h' d'. rewrite lookup_alter_Some. intros [(<- & d & Hdd & ->)|[_ Hdd]]; [done|eauto].
  - intros h' sb r Hsb Hrt. apply lookup_alter_is_Some. eauto.
Qed.

Lemma vinode_set_links i z : vinode_wf i -> u32 z -> vinode_wf (set_links z i).
Proof. intros [] ?. by split. Qed.
Lemma vinode_set_fsize i z : vinode_wf i -> u64 z -> vinode_wf (set_fsize z i).
Proof. intros [] ?. by split. Qed.
Lemma vinode_set_owner i u g : vinode_wf i -> vinode_wf (set_owner u g i).
Proof. intros []. by split. Qed.
End Exec.
#[export] Hint Resolve vinode_set_links vinode_set_fsize vinode_set_owner : word.

(** ** Typing *)

Section TypedVfs.
Context `{Config} `{Rvfs}.

Lemma tsafe_deref_inode {E} m h :
  tsafe (deref_inode (E := E) m h) (fun i => vm_inodes m !! h = Some i).
Proof. by apply tsafe_unwrap_option. Qed.
Lemma tsafe_deref_dentry {E} m h :
  tsafe (deref_dentry (E := E) m h) (fun d => vm_dentries m !! h = Some d).
Proof. by apply tsafe_unwrap_option. Qed.
Lemma tsafe_dentry_number {E} m h : vm_wf m -> tsafe (dentry_number (E := E) m h) u64.
Proof.
  intros Hm. unfold dentry_number. apply tsafe_bind, tsafe_unwrap_option. intros d _.
  apply tsafe_bind, tsafe_unwrap_option. intros i Hi. apply tsafe_ret. by apply (wf_inode m Hm _ _ Hi).
Qed.
Lemma tsafe_links_plus {E} h d m : vm_wf m -> tsafe (links_plus (E := E) h d m) vm_wf.
Proof.
  intros Hm. unfold links_plus. apply tsafe_bind, tsafe_unwrap_option. intros i Hi.
  apply tsafe_bind. eapply tsafe_mono; [apply tsafe_wrapping; lia|]. intros z Hz. apply tsafe_ret.
  apply wf_insert_inode; [done|]. apply vinode_set_links; [by eapply wf_inode|done].
Qed.
(** [fsize_plus] keeps the other inodes, too. *)
Lemma tsafe_fsize_plus {E} h d m :
  vm_wf m -> tsafe (fsize_plus (E := E) h d m)
    (fun m' => vm_wf m' /\ forall h', is_Some (vm_inodes m !! h') -> is_Some (vm_inodes m' !! h')).
Proof.
  intros Hm. unfold fsize_plus. apply tsafe_bind, tsafe_unwrap_option. intros i Hi.
  apply tsafe_bind. eapply tsafe_mono; [apply tsafe_wrapping; lia|]. intros z Hz. apply tsafe_ret.
  split.
  - apply wf_insert_inode; [done|]. apply vinode_set_fsize; [by eapply wf_inode|done].
  - intros h' Hh'. simpl. rewrite lookup_insert. case_decide; eauto.
Qed.
Lemma tsafe_tmp_inode sb n md :
  u64 n ->
  tsafe (tmp_inode sb n md (inode_ops_from_inode_mode md) (file_ops_from_inode_mode md)) vinode_wf.
Proof.
  intros Hn. unfold tmp_inode. destruct (create_tmp_inode_from_sb_blk _ _ _ _ _) as [e|i] eqn:Ei; [done|].
  destruct (tmp_inode_fields _ _ _ _ _ _ Ei) as (E1 & E2 & E3 & E4 & E5).
  destruct (tmp_inode_widths _ _ _ _ _ _ Ei) as (? & ? & _). split; rewrite ?E1, ?E3; auto.
Qed.

Lemma tsafe_attr_widths ino :
  u64 ino ->
  tsafe (dbfs_common_attr ino)
    (fun a => u64 (attr_ino a) /\ u64 (attr_size a) /\ u32 (attr_nlink a)).
Proof. intros Hi. unfold dbfs_common_attr. tgo; cbn [attr_ino attr_size attr_nlink]; auto. Qed.
Lemma tsafe_lookup_widths dir name :
  tsafe (dbfs_common_lookup dir name)
    (fun a => u64 (attr_ino a) /\ u64 (attr_size a) /\ u32 (attr_nlink a)).
Proof.
  unfold dbfs_common_lookup. tgo. apply tsafe_attr_widths. by eapply parse_usize_u64.
Qed.
Lemma tsafe_create_ino dir name uid gid t permission target dev :
  u64 dir ->
  tsafe (dbfs_common_create dir name uid gid t permission target dev) (fun a => u64 (attr_ino a)).
Proof. intros Hd. unfold dbfs_common_create. tgo; done. Qed.
Lemma tsafe_root_count uid gid t : tsafe (dbfs_common_root_inode uid gid t) u64.
Proof.
  unfold dbfs_common_root_inode. tgo; try exact I; tgo; try done.
  all: apply typed_entry; eexists; vm_compute; reflexivity.
Qed.
Lemma tsafe_sync_fs : tsafe dbfs_sync_fs (fun _ => True).
Proof. unfold dbfs_sync_fs. tgo; try exact I; tgo; done. Qed.

Lemma typed_attr_key key v : typed_value (attr_key key) v.
Proof.
  apply typed_no_key.
  - intros w Hin. simpl in Hin. repeat destruct Hin as [Hin|Hin]; try done;
      apply (f_equal (take 5 ∘ fst)) in Hin; vm_compute in Hin; discriminate Hin.
  - intros [l Hl]. apply (f_equal (take 5)) in Hl. vm_compute in Hl. discriminate Hl.
  - intros [l Hl]. apply (f_equal (take 5)) in Hl. vm_compute in Hl. discriminate Hl.
Qed.

(** Apply the lemma of a callee. *)
Local Ltac tcall L := eapply tsafe_mono; [apply L|intros; cbv beta in *].
Local Ltac vderef :=
  first [ tcall @tsafe_deref_inode | tcall @tsafe_deref_dentry
        | tcall @tsafe_dentry_number; [done|] ].
Local Ltac vgo := repeat first [ vderef | tstep; cbv beta zeta ].

Lemma tsafe_rvfs_create dir dentry mode md target m :
  vm_wf m -> tsafe (dbfs_rvfs_create dir dentry mode md target m) vm_wf.
Proof.
  intros Hm. unfold dbfs_rvfs_create. vgo.
  match goal with Hd : vm_inodes m !! dir = Some ?d |- _ =>
    pose proof (vi_number _ (wf_inode m Hm _ _ Hd)) end.
  tcall tsafe_create_ino; [done|]. tgo. unfold upgrade_super. vgo. tcall tsafe_tmp_inode; [done|].
  match goal with Hi : vinode_wf ?i |- _ =>
    destruct (alloc_inode i m) as [h m'] eqn:Ea;
    destruct (wf_alloc_inode _ _ _ _ Hm Hi Ea) as [Hm' Hh] end. cbv beta zeta. tgo.
  eapply tsafe_mono; [by apply tsafe_fsize_plus|]. intros m2 [Hw Hk]. cbv beta. tgo.
  apply wf_set_d_inode; eauto.
Qed.
Lemma tsafe_vlink old_dentry dir new_dentry m :
  vm_wf m -> tsafe (dbfs_link old_dentry dir new_dentry m) vm_wf.
Proof.
  intros Hm. unfold dbfs_link. vgo. eapply tsafe_mono; [apply tsafe_link|]; intros.
  { eapply vi_number, wf_inode; eassumption. }
  cbv beta. tgo. unfold links_plus. vgo. eapply tsafe_mono; [apply tsafe_wrapping; lia|intros z Hz; cbv beta].
  tgo. match goal with Hi : vm_inodes m !! d_inode _ = Some ?i |- _ =>
    assert (Hm' : vm_wf (with_inodes (insert (d_inode a) (set_links z i)) m))
      by (apply wf_insert_inode; [done|]; apply vinode_set_links; [by eapply wf_inode|done]) end.
  eapply tsafe_mono; [by apply tsafe_fsize_plus|]. intros m2 [Hw Hk]. cbv beta. tgo.
  apply wf_set_d_inode; [done|].
  apply Hk. simpl. rewrite lookup_insert_eq. eauto.
Qed.
Lemma tsafe_vunlink dir dentry m : vm_wf m -> tsafe (dbfs_unlink dir dentry m) vm_wf.
Proof. intros Hm. unfold dbfs_unlink. vgo. tcall tsafe_unlink. by apply tsafe_links_plus. Qed.
Lemma tsafe_vlookup dir dentry m : vm_wf m -> tsafe (dbfs_lookup dir dentry m) vm_wf.
Proof.
  intros Hm. unfold dbfs_lookup. vgo. tcall tsafe_lookup_widths.
  match goal with Hx : u64 _ /\ _ |- _ => destruct Hx as (? & ? & ?) end.
  tgo. unfold upgrade_super. vgo. tcall tsafe_tmp_inode; [done|].
  match goal with |- context [alloc_inode ?i m] =>
    destruct (alloc_inode i m) as [h m'] eqn:Ea;
    assert (Hi : vinode_wf i) by eauto 8 with word;
    destruct (wf_alloc_inode _ _ _ _ Hm Hi Ea) as [Hm' Hh] end.
  cbv beta zeta. tgo. apply wf_set_d_inode; eauto.
Qed.
Lemma tsafe_vrmdir dir dentry m : vm_wf m -> tsafe (dbfs_rmdir dir dentry m) vm_wf.
Proof.
  intros Hm. unfold dbfs_rmdir. vgo. tcall tsafe_rmdir. tcall @tsafe_fsize_plus; [done|]. tauto.
Qed.
Lemma tsafe_vsetattr dentry key val m : vm_wf m -> tsafe (dbfs_setattr dentry key val m) (fun _ => True).
Proof. intros Hm. unfold dbfs_setattr. vgo; [apply typed_attr_key|done]. Qed.
Lemma tsafe_vremoveattr dentry key m : vm_wf m -> tsafe (dbfs_removeattr dentry key m) (fun _ => True).
Proof. intros Hm. unfold dbfs_removeattr. vgo; done. Qed.
Lemma tsafe_vgetattr dentry key buf m : vm_wf m -> tsafe (dbfs_getattr dentry key buf m) (fun _ => True).
Proof. intros Hm. unfold dbfs_getattr. vgo; done. Qed.
Lemma tsafe_listattr_loop kvs acc : tsafe (listattr_loop kvs acc) (fun _ => True).
Proof.
  revert acc. induction kvs as [|kv kvs IH]; intros acc; simpl; [done|]. apply tsafe_bind.
  unfold listattr_step. destruct acc as [[len total] buf]. tgo; apply IH.
Qed.
Lemma tsafe_vlistattr dentry buf m : vm_wf m -> tsafe (dbfs_listattr dentry buf m) (fun _ => True).
Proof.
  intros Hm. unfold dbfs_listattr. vgo. eapply tsafe_mono; [apply tsafe_listattr_loop|].
  by intros [[]].
Qed.
Lemma tsafe_vreadlink dentry buf m : vm_wf m -> tsafe (dbfs_readlink dentry buf m) (fun _ => True).
Proof. intros Hm. unfold dbfs_readlink. vgo. apply tsafe_readlink. Qed.
Lemma tsafe_vfollowlink dentry names m :
  vm_wf m -> tsafe (dbfs_followlink dentry names m) (fun _ => True).
Proof. intros Hm. unfold dbfs_followlink. vgo; done. Qed.
Lemma tsafe_vtruncate inode m : vm_wf m -> tsafe (dbfs_truncate inode m) (fun _ => True).
Proof.
  intros Hm. unfold dbfs_truncate. vgo. tcall tsafe_truncate; [|done].
  by eapply vi_size, wf_inode.
Qed.
Lemma tsafe_vwrite f buf offset m : vm_wf m -> tsafe (dbfs_file_write f buf offset m) (fun _ => True).
Proof. intros Hm. unfold dbfs_file_write. vgo. apply tsafe_write. Qed.
Lemma tsafe_vread f buf offset m : vm_wf m -> tsafe (dbfs_file_read f buf offset m) (fun _ => True).
Proof. intros Hm. unfold dbfs_file_read. vgo. apply tsafe_read. Qed.

Lemma tsafe_readdir_needed kvs acc : tsafe (readdir_needed kvs acc) (fun _ => True).
Proof.
  revert acc. induction kvs as [|[k v] kvs IH]; intros acc; simpl; [done|]. tgo; apply IH.
Qed.
Lemma tsafe_readdir_fill es len count offset out :
  tsafe (readdir_fill es len count offset out) (fun _ => True).
Proof.
  revert count offset out. induction es as [|x es IH]; intros; simpl; [done|]. tgo; [apply IH|done].
Qed.
Lemma tsafe_readdir_rounds fuel n len count offset out :
  tsafe (readdir_rounds fuel n len count offset out) (fun _ => True).
Proof.
  revert count offset out. induction fuel as [|fuel IH]; intros count offset out; [done|].
  cbn [readdir_rounds]. tgo. tcall tsafe_readdir. tgo; try done. tcall tsafe_readdir_fill.
  tgo; try done. split; [done|]. intros r _. apply IH.
Qed.
Lemma tsafe_vreaddir fuel f len m : vm_wf m -> tsafe (dbfs_readdir fuel f len m) (fun _ => True).
Proof.
  intros Hm. unfold dbfs_readdir. vgo.
  - tcall tsafe_readdir_needed. done.
  - split; [done|]. intros r _. apply tsafe_readdir_rounds.
Qed.

(** The handles of one directory, by whatever inode object. *)
Definition same_dir (m : VfsMem) (h h' : handle_t) : Prop :=
  i_number <$> vm_inodes m !! h = i_number <$> vm_inodes m !! h'.

Lemma tsafe_vrename old_dir old_dentry new_dir new_dentry m :
  vm_wf m -> same_dir m old_dir new_dir ->
  tsafe (dbfs_rename old_dir old_dentry new_dir new_dentry m) vm_wf.
Proof.
  intros Hm Hs. unfold dbfs_rename, same_dir in *. vgo; try done;
    match goal with
    | Ho : vm_inodes m !! old_dir = Some _, Hn : vm_inodes m !! new_dir = Some _ |- _ =>
        rewrite Ho, Hn in Hs; injection Hs as Hs
    end;
    match goal with
    | He : (_ =? _) = false |- _ => apply Z.eqb_neq in He; congruence
    | |- _ => apply typed_fmt; by eapply vi_number, wf_inode
    end.
Qed.

Lemma tsafe_root_inode sb m :
  vm_wf m -> tsafe (dbfs_create_root_inode sb m)
    (fun r => vm_wf r.2 /\ is_Some (vm_inodes r.2 !! r.1) /\ vm_dentries r.2 = vm_dentries m /\
       vm_supers r.2 = vm_supers m /\ vm_mounted r.2 = vm_mounted m).
Proof.
  intros Hm. unfold dbfs_create_root_inode. tgo. tcall tsafe_root_count. tgo.
  eapply tsafe_mono; [apply (tsafe_tmp_inode sb 1 S_DIR); done|]. intros i Hi. cbv beta zeta.
  apply tsafe_ret. assert (Hi' : vinode_wf (set_fsize a (set_links 0 i))) by (apply vinode_set_fsize; [by apply vinode_set_links|done]).
  unfold alloc_inode. simpl. split; [by apply wf_insert_inode|]. rewrite lookup_insert_eq. eauto.
Qed.

(** What the mount has set up when the super block object is in the store. *)
Lemma tsafe_fill sb m :
  vm_wf m -> tsafe (dbfs_fill_super_block sb m)
    (fun m' => vm_wf m' /\ vm_mounted m' = vm_mounted m /\
       forall h, is_Some (vm_supers m !! h) -> is_Some (vm_supers m' !! h)).
Proof.
  intros Hm. unfold dbfs_fill_super_block. tgo.
  eapply tsafe_mono; [by apply tsafe_root_inode|]. intros [h m1] (Hm1 & Hh & E1 & E2 & E3).
  cbv beta iota. simpl in *. unfold dbfs_create_root_dentry, alloc_dentry. cbv zeta. tgo.
  split; [|split; [done|]].
  2:{ intros h' Hh'. simpl. apply lookup_alter_is_Some. by rewrite E2. }
  destruct Hm1 as [Hi Hd Hr Hmt]. split; simpl; auto.
  - intros h' d. rewrite lookup_insert. case_decide; [|apply Hd]. intros [= <-]. simpl.
    by rewrite (proj1 (DirEntry_new_fields _ _)).
  - intros h' s r. rewrite lookup_alter_Some, lookup_insert. intros [(<- & s0 & Hs0 & ->)|[_ Hs]].
    + simpl. intros [= <-]. rewrite decide_True by done. eauto.
    + intros Hrt. case_decide; eauto.
  - intros h' Hh'. apply lookup_alter_is_Some. eauto.
Qed.

Lemma tsafe_vmount flags dev m :
  vm_wf m -> tsafe (dbfs_get_super_blk flags dev m) (fun r => vm_wf r.2).
Proof.
  intros Hm. unfold dbfs_get_super_blk. destruct (find_super_blk _ _) as [h|]; [done|].
  unfold dbfs_create_simple_super_blk. tgo. eapply tsafe_mono; [apply tsafe_load_super_blk|].
  intros [blk magic] _. cbv beta iota. tgo. set (sb := {| sb_block_size := _ |}).
  set (h := new_handle (vm_supers m)).
  assert (Hm0 : vm_wf (with_supers (insert h sb) m)).
  { destruct Hm as [Hi Hd Hr Hmt]. split; simpl; auto.
    - intros h' s r. rewrite lookup_insert. case_decide; [by intros [= <-]|eauto].
    - intros h' Hh'. rewrite lookup_insert. case_decide; eauto. }
  eapply tsafe_mono; [by apply tsafe_fill|]. intros m' (Hm' & Hmt & Hs). cbv beta. tgo. simpl.
  destruct Hm' as [Hi Hd Hr _]. split; simpl; auto.
  intros h'. rewrite insert_super_blk_elem, Hmt. intros [->|Hin]; apply Hs; simpl.
  - rewrite lookup_insert_eq. eauto.
  - apply (wf_mounted _ Hm0). done.
Qed.

(** The calls that store only well-typed values: all but a rename between two
    directories. *)
Definition vfs_call_ok (m : VfsMem) (c : VfsCall) : Prop :=
  match c with
  | VRename old_dir _ new_dir _ => same_dir m old_dir new_dir
  | _ => True
  end.

Lemma tsafe_drop {E A} (p : Prog E A) (m : VfsMem) :
  vm_wf m -> tsafe p (fun _ => True) -> tsafe (p;; ret m) vm_wf.
Proof. intros Hm Hp. apply tsafe_bind. by eapply tsafe_mono; [exact Hp|]. Qed.

Lemma vfs_exec_tsafe c m : vm_wf m -> vfs_call_ok m c -> tsafe (vfs_exec c m) vm_wf.
Proof.
  intros Hm Hc. destruct c; cbn [vfs_exec vfs_call_ok] in *;
    unfold dbfs_create, dbfs_mkdir, dbfs_symlink;
    eauto using tsafe_rvfs_create, tsafe_vlink, tsafe_vunlink, tsafe_vlookup, tsafe_vrmdir,
      tsafe_vrename;
    try (apply tsafe_drop; [done|];
         eauto using tsafe_vsetattr, tsafe_vremoveattr, tsafe_vgetattr, tsafe_vlistattr,
           tsafe_vreadlink, tsafe_vfollowlink, tsafe_vtruncate, tsafe_vwrite, tsafe_vread,
           tsafe_vreaddir, tsafe_sync_fs).
  - apply tsafe_bind. eapply tsafe_mono; [by apply tsafe_vmount|]. by intros [h m'].
  - apply tsafe_unwrap, tsafe_umount.
  - unfold dbfs_stat_fs, deref_super. tgo. tcall tsafe_statfs. done.
Qed.
End TypedVfs.

(** ** Failure atomicity *)

Section AtomicVfs.
Context `{Config} `{Rvfs}.

Lemma quiet_deref_inode {E} m h : quiet (deref_inode (E := E) m h).
Proof. apply quiet_unwrap_option. Qed.
Lemma quiet_deref_dentry {E} m h : quiet (deref_dentry (E := E) m h).
Proof. apply quiet_unwrap_option. Qed.
Lemma quiet_deref_super {E} m h : quiet (deref_super (E := E) m h).
Proof. apply quiet_unwrap_option. Qed.
#[local] Hint Resolve quiet_deref_inode quiet_deref_dentry quiet_deref_super : quiet.
Lemma quiet_dentry_number {E} m h : quiet (dentry_number (E := E) m h).
Proof. unfold dentry_number. quiets. Qed.
Lemma quiet_fsize_plus {E} h d m : quiet (fsize_plus (E := E) h d m).
Proof. unfold fsize_plus. quiets. Qed.
#[local] Hint Resolve quiet_dentry_number quiet_fsize_plus quiet_kv_pairs quiet_attr quiet_lookup
  quiet_read quiet_readlink quiet_statfs quiet_readdir : quiet.

(** [let x = a; ...] *)
Local Ltac let_ret :=
  unfold unwrap_option;
  repeat match goal with
         | |- context [bind (ret ?x) ?f] => change (bind (ret x) f) with (f x); cbv beta iota zeta
         end.

Lemma settled_wrapping {E} bits z : 0 <= z < 2 ^ bits -> settled (wrapping (E := E) bits z).
Proof.
  intros Hz. unfold wrapping. rewrite (proj2 (Z.leb_le _ _)), (proj2 (Z.ltb_lt _ _)) by lia.
  simpl. eauto.
Qed.
Lemma settled_links_plus {E} h d m i :
  vm_inodes m !! h = Some i -> 0 <= i_hard_links i + d < 2 ^ 32 ->
  settled (links_plus (E := E) h d m).
Proof.
  intros Hi Hd. unfold links_plus, deref_inode. rewrite Hi. let_ret.
  apply settled_bind; [by apply settled_wrapping|]. simpl. eauto.
Qed.
Lemma settled_fsize_plus {E} h d m i :
  vm_inodes m !! h = Some i -> 0 <= i_file_size i + d < 2 ^ 64 ->
  settled (fsize_plus (E := E) h d m).
Proof.
  intros Hi Hd. unfold fsize_plus, deref_inode. rewrite Hi. let_ret.
  apply settled_bind; [by apply settled_wrapping|]. simpl. eauto.
Qed.

(** [rvfs] can make an object for any inode. *)
Definition tmp_total : Prop :=
  forall sb n md ops fops, exists i, create_tmp_inode_from_sb_blk sb n md ops fops = inr i.

(** The super block of the directory is alive, and its size can grow. *)
Definition dir_ready (m : VfsMem) (dir : handle_t) : Prop :=
  exists i, vm_inodes m !! dir = Some i /\ is_Some (vm_supers m !! i_super_blk i) /\
    0 <= i_file_size i < 2 ^ 64 - 1.

(** The calls that do not fail after a commit: the objects they update
    afterwards are there and in range.  A hard link reads the attributes of the
    inode again after it has committed. *)
Definition vfs_call_atomic (m : VfsMem) (c : VfsCall) : Prop :=
  match c with
  | VCreate dir _ _ | VMkdir dir _ _ | VSymlink dir _ _ => tmp_total /\ dir_ready m dir
  | VLink _ _ _ => False
  | VUnlink _ dentry => exists d i, vm_dentries m !! dentry = Some d /\
      vm_inodes m !! d_inode d = Some i /\ 1 <= i_hard_links i < 2 ^ 32
  | VRmdir dir _ => exists i, vm_inodes m !! dir = Some i /\ 1 <= i_file_size i < 2 ^ 64
  | VMount _ _ => tmp_total
  | _ => True
  end.

Lemma atomic_rvfs_create dir dentry mode md target m :
  is_Some (file_type_of_perm (permission_from_mode md)) -> tmp_total -> dir_ready m dir ->
  atomic (dbfs_rvfs_create dir dentry mode md target m).
Proof.
  intros Hk Ht (i & Hi & [sb Hsb] & Hr). unfold dbfs_rvfs_create, deref_inode. rewrite Hi. let_ret.
  apply atomic_bind_quiet; [quiets|]. intros de. apply atomic_bind_settled.
  { by apply atomic_map_err, atomic_create. }
  intros attr. unfold upgrade_super. rewrite Hsb. let_ret. unfold tmp_inode.
  destruct (Ht (i_super_blk i) (attr_ino attr) md (inode_ops_from_inode_mode md)
              (file_ops_from_inode_mode md)) as [ti ->]. let_ret. unfold alloc_inode.
  assert (Hne : dir <> new_handle (vm_inodes m)).
  { intros ->. unfold new_handle in Hi. by rewrite not_elem_of_dom_1 in Hi by apply is_fresh. }
  apply settled_bind; [|simpl; eauto].
  eapply settled_fsize_plus; [simpl; by rewrite lookup_insert_ne by congruence|lia].
Qed.

Lemma atomic_vmount flags dev m : tmp_total -> atomic (dbfs_get_super_blk flags dev m).
Proof.
  intros Ht. unfold dbfs_get_super_blk. destruct (find_super_blk _ _); [done|].
  apply atomic_bind_quiet; [unfold dbfs_create_simple_super_blk, dbfs_load_super_blk; quiets|].
  intros sb. cbv zeta. apply atomic_bind_settled; [|simpl; eauto].
  unfold dbfs_fill_super_block. apply atomic_bind_settled; [|intros [h m']; simpl; eauto].
  unfold dbfs_create_root_inode. apply atomic_bind_settled; [apply atomic_map_err, atomic_root|].
  intros count. unfold tmp_inode.
  destruct (Ht (new_handle (vm_supers m)) 1 S_DIR DBFS_DIR_INODE_OPS DBFS_DIR_FILE_OPS) as [ti ->].
  simpl. eauto.
Qed.

Lemma atomic_sync : atomic dbfs_sync_fs.
Proof. unfold dbfs_sync_fs. atomics. Qed.
Lemma atomic_vrename old_dir old_dentry new_dir new_dentry m :
  atomic (dbfs_rename old_dir old_dentry new_dir new_dentry m).
Proof. unfold dbfs_rename. atomics. Qed.
Lemma quiet_listattr_loop kvs acc : quiet (listattr_loop kvs acc).
Proof.
  revert acc. induction kvs as [|kv kvs IH]; intros acc; simpl; quiets.
  unfold listattr_step. destruct acc as [[len total] buf]. quiets.
Qed.
Lemma quiet_readdir_needed kvs acc : quiet (readdir_needed kvs acc).
Proof. revert acc. induction kvs as [|[k v] kvs IH]; intros acc; simpl; quiets. Qed.
Lemma quiet_readdir_fill es len count offset out : quiet (readdir_fill es len count offset out).
Proof. revert count offset out. induction es as [|x es IH]; intros; simpl; quiets; done. Qed.
#[local] Hint Resolve quiet_readdir_fill : quiet.
Lemma quiet_readdir_rounds fuel n len count offset out :
  quiet (readdir_rounds fuel n len count offset out).
Proof.
  revert count offset out. induction fuel as [|fuel IH]; intros; [done|]. cbn [readdir_rounds].
  quiets. done.
Qed.
#[local] Hint Resolve quiet_listattr_loop quiet_readdir_needed quiet_readdir_rounds : quiet.
Lemma quiet_vreaddir fuel f len m : quiet (dbfs_readdir fuel f len m).
Proof. unfold dbfs_readdir. quiets. done. Qed.

(** Every call but [remove_attr] is atomic. *)
Definition is_removeattr (c : VfsCall) : bool :=
  match c with VRemoveattr _ _ => true | _ => false end.

Lemma vfs_exec_atomic c m :
  vfs_call_atomic m c -> is_removeattr c = false -> atomic (vfs_exec c m).
Proof.
  intros Hc Hne. destruct c; cbn [vfs_exec vfs_call_atomic] in *; try done.
  - apply atomic_rvfs_create; [by eexists|apply Hc..].
  - apply atomic_rvfs_create; [by eexists|apply Hc..].
  - apply atomic_rvfs_create; [by eexists|apply Hc..].
  - destruct Hc as (d & i & Hd & Hi & Hr). unfold dbfs_unlink, deref_dentry. rewrite Hd. let_ret.
    apply atomic_bind_quiet; [quiets|]. intros di. unfold deref_inode. rewrite Hi. let_ret.
    apply atomic_bind_settled; [apply atomic_map_err, atomic_unlink|]. intros _.
    eapply settled_links_plus; [done|lia].
  - apply quiet_atomic. unfold dbfs_lookup, upgrade_super, tmp_inode, alloc_inode. quiets.
  - destruct Hc as (i & Hi & Hr). unfold dbfs_rmdir.
    apply atomic_bind_quiet; [quiets|]. intros d. apply atomic_bind_quiet; [quiets|]. intros de.
    apply atomic_bind_settled; [apply atomic_map_err, atomic_rmdir|]. intros _.
    eapply settled_fsize_plus; [done|lia].
  - apply atomic_bind_settled; [|simpl; eauto]. unfold dbfs_setattr. atomics.
  - apply quiet_atomic. unfold dbfs_getattr. quiets.
  - apply quiet_atomic. unfold dbfs_listattr. quiets.
  - apply quiet_atomic. unfold dbfs_readlink. quiets.
  - apply quiet_atomic. unfold dbfs_followlink. quiets.
  - apply atomic_vrename.
  - apply atomic_bind_settled; [|simpl; eauto]. unfold dbfs_truncate.
    apply atomic_bind_quiet; [quiets|]. intros i.
    apply atomic_bind_settled; [apply atomic_map_err, atomic_truncate|simpl; eauto].
  - apply atomic_bind_settled; [|simpl; eauto]. unfold dbfs_file_write.
    apply atomic_bind_quiet; [quiets|]. intros i. apply atomic_map_err, atomic_write.
  - apply quiet_atomic. unfold dbfs_file_read. quiets.
  - apply quiet_atomic. apply quiet_bind; [apply quiet_vreaddir|done].
  - apply atomic_bind_settled; [by apply atomic_vmount|]. intros [h m']. simpl. eauto.
  - apply atomic_bind_settled; [|simpl; eauto]. apply atomic_unwrap, atomic_umount.
  - apply atomic_bind_settled; [apply atomic_sync|simpl; eauto].
  - apply quiet_atomic. unfold dbfs_stat_fs. quiets.
Qed.

(** [remove_attr] of a name that is not set commits, but nothing. *)
Lemma wp_removeattr_keeps dentry key m s :
  wp false (dbfs_removeattr dentry key m)
     (fun o s' => o = Ok tt \/ a_db s' = a_db s) s.
Proof.
  destruct s as [D T n tb]. unfold dbfs_removeattr. apply wp_with_tx; [by right|]. wnorm.
  apply wp_bind. unfold dentry_number, deref_dentry.
  destruct (vm_dentries m !! dentry) as [d|]; [|apply wp_bind, wp_done; by right].
  let_ret. unfold deref_inode. destruct (vm_inodes m !! d_inode d) as [i|];
    [|apply wp_bind, wp_done; by right].
  let_ret. apply wp_ret. apply wp_bind, wp_unwrap. eapply wp_get_bucket; [reflexivity|]. simpl.
  destruct (D !! ipath (i_number i)) as [b|] eqn:Eb; simpl; wgo; [|by right].
  eapply wp_bdelete; [reflexivity|]. unfold spec_delete. simpl. rewrite Eb.
  destruct (b !! attr_key key) as [[v|]|]; simpl; wgo;
    (eapply wp_commit; [reflexivity|by right|]); wgo; by (left + right).
Qed.
End AtomicVfs.

(** ** Reachable states *)

Section VfsReachable.
Context `{Config} `{Rvfs} `{Platform}.

(** A call takes effect on the store when it succeeds. *)
Definition vfs_step (c : VfsCall) (s : World * VfsMem) : World * VfsMem :=
  match run (vfs_exec c s.2) s.1 with
  | (Ok m', w') => (w', m')
  | (_, w') => (w', s.2)
  end.

(** An empty database is formatted; a new kernel starts with an empty store;
    between two calls [rvfs] may change its objects as it likes. *)
Inductive vfs_reachable : World * VfsMem -> Prop :=
  | vreach_mkfs w size :
      db_view (w_db w) = ∅ ->
      vfs_reachable ((run (init_db (E := DbfsError) size) (restart w)).2,
                     {| vm_inodes := ∅; vm_dentries := ∅; vm_supers := ∅; vm_mounted := [] |})
  | vreach_boot w m :
      vfs_reachable (w, m) ->
      vfs_reachable (restart w,
                     {| vm_inodes := ∅; vm_dentries := ∅; vm_supers := ∅; vm_mounted := [] |})
  | vreach_env w m m' : vfs_reachable (w, m) -> vm_wf m' -> vfs_reachable (w, m')
  | vreach_call s c : vfs_reachable s -> vfs_call_ok s.2 c -> vfs_reachable (vfs_step c s).

Lemma vm_wf_empty :
  vm_wf {| vm_inodes := ∅; vm_dentries := ∅; vm_supers := ∅; vm_mounted := [] |}.
Proof. split; simpl; intros *; rewrite ?lookup_empty; try done. by intros ?%elem_of_nil. Qed.

(** C16: whatever sequence of operations [rvfs] performs through the tables,
    with any arguments and outcomes and any number of mounts and restarts, but
    without a rename between two directories, every stored value has the type
    of its key, and the store of objects is sound: every dentry refers to an
    inode object, every root to a dentry, every mounted super block is alive,
    and every inode object has the operation tables of its mode and fields in
    the range of their widths. *)
Theorem vfs_reachable_ok w m :
  vfs_reachable (w, m) -> typed_view (db_view (w_db w)) /\ vm_wf m.
Proof.
  intros Hr. enough (Hw : typed_world w /\ vm_wf m) by (split; apply Hw).
  remember (w, m) as s eqn:Es. revert w m Es.
  induction Hr as [w size Hw|w m Hr IH|w m m' Hr IH Hm|[w m] c Hr IH Hc];
    intros w0 m0 Es; [simplify_eq..|].
  - split; [|apply vm_wf_empty].
    assert (Hb : typed_world (restart w)).
    { split; [intros p b; simpl; by rewrite Hw, lookup_empty|constructor|unfold u64; simpl; lia]. }
    pose proof (tsafe_run _ _ _ (tsafe_init_db (E := DbfsError) size) Hb) as Ht.
    destruct (run _ _). apply Ht.
  - destruct (IH _ _ eq_refl) as [Hw _]. split; [|apply vm_wf_empty].
    split; [apply Hw|constructor|unfold u64; simpl; lia].
  - split; [|done]. by destruct (IH _ _ eq_refl).
  - destruct (IH w m eq_refl) as [Hw Hm]. simpl in Hc.
    pose proof (tsafe_run _ _ _ (vfs_exec_tsafe c m Hm Hc) Hw) as Ht.
    unfold vfs_step in Es. simpl in Es.
    destruct (run _ _) as [[m'|e|] w']; destruct Ht; simplify_eq; auto.
Qed.

(** C17: an operation of [rvfs] that does not succeed, for whatever reason and
    on any platform, leaves the contents of the database as they were, when the
    work it does on the objects after its commit cannot fail
    ([vfs_call_atomic]): for an operation that makes an inode object, the
    library makes it, the super block of the directory is alive and its size
    can grow; for [unlink] and [rmdir], the objects whose counters they lower
    are in the store with counters in range.  A hard link is excluded: it reads
    the attributes again after its commit. *)
Theorem vfs_error_changes_nothing c w m :
  vfs_call_atomic m c ->
  (exists m', (run (vfs_exec c m) w).1 = Ok m') \/
  db_view (w_db (run (vfs_exec c m) w).2) = db_view (w_db w).
Proof.
  intros Hc. destruct (is_removeattr c) eqn:Er; [|by apply atomic_run, vfs_exec_atomic].
  destruct c as [| | | | | | | |de key| | | | | | | | | | | | |]; try done. clear Er.
  cbn [vfs_exec]. unfold bind. rewrite run_graft.
  pose proof (wp_removeattr_keeps de key m (st w) _ w ltac:(done) eq_refl) as Hr.
  destruct (run (dbfs_removeattr de key m) w) as [[[]|e|] w'] eqn:Er; simpl; [left; eauto|right..];
    by destruct Hr.
Qed.
End VfsReachable.

Section VfsWitness.
#[local] Existing Instances cfg512 sample_rvfs map_platform.

(** The formatted disk, mounted. *)
Definition mounted : World * VfsMem :=
  vfs_step (VMount 0 (bs "disk"))
    ((run (init_db (E := DbfsError) 1024) (restart blank)).2,
     {| vm_inodes := ∅; vm_dentries := ∅; vm_supers := ∅; vm_mounted := [] |}).

Lemma vfs_reachable_ok_witness : typed_view (db_view (w_db mounted.1)) /\ vm_wf mounted.2.
Proof.
  apply (vfs_reachable_ok mounted.1 mounted.2).
  replace (mounted.1, mounted.2) with mounted by (by destruct mounted).
  apply vreach_call; [|exact I]. apply vreach_mkfs. reflexivity.
Defined.

Lemma vfs_error_changes_nothing_witness :
  let w := sample_world in
  (exists m', (run (vfs_exec (VUnlink 1 12) sample_vfs) w).1 = Ok m') \/
  db_view (w_db (run (vfs_exec (VUnlink 1 12) sample_vfs) w).2) = db_view (w_db w).
Proof.
  apply (vfs_error_changes_nothing (VUnlink 1 12) sample_world sample_vfs).
  exists (sample_dentry (bs "foo") 2), (sample_inode 2 1 0 S_FILE).
  split; [reflexivity|]. split; [reflexivity|]. simpl. lia.
Defined.
End VfsWitness.
