(* ===== verification/FuseSystem.v ===== *)
(** * The FUSE file system as a transition system

    Requests are the steps, mounts and unmounts included.  The two theorems
    say that no request, whatever its outcome, stores a value of the wrong
    type, and that a request answered with an error changed nothing. *)

From S2P Require Import Prelude Jammdb Effects Run RustStd Common Buckets Slices Access Inode.
From S2P Require Import Create FsType Link Truncate File Rename Attr Readdir Safe Typed Atomic Samples.
From S2P Require Import System Fuse.

(** ** Requests *)

Inductive FuseCall :=
  | FLookup (parent : Z) (name : bytes)
  | FGetattr (ino : Z)
  | FSetattr (ino : Z) (mode uid gid size : option Z) (atime mtime : option TimeOrNow)
  | FReadlink (ino : Z)
  | FMknod (parent : Z) (name : bytes) (mode rdev : Z)
  | FMkdir (parent : Z) (name : bytes) (mode : Z)
  | FUnlink (parent : Z) (name : bytes)
  | FRmdir (parent : Z) (name : bytes)
  | FSymlink (parent : Z) (name link : bytes)
  | FRename (parent : Z) (name : bytes) (newparent : Z) (newname : bytes) (flags : Z)
  | FLink (ino newparent : Z) (newname : bytes)
  | FOpen (ino flags : Z)
  | FRead (ino offset size : Z)
  | FWrite (ino offset : Z) (data : bytes)
  | FFlush (ino : Z)
  | FRelease (ino : Z)
  | FFsync (ino : Z) (datasync : bool)
  | FFsyncdir (ino : Z) (datasync : bool)
  | FForget (ino nlookup : Z)
  | FBatchForget (nodes : list Z)
  | FOpendir (ino flags : Z)
  | FReaddir (ino offset : Z)
  | FReaddirplus (ino offset : Z)
  | FReleasedir (ino : Z)
  | FStatfs
  | FSetxattr (ino : Z) (name value : bytes)
  | FGetxattr (ino : Z) (name : bytes) (size : Z)
  | FListxattr (ino size : Z)
  | FRemovexattr (ino : Z) (name : bytes)
  | FAccess (ino mask : Z)
  | FCreate (parent : Z) (name : bytes) (mode flags : Z)
  | FFallocate (ino offset length mode : Z)
  | FCopyRange (ino_in offset_in ino_out offset_out len : Z).

(** What a mount fixes ([direct_io], the capacity of directory replies) and
    what a request carries besides its arguments (caller, clock); and the
    bound on the rounds of the loop of a listing. *)
Record FuseEnv := {
  fe_direct_io : bool;
  fe_full : list DirItem -> DirItem -> bool;
  fe_full_plus : list DirPlusItem -> DirPlusItem -> bool;
  fe_req : Request;
  fe_clock : nat -> SystemTime;
  fe_rounds : nat
}.

(** The arguments the Rust types bound and that are stored or used as positions. *)
Definition fuse_call_ok (c : FuseCall) : Prop :=
  match c with
  | FSetattr _ _ _ _ (Some size) _ _ => u64 size
  | FMknod parent _ _ _ | FMkdir parent _ _ | FSymlink parent _ _ | FCreate parent _ _ _ => u64 parent
  | FRename parent _ newparent _ _ => u64 parent /\ u64 newparent
  | FLink ino _ _ => u64 ino
  | FRead _ _ size => 0 <= size
  | FCopyRange _ _ _ _ len => u64 len
  | _ => True
  end.

Section Serve.
Context `{Config}.

Definition serve (v : FuseEnv) (c : FuseCall) : Prog Empty_set Reply :=
  let req := fe_req v in
  let clock := fe_clock v in
  match c with
  | FLookup parent name => fuse_lookup parent name
  | FGetattr ino => fuse_getattr ino
  | FSetattr ino mode uid gid size atime mtime =>
      fuse_setattr req clock ino mode uid gid size atime mtime
  | FReadlink ino => fuse_readlink ino
  | FMknod parent name mode rdev => fuse_mknod req clock parent name mode rdev
  | FMkdir parent name mode => fuse_mkdir req clock parent name mode
  | FUnlink parent name => fuse_unlink req clock parent name
  | FRmdir parent name => fuse_rmdir req clock parent name
  | FSymlink parent name link => fuse_symlink req clock parent name link
  | FRename parent name newparent newname flags =>
      fuse_rename req clock parent name newparent newname flags
  | FLink ino newparent newname => fuse_link req clock ino newparent newname
  | FOpen ino flags => fuse_open (fe_direct_io v) req ino flags
  | FRead ino offset size => fuse_read ino offset size
  | FWrite ino offset data => fuse_write ino offset data
  | FFlush ino => fuse_flush ino
  | FRelease ino => fuse_release ino
  | FFsync ino datasync => fuse_fsync ino datasync
  | FFsyncdir ino datasync => fuse_fsyncdir ino datasync
  | FForget ino nlookup => fuse_forget ino nlookup
  | FBatchForget nodes => fuse_batch_forget nodes
  | FOpendir ino flags => fuse_opendir (fe_direct_io v) req ino flags
  | FReaddir ino offset => fuse_readdir (fe_rounds v) (fe_full v) ino offset
  | FReaddirplus ino offset => fuse_readdirplus (fe_rounds v) (fe_full_plus v) ino offset
  | FReleasedir ino => fuse_releasedir ino
  | FStatfs => fuse_statfs
  | FSetxattr ino name value => fuse_setxattr req clock ino name value
  | FGetxattr ino name size => fuse_getxattr req ino name size
  | FListxattr ino size => fuse_listxattr req ino size
  | FRemovexattr ino name => fuse_removexattr req clock ino name
  | FAccess ino mask => fuse_access req ino mask
  | FCreate parent name mode flags => fuse_create req clock parent name mode flags
  | FFallocate ino offset length mode => fuse_fallocate req clock ino offset length mode
  | FCopyRange ino_in offset_in ino_out offset_out len =>
      fuse_copy_file_range clock ino_in offset_in ino_out offset_out len
  end.

(** ** Typing *)

Lemma tsafe_time_of_system {E} t : tsafe (time_of_system (E := E) t) (fun _ => True).
Proof. unfold time_of_system. tgo. done. Qed.
Lemma tsafe_file_attr {E} attr : tsafe (file_attr (E := E) attr) (fun _ => True).
Proof. unfold file_attr, system_of_time. tgo. done. Qed.
Lemma tsafe_to_str {E} name : tsafe (to_str (E := E) name) (fun _ => True).
Proof. unfold to_str. tgo. done. Qed.
Lemma tsafe_time_or_now {E} now t : tsafe (time_or_now (E := E) now t) (fun _ => True).
Proof. unfold time_or_now, time_of_system. tgo; done. Qed.
Lemma tsafe_answer {E A} (code : E -> Z) p ok (Q : A -> Prop) :
  tsafe p Q -> (forall a, Q a -> tsafe (ok a) (fun _ => True)) ->
  tsafe (answer code p ok) (fun _ => True).
Proof.
  intros Hp Hok. unfold answer. apply tsafe_bind, tsafe_attempt; [intros e; done|].
  eapply tsafe_mono; [exact Hp|]. done.
Qed.
End Serve.

Create HintDb tsafe discriminated.
#[export] Hint Constants Opaque : tsafe.
#[export] Hint Resolve tsafe_time_of_system tsafe_file_attr tsafe_to_str tsafe_time_or_now
  tsafe_root tsafe_attr tsafe_lookup tsafe_access tsafe_readdir tsafe_readlink tsafe_statfs
  tsafe_create tsafe_link tsafe_read tsafe_write tsafe_copy_range tsafe_truncate tsafe_getxattr
  tsafe_listxattr tsafe_chmod tsafe_chown tsafe_utimens tsafe_init_db tsafe_umount tsafe_open
  tsafe_unlink tsafe_rmdir tsafe_rename tsafe_fallocate tsafe_setxattr tsafe_removexattr : tsafe.

(** Types an adapter function: the calls it makes are typed by the hints. *)
Ltac fstep :=
  first
    [ tstep
    | eapply tsafe_mono; [solve [eauto 3 with tsafe nocore]|intros; cbv beta]
    | lazymatch goal with
      | |- tsafe (answer _ _ _) _ =>
          eapply tsafe_mono;
            [apply (tsafe_answer _ _ _ (fun _ => True)); [|intros; cbv beta]|intros; cbv beta]
      | |- tsafe (alloc _) _ => eapply tsafe_mono; [apply tsafe_alloc|intros; cbv beta]
      | |- tsafe (dealloc _ _) _ => eapply tsafe_mono; [apply tsafe_dealloc|intros; cbv beta]
      end ].
Ltac fgo := repeat (fstep; cbv beta zeta); try done.

Section TypedServe.
Context `{Config}.

Lemma tsafe_readdir_add {Item} full (item : DbfsDirEntry -> Z -> Prog Empty_set Item) es repl offset :
  (forall x n, tsafe (item x n) (fun _ => True)) ->
  tsafe (readdir_add full item es repl offset) (fun _ => True).
Proof.
  intros Hi. revert repl offset. induction es as [|x es IH]; intros repl offset; cbn [readdir_add]; [done|].
  unfold add_i64. fgo; (eapply tsafe_mono; [apply Hi|intros; cbv beta]); fgo; apply IH.
Qed.

Lemma tsafe_readdir_reply {Item} full (item : DbfsDirEntry -> Z -> Prog Empty_set Item)
    plus reply fuel ino offset repl :
  (forall x n, tsafe (item x n) (fun _ => True)) ->
  tsafe (readdir_reply full item plus reply fuel ino offset repl) (fun _ => True).
Proof.
  intros Hi. revert offset repl. induction fuel as [|fuel IH]; intros offset repl; cbn [readdir_reply]; [done|].
  fgo. eapply tsafe_mono; [by apply tsafe_readdir_add|]. intros [[repl' offset'] stop] _.
  destruct stop; fgo; (split; [done|]); intros [] _; cbv beta; fgo; apply IH.
Qed.

Lemma batch_forget_nothing nodes : fuse_batch_forget nodes = ret RNothing.
Proof. by induction nodes. Qed.

Lemma serve_tsafe v c : fuse_call_ok c -> tsafe (serve v c) (fun _ => True).
Proof.
  destruct c; cbn [serve fuse_call_ok]; intros Hc;
    unfold fuse_lookup, fuse_getattr, fuse_setattr, fuse_readlink, fuse_mknod, fuse_mkdir,
      fuse_unlink, fuse_rmdir, fuse_symlink, fuse_rename, fuse_link, fuse_open, fuse_read,
      fuse_write, fuse_flush, fuse_release, fuse_fsync, fuse_fsyncdir, fuse_forget, fuse_opendir,
      fuse_readdir, fuse_readdirplus, dbfs_fuse_readdir, dbfs_fuse_readdirplus,
      fuse_releasedir, fuse_statfs, fuse_setxattr, fuse_getxattr, fuse_listxattr,
      fuse_removexattr, fuse_access, fuse_create, fuse_fallocate, fuse_copy_file_range,
      dbfs_fuse_lookup, dbfs_fuse_create, dbfs_fuse_mkdir, dbfs_fuse_truncate, dbfs_fuse_rmdir,
      dbfs_fuse_fallocate, dbfs_fuse_rename, dbfs_fuse_mknod, dbfs_fuse_getattr,
      dbfs_fuse_statfs, dbfs_fuse_access, dbfs_fuse_setxattr, dbfs_fuse_getxattr,
      dbfs_fuse_listxattr, dbfs_fuse_removexattr, dbfs_fuse_chmod, dbfs_fuse_chown,
      dbfs_fuse_utimens, dbfs_fuse_link, dbfs_fuse_symlink, dbfs_fuse_readlink,
      dbfs_fuse_unlink, dbfs_fuse_read, dbfs_fuse_write, dbfs_fuse_releasedir, dbfs_fuse_open,
      dbfs_fuse_opendir, dbfs_fuse_copy_file_range, reply_attr, reply_entry, reply_ok;
    try rewrite batch_forget_nothing; fgo.
  - by apply tsafe_rename; destruct Hc.
  - apply tsafe_readdir_reply. intros. unfold dir_item. fgo.
  - apply tsafe_readdir_reply. intros. unfold dir_plus_item. fgo.
Qed.

Lemma tsafe_fuse_init uid gid clock : tsafe (fuse_init uid gid clock) (fun _ => True).
Proof. unfold fuse_init. fgo. Qed.
Lemma tsafe_destroy : tsafe dbfs_fuse_destroy (fun _ => True).
Proof. unfold dbfs_fuse_destroy. fgo. Qed.
End TypedServe.

(** ** Error replies *)

(** A run of [p] that ends with an error leaves the database as it was. *)
Definition keeps_on_error {E A} (p : Prog E A) : Prop :=
  forall (K : Platform) (w : World) e,
    (run p w).1 = Err e -> db_view (w_db (run p w).2) = db_view (w_db w).

(** [p] does not return an error (it may panic). *)
Definition no_error {E A} (p : Prog E A) : Prop :=
  forall (K : Platform) (w : World) e, (run p w).1 <> Err e.

Lemma atomic_keeps {E A} (p : Prog E A) : atomic p -> keeps_on_error p.
Proof. intros Hp K w e He. destruct (atomic_run p w Hp) as [[a Ha]|Hk]; congruence. Qed.

Lemma keeps_bind_no_error {E A B} (p : Prog E A) (f : A -> Prog E B) :
  keeps_on_error p -> (forall a, no_error (f a)) -> keeps_on_error (bind p f).
Proof.
  intros Hp Hf K w e. unfold bind. rewrite run_graft.
  specialize (Hp K w). destruct (run p w) as [[a|e'|] w']; simpl in *; [|intros; by eapply Hp|done].
  intros He. by apply Hf in He.
Qed.

Lemma keeps_bind_quiet {E A B} (p : Prog E A) (f : A -> Prog E B) :
  quiet p -> (forall a, keeps_on_error (f a)) -> keeps_on_error (bind p f).
Proof.
  intros Hp Hf K w e. unfold bind. rewrite run_graft.
  pose proof (quiet_run p w Hp) as Hq. destruct (run p w) as [[a|e'|] w']; simpl in *; [|done..].
  intros He. rewrite <- Hq. by eapply Hf.
Qed.

Lemma keeps_map_err {E E' A} (f : E -> E') (p : Prog E A) :
  keeps_on_error p -> keeps_on_error (map_err f p).
Proof.
  intros Hp K w e. unfold map_err. rewrite run_graft.
  specialize (Hp K w). destruct (run p w) as [[a|e'|] w']; simpl in *; [done|eauto|done].
Qed.

(** A request that is answered with an error leaves the database as it was. *)
Definition error_keeps (p : Prog Empty_set Reply) : Prop :=
  forall (K : Platform) (w : World) e,
    (run p w).1 = Ok (RError e) -> db_view (w_db (run p w).2) = db_view (w_db w).

Lemma error_keeps_quiet p : quiet p -> error_keeps p.
Proof. intros Hp K w e _. by apply quiet_run. Qed.

Lemma error_keeps_bind {A} (p : Prog Empty_set A) f :
  quiet p -> (forall a, error_keeps (f a)) -> error_keeps (bind p f).
Proof.
  intros Hp Hf K w e. unfold bind. rewrite run_graft.
  pose proof (quiet_run p w Hp) as Hq. destruct (run p w) as [[a|e'|] w']; simpl in *; [|done..].
  intros He. rewrite <- Hq. by eapply Hf.
Qed.

(** The reply to a success is not an error. *)
Definition no_error_reply (p : Prog Empty_set Reply) : Prop :=
  forall (K : Platform) (w : World) e, (run p w).1 <> Ok (RError e).

Lemma error_keeps_answer {E A} (code : E -> Z) (p : Prog E A) ok :
  keeps_on_error p -> (forall a, no_error_reply (ok a)) -> error_keeps (answer code p ok).
Proof.
  intros Hp Hok K w e. unfold answer, bind, attempt. rewrite !run_graft.
  specialize (Hp K w). destruct (run p w) as [[a|e'|] w']; simpl in *.
  - intros He. by apply Hok in He.
  - intros _. by eapply Hp.
  - done.
Qed.

#[export] Hint Resolve quiet_attr quiet_lookup quiet_access quiet_open quiet_readlink quiet_statfs
  quiet_getxattr quiet_listxattr quiet_removexattr quiet_read quiet_readdir : quiet.

Create HintDb keeps.
#[export] Hint Resolve atomic_chmod atomic_chown atomic_utimens atomic_setxattr atomic_truncate
  atomic_fallocate atomic_unlink atomic_rmdir atomic_rename atomic_write : keeps.

Section ErrorReplies.
Context `{Config}.

Lemma quiet_table_push {E} n i : quiet (table_push (E := E) n i).
Proof. by split. Qed.
Lemma quiet_table_pop {E} n : quiet (table_pop (E := E) n).
Proof. by split. Qed.
Lemma quiet_dealloc {E} ptr n : quiet (dealloc (E := E) ptr n).
Proof. by split. Qed.
#[local] Hint Resolve quiet_table_push quiet_table_pop quiet_dealloc : quiet.

Lemma quiet_time_of_system {E} t : quiet (time_of_system (E := E) t).
Proof. unfold time_of_system. quiets. Qed.
Lemma quiet_to_str {E} name : quiet (to_str (E := E) name).
Proof. unfold to_str. quiets. Qed.
Lemma quiet_file_attr {E} attr : quiet (file_attr (E := E) attr).
Proof. unfold file_attr, system_of_time. quiets. Qed.
Lemma quiet_answer {E A} (code : E -> Z) (p : Prog E A) ok :
  quiet p -> (forall a, quiet (ok a)) -> quiet (answer code p ok).
Proof. intros Hp Hok. unfold answer. quiets; auto. Qed.
#[local] Hint Resolve quiet_time_of_system quiet_to_str quiet_file_attr : quiet.
Lemma quiet_time_or_now {E} now t : quiet (time_or_now (E := E) now t).
Proof. unfold time_or_now. quiets. Qed.
#[local] Hint Resolve quiet_time_or_now : quiet.

Lemma no_error_file_attr {E} attr : no_error (file_attr (E := E) attr).
Proof.
  intros K w e. unfold file_attr, system_of_time, assert_prog, bind. simpl.
  repeat (case_match; simpl); done.
Qed.
Lemma no_error_reply_ret r : (forall e, r <> RError e) -> no_error_reply (ret r).
Proof. intros Hr K w e. simpl. intros [= ->]. by apply (Hr e). Qed.
Lemma no_error_reply_attr {A} (f : FileAttr -> A) (g : A -> Reply) attr :
  (forall a e, g a <> RError e) -> no_error_reply (attr ← file_attr attr; ret (g (f attr))).
Proof.
  intros Hg K w e. unfold file_attr, system_of_time, assert_prog, bind. simpl.
  repeat (case_match; simpl); try done. intros [= He]. by apply Hg in He.
Qed.

Lemma keeps_create dir name uid gid t permission target dev :
  keeps_on_error (dbfs_common_create dir name uid gid t permission target dev).
Proof.
  unfold dbfs_common_create. apply keeps_bind_quiet; [quiets|]. intros n.
  apply keeps_bind_no_error; [apply atomic_keeps, atomic_with_tx; atomics|].
  intros [[[[hl fs] dv] mode] g] K w e. by destruct (file_type_of_perm permission).
Qed.

(** The requests whose error replies say that nothing happened.  [link] can
    fail after its commit, [copy_file_range] commits twice. *)
Definition fuse_call_atomic (c : FuseCall) : Prop :=
  match c with FLink _ _ _ | FCopyRange _ _ _ _ _ => False | _ => True end.

Lemma quiet_readdir_add {Item} full (item : DbfsDirEntry -> Z -> Prog Empty_set Item) es repl offset :
  (forall x n, quiet (item x n)) -> quiet (readdir_add full item es repl offset).
Proof.
  intros Hi. revert repl offset. induction es as [|x es IH]; intros; cbn [readdir_add]; [done|].
  unfold add_i64. quiets; auto.
Qed.
Lemma quiet_readdir_reply {Item} full (item : DbfsDirEntry -> Z -> Prog Empty_set Item)
    plus reply fuel ino offset repl :
  (forall x n, quiet (item x n)) ->
  quiet (readdir_reply full item plus reply fuel ino offset repl).
Proof.
  intros Hi. revert offset repl. induction fuel as [|fuel IH]; intros; cbn [readdir_reply]; [done|].
  unfold readdir_push, push_readdir_table. quiets; auto. by apply quiet_readdir_add.
Qed.

(** Decide [error_keeps] and [keeps_on_error] by the shape of the handler. *)
Ltac keeps :=
  repeat first
    [ progress intros
    | match goal with
      | |- error_keeps (bind _ _) => apply error_keeps_bind; [solve [quiets]|]
      | |- error_keeps (answer _ _ _) => apply error_keeps_answer
      | |- keeps_on_error (bind _ (fun a => file_attr a)) =>
          apply keeps_bind_no_error; [|intros; apply no_error_file_attr]
      | |- keeps_on_error (bind _ _) => apply keeps_bind_quiet; [solve [quiets]|]
      | |- keeps_on_error (map_err _ _) => apply keeps_map_err
      | |- keeps_on_error (dbfs_common_create _ _ _ _ _ _ _ _) => apply keeps_create
      | |- keeps_on_error _ => apply atomic_keeps; solve [eauto with keeps]
      | |- no_error_reply (ret _) => apply no_error_reply_ret; done
      | |- no_error_reply (bind (file_attr _) _) =>
          apply (no_error_reply_attr (fun a => a)); done
      end ].

Lemma serve_error_keeps v c : fuse_call_atomic c -> error_keeps (serve v c).
Proof.
  destruct c; cbn [serve fuse_call_atomic]; intros Hc; try done.
  all: lazymatch goal with
  | |- error_keeps (fuse_mknod _ _ _ _ _ _) => unfold fuse_mknod, dbfs_fuse_mknod, reply_entry; keeps
  | |- error_keeps (fuse_mkdir _ _ _ _ _) => unfold fuse_mkdir, dbfs_fuse_mkdir; keeps
  | |- error_keeps (fuse_unlink _ _ _ _) => unfold fuse_unlink, dbfs_fuse_unlink, reply_ok; keeps
  | |- error_keeps (fuse_rmdir _ _ _ _) => unfold fuse_rmdir, dbfs_fuse_rmdir, reply_ok; keeps
  | |- error_keeps (fuse_symlink _ _ _ _ _) => unfold fuse_symlink, dbfs_fuse_symlink, reply_entry; keeps
  | |- error_keeps (fuse_rename _ _ _ _ _ _ _) => unfold fuse_rename, dbfs_fuse_rename, reply_ok; keeps
  | |- error_keeps (fuse_write _ _ _) => unfold fuse_write, dbfs_fuse_write; keeps
  | |- error_keeps (fuse_setxattr _ _ _ _ _) => unfold fuse_setxattr, dbfs_fuse_setxattr, reply_ok; keeps
  | |- error_keeps (fuse_create _ _ _ _ _ _) => unfold fuse_create, dbfs_fuse_create; keeps
  | |- error_keeps (fuse_fallocate _ _ _ _ _ _) => unfold fuse_fallocate, dbfs_fuse_fallocate, reply_ok; keeps
  | |- error_keeps (fuse_setattr _ _ _ _ _ _ _ _ _) =>
      unfold fuse_setattr, dbfs_fuse_chmod, dbfs_fuse_chown, dbfs_fuse_truncate, dbfs_fuse_utimens,
        reply_attr; repeat case_match; keeps; apply error_keeps_quiet; done
  | _ => apply error_keeps_quiet
  end.
  all: try rewrite batch_forget_nothing.
  all: unfold fuse_lookup, fuse_getattr, fuse_readlink, fuse_open, fuse_read, fuse_opendir,
    fuse_readdir, fuse_readdirplus, dbfs_fuse_readdir, dbfs_fuse_readdirplus, fuse_statfs,
    fuse_getxattr, fuse_listxattr,
    fuse_removexattr, fuse_access, dbfs_fuse_lookup, dbfs_fuse_getattr, dbfs_fuse_readlink,
    dbfs_fuse_open, dbfs_fuse_read, dbfs_fuse_opendir, dbfs_fuse_statfs, dbfs_fuse_getxattr,
    dbfs_fuse_listxattr, dbfs_fuse_removexattr, dbfs_fuse_access, reply_ok.
  all: repeat lazymatch goal with
  | |- quiet (bind _ _) => apply quiet_bind; intros
  | |- quiet (answer _ _ _) => apply quiet_answer; intros
  | r : Z * bytes |- quiet (match ?r with _ => _ end) => destruct r
  | |- quiet (readdir_reply _ _ _ _ _ _ _ _) => apply quiet_readdir_reply; intros
  end; unfold dir_item, dir_plus_item; quiets.
Qed.
End ErrorReplies.

(** ** Reachable states *)

Section Reachable.
Context `{Config} `{Platform}.

(** A mount is a new process that runs [init]. *)
Inductive fuse_reachable : World -> Prop :=
  | fuse_reach_mkfs w uid gid clock :
      db_view (w_db w) = ∅ -> fuse_reachable (run (fuse_init uid gid clock) (restart w)).2
  | fuse_reach_mount w uid gid clock :
      fuse_reachable w -> fuse_reachable (run (fuse_init uid gid clock) (restart w)).2
  | fuse_reach_destroy w : fuse_reachable w -> fuse_reachable (run fuse_destroy w).2
  | fuse_reach_request w v c :
      fuse_reachable w -> fuse_call_ok c -> fuse_reachable (run (serve v c) w).2.

Lemma restart_typed w : typed_view (db_view (w_db w)) -> typed_world (restart w).
Proof. intros Hw. split; [exact Hw|constructor|unfold u64; simpl; lia]. Qed.

Lemma run_typed {E A} (p : Prog E A) w :
  tsafe p (fun _ => True) -> typed_world w -> typed_world (run p w).2.
Proof.
  intros Hp Hw. pose proof (tsafe_run _ _ _ Hp Hw) as Ht. destruct (run p w). apply Ht.
Qed.

(** C18: in every state a FUSE mount can reach, through any requests with any
    arguments and outcomes (failed transactions, errors and panics included),
    unmounts, crashes and mounts, every stored value has the type of its
    key. *)
Theorem fuse_reachable_typed w : fuse_reachable w -> typed_view (db_view (w_db w)).
Proof.
  intros Hr. assert (Hw : typed_world w); [|apply Hw].
  induction Hr as [w uid gid clock Hw|w uid gid clock Hr IH|w Hr IH|w v c Hr IH Hc];
    apply run_typed; auto using tsafe_fuse_init, tsafe_destroy, serve_tsafe; apply restart_typed.
  - rewrite Hw. intros p b. by rewrite lookup_empty.
  - apply IH.
Qed.

(** C19: a request that is answered with an error, for whatever reason and on
    any platform, leaves the committed contents of the database as they were
    ([link] and [copy_file_range] excepted). *)
Theorem fuse_error_changes_nothing v c w e :
  fuse_call_atomic c -> (run (serve v c) w).1 = Ok (RError e) ->
  db_view (w_db (run (serve v c) w).2) = db_view (w_db w).
Proof. intros Hc He. by eapply serve_error_keeps. Qed.
End Reachable.
