(* ===== verification/FuseEffects.v ===== *)
(** * What FUSE requests do

    The theorems on the adapter: data written by one request is read by the
    next, a directory is listed, links are read, and what happens to the inode
    counter across mounts. *)

From S2P Require Import Prelude Jammdb Effects Run RustStd Common Buckets Slices Access Inode.
From S2P Require Import Create FsType Link Truncate File Rename Attr Readdir Safe Typed Atomic Samples.
From S2P Require Import Namespace Listing Data Metadata Mount System Fuse FuseSystem.

(** ** File data *)

Section FuseData.
Context `{Config}.

(** A write and the read of the same range, as two requests. *)
Definition write_read (v : FuseEnv) (ino offset : Z) (data : bytes)
  : Prog Empty_set (Reply * Reply) :=
  r1 ← serve v (FWrite ino offset data);
  r2 ← serve v (FRead ino offset (blen data));
  ret (r1, r2).

(** C34: at an offset in the first slice or at the start of a slice, what a write
    request of some data stored is what a read request of the same range
    replies, whatever was in the buffer the reply is read into.  (At another
    offset the read starts at the slice: [read_unaligned].) *)
Theorem fuse_write_then_read v number data offset D T n tb b a :
  file_at D number b a -> 0 <= offset < 2 ^ 63 -> 0 < blen data < 2 ^ 32 ->
  Z.max (st_size a) (offset + blen data) < (2 ^ 32 - 1) * SLICE_SIZE ->
  offset < SLICE_SIZE \/ offset `mod` SLICE_SIZE = 0 ->
  wp true (write_read v number offset data)
     (fun o _ => o = Ok (RWritten (blen data), RData data)) (mkS D T n tb).
Proof.
  intros Hf Ho Hd Hmax Hal. pose proof SLICE_SIZE_range. pose proof Hf as [Hin Hok].
  assert (Hu : as_u64 offset = offset) by (unfold as_u64; apply Z.mod_small; lia).
  unfold write_read. cbn [serve]. unfold fuse_write, fuse_read, answer, dbfs_fuse_write,
    dbfs_fuse_read, assert_prog. rewrite Hu, !(proj2 (Z.leb_le 0 offset)) by lia. wgo.
  eapply wp_dbfs_common_write; eauto; try lia. intros b' Hw. wnorm. wgo.
  apply wp_alloc; [lia|done|]. intros ptr m Hm. wnorm. wgo.
  eapply wp_read_back; eauto; try lia; [unfold blen in *; lia|]. wnorm. wgo.
  rewrite (proj2 (Z.leb_le (blen data) (blen data))) by lia. wgo.
  apply wp_dealloc. wnorm. wgo. rewrite slice_all. unfold as_u32. rewrite Z.mod_small by lia. done.
Qed.
End FuseData.

(** ** Directories *)

(** The reply entry made of a directory entry. *)
Definition item_of (x : DbfsDirEntry) : DirItem :=
  {| di_ino := de_ino x; di_offset := de_offset x + 1; di_kind := fuse_file_type (de_kind x);
     di_name := de_name x |}.

Section FuseReaddir.
Context `{Config}.

Lemma wp_add_i64 {E} rel a b (Q : outcome E Z -> AState -> Prop) s :
  - 2 ^ 63 <= a + b < 2 ^ 63 -> Q (Ok (a + b)) s -> wp rel (add_i64 a b) Q s.
Proof.
  intros Hz HQ. unfold add_i64. rewrite (proj2 (Z.leb_le _ _)), (proj2 (Z.ltb_lt _ _)) by lia.
  by apply wp_ret.
Qed.

(** The entries [es1] fit in the reply. *)
Lemma wp_readdir_add full es1 es2 repl offset s Q :
  (forall x, x ∈ es1 -> 0 <= de_offset x < 2 ^ 63 - 1) ->
  (forall r i, (length r < length repl + length es1)%nat -> full r i = false) ->
  wp true (readdir_add full dir_item es2 (repl ++ (item_of <$> es1))
             (default offset ((fun x => de_offset x + 1) <$> es1 !! (length es1 - 1)%nat))) Q s ->
  wp true (readdir_add full dir_item (es1 ++ es2) repl offset) Q s.
Proof.
  revert repl offset. induction es1 as [|x es1 IH]; intros repl offset Ho Hf HQ.
  { by rewrite app_nil_r in HQ. }
  pose proof (Ho x ltac:(by left)) as Hx. simpl app. cbn [readdir_add]. apply wp_bind.
  assert (Has : as_i64 (de_offset x) = de_offset x)
    by (unfold as_i64; by rewrite (proj2 (Z.ltb_lt _ _)) by lia).
  rewrite Has. apply wp_add_i64; [lia|]. unfold dir_item. wgo.
  rewrite Hf by (simpl; lia). apply IH.
  - intros y Hy. apply Ho. by right.
  - intros r i Hr. apply Hf. rewrite length_app in Hr. simpl in *. lia.
  - rewrite <- app_assoc. simpl app. destruct es1 as [|y es1]; [done|].
    simpl in *. rewrite Nat.sub_0_r in *.
    destruct (lookup_lt_is_Some_2 (y :: es1) (length es1)) as [z Hz]; [simpl; lia|].
    rewrite Hz in *. done.
Qed.

(** The second reading of a directory that was read to its end. *)
Lemma wp_readdir_reply_end full repl fuel ino D T n tb b x (Q : outcome Empty_set Reply -> AState -> Prop) :
  let items := omap data_item (sorted_entries b) in
  D !! ipath ino = Some b -> listable D b ->
  Z.of_nat (length (sorted_entries b)) < 2 ^ 62 ->
  de_offset x = Z.of_nat (length items - 1) ->
  (exists v, items !! (length items - 1)%nat = Some (de_name x, v)) ->
  let s := mkS D T n (<[ino := {| rd_offset := de_offset x; rd_key := de_name x |}]> tb) in
  Q (Ok (RDirectory repl)) s ->
  wp true (readdir_reply full dir_item false RDirectory (S fuel) ino (de_offset x + 1) repl) Q s.
Proof.
  intros items HD Hl Hmax Hx Hv s HQ. cbn [readdir_reply]. apply wp_bind, wp_attempt.
  pose proof (length_items (sorted_entries b)) as Hlen. fold items in Hlen.
  assert (Hu : as_u64 (de_offset x + 1) = de_offset x + 1).
  { unfold as_u64. apply Z.mod_small. lia. }
  rewrite Hu. eapply wp_readdir_end; eauto. wnorm. by apply wp_ret.
Qed.

(** The readdir table after the entries [l] of a directory were listed. *)
Definition saved (ino : Z) (l : list DbfsDirEntry) (tb : gmap Z ReadDirInfo) : gmap Z ReadDirInfo :=
  match l !! (length l - 1)%nat with
  | Some x => <[ino := {| rd_offset := de_offset x; rd_key := de_name x |}]> tb
  | None => tb
  end.

Lemma wp_fuse_readdir v ino D T n tb b (Q : outcome Empty_set Reply -> AState -> Prop) :
  let items := omap data_item (sorted_entries b) in
  D !! ipath ino = Some b -> listable D b -> tb !! ino = None ->
  Z.of_nat (length (sorted_entries b)) < 2 ^ 62 -> (2 <= fe_rounds v)%nat ->
  (forall r i, (length r < length items)%nat -> fe_full v r i = false) ->
  (forall l, listing D ino 0 l -> length l = length items ->
     Q (Ok (RDirectory (item_of <$> l))) (mkS D T n (saved ino l tb))) ->
  wp true (serve v (FReaddir ino 0)) Q (mkS D T n tb).
Proof.
  intros items HD Hl Ht Hmax Hr Hf HQ. cbn [serve]. unfold fuse_readdir, dbfs_fuse_readdir.
  destruct (fe_rounds v) as [|[|fuel]]; [lia..|]. remember (S fuel) as f eqn:Ef.
  apply wp_bind, wp_ret. cbn [readdir_reply]. apply wp_bind, wp_attempt. change (as_u64 0) with 0.
  eapply wp_dbfs_common_readdir; eauto; [lia|lia|]. intros l Hlen Hitems. wnorm. fold items in Hlen, Hitems.
  assert (Hls : listing D ino 0 l) by (by eapply listing_intro).
  destruct (Z.eqb_spec (Z.of_nat (length l)) 0) as [E|E].
  { assert (l = []) as -> by (destruct l; [done|simpl in E; lia]). apply wp_ret. by apply (HQ []). }
  rewrite <- (app_nil_r l) at 1. apply wp_bind, wp_readdir_add.
  { intros x [i Hx]%list_elem_of_lookup. pose proof (lookup_lt_Some _ _ _ Hx).
    rewrite (ls_offset _ _ _ _ Hls _ _ Hx). pose proof (length_items (sorted_entries b)).
    unfold items in Hlen. lia. }
  { intros r i Hri. apply Hf. simpl in Hri. lia. }
  cbn [readdir_add]. wgo.
  destruct (lookup_lt_is_Some_2 l (length l - 1)) as [x Hx]; [lia|].
  replace (Z.to_nat (Z.of_nat (length l) - 1)) with (length l - 1)%nat by lia.
  rewrite Hx. wgo. unfold readdir_push, push_readdir_table. apply wp_table_push. wnorm.
  destruct (lookup_lt_is_Some_2 items (length items - 1)) as [[name v'] Hi]; [lia|].
  pose proof (Hitems _ _ _ Hi) as (x' & Hx' & Hle). rewrite <- Hlen, Hx in Hx'. injection Hx' as <-.
  destruct Hle as (Hn & _ & Hof & _).
  cbn [default fmap option_fmap option_map from_option id].
  specialize (HQ l Hls Hlen). unfold saved in HQ. rewrite Hx in HQ.
  rewrite Ef. eapply wp_readdir_reply_end; eauto. rewrite Hn. eauto.
Qed.

(** C28: a listing request from the start of a directory that has no position
    saved in the readdir table (none has been listed since its [releasedir])
    replies with every entry of the directory exactly once, when the reply has
    room for them, and it returns: the loop of the adapter reads the directory
    twice at most, whatever the bound on its rounds from two on. *)
Theorem fuse_readdir_complete v ino D T n tb b :
  let items := omap data_item (sorted_entries b) in
  D !! ipath ino = Some b -> listable D b -> tb !! ino = None ->
  Z.of_nat (length (sorted_entries b)) < 2 ^ 62 -> (2 <= fe_rounds v)%nat ->
  (forall r i, (length r < length items)%nat -> fe_full v r i = false) ->
  wp true (serve v (FReaddir ino 0))
     (fun o s' => a_db s' = D /\ a_txs s' = T /\ exists l,
        o = Ok (RDirectory (item_of <$> l)) /\ listing D ino 0 l)
     (mkS D T n tb).
Proof. intros items HD Hl Ht Hmax Hr Hf. eapply wp_fuse_readdir; eauto. Qed.

(** A listing leaves the position of its last entry in the table: listing the
    directory from the start again before it is released panics. *)
Theorem fuse_readdir_again_panics v v' ino D T n tb b :
  let items := omap data_item (sorted_entries b) in
  D !! ipath ino = Some b -> listable D b -> tb !! ino = None -> items <> [] ->
  Z.of_nat (length (sorted_entries b)) < 2 ^ 62 -> (2 <= fe_rounds v)%nat -> (0 < fe_rounds v')%nat ->
  (forall r i, (length r < length items)%nat -> fe_full v r i = false) ->
  wp true (serve v (FReaddir ino 0);; serve v' (FReaddir ino 0)) (fun o _ => o = Panic) (mkS D T n tb).
Proof.
  intros items HD Hl Ht Hne Hmax Hr Hr' Hf. apply wp_bind. eapply wp_fuse_readdir; eauto.
  intros l Hls Hlen. wnorm. fold items in Hlen. cbn [serve]. unfold fuse_readdir, dbfs_fuse_readdir.
  destruct (fe_rounds v') as [|fuel]; [lia|].
  assert (Hpos : (0 < length l)%nat) by (rewrite Hlen; destruct items; [done|simpl; lia]).
  destruct (lookup_lt_is_Some_2 l (length l - 1)) as [x Hx]; [lia|].
  pose proof (ls_offset _ _ _ _ Hls _ _ Hx) as Ho.
  apply wp_bind, wp_ret. cbn [readdir_reply]. apply wp_bind, wp_attempt. change (as_u64 0) with 0.
  pose proof (length_items (sorted_entries b)) as Hil. fold items in Hil.
  unfold saved. rewrite Hx.
  eapply wp_readdir_mismatch; [exact HD|apply lookup_insert_eq|simpl; lia|simpl; lia|done].
Qed.

(** The offset at which the kernel goes on: that of the last entry it got. *)
Definition next_offset (r : Reply) : Z :=
  match r with
  | RDirectory l => default 0 (di_offset <$> l !! (length l - 1)%nat)
  | _ => 0
  end.

(** When the entries do not all fit in one reply, the request with which
    the kernel asks for the rest panics: the adapter remembers the entry that
    did not fit, but the next listing starts after the entry remembered. *)
Theorem fuse_readdir_continue_panics v v' ino cap D T n tb b :
  D !! ipath ino = Some b -> listable D b -> tb !! ino = None ->
  Z.of_nat (length (sorted_entries b)) < 2 ^ 62 -> (0 < fe_rounds v)%nat -> (0 < fe_rounds v')%nat ->
  (0 < cap < length (omap data_item (sorted_entries b)))%nat ->
  (forall r i, fe_full v r i = bool_decide (cap <= length r)%nat) ->
  wp true (r ← serve v (FReaddir ino 0); serve v' (FReaddir ino (next_offset r)))
     (fun o _ => o = Panic) (mkS D T n tb).
Proof.
  intros HD Hl Ht Hmax Hr Hr' Hcap Hf. cbn [serve]. unfold fuse_readdir, dbfs_fuse_readdir.
  destruct (fe_rounds v) as [|f]; [lia|]. destruct (fe_rounds v') as [|f']; [lia|].
  apply wp_bind, wp_bind, wp_ret. cbn [readdir_reply]. apply wp_bind, wp_attempt.
  change (as_u64 0) with 0.
  eapply wp_dbfs_common_readdir; eauto; [lia|lia|]. intros l Hlen Hitems. wnorm.
  pose proof (listing_intro _ _ _ _ _ HD Hlen Hitems) as Hls.
  pose proof (length_items (sorted_entries b)) as Hil.
  rewrite (proj2 (Z.eqb_neq (Z.of_nat (length l)) 0)) by lia.
  destruct (lookup_lt_is_Some_2 l cap) as [x Hx]; [lia|].
  destruct (lookup_lt_is_Some_2 l (cap - 1)) as [y Hy]; [lia|].
  pose proof (ls_offset _ _ _ _ Hls _ _ Hx) as Hxo.
  pose proof (ls_offset _ _ _ _ Hls _ _ Hy) as Hyo.
  rewrite <- (take_drop_middle l cap x Hx) at 1. apply wp_bind, wp_readdir_add.
  { intros z [i Hz]%list_elem_of_lookup. apply lookup_take_Some in Hz as [Hz ?].
    rewrite (ls_offset _ _ _ _ Hls _ _ Hz). lia. }
  { intros r i Hri. rewrite Hf. apply bool_decide_eq_false_2. rewrite length_take in Hri. simpl in Hri. lia. }
  cbn [readdir_add]. apply wp_bind.
  assert (Has : as_i64 (de_offset x) = de_offset x)
    by (unfold as_i64; by rewrite (proj2 (Z.ltb_lt _ _)) by lia).
  rewrite Has. apply wp_add_i64; [lia|]. unfold dir_item at 1. wgo.
  simpl app. rewrite Hf, bool_decide_eq_true_2 by (rewrite length_fmap, length_take; lia). wgo.
  unfold readdir_push, push_readdir_table. apply wp_table_push. wnorm. wgo.
  assert (Hnext : next_offset (RDirectory (item_of <$> take cap l)) = de_offset x).
  { simpl. rewrite length_fmap, length_take, Nat.min_l, list_lookup_fmap, lookup_take_lt, Hy by lia.
    simpl. lia. }
  rewrite Hnext. rewrite (proj2 (Z.leb_le 0 (de_offset x))) by lia.
  apply wp_ret. wnorm. apply wp_bind, wp_attempt.
  assert (Hu : as_u64 (de_offset x) = de_offset x) by (unfold as_u64; apply Z.mod_small; lia).
  rewrite Hu. eapply wp_readdir_mismatch; [exact HD|apply lookup_insert_eq|simpl; lia|simpl; lia|done].
Qed.
End FuseReaddir.

(** ** Names, links and mounts *)

(** A clock that gives times a file system can store and reply. *)
Definition clock_ok (clock : nat -> SystemTime) : Prop :=
  forall i, 0 <= tv_sec (clock i) < 2 ^ 62 /\ 0 <= tv_nsec (clock i) < NANOS_PER_SEC.

Section FuseNames.
Context `{Config}.

Definition spec_of (t : SystemTime) : DbfsTimeSpec := {| sec := tv_sec t; nsec := tv_nsec t |}.

Lemma wp_time_of_system {E} rel t (Q : outcome E _ -> AState -> Prop) s :
  0 <= tv_sec t -> Q (Ok (spec_of t)) s -> wp rel (time_of_system t) Q s.
Proof.
  intros Ht HQ. unfold time_of_system, assert_prog. rewrite (proj2 (Z.leb_le _ _)) by done.
  by apply wp_bind, wp_ret, wp_ret.
Qed.

Lemma spec_of_ok clock i : clock_ok clock -> time_ok (spec_of (clock i)).
Proof. intros Hc. destruct (Hc i). unfold NANOS_PER_SEC in *. split; simpl; [unfold u64|unfold u32]; lia. Qed.

(** A mount of an existing file system leaves the database alone and the
    counter at its initial value. *)
Lemma wp_fuse_init_again uid gid clock D T n tb sb rb ra (Q : outcome Z unit -> AState -> Prop) :
  D !! sb_path = Some sb -> inode_at D 1 rb ra -> 0 <= tv_sec (clock 0%nat) ->
  Q (Ok tt) (mkS D T n tb) -> wp true (fuse_init uid gid clock) Q (mkS D T n tb).
Proof.
  intros Hsb [HD Hk Hst] Hc HQ. open_stat Hst. unfold fuse_init. apply wp_bind.
  eapply wp_init_db_again; [exact Hsb| |done]. wnorm. apply wp_bind, wp_time_of_system; [done|]. wnorm.
  wgo. unfold dbfs_common_root_inode. apply wp_tx_q; [done|]. wnorm. wgo.
  eapply wp_commit; [reflexivity|done|]. wnorm. wgo. exact HQ.
Qed.

(** The inode counter does not survive a FUSE mount.  On any file system
    that has its root, a new process that mounts it counts from 1 again, so
    that the first creation fails with [EEXIST] and changes nothing, whatever
    number the last unmount stored. *)
Theorem fuse_remount_create_fails v uid gid clock parent name mode flags D sb rb ra pb pa :
  D !! sb_path = Some sb -> inode_at D 1 rb ra -> inode_at D parent pb pa ->
  may_write pa (req_uid (fe_req v)) (req_gid (fe_req v)) = true -> st_size pa + 1 < 2 ^ 64 ->
  clock_ok clock -> clock_ok (fe_clock v) -> utf8_valid name = true ->
  Z.land flags O_ACCMODE <> 3 ->
  wp true (unwrap (fuse_init uid gid clock);; serve v (FCreate parent name mode flags))
     (fun o s' => o = Ok (RError (errno FileExists)) /\ a_db s' = D /\ a_ino s' = 2)
     (mkS D [] 1 ∅).
Proof.
  intros Hsb Hr [HD Hkvb Hst] Hacc Hsz Hc Hcv Hname Hfl.
  apply wp_bind, wp_unwrap. eapply wp_fuse_init_again; eauto; [apply Hc|]. wnorm.
  cbn [serve]. unfold fuse_create, to_str, assert_prog. rewrite Hname. wgo.
  unfold answer. wgo. unfold dbfs_fuse_create, guard_err.
  assert (Hm : (Z.land flags O_ACCMODE =? O_RDONLY) || (Z.land flags O_ACCMODE =? O_WRONLY)
    || (Z.land flags O_ACCMODE =? O_RDWR) = true).
  { assert (0 <= Z.land flags O_ACCMODE < 4).
    { change O_ACCMODE with (Z.ones 2). rewrite Z.land_ones by lia. apply Z.mod_pos_bound. lia. }
    unfold O_RDONLY, O_WRONLY, O_RDWR. lia. }
  rewrite Hm. simpl. wgo. apply wp_time_of_system; [apply Hcv|]. wgo.
  destruct Hr as [HD1 _ _]. eapply wp_create_exists; eauto; [|done]. wnorm. wgo.
  repeat split; reflexivity.
Qed.

(** The attributes [create] returns can be replied. *)
Lemma wp_file_attr_new {E} n a kind (Q : outcome E FileAttr -> AState -> Prop) s :
  0 <= sec (st_ctime a) < 2 ^ 62 -> 0 <= nsec (st_ctime a) < NANOS_PER_SEC ->
  (forall fa, Q (Ok fa) s) -> wp true (file_attr (new_attr n a kind)) Q s.
Proof.
  intros Hs Hn HQ. unfold file_attr, system_of_time, assert_prog. simpl.
  rewrite (Z.div_small (nsec (st_ctime a))) by lia.
  rewrite !(proj2 (Z.ltb_lt (sec (st_ctime a) + 0) _)) by lia. wgo. apply HQ.
Qed.

(** The reply to a readlink request is not the target of the link but the
    255 bytes of the buffer: the target padded with zeros. *)
Theorem fuse_readlink_padded v parent name target D T n tb pb pa :
  inode_at D parent pb pa -> may_write pa (req_uid (fe_req v)) (req_gid (fe_req v)) = true ->
  st_size pa + 1 < 2 ^ 64 -> D !! ipath n = None -> u64 n -> u64 parent ->
  u32 (req_uid (fe_req v)) -> u32 (req_gid (fe_req v)) -> clock_ok (fe_clock v) ->
  utf8_valid name = true -> utf8_valid target = true ->
  blen name <= MAX_PATH_LEN -> blen target <= MAX_PATH_LEN ->
  wp true (serve v (FSymlink parent name target);; serve v (FReadlink n))
     (fun o _ => o = Ok (RData (target ++ replicate (255 - length target) x00)))
     (mkS D T n tb).
Proof.
  intros [HD Hkvb Hst] Hacc Hsz Hn Hn64 Hp64 Hu Hg Hc Hn8 Ht8 Hnl Htl.
  pose proof (Hc 0%nat) as [Hc1 Hc2].
  cbn [serve]. unfold fuse_symlink, fuse_readlink, to_str, assert_prog, answer,
    dbfs_fuse_symlink, dbfs_fuse_readlink, guard_err, reply_entry. rewrite Hn8, Ht8.
  wgo. rewrite (proj2 (Z.ltb_ge MAX_PATH_LEN (blen name))) by done. wgo.
  apply wp_time_of_system; [lia|]. wgo.
  eapply wp_dbfs_common_create with (hl := 1) (fs := 0) (dv := None) (kind := Symlink);
    eauto; try done.
  { split; auto using spec_of_ok; done. }
  wnorm. wgo. apply wp_file_attr_new; [simpl; lia..|]. intros fa. wgo.
  eapply wp_dbfs_common_readlink; [apply lookup_insert_eq|by rewrite new_bucket_target| |done].
  assert (Hb : blen (replicate (Z.to_nat MAX_PATH_LEN) x00) = 255) by reflexivity.
  wgo. rewrite Hb, Z.min_l by (unfold MAX_PATH_LEN in *; lia).
  rewrite slice_all, splice_0, drop_replicate. do 4 f_equal.
Qed.
End FuseNames.

Section FuseWitness.
#[local] Existing Instance cfg512.

(** Replies have room for [cap] directory entries. *)
Definition env_cap (cap : nat) : FuseEnv := {|
  fe_direct_io := false;
  fe_full := fun r _ => bool_decide (cap <= length r)%nat;
  fe_full_plus := fun r _ => bool_decide (cap <= length r)%nat;
  fe_req := {| req_uid := 0; req_gid := 0 |};
  fe_clock := fun _ => {| tv_sec := 2000; tv_nsec := 7 |};
  fe_rounds := 2 |}.

Lemma env_clock cap : clock_ok (fe_clock (env_cap cap)).
Proof. intros i. unfold NANOS_PER_SEC. simpl. lia. Qed.

Lemma sample_listable : listable sample_view (bucket_of sample_view 1).
Proof. apply list_check_sound. by vm_compute. Qed.

Lemma sample_root_items :
  length (omap data_item (sorted_entries (bucket_of sample_view 1))) = 5%nat.
Proof. by vm_compute. Qed.

Lemma fuse_write_then_read_witness :
  wp true (write_read (env_cap 9) 2 512 (replicate 700 x41))
     (fun o _ => o = Ok (RWritten 700, RData (replicate 700 x41))) sample_state.
Proof.
  apply (fuse_write_then_read (env_cap 9) 2 (replicate 700 x41) 512 sample_view [] 6 ∅
           (bucket_of sample_view 2) (stat_at sample_view 2));
    [exact sample_file|concrete..].
Defined.

Lemma fuse_readdir_complete_witness :
  wp true (serve (env_cap 9) (FReaddir 1 0))
     (fun o s' => a_db s' = sample_view /\ a_txs s' = [] /\ exists l,
        o = Ok (RDirectory (item_of <$> l)) /\ listing sample_view 1 0 l) sample_state.
Proof.
  apply (fuse_readdir_complete (env_cap 9) 1 sample_view [] 6 ∅ (bucket_of sample_view 1));
    [apply sample_root|apply sample_listable|concrete|concrete|simpl; lia|].
  intros r i Hr. rewrite sample_root_items in Hr. apply bool_decide_eq_false_2. lia.
Defined.

Lemma fuse_readdir_again_panics_witness :
  wp true (serve (env_cap 9) (FReaddir 1 0);; serve (env_cap 9) (FReaddir 1 0))
     (fun o _ => o = Panic) sample_state.
Proof.
  apply (fuse_readdir_again_panics (env_cap 9) (env_cap 9) 1 sample_view [] 6 ∅ (bucket_of sample_view 1));
    [apply sample_root|apply sample_listable|concrete|intros E; by vm_compute in E|concrete|simpl; lia|simpl; lia|].
  intros r i Hr. rewrite sample_root_items in Hr. apply bool_decide_eq_false_2. lia.
Defined.

Lemma fuse_readdir_continue_panics_witness :
  wp true (r ← serve (env_cap 2) (FReaddir 1 0); serve (env_cap 2) (FReaddir 1 (next_offset r)))
     (fun o _ => o = Panic) sample_state.
Proof.
  apply (fuse_readdir_continue_panics (env_cap 2) (env_cap 2) 1 2 sample_view [] 6 ∅
           (bucket_of sample_view 1));
    [apply sample_root|apply sample_listable|concrete|concrete|simpl; lia|simpl; lia|
     rewrite sample_root_items; lia|reflexivity].
Defined.

Lemma sample_sb : sample_view !! sb_path = Some (default ∅ (sample_view !! sb_path)).
Proof.
  assert (Hs : bool_decide (is_Some (sample_view !! sb_path)) = true) by (by vm_compute).
  apply bool_decide_eq_true in Hs as [sb Hs]. by rewrite Hs.
Qed.

Lemma fuse_remount_create_fails_witness :
  wp true (unwrap (fuse_init 0 0 (fe_clock (env_cap 9)));;
           serve (env_cap 9) (FCreate 1 (bs "new") 0x81a4 0))
     (fun o s' => o = Ok (RError (errno FileExists)) /\ a_db s' = sample_view /\ a_ino s' = 2)
     (mkS sample_view [] 1 ∅).
Proof.
  apply (fuse_remount_create_fails (env_cap 9) 0 0 (fe_clock (env_cap 9)) 1 (bs "new") 0x81a4 0
           sample_view (default ∅ (sample_view !! sb_path))
           (bucket_of sample_view 1) (stat_at sample_view 1)
           (bucket_of sample_view 1) (stat_at sample_view 1));
    [apply sample_sb|apply sample_root|apply sample_root|concrete|concrete|apply env_clock|apply env_clock
    |concrete|concrete].
Defined.

Lemma fuse_readlink_padded_witness :
  wp true (serve (env_cap 9) (FSymlink 1 (bs "l2") (bs "foo"));; serve (env_cap 9) (FReadlink 6))
     (fun o _ => o = Ok (RData (bs "foo" ++ replicate 252 x00))) sample_state.
Proof.
  apply (fuse_readlink_padded (env_cap 9) 1 (bs "l2") (bs "foo") sample_view [] 6 ∅
           (bucket_of sample_view 1) (stat_at sample_view 1));
    [apply sample_root|concrete|concrete|concrete|concrete|concrete|concrete|concrete
    |apply env_clock|concrete..].
Defined.

Lemma fuse_reachable_typed_witness :
  let w := (run (fuse_init 0 0 (fe_clock (env_cap 9))) (restart blank)).2 in
  typed_view (db_view (w_db (run (serve (env_cap 9) (FMkdir 1 (bs "d") 0x1ff)) w).2)).
Proof.
  intros w.
  apply (fuse_reachable_typed (run (serve (env_cap 9) (FMkdir 1 (bs "d") 0x1ff)) w).2).
  apply fuse_reach_request; [apply fuse_reach_mkfs; reflexivity|simpl; unfold u64; lia].
Defined.

(** Removing the entry of a directory that only root may write. *)
Lemma fuse_error_changes_nothing_witness :
  let v := {| fe_direct_io := false; fe_full := fun _ _ => false; fe_full_plus := fun _ _ => false;
              fe_req := {| req_uid := 7; req_gid := 7 |}; fe_clock := fe_clock (env_cap 9);
              fe_rounds := 2 |} in
  db_view (w_db (run (serve v (FUnlink 3 (bs ".."))) sample_world).2) = db_view (w_db sample_world).
Proof.
  intros v. apply (fuse_error_changes_nothing v (FUnlink 3 (bs "..")) sample_world 13);
    [exact I|vm_compute; reflexivity].
Defined.
End FuseWitness.
