(* ===== verification/Listxattr.v ===== *)
(** * Listing extended attributes

    [dbfs_common_listxattr] stores the names of the extended attributes of an
    inode, each ended by a NUL, in the order of their keys; what it does when
    the caller asks for the size it needs. *)

From S2P Require Import Prelude Jammdb Effects Run RustStd Common Buckets Slices Access Inode.
From S2P Require Import Attr Samples Metadata Xattrs RvfsEffects Fuse FuseEffects.

(** The names of the extended attributes among some pairs, and of a bucket. *)
Definition xattr_items (kvs : list (bytes * bytes)) : list bytes :=
  filter (fun k => is_xattr_key k = true) kvs.*1.
Definition xattr_names (b : bucket) : list bytes :=
  xattr_items (omap (M := list) kv_of (sorted_entries b)).

Lemma is_xattr_key_spec k : is_xattr_key k = true <-> xattr_key k.
Proof.
  unfold is_xattr_key, xattr_key, parse_xattr_namespace. split.
  - repeat case_match; eauto; done.
  - intros [ns Hns]. repeat case_match; done.
Qed.

Lemma xattr_names_spec b key : key ∈ xattr_names b <-> xattr_key key /\ is_Some (fkv b key).
Proof.
  unfold xattr_names, xattr_items. rewrite list_elem_of_filter, is_xattr_key_spec, list_elem_of_fmap.
  apply and_iff_compat_l. split.
  - intros ([k v] & -> & Hin). apply list_elem_of_omap in Hin as ([k' d] & Hin & Hkv).
    unfold kv_of in Hkv. destruct d; simplify_eq/=. apply elem_of_sorted_entries in Hin.
    unfold fkv. rewrite Hin. eauto.
  - intros [v Hv%fkv_lookup]. exists (key, v). split; [done|].
    apply list_elem_of_omap. exists (key, KeyValue v). split; [|done]. by apply elem_of_sorted_entries.
Qed.

(** The loop when the names fit behind the [size] bytes in use. *)
Lemma list_steps_fit kvs size buf :
  let names := join_names (xattr_items kvs) in
  0 <= size -> size + blen names <= blen buf ->
  fold_left list_step kvs (size, buf) = (size + blen names, splice buf size names).
Proof.
  revert size buf. induction kvs as [|[k v] kvs IH]; intros size buf names Hs Hfit.
  { subst names. simpl. rewrite splice_nil. f_equal. unfold blen. simpl. lia. }
  assert (Hn : xattr_items ((k, v) :: kvs)
    = if is_xattr_key k then k :: xattr_items kvs else xattr_items kvs).
  { unfold xattr_items. rewrite fmap_cons, filter_cons. simpl. by destruct (is_xattr_key k). }
  subst names. rewrite Hn in *. clear Hn. cbn [fold_left]. unfold list_step at 2. simpl fst.
  destruct (is_xattr_key k) eqn:Ek; [|by apply IH].
  rewrite join_names_cons in *. rewrite !blen_app, blen_one in *.
  pose proof (blen_nonneg k). pose proof (blen_nonneg (join_names (xattr_items kvs))).
  rewrite (proj2 (Z.leb_le _ _)) by lia. replace (size + blen k + 1 - 1) with (size + blen k) by lia.
  rewrite splice_next by lia. assert (Hb : blen (splice buf size (k ++ [x00])) = blen buf)
    by (apply blen_splice; rewrite ?blen_app, ?blen_one; lia).
  rewrite IH by lia. f_equal; [lia|].
  replace (size + blen k + 1) with (size + blen (k ++ [x00])) by (rewrite blen_app, blen_one; lia).
  apply splice_next; rewrite ?blen_app, ?blen_one; lia.
Qed.

(** Nothing fits an empty buffer. *)
Lemma list_steps_empty kvs : fold_left list_step kvs (0, []) = (0, []).
Proof.
  induction kvs as [|[k v] kvs IH]; [done|]. cbn [fold_left]. unfold list_step at 2. simpl fst.
  destruct (is_xattr_key k); [|done]. pose proof (blen_nonneg k).
  by rewrite (proj2 (Z.leb_gt _ _)) by (change (blen []) with 0; lia).
Qed.

Section Listxattr.
Context `{Config}.

Lemma wp_listxattr ino buf D T n tb b (Q : outcome DbfsError (Z * bytes) -> AState -> Prop) :
  D !! ipath ino = Some b ->
  Q (Ok (fold_left list_step (omap (M := list) kv_of (sorted_entries b)) (0, buf))) (mkS D T n tb) ->
  wp true (dbfs_common_listxattr ino buf) Q (mkS D T n tb).
Proof.
  intros HD HQ. unfold dbfs_common_listxattr. apply wp_tx_unwrap; [done|]. unfold push_tx. wnorm. wgo.
  unfold kv_pairs. wgo. eapply wp_cursor; [reflexivity|]. unfold spec_cursor. cbn [a_db]. rewrite HD.
  cbn [lift_infallible]. wgo. exact HQ.
Qed.

(** C37: when the buffer has room for them, the listing stores the names of all
    extended attributes of the inode, each ended by a NUL and in the order of
    their keys, leaves the rest of the buffer as it was and returns their
    length; a name is listed exactly when the attribute is set.  The database
    is unchanged. *)
Theorem listxattr_spec ino buf D T n tb b a :
  inode_at D ino b a ->
  let names := join_names (xattr_names b) in
  blen names <= blen buf ->
  wp true (dbfs_common_listxattr ino buf)
     (fun o s' => o = Ok (blen names, names ++ drop (length names) buf) /\ s' = mkS D T n tb /\
        (forall key, key ∈ xattr_names b <-> xattr_key key /\ is_Some (fkv b key)))
     (mkS D T n tb).
Proof.
  intros [HD _ _] names Hfit. eapply wp_listxattr; [exact HD|].
  split; [|split; [done|intros; apply xattr_names_spec]].
  rewrite list_steps_fit by (unfold xattr_names in *; lia || done). by rewrite splice_0.
Qed.

(** A caller that asks for the length of the list is told that it is empty,
    whatever attributes the inode has. *)
Theorem listxattr_size_zero req ino D T n tb b a :
  inode_at D ino b a ->
  wp true (fuse_listxattr req ino 0) (fun o s' => o = Ok (RXattrSize 0) /\ s' = mkS D T n tb)
     (mkS D T n tb).
Proof.
  intros [HD _ _]. unfold fuse_listxattr, answer, dbfs_fuse_listxattr. change (Z.to_nat 0) with 0%nat.
  apply wp_bind, wp_attempt. eapply wp_listxattr; [exact HD|]. simpl replicate.
  rewrite list_steps_empty. wnorm. by apply wp_ret.
Qed.
End Listxattr.

Section ListxattrWitness.
#[local] Existing Instance cfg512.

(** [foo] with two extended attributes. *)
Definition xattr_world : @World map_platform :=
  snd (run (dbfs_common_setxattr 0 0 2 (bs "user.b") (bs "1") t1;;
            dbfs_common_setxattr 0 0 2 (bs "user.a") (bs "2") t1) sample_world).
Definition xattr_view : view := a_db (st xattr_world).

Lemma listxattr_spec_witness :
  let b := bucket_of xattr_view 2 in
  let names := join_names (xattr_names b) in
  xattr_names b = [bs "user.a"; bs "user.b"] /\
  wp true (dbfs_common_listxattr 2 (replicate 20 x00))
     (fun o s' => o = Ok (blen names, names ++ drop (length names) (replicate 20 x00)) /\
        s' = mkS xattr_view [] 6 ∅ /\
        (forall key, key ∈ xattr_names b <-> xattr_key key /\ is_Some (fkv b key)))
     (mkS xattr_view [] 6 ∅).
Proof.
  intros b names. split; [by vm_compute|].
  assert (Hi : inode_at xattr_view 2 (bucket_of xattr_view 2) (stat_at xattr_view 2)) by concrete.
  assert (Hl : blen names <= blen (replicate 20 x00)) by (by vm_compute).
  exact (listxattr_spec 2 (replicate 20 x00) xattr_view [] 6 ∅ b (stat_at xattr_view 2) Hi Hl).
Defined.

Lemma listxattr_size_zero_witness :
  wp true (fuse_listxattr {| req_uid := 0; req_gid := 0 |} 2 0)
     (fun o s' => o = Ok (RXattrSize 0) /\ s' = mkS xattr_view [] 6 ∅) (mkS xattr_view [] 6 ∅).
Proof.
  apply (listxattr_size_zero _ 2 xattr_view [] 6 ∅ (bucket_of xattr_view 2) (stat_at xattr_view 2)).
  concrete.
Defined.
End ListxattrWitness.
