(* ===== verification/Tree.v ===== *)
(** * The file system as a tree: an abstract specification

    What DBFS promises its callers, without buckets, keys, slices or
    transactions: a state is a finite map from inode numbers to nodes and the
    next number, and each call is a step of a relation that says when the call
    succeeds, what it returns and which state follows.  [TreeRefine] shows that
    the calls of DBFS implement these steps. *)

From S2P Require Import Prelude Jammdb Effects Run RustStd Common Buckets Access Inode Create.
From S2P Require Import Link Truncate Rename Attr.

(** ** States *)

(** A node: its attributes, the entries of a directory, the bytes of a file
    that have been stored, the target of a symbolic link, the extended
    attributes. *)
Record Node := mkNode {
  nd_stat : Stat;
  nd_entries : gmap bytes Z;
  nd_bytes : Z -> option byte;
  nd_target : option bytes;
  nd_xattrs : gmap bytes bytes
}.

Abbreviation Tree := (gmap Z Node).
(** The nodes, the next inode number and the bytes that are accounted free. *)
Record FsState := mkFs { fs_tree : Tree; fs_next : Z; fs_free : Z }.

Definition nd_kind (x : Node) : option DbfsFileType := file_type_of_perm (st_mode (nd_stat x)).
Definition with_stat (a : Stat) (x : Node) : Node := mkNode a (nd_entries x) (nd_bytes x) (nd_target x) (nd_xattrs x).
Definition with_entries (es : gmap bytes Z) (x : Node) : Node := mkNode (nd_stat x) es (nd_bytes x) (nd_target x) (nd_xattrs x).
Definition with_bytes (bs : Z -> option byte) (x : Node) : Node :=
  mkNode (nd_stat x) (nd_entries x) bs (nd_target x) (nd_xattrs x).
Definition with_xattrs (xs : gmap bytes bytes) (x : Node) : Node :=
  mkNode (nd_stat x) (nd_entries x) (nd_bytes x) (nd_target x) xs.

Definition dot : bytes := bs ".".
Definition dotdot : bytes := bs "..".
(** A name a client can give: not [.] or [..]. *)
Definition plain (name : bytes) : Prop := name <> dot /\ name <> dotdot.

(** The directory [x] with other entries, [d] more or fewer, at time [t]. *)
Definition dir_update (d : Z) (t : DbfsTimeSpec) (es : gmap bytes Z) (x : Node) : Node :=
  mkNode (set_mtime t (set_ctime t (set_size (st_size (nd_stat x) + d) (nd_stat x)))) es (nd_bytes x)
    (nd_target x) (nd_xattrs x).

(** The node [z] moved to the directory [dir]. *)
Definition move_node (dir : Z) (t : DbfsTimeSpec) (z : Node) : Node :=
  mkNode (set_ctime t (nd_stat z))
    (if decide (nd_kind z = Some Directory) then <[dotdot := dir]> (nd_entries z) else nd_entries z)
    (nd_bytes z) (nd_target z) (nd_xattrs z).

Definition new_entries (kind : DbfsFileType) (n dir : Z) : gmap bytes Z :=
  match kind with
  | Directory => <[dotdot := dir]> {[dot := n]}
  | _ => ∅
  end.
Definition new_node (a : Stat) (kind : DbfsFileType) (n dir : Z) (target : option bytes) : Node :=
  mkNode a (new_entries kind n dir) (fun _ => None)
    (match kind with Symlink => target | _ => None end) ∅.

(** ** Calls and results *)

Inductive TCall :=
  | TGetattr (n : Z)
  | TLookup (dir : Z) (name : bytes)
  | TCreate (dir : Z) (name : bytes) (uid gid : Z) (t : DbfsTimeSpec) (permission : Z)
      (target : option bytes)
  | TLink (uid gid m dir : Z) (name : bytes) (t : DbfsTimeSpec)
  | TUnlink (uid gid dir : Z) (name : bytes) (t : DbfsTimeSpec)
  | TRmdir (uid gid dir : Z) (name : bytes) (t : DbfsTimeSpec)
  | TRename (uid gid old_dir : Z) (old_name : bytes) (new_dir : Z) (new_name : bytes)
      (t : DbfsTimeSpec)
  | TWrite (n : Z) (buf : bytes) (offset : Z)
  | TRead (n : Z) (buf : bytes) (offset : Z)
  | TChmod (uid gid n mode : Z) (t : DbfsTimeSpec)
  | TChown (uid gid n : Z) (owner group : option Z) (t : DbfsTimeSpec)
  | TUtimens (uid gid n : Z) (atime mtime : option DbfsTimeSpec) (t : DbfsTimeSpec)
  | TOpen (n uid gid mask : Z)
  | TReadlink (n : Z) (buf : bytes)
  | TTruncate (uid gid n : Z) (t : DbfsTimeSpec) (size : Z)
  | TFallocate (uid gid n offset size mode : Z) (t : DbfsTimeSpec)
  | TSetxattr (uid gid n : Z) (key value : bytes) (t : DbfsTimeSpec)
  | TGetxattr (uid gid n : Z) (key buf : bytes).

Inductive TResult :=
  | RUnit
  | RAttr (a : DbfsAttr)
  | RCount (n : Z)
  | RData (n : Z) (buf : bytes)
  | RErr (e : DbfsError).

Section Steps.
Context `{Config}.

(** The kinds of files a tree has. *)
Definition tree_kind (k : DbfsFileType) : bool :=
  match k with RegularFile | Directory | Symlink => true | _ => false end.

(** A directory with attributes [pa] does not let the caller remove an entry
    of a file with attributes [a]. *)
Definition refuses (pa a : Stat) (uid gid : Z) : bool :=
  negb (may_write pa uid gid) || sticky_denies (st_mode pa) uid (st_uid pa) (st_uid a).

(** [bs'] is [bs] after [buf] was stored at [offset]: what was stored outside
    the range is kept; bytes next to the range may appear. *)
Definition stored (bs bs' : Z -> option byte) (offset : Z) (buf : bytes) : Prop :=
  (forall (i : nat) x, buf !! i = Some x -> bs' (offset + Z.of_nat i) = Some x) /\
  (forall p x, 0 <= p < 2 ^ 32 * SLICE_SIZE -> ~ (offset <= p < offset + blen buf) ->
     bs p = Some x -> bs' p = Some x).

(** The bytes of a file of [old] bytes after a truncation to [size] within its
    blocks: the rest of the last block is cleared, the blocks after it go. *)
Definition cut (old size : Z) (bs : Z -> option byte) (p : Z) : option byte :=
  if decide (p < size) then bs p
  else if decide (p < (size / SLICE_SIZE + 1) * SLICE_SIZE) then (fun _ => x00) <$> bs p
  else if decide (p / SLICE_SIZE <= old / SLICE_SIZE) then None
  else bs p.

(** The attributes after a preallocation up to [size]. *)
Definition falloc_stat (size mode : Z) (t : DbfsTimeSpec) (a : Stat) : Stat :=
  if Z.land mode FALLOC_FL_KEEP_SIZE =? 0
  then set_size (Z.max (st_size a) size) (set_mtime t (set_ctime t a)) else a.

Inductive tree_step : FsState -> TCall -> TResult -> FsState -> Prop :=
  | step_getattr T c f n x k :
      T !! n = Some x -> stat_ok (nd_stat x) k ->
      tree_step (mkFs T c f) (TGetattr n) (RAttr (attr_of_stat n (nd_stat x) k)) (mkFs T c f)
  | step_lookup T c f dir name x m y k :
      T !! dir = Some x -> nd_entries x !! name = Some m ->
      T !! m = Some y -> stat_ok (nd_stat y) k ->
      tree_step (mkFs T c f) (TLookup dir name) (RAttr (attr_of_stat m (nd_stat y) k)) (mkFs T c f)
  | step_lookup_missing T c f dir name x :
      T !! dir = Some x -> nd_entries x !! name = None ->
      tree_step (mkFs T c f) (TLookup dir name) (RErr NotFound) (mkFs T c f)
  | step_create T c f dir name uid gid t permission target hl fs dv kind x :
      T !! dir = Some x -> nd_kind x = Some Directory ->
      nd_entries x !! name = None -> plain name ->
      may_write (nd_stat x) uid gid = true -> st_size (nd_stat x) + 1 < 2 ^ 64 ->
      T !! c = None -> 0 <= c -> c + 1 < 2 ^ 64 ->
      create_args_ok uid gid t permission target None ->
      new_inode_params permission target None = Some (hl, fs, dv) ->
      Z.land permission Perm.S_IFMT = mode_bits kind -> tree_kind kind = true ->
      let a := new_stat uid gid t permission (nd_stat x) hl fs dv in
      tree_step (mkFs T c f) (TCreate dir name uid gid t permission target)
        (RAttr (new_attr c a kind))
        (mkFs (<[c := new_node a kind c dir target]>
                (<[dir := dir_update 1 t (<[name := c]> (nd_entries x)) x]> T)) (c + 1) f)
  | step_create_denied T c f dir name uid gid t permission target x :
      T !! dir = Some x -> may_write (nd_stat x) uid gid = false -> 0 <= c -> c + 1 < 2 ^ 64 ->
      create_args_ok uid gid t permission target None ->
      tree_step (mkFs T c f) (TCreate dir name uid gid t permission target) (RErr AccessError)
        (mkFs T (c + 1) f)
  | step_link T c f uid gid m dir name t x y kx ky :
      T !! dir = Some x -> stat_ok (nd_stat x) kx -> kx = Directory ->
      T !! m = Some y -> stat_ok (nd_stat y) ky -> ky <> Directory ->
      nd_entries x !! name = None -> plain name ->
      may_write (nd_stat x) uid gid = true -> time_ok t ->
      st_size (nd_stat x) + 1 < 2 ^ 64 -> st_nlink (nd_stat y) + 1 < 2 ^ 32 ->
      let a := set_ctime t (set_nlink (st_nlink (nd_stat y) + 1) (nd_stat y)) in
      tree_step (mkFs T c f) (TLink uid gid m dir name t) (RAttr (attr_of_stat m a ky))
        (mkFs (<[m := with_stat a y]>
                (<[dir := dir_update 1 t (<[name := m]> (nd_entries x)) x]> T)) c f)
  | step_link_denied T c f uid gid m dir name t x kx :
      T !! dir = Some x -> stat_ok (nd_stat x) kx -> may_write (nd_stat x) uid gid = false -> u64 m ->
      tree_step (mkFs T c f) (TLink uid gid m dir name t) (RErr AccessError) (mkFs T c f)
  | step_unlink T c f uid gid dir name t x m y :
      T !! dir = Some x -> nd_kind x = Some Directory ->
      nd_entries x !! name = Some m -> plain name ->
      T !! m = Some y -> nd_kind y <> Some Directory ->
      may_write (nd_stat x) uid gid = true -> time_ok t ->
      sticky_denies (st_mode (nd_stat x)) uid (st_uid (nd_stat x)) (st_uid (nd_stat y)) = false ->
      1 <= st_size (nd_stat x) -> 1 <= st_nlink (nd_stat y) ->
      let T' := <[dir := dir_update (-1) t (delete name (nd_entries x)) x]> T in
      tree_step (mkFs T c f) (TUnlink uid gid dir name t) RUnit
        (mkFs (if st_nlink (nd_stat y) =? 1 then delete m T'
               else <[m := with_stat (set_ctime t (set_nlink (st_nlink (nd_stat y) - 1) (nd_stat y))) y]> T')
              c f)
  | step_unlink_refused T c f uid gid dir name t x m y :
      T !! dir = Some x -> nd_entries x !! name = Some m -> T !! m = Some y ->
      refuses (nd_stat x) (nd_stat y) uid gid = true ->
      tree_step (mkFs T c f) (TUnlink uid gid dir name t) (RErr AccessError) (mkFs T c f)
  | step_rmdir T c f uid gid dir name t x m y :
      T !! dir = Some x -> nd_kind x = Some Directory ->
      nd_entries x !! name = Some m -> plain name -> m <> dir ->
      T !! m = Some y -> nd_kind y = Some Directory -> st_size (nd_stat y) <= 2 ->
      may_write (nd_stat x) uid gid = true -> time_ok t ->
      sticky_denies (st_mode (nd_stat x)) uid (st_uid (nd_stat x)) (st_uid (nd_stat y)) = false ->
      1 <= st_size (nd_stat x) ->
      tree_step (mkFs T c f) (TRmdir uid gid dir name t) RUnit
        (mkFs (delete m (<[dir := dir_update (-1) t (delete name (nd_entries x)) x]> T)) c f)
  | step_rmdir_not_empty T c f uid gid dir name t x m y :
      T !! dir = Some x -> nd_entries x !! name = Some m ->
      T !! m = Some y -> 2 < st_size (nd_stat y) ->
      tree_step (mkFs T c f) (TRmdir uid gid dir name t) (RErr NotEmpty) (mkFs T c f)
  | step_rmdir_refused T c f uid gid dir name t x m y :
      T !! dir = Some x -> nd_entries x !! name = Some m ->
      T !! m = Some y -> st_size (nd_stat y) <= 2 ->
      refuses (nd_stat x) (nd_stat y) uid gid = true ->
      tree_step (mkFs T c f) (TRmdir uid gid dir name t) (RErr AccessError) (mkFs T c f)
  | step_rename_across T c f uid gid old_dir old_name new_dir new_name t x y z m :
      T !! old_dir = Some x -> nd_kind x = Some Directory ->
      T !! new_dir = Some y -> nd_kind y = Some Directory ->
      T !! m = Some z -> old_dir <> new_dir -> m <> old_dir -> m <> new_dir ->
      nd_entries x !! old_name = Some m -> plain old_name ->
      nd_entries y !! new_name = None -> plain new_name ->
      may_write (nd_stat x) uid gid = true -> may_write (nd_stat y) uid gid = true ->
      (nd_kind z = Some Directory -> may_write (nd_stat z) uid gid = true) ->
      sticky_denies (st_mode (nd_stat x)) uid (st_uid (nd_stat x)) (st_uid (nd_stat z)) = false ->
      time_ok t -> 1 <= st_size (nd_stat x) -> st_size (nd_stat y) + 1 < 2 ^ 64 ->
      tree_step (mkFs T c f) (TRename uid gid old_dir old_name new_dir new_name t) RUnit
        (mkFs (<[m := move_node new_dir t z]>
                (<[new_dir := dir_update 1 t (<[new_name := m]> (nd_entries y)) y]>
                  (<[old_dir := dir_update (-1) t (delete old_name (nd_entries x)) x]> T))) c f)
  | step_rename_within T c f uid gid dir old_name new_name t x z m :
      T !! dir = Some x -> nd_kind x = Some Directory ->
      T !! m = Some z -> m <> dir ->
      nd_entries x !! old_name = Some m -> plain old_name ->
      nd_entries x !! new_name = None -> plain new_name ->
      may_write (nd_stat x) uid gid = true -> sticky (nd_stat x) = false ->
      time_ok t -> 1 <= st_size (nd_stat x) ->
      tree_step (mkFs T c f) (TRename uid gid dir old_name dir new_name t) RUnit
        (mkFs (<[m := move_node dir t z]>
                (<[dir := dir_update 0 t (<[new_name := m]> (delete old_name (nd_entries x))) x]> T)) c f)
  | step_rename_missing T c f uid gid old_dir old_name new_dir new_name t x :
      T !! old_dir = Some x -> nd_entries x !! old_name = None -> u64 new_dir ->
      tree_step (mkFs T c f) (TRename uid gid old_dir old_name new_dir new_name t) (RErr NotFound)
        (mkFs T c f)
  | step_rename_refused T c f uid gid old_dir old_name new_dir new_name t x m y :
      T !! old_dir = Some x -> nd_entries x !! old_name = Some m -> T !! m = Some y ->
      refuses (nd_stat x) (nd_stat y) uid gid = true -> u64 new_dir ->
      tree_step (mkFs T c f) (TRename uid gid old_dir old_name new_dir new_name t) (RErr AccessError)
        (mkFs T c f)
  | step_write T c f n buf offset x bytes' :
      T !! n = Some x -> nd_kind x = Some RegularFile -> 0 <= offset -> 0 < blen buf ->
      offset + blen buf <= 2 ^ 32 * SLICE_SIZE ->
      stored (nd_bytes x) bytes' offset buf ->
      tree_step (mkFs T c f) (TWrite n buf offset) (RCount (blen buf))
        (mkFs (<[n := with_stat (set_size (Z.max (st_size (nd_stat x)) (offset + blen buf)) (nd_stat x))
                        (with_bytes bytes' x)]> T) c f)
  | step_read T c f n buf offset x buf' :
      T !! n = Some x -> nd_kind x = Some RegularFile ->
      0 <= offset < st_size (nd_stat x) -> 0 < blen buf ->
      offset + blen buf < 2 ^ 64 -> st_size (nd_stat x) < (2 ^ 32 - 1) * SLICE_SIZE ->
      offset < SLICE_SIZE \/ offset `mod` SLICE_SIZE = 0 ->
      let count := Z.min (blen buf) (st_size (nd_stat x) - offset) in
      (forall p, offset <= p < offset + count -> is_Some (nd_bytes x p)) ->
      length buf' = length buf ->
      (forall j : nat, buf' !! j = if decide (Z.of_nat j < count)
                                   then nd_bytes x (offset + Z.of_nat j) else buf !! j) ->
      tree_step (mkFs T c f) (TRead n buf offset) (RData count buf') (mkFs T c f)
  | step_read_end T c f n buf offset x :
      T !! n = Some x -> st_size (nd_stat x) <= offset ->
      tree_step (mkFs T c f) (TRead n buf offset) (RData 0 buf) (mkFs T c f)
  | step_chmod T c f uid gid n mode t x k :
      T !! n = Some x -> stat_ok (nd_stat x) k -> chmod_allowed (nd_stat x) uid gid = true ->
      time_ok t ->
      let a := chmod_stat (nd_stat x) mode t in
      tree_step (mkFs T c f) (TChmod uid gid n mode t) (RAttr (attr_of_stat n a k))
        (mkFs (<[n := with_stat a x]> T) c f)
  | step_chmod_denied T c f uid gid n mode t x k :
      T !! n = Some x -> stat_ok (nd_stat x) k -> chmod_allowed (nd_stat x) uid gid = false ->
      tree_step (mkFs T c f) (TChmod uid gid n mode t) (RErr PermissionDenied) (mkFs T c f)
  | step_chown T c f uid gid n owner group t x k :
      T !! n = Some x -> stat_ok (nd_stat x) k ->
      chown_allowed (nd_stat x) uid gid owner group = true ->
      u32 (default 0 owner) -> u32 (default 0 group) -> time_ok t ->
      let a := chown_stat (nd_stat x) owner group t in
      tree_step (mkFs T c f) (TChown uid gid n owner group t) (RAttr (attr_of_stat n a k))
        (mkFs (<[n := with_stat a x]> T) c f)
  | step_chown_denied T c f uid gid n owner group t x k :
      T !! n = Some x -> stat_ok (nd_stat x) k ->
      chown_allowed (nd_stat x) uid gid owner group = false ->
      tree_step (mkFs T c f) (TChown uid gid n owner group t) (RErr PermissionDenied) (mkFs T c f)
  | step_utimens T c f uid gid n atime mtime t x k :
      T !! n = Some x -> stat_ok (nd_stat x) k -> utimens_refusal (nd_stat x) uid gid = None ->
      (forall v, atime = Some v -> time_ok v) -> (forall v, mtime = Some v -> time_ok v) -> time_ok t ->
      let a := utimens_stat (nd_stat x) atime mtime t in
      tree_step (mkFs T c f) (TUtimens uid gid n atime mtime t) (RAttr (attr_of_stat n a k))
        (mkFs (<[n := with_stat a x]> T) c f)
  | step_utimens_refused T c f uid gid n atime mtime t x k e :
      T !! n = Some x -> stat_ok (nd_stat x) k -> utimens_refusal (nd_stat x) uid gid = Some e ->
      tree_step (mkFs T c f) (TUtimens uid gid n atime mtime t) (RErr e) (mkFs T c f)
  | step_open T c f n uid gid mask x k :
      T !! n = Some x -> stat_ok (nd_stat x) k ->
      access_granted (st_uid (nd_stat x)) (st_gid (nd_stat x)) (st_mode (nd_stat x)) uid gid mask ->
      tree_step (mkFs T c f) (TOpen n uid gid mask) RUnit (mkFs T c f)
  | step_open_denied T c f n uid gid mask x k :
      T !! n = Some x -> stat_ok (nd_stat x) k ->
      ~ access_granted (st_uid (nd_stat x)) (st_gid (nd_stat x)) (st_mode (nd_stat x)) uid gid mask ->
      tree_step (mkFs T c f) (TOpen n uid gid mask) (RErr AccessError) (mkFs T c f)
  | step_readlink T c f n buf x target :
      T !! n = Some x -> nd_kind x = Some Symlink -> nd_target x = Some target ->
      let len := Nat.min (length target) (length buf) in
      tree_step (mkFs T c f) (TReadlink n buf)
        (RData (Z.of_nat len) (take len target ++ drop len buf)) (mkFs T c f)
  | step_truncate_shrink T c f uid gid n t size x k :
      T !! n = Some x -> stat_ok (nd_stat x) k -> k = RegularFile ->
      file_writable (nd_stat x) uid gid = true -> u64 size -> time_ok t ->
      size / SLICE_SIZE <= st_size (nd_stat x) / SLICE_SIZE < 2 ^ 32 ->
      let f' := f + (st_size (nd_stat x) / SLICE_SIZE - size / SLICE_SIZE) * SLICE_SIZE in
      f' < 2 ^ 64 ->
      tree_step (mkFs T c f) (TTruncate uid gid n t size)
        (RAttr (trunc_attr n size t (nd_stat x) k))
        (mkFs (<[n := with_stat (trunc_stat size t (nd_stat x))
                        (with_bytes (cut (st_size (nd_stat x)) size (nd_bytes x)) x)]> T) c f')
  | step_truncate_extend T c f uid gid n t size x k :
      T !! n = Some x -> stat_ok (nd_stat x) k -> k = RegularFile ->
      file_writable (nd_stat x) uid gid = true -> u64 size -> time_ok t ->
      st_size (nd_stat x) / SLICE_SIZE < size / SLICE_SIZE -> size - st_size (nd_stat x) <= f ->
      tree_step (mkFs T c f) (TTruncate uid gid n t size)
        (RAttr (trunc_attr n size t (nd_stat x) k))
        (mkFs (<[n := with_stat (trunc_stat size t (nd_stat x)) x]> T) c
              (f - (size - st_size (nd_stat x))))
  | step_truncate_nospace T c f uid gid n t size x k :
      T !! n = Some x -> stat_ok (nd_stat x) k -> file_writable (nd_stat x) uid gid = true -> u64 size ->
      st_size (nd_stat x) / SLICE_SIZE < size / SLICE_SIZE -> f < size - st_size (nd_stat x) ->
      tree_step (mkFs T c f) (TTruncate uid gid n t size) (RErr NoSpace) (mkFs T c f)
  | step_truncate_denied T c f uid gid n t size x k :
      T !! n = Some x -> stat_ok (nd_stat x) k -> file_writable (nd_stat x) uid gid = false -> u64 size ->
      tree_step (mkFs T c f) (TTruncate uid gid n t size) (RErr AccessError) (mkFs T c f)
  | step_fallocate T c f uid gid n offset size mode t x :
      T !! n = Some x -> nd_kind x = Some RegularFile -> file_writable (nd_stat x) uid gid = true ->
      0 <= offset -> 0 <= size -> offset + size < 2 ^ 64 -> time_ok t ->
      falloc_need (offset + size) (nd_stat x) <= f ->
      tree_step (mkFs T c f) (TFallocate uid gid n offset size mode t) RUnit
        (mkFs (<[n := with_stat (falloc_stat (offset + size) mode t (nd_stat x)) x]> T) c
              (f - falloc_need (offset + size) (nd_stat x)))
  | step_fallocate_nospace T c f uid gid n offset size mode t x :
      T !! n = Some x -> file_writable (nd_stat x) uid gid = true ->
      0 <= offset -> 0 <= size -> offset + size < 2 ^ 64 ->
      f < falloc_need (offset + size) (nd_stat x) ->
      tree_step (mkFs T c f) (TFallocate uid gid n offset size mode t) (RErr NoSpace) (mkFs T c f)
  | step_fallocate_denied T c f uid gid n offset size mode t x :
      T !! n = Some x -> file_writable (nd_stat x) uid gid = false ->
      tree_step (mkFs T c f) (TFallocate uid gid n offset size mode t) (RErr AccessError) (mkFs T c f)
  | step_setxattr T c f uid gid n key value t x :
      T !! n = Some x -> xattr_allowed key ACCESS_R_OK uid gid (nd_stat x) = None -> time_ok t ->
      tree_step (mkFs T c f) (TSetxattr uid gid n key value t) RUnit
        (mkFs (<[n := with_stat (set_ctime t (nd_stat x))
                        (with_xattrs (<[key := value]> (nd_xattrs x)) x)]> T) c f)
  | step_setxattr_denied T c f uid gid n key value t x e :
      T !! n = Some x -> xattr_allowed key ACCESS_R_OK uid gid (nd_stat x) = Some e ->
      tree_step (mkFs T c f) (TSetxattr uid gid n key value t) (RErr e) (mkFs T c f)
  | step_getxattr T c f uid gid n key buf x value :
      T !! n = Some x -> xattr_allowed key ACCESS_R_OK uid gid (nd_stat x) = None ->
      nd_xattrs x !! key = Some value -> blen value <= blen buf \/ blen buf = 0 ->
      tree_step (mkFs T c f) (TGetxattr uid gid n key buf)
        (RData (blen value) (if blen buf =? 0 then buf else value ++ drop (length value) buf))
        (mkFs T c f)
  | step_getxattr_range T c f uid gid n key buf x value :
      T !! n = Some x -> xattr_allowed key ACCESS_R_OK uid gid (nd_stat x) = None ->
      nd_xattrs x !! key = Some value -> 0 < blen buf < blen value ->
      tree_step (mkFs T c f) (TGetxattr uid gid n key buf) (RErr RangeError) (mkFs T c f)
  | step_getxattr_missing T c f uid gid n key buf x :
      T !! n = Some x -> xattr_allowed key ACCESS_R_OK uid gid (nd_stat x) = None ->
      nd_xattrs x !! key = None ->
      tree_step (mkFs T c f) (TGetxattr uid gid n key buf) (RErr NoData) (mkFs T c f)
  | step_getxattr_denied T c f uid gid n key buf x e :
      T !! n = Some x -> xattr_allowed key ACCESS_R_OK uid gid (nd_stat x) = Some e ->
      tree_step (mkFs T c f) (TGetxattr uid gid n key buf) (RErr e) (mkFs T c f).

(** A sequence of calls and their results. *)
Inductive tree_steps : FsState -> list TCall -> list TResult -> FsState -> Prop :=
  | steps_nil F : tree_steps F [] [] F
  | steps_cons F F' F'' c cs r rs :
      tree_step F c r F' -> tree_steps F' cs rs F'' -> tree_steps F (c :: cs) (r :: rs) F''.

(** The specification says what each call of a sequence does, whatever the
    results of the calls before. *)
Fixpoint defined (F : FsState) (cs : list TCall) : Prop :=
  match cs with
  | [] => True
  | c :: cs => (exists r F', tree_step F c r F') /\ forall r F', tree_step F c r F' -> defined F' cs
  end.
End Steps.
