(* ===== verification/TreeInv.v ===== *)
(** * The invariant of the tree

    In every state that calls can reach, the entries of the directories refer
    to nodes that exist, the link count of a file is the number of its names,
    a directory has exactly one name and its [..] is the directory that holds
    it, and the size of a directory is the number of its entries (so that the
    test for emptiness of [rmdir] is right). *)

From S2P Require Import Prelude Jammdb Effects Run RustStd Common Buckets Access Inode Create.
From S2P Require Import Link Truncate Rename Attr Metadata Tree.

(** ** Entries and kinds *)

Definition ent (T : Tree) (d : Z) (name : bytes) : option Z := T !! d ≫= fun x => nd_entries x !! name.
Definition kind_at (T : Tree) (n : Z) : option DbfsFileType := T !! n ≫= nd_kind.

(** The names of node [m]: pairs of a directory and an entry. *)
Definition names_of (e : Z -> bytes -> option Z) (m : Z) (R : gset (Z * bytes)) : Prop :=
  forall d name, (d, name) ∈ R <-> plain name /\ e d name = Some m.

(** Node [n] has [k] names. *)
Definition named (e : Z -> bytes -> option Z) (n k : Z) : Prop :=
  exists R, names_of e n R /\ Z.of_nat (size R) = k.

(** The root has number 1. *)
Definition root_ino : Z := 1.

(** How many names a node has. *)
Definition name_count (n : Z) (x : Node) : Z :=
  if decide (nd_kind x = Some Directory) then if decide (n = root_ino) then 0 else 1
  else st_nlink (nd_stat x).

Record tree_ok (F : FsState) : Prop := {
  to_fresh : forall n x, fs_tree F !! n = Some x -> 0 <= n < fs_next F;
  to_kind : forall n x, fs_tree F !! n = Some x -> exists k, nd_kind x = Some k /\ tree_kind k = true;
  to_file : forall n x, fs_tree F !! n = Some x -> nd_kind x <> Some Directory -> nd_entries x = ∅;
  to_dot : forall n, kind_at (fs_tree F) n = Some Directory -> ent (fs_tree F) n dot = Some n;
  to_dotdot : forall n, kind_at (fs_tree F) n = Some Directory -> n <> root_ino ->
    exists d name, ent (fs_tree F) n dotdot = Some d /\ plain name /\ ent (fs_tree F) d name = Some n;
  to_root : kind_at (fs_tree F) root_ino = Some Directory /\ ent (fs_tree F) root_ino dotdot = None;
  to_size : forall n x, fs_tree F !! n = Some x -> nd_kind x = Some Directory ->
    st_size (nd_stat x) = Z.of_nat (size (nd_entries x));
  to_exists : forall d name m, ent (fs_tree F) d name = Some m -> is_Some (fs_tree F !! m);
  to_names : forall n x, fs_tree F !! n = Some x ->
    named (ent (fs_tree F)) n (name_count n x)
}.

Lemma name_count_ext n x x' :
  nd_kind x' = nd_kind x -> st_nlink (nd_stat x') = st_nlink (nd_stat x) -> name_count n x' = name_count n x.
Proof. intros Hk Hl. unfold name_count. by rewrite Hk, Hl. Qed.

Lemma plain_dot : ~ plain dot.
Proof. by intros [? _]. Qed.
Lemma plain_dotdot : ~ plain dotdot.
Proof. by intros [_ ?]. Qed.
Lemma dot_dotdot : dot <> dotdot.
Proof. done. Qed.

Lemma ent_dir F d name m : tree_ok F -> ent (fs_tree F) d name = Some m -> kind_at (fs_tree F) d = Some Directory.
Proof.
  intros Hok He. unfold ent, kind_at in *. destruct (fs_tree F !! d) as [x|] eqn:Ex; [|done]. simpl in *.
  destruct (decide (nd_kind x = Some Directory)) as [|Hk]; [done|].
  by rewrite (to_file _ Hok _ _ Ex Hk), lookup_empty in He.
Qed.

(** Every entry is a name, or [.] or [..] of a directory, which refer to
    directories. *)
Lemma ent_cases F d name m :
  tree_ok F -> ent (fs_tree F) d name = Some m ->
  plain name \/ kind_at (fs_tree F) m = Some Directory.
Proof.
  intros Hok He. pose proof (ent_dir _ _ _ _ Hok He) as Hd.
  destruct (decide (name = dot)) as [->|H1].
  { right. rewrite (to_dot _ Hok _ Hd) in He. by simplify_eq. }
  destruct (decide (name = dotdot)) as [->|H2]; [|by left; split].
  right. destruct (decide (d = root_ino)) as [->|Hr].
  { by rewrite (proj2 (to_root _ Hok)) in He. }
  destruct (to_dotdot _ Hok _ Hd Hr) as (d' & nm & He' & _ & Hp). simplify_eq. by eapply ent_dir.
Qed.

(** ** Changes of the entries *)

Lemma names_of_ext e e' m R :
  (forall d name, plain name -> e' d name = Some m <-> e d name = Some m) ->
  names_of e m R -> names_of e' m R.
Proof. intros He HR d name. rewrite (HR d name). split; intros [Hp Hd]; split; auto; by apply He. Qed.

Lemma names_of_add e e' m R d0 name0 :
  plain name0 -> e' d0 name0 = Some m -> e d0 name0 <> Some m ->
  (forall d name, plain name -> (d, name) <> (d0, name0) ->
     e' d name = Some m <-> e d name = Some m) ->
  names_of e m R -> names_of e' m ({[(d0, name0)]} ∪ R) /\ size ({[(d0, name0)]} ∪ R) = S (size R).
Proof.
  intros Hp0 He0 Hne He HR. split.
  - intros d name. rewrite elem_of_union, elem_of_singleton, (HR d name).
    destruct (decide ((d, name) = (d0, name0))) as [[= -> ->]|Hx]; [tauto|].
    specialize (He d name). tauto.
  - rewrite size_union, size_singleton; [done|].
    apply disjoint_singleton_l. intros Hin. apply HR in Hin as [_ ?]. done.
Qed.

Lemma names_of_remove e e' m R d0 name0 :
  plain name0 -> e d0 name0 = Some m -> e' d0 name0 <> Some m ->
  (forall d name, plain name -> (d, name) <> (d0, name0) ->
     e' d name = Some m <-> e d name = Some m) ->
  names_of e m R -> names_of e' m (R ∖ {[(d0, name0)]}) /\ S (size (R ∖ {[(d0, name0)]})) = size R.
Proof.
  intros Hp0 He0 Hne He HR. assert (Hin : (d0, name0) ∈ R) by (by apply HR).
  split.
  - intros d name. rewrite elem_of_difference, elem_of_singleton, (HR d name).
    destruct (decide ((d, name) = (d0, name0))) as [[= -> ->]|Hx]; [tauto|].
    specialize (He d name). tauto.
  - rewrite size_difference, size_singleton by (by apply singleton_subseteq_l).
    assert (size R <> 0)%nat; [|lia]. intros Hz%size_empty_inv. by rewrite Hz, elem_of_empty in Hin.
Qed.

(** Counting the names of node [n] when a name of node [m] appears, or goes. *)
Lemma named_ext e e' n k :
  (forall d nm, plain nm -> e' d nm = e d nm) -> named e n k -> named e' n k.
Proof.
  intros He (R & HR & Hs). exists R. split; [|done]. eapply names_of_ext; [|exact HR].
  intros d nm Hp. by rewrite He.
Qed.

Lemma named_added e e' dir name m n k :
  plain name -> e dir name = None ->
  (forall d nm, plain nm -> e' d nm = if decide ((d, nm) = (dir, name)) then Some m else e d nm) ->
  named e n k -> named e' n (k + if decide (n = m) then 1 else 0).
Proof.
  intros Hp Hfree He (R & HR & Hs). destruct (decide (n = m)) as [->|Hn].
  - destruct (names_of_add e e' m R dir name) as [HR' Hs']; [done|..|done|].
    + by rewrite He, decide_True.
    + by rewrite Hfree.
    + intros d nm Hpn Hne. by rewrite He, decide_False.
    + eexists. split; [exact HR'|]. lia.
  - exists R. split; [|lia]. eapply names_of_ext; [|exact HR]. intros d nm Hpn. rewrite He by done.
    case_decide as Hd; [|done]. injection Hd as -> ->. rewrite Hfree. split; congruence.
Qed.

Lemma named_removed e e' dir name m n k :
  plain name -> e dir name = Some m ->
  (forall d nm, plain nm -> e' d nm = if decide ((d, nm) = (dir, name)) then None else e d nm) ->
  named e n k -> named e' n (k - if decide (n = m) then 1 else 0).
Proof.
  intros Hp Hold He (R & HR & Hs). destruct (decide (n = m)) as [->|Hn].
  - destruct (names_of_remove e e' m R dir name) as [HR' Hs']; [done|done|..|done|].
    + by rewrite He, decide_True.
    + intros d nm Hpn Hne. by rewrite He, decide_False.
    + eexists. split; [exact HR'|]. lia.
  - exists R. split; [|lia]. eapply names_of_ext; [|exact HR]. intros d nm Hpn. rewrite He by done.
    case_decide as Hd; [|done]. injection Hd as -> ->. rewrite Hold. split; congruence.
Qed.

Lemma ent_insert (T : Tree) n x d name :
  ent (<[n := x]> T) d name = if decide (d = n) then nd_entries x !! name else ent T d name.
Proof. unfold ent. rewrite lookup_insert. repeat case_decide; by subst. Qed.
Lemma ent_delete (T : Tree) n d name :
  ent (delete n T) d name = if decide (d = n) then None else ent T d name.
Proof. unfold ent. rewrite lookup_delete. repeat case_decide; by subst. Qed.
Lemma kind_insert (T : Tree) n x d :
  kind_at (<[n := x]> T) d = if decide (d = n) then nd_kind x else kind_at T d.
Proof. unfold kind_at. rewrite lookup_insert. repeat case_decide; by subst. Qed.
Lemma kind_delete (T : Tree) n d :
  kind_at (delete n T) d = if decide (d = n) then None else kind_at T d.
Proof. unfold kind_at. rewrite lookup_delete. repeat case_decide; by subst. Qed.
Lemma ent_at (T : Tree) d x name : T !! d = Some x -> ent T d name = nd_entries x !! name.
Proof. intros Hx. unfold ent. by rewrite Hx. Qed.
Lemma kind_of_node (T : Tree) d x : T !! d = Some x -> kind_at T d = nd_kind x.
Proof. intros Hx. unfold kind_at. by rewrite Hx. Qed.

(** What is left to show when only directories have entries. *)
Lemma ok_intro F :
  (forall n x, fs_tree F !! n = Some x ->
     0 <= n < fs_next F /\ exists k, nd_kind x = Some k /\ tree_kind k = true) ->
  (forall d name m, ent (fs_tree F) d name = Some m ->
     kind_at (fs_tree F) d = Some Directory /\ is_Some (fs_tree F !! m)) ->
  (forall n, kind_at (fs_tree F) n = Some Directory -> ent (fs_tree F) n dot = Some n) ->
  (forall n, kind_at (fs_tree F) n = Some Directory -> n <> root_ino ->
     exists d name, ent (fs_tree F) n dotdot = Some d /\ plain name /\ ent (fs_tree F) d name = Some n) ->
  kind_at (fs_tree F) root_ino = Some Directory /\ ent (fs_tree F) root_ino dotdot = None ->
  (forall n x, fs_tree F !! n = Some x -> nd_kind x = Some Directory ->
     st_size (nd_stat x) = Z.of_nat (size (nd_entries x))) ->
  (forall n x, fs_tree F !! n = Some x ->
     named (ent (fs_tree F)) n (name_count n x)) ->
  tree_ok F.
Proof.
  intros H1 H2 H3 H4 H5 H6 H7. split; try done.
  - intros n x Hx. by apply (H1 n x Hx).
  - intros n x Hx. by apply (H1 n x Hx).
  - intros n x Hx Hk. apply map_eq. intros name. rewrite lookup_empty.
    destruct (nd_entries x !! name) as [m|] eqn:E; [|done]. exfalso. apply Hk.
    rewrite <- (kind_of_node _ _ _ Hx). apply (H2 n name m). by rewrite (ent_at _ _ _ _ Hx).
  - intros d name m He. by apply (H2 d name m He).
Qed.

(** The type bits of a mode decide what [create] makes. *)
Lemma contains_bits permission kind x :
  Z.land permission Perm.S_IFMT = mode_bits kind -> Z.land Perm.S_IFMT x = x ->
  Perm.contains permission x = Perm.contains (mode_bits kind) x.
Proof. intros Hp Hx. unfold Perm.contains. by rewrite <- Hp, <- Z.land_assoc, Hx. Qed.

Lemma file_type_bits permission kind :
  Z.land permission Perm.S_IFMT = mode_bits kind -> file_type_of_perm permission = Some kind.
Proof.
  intros Hp. unfold file_type_of_perm. rewrite !(contains_bits _ _ _ Hp) by done. by destruct kind.
Qed.

Lemma new_params_bits permission target kind hl fs dv :
  Z.land permission Perm.S_IFMT = mode_bits kind -> tree_kind kind = true ->
  new_inode_params permission target None = Some (hl, fs, dv) ->
  dv = None /\ match kind with Directory => hl = 2 /\ fs = 2 | _ => hl = 1 /\ fs = 0 end.
Proof.
  intros Hp Hk. unfold new_inode_params. rewrite !(contains_bits _ _ _ Hp) by done.
  by destruct kind; try done; intros [= <- <- <-].
Qed.

Section Keep.
Context (F : FsState) (Hok : tree_ok F) (f : Z).
Abbreviation T := (fs_tree F).
Abbreviation c := (fs_next F).

Lemma size_insert_new (es : gmap bytes Z) name m :
  es !! name = None -> Z.of_nat (size (<[name := m]> es)) = Z.of_nat (size es) + 1.
Proof. intros Hn. rewrite map_size_insert, Hn. lia. Qed.
Lemma size_delete_old (es : gmap bytes Z) name m :
  es !! name = Some m -> Z.of_nat (size (delete name es)) = Z.of_nat (size es) - 1.
Proof.
  intros Hn. rewrite map_size_delete, Hn.
  assert (size es <> 0)%nat by (by eapply map_size_ne_0_lookup_2). lia.
Qed.

(** A number that was drawn is not used again. *)
Lemma ok_next : tree_ok (mkFs T (c + 1) f).
Proof.
  destruct Hok as [Hf ?]. split; cbn [fs_tree fs_next] in *; try done.
  intros n x Hx. pose proof (Hf n x Hx). lia.
Qed.

(** Attributes of one node. *)
Lemma ok_attrs n x x' :
  T !! n = Some x -> nd_entries x' = nd_entries x -> nd_kind x' = nd_kind x ->
  (nd_kind x = Some Directory -> st_size (nd_stat x') = st_size (nd_stat x)) ->
  st_nlink (nd_stat x') = st_nlink (nd_stat x) ->
  tree_ok (mkFs (<[n := x']> T) c f).
Proof.
  intros Hx He Hk Hs Hl.
  assert (Hent : forall d name, ent (<[n := x']> T) d name = ent T d name).
  { intros d name. rewrite ent_insert. case_decide; [|done]. subst d. by rewrite He, (ent_at _ _ _ _ Hx). }
  assert (Hkind : forall d, kind_at (<[n := x']> T) d = kind_at T d).
  { intros d. rewrite kind_insert. case_decide; [|done]. subst d. by rewrite Hk, (kind_of_node _ _ _ Hx). }
  assert (Hin : forall m z, <[n := x']> T !! m = Some z -> exists z0, T !! m = Some z0 /\
    nd_kind z = nd_kind z0 /\ nd_entries z = nd_entries z0 /\ st_nlink (nd_stat z) = st_nlink (nd_stat z0) /\
    (nd_kind z0 = Some Directory -> st_size (nd_stat z) = st_size (nd_stat z0))).
  { intros m z. rewrite lookup_insert. case_decide; [intros [= <-]; subst m; exists x|intros; exists z]; auto. }
  assert (Hsome : forall m, is_Some (T !! m) -> is_Some (<[n := x']> T !! m)).
  { intros m Hm. rewrite lookup_insert. by case_decide. }
  apply ok_intro; cbn [fs_tree fs_next].
  - intros m z (z0 & Hz & Hkz & _)%Hin. rewrite Hkz. split; [by eapply to_fresh|by eapply to_kind].
  - intros d name m. rewrite Hent, Hkind. intros Hd. split; [by eapply ent_dir|].
    apply Hsome. by eapply to_exists.
  - intros m. rewrite Hent, Hkind. by apply to_dot.
  - intros m Hm Hr. rewrite Hkind in Hm. destruct (to_dotdot _ Hok m Hm Hr) as (d & nm & ? & ? & ?).
    exists d, nm. by rewrite !Hent.
  - rewrite Hent, Hkind. by apply to_root.
  - intros m z (z0 & Hz & Hkz & Hez & _ & Hsz)%Hin Hd. rewrite Hkz in Hd. rewrite Hsz, Hez by done.
    by eapply to_size.
  - intros m z (z0 & Hz & Hkz & _ & Hlz & _)%Hin. rewrite (name_count_ext _ z0) by done.
    eapply named_ext; [|by apply to_names]. intros d nm _. by rewrite Hent.
Qed.

Lemma lookup_new_dir n dir nm :
  new_entries Directory n dir !! nm =
    if decide (nm = dotdot) then Some dir else if decide (nm = dot) then Some n else None.
Proof.
  unfold new_entries. rewrite lookup_insert. destruct (decide (nm = dotdot)) as [->|Hd].
  - by rewrite decide_True.
  - rewrite decide_False by done. rewrite lookup_singleton. repeat case_decide; congruence.
Qed.
Lemma new_entries_plain kind n dir nm : plain nm -> new_entries kind n dir !! nm = None.
Proof.
  intros [H1 H2]. destruct kind; try apply lookup_empty. rewrite lookup_new_dir.
  by rewrite !decide_False.
Qed.
Lemma new_entries_some kind n dir nm m :
  new_entries kind n dir !! nm = Some m -> kind = Directory /\ (m = dir \/ m = n).
Proof.
  destruct (decide (kind = Directory)) as [->|Hk].
  2:{ assert (new_entries kind n dir = ∅) as -> by (by destruct kind). by rewrite lookup_empty. }
  rewrite lookup_new_dir. intros Hm. split; [done|]. repeat case_decide; simplify_eq; auto.
Qed.

(** No name refers to a number that is not used. *)
Lemma no_names n : T !! n = None -> named (ent T) n 0.
Proof.
  intros Hn. exists ∅. split; [|done]. intros d name. rewrite elem_of_empty. split; [done|]. intros [_ He].
  apply (to_exists _ Hok) in He as [x Hx]. congruence.
Qed.

(** [step_create] *)
Section Created.
Context (dir : Z) (name : bytes) (x : Node) (a : Stat) (kind : DbfsFileType) (t : DbfsTimeSpec)
  (target : option bytes).
Hypothesis Hx : T !! dir = Some x.
Hypothesis Hkx : nd_kind x = Some Directory.
Hypothesis Hnew : nd_entries x !! name = None.
Hypothesis Hp : plain name.
Hypothesis Hc : T !! c = None.
Hypothesis Hka : file_type_of_perm (st_mode a) = Some kind.
Hypothesis Hst : match kind with Directory => st_size a = 2 | _ => st_nlink a = 1 end.
Abbreviation x' := (dir_update 1 t (<[name := c]> (nd_entries x)) x).
Abbreviation z := (new_node a kind c dir target).
Abbreviation T' := (<[c := z]> (<[dir := x']> T)).

Lemma created_ne : c <> dir.
Proof. congruence. Qed.
Lemma created_ent d nm :
  ent T' d nm = if decide (d = c) then nd_entries z !! nm
                else if decide ((d, nm) = (dir, name)) then Some c else ent T d nm.
Proof.
  rewrite !ent_insert. case_decide; [done|]. case_decide as Hd.
  - subst d. cbn [dir_update nd_entries]. rewrite lookup_insert, (ent_at _ _ _ _ Hx).
    repeat case_decide; simplify_eq; done.
  - rewrite decide_False by congruence. done.
Qed.
Lemma created_kind d : kind_at T' d = if decide (d = c) then Some kind else kind_at T d.
Proof.
  rewrite !kind_insert. case_decide; [by cbn|]. case_decide as Hd; [|done].
  subst d. by rewrite (kind_of_node _ _ _ Hx).
Qed.
Lemma created_some m : is_Some (T !! m) -> is_Some (T' !! m).
Proof. intros Hm. rewrite !lookup_insert. repeat case_decide; eauto. Qed.
Lemma created_unused d nm : d = c -> ent T d nm = None.
Proof. intros ->. unfold ent. by rewrite Hc. Qed.
Lemma created_not_root : c <> root_ino.
Proof. intros Hr. destruct (to_root _ Hok) as [Hk _]. unfold kind_at in Hk. by rewrite <- Hr, Hc in Hk. Qed.

Lemma created_dotdot n :
  kind_at T' n = Some Directory -> n <> root_ino ->
  exists d nm, ent T' n dotdot = Some d /\ plain nm /\ ent T' d nm = Some n.
Proof.
  rewrite created_kind. case_decide as Hn.
  - intros [= Hk] _. subst n. exists dir, name. rewrite !created_ent, decide_True by done.
    cbn [new_node nd_entries]. rewrite Hk, lookup_new_dir.
    split; [done|]. split; [done|]. rewrite decide_False by (apply not_eq_sym, created_ne).
    by rewrite decide_True.
  - intros Hk Hr. destruct (to_dotdot _ Hok n Hk Hr) as (d & nm & He & Hpn & He').
    exists d, nm. rewrite !created_ent, decide_False by done.
    rewrite decide_False by (intros [= _ <-]; by apply plain_dotdot).
    rewrite decide_False by (intros Hdc; by rewrite (created_unused d nm Hdc) in He').
    rewrite decide_False; [done|]. intros [= -> ->]. by rewrite (ent_at _ _ _ _ Hx), Hnew in He'.
Qed.

Lemma created_size n y :
  T' !! n = Some y -> nd_kind y = Some Directory -> st_size (nd_stat y) = Z.of_nat (size (nd_entries y)).
Proof.
  rewrite !lookup_insert. repeat case_decide; subst.
  - intros [= <-] Hd. unfold nd_kind in Hd. cbn [new_node nd_stat] in Hd. rewrite Hka in Hd.
    injection Hd as Hd. cbn [new_node nd_stat nd_entries]. rewrite Hd in *. rewrite Hst.
    unfold new_entries. by rewrite map_size_insert_None, map_size_singleton.
  - intros [= <-] _. cbn [dir_update nd_stat nd_entries set_mtime set_ctime set_size st_size].
    rewrite size_insert_new by done. by rewrite (to_size _ Hok _ _ Hx).
  - by apply to_size.
Qed.

Lemma created_names n y : T' !! n = Some y -> named (ent T') n (name_count n y).
Proof.
  assert (Hadd : forall m k, named (ent T) m k -> named (ent T') m (k + if decide (m = c) then 1 else 0)).
  { intros m k. apply named_added with dir name; [done|by rewrite (ent_at _ _ _ _ Hx)|].
    intros d nm Hpn. rewrite created_ent. case_decide as Hd; [|done].
    pose proof created_ne. rewrite (created_unused d nm Hd), decide_False by congruence.
    by apply new_entries_plain. }
  rewrite !lookup_insert. repeat case_decide; subst.
  - intros [= <-]. specialize (Hadd c 0 (no_names c Hc)). rewrite decide_True in Hadd by done.
    unfold name_count, nd_kind. cbn [new_node nd_stat]. rewrite Hka.
    rewrite (decide_False (P := c = root_ino)) by apply created_not_root. case_decide as Hd; [done|].
    destruct kind; try done; by rewrite Hst.
  - intros [= <-]. specialize (Hadd _ _ (to_names _ Hok _ _ Hx)).
    rewrite decide_False, Z.add_0_r in Hadd by congruence. exact Hadd.
  - intros Hy. specialize (Hadd _ _ (to_names _ Hok _ _ Hy)).
    by rewrite decide_False, Z.add_0_r in Hadd by congruence.
Qed.

Lemma ok_create : 0 <= c -> tree_kind kind = true -> tree_ok (mkFs T' (c + 1) f).
Proof.
  intros Hc0 Hkind. apply ok_intro; cbn [fs_tree fs_next];
    [| | |exact created_dotdot| |exact created_size|exact created_names].
  - intros n y. rewrite !lookup_insert. repeat case_decide; subst.
    + intros [= <-]. split; [lia|]. by exists kind.
    + intros [= <-]. split; [pose proof (to_fresh _ Hok _ _ Hx); lia|]. by apply (to_kind _ Hok _ _ Hx).
    + intros Hy. split; [pose proof (to_fresh _ Hok _ _ Hy); lia|]. by apply (to_kind _ Hok _ _ Hy).
  - intros d nm m. rewrite created_ent, created_kind. case_decide as Hd; [|case_decide as Hd'].
    + intros [Hk [-> | ->]]%new_entries_some; (split; [by rewrite Hk|]); [apply created_some; by rewrite Hx|].
      rewrite lookup_insert_eq. eauto.
    + intros [= <-]. injection Hd' as -> ->. rewrite (kind_of_node _ _ _ Hx). split; [done|].
      rewrite lookup_insert_eq. eauto.
    + intros Hm. split; [by eapply ent_dir|]. apply created_some. by eapply to_exists.
  - intros n. rewrite created_ent, created_kind. case_decide as Hn.
    + intros [= Hk]. subst n. cbn [new_node nd_entries]. by rewrite Hk, lookup_new_dir.
    + intros Hk. rewrite decide_False by (intros [= _ <-]; by apply plain_dot). by apply to_dot.
  - pose proof created_not_root. rewrite created_ent, created_kind, !decide_False
      by (done || (intros [= _ <-]; by apply plain_dotdot)).
    by apply to_root.
Qed.
End Created.

(** Steps that make no node: what is left to show. *)
Lemma ok_change (T' : Tree) :
  (forall n y', T' !! n = Some y' -> exists y, T !! n = Some y /\ nd_kind y' = nd_kind y /\
     (nd_kind y = Some Directory -> st_size (nd_stat y') - st_size (nd_stat y) =
        Z.of_nat (size (nd_entries y')) - Z.of_nat (size (nd_entries y)))) ->
  (forall d nm m, ent T' d nm = Some m -> kind_at T' d = Some Directory /\ is_Some (T' !! m)) ->
  (forall n, kind_at T' n = Some Directory -> ent T' n dot = ent T n dot) ->
  (forall n d0 nm0, kind_at T' n = Some Directory -> n <> root_ino ->
     ent T n dotdot = Some d0 -> plain nm0 -> ent T d0 nm0 = Some n ->
     exists d nm, ent T' n dotdot = Some d /\ plain nm /\ ent T' d nm = Some n) ->
  is_Some (T' !! root_ino) -> ent T' root_ino dotdot = None ->
  (forall n y', T' !! n = Some y' ->
     named (ent T') n (name_count n y')) ->
  tree_ok (mkFs T' c f).
Proof.
  intros Hn He Hdot Hdd [xr Hr] Hrd Hnames.
  assert (Hk : forall n, kind_at T' n = Some Directory -> kind_at T n = Some Directory).
  { intros n. unfold kind_at. destruct (T' !! n) as [y'|] eqn:Ey; [|done].
    destruct (Hn n y' Ey) as (y & -> & Hky & _). simpl. by rewrite Hky. }
  apply ok_intro; cbn [fs_tree fs_next]; auto.
  - intros n y' (y & Hy & -> & _)%Hn. split; [by eapply to_fresh|by eapply to_kind].
  - intros n Hd. rewrite Hdot by done. by apply to_dot, Hk.
  - intros n Hd Hnr. destruct (to_dotdot _ Hok n (Hk n Hd) Hnr) as (d & nm & ? & ? & ?). eauto.
  - split; [|done]. destruct (Hn _ _ Hr) as (y & Hy & Hky & _).
    rewrite (kind_of_node _ _ _ Hr), Hky. destruct (to_root _ Hok) as [Hkr _].
    by rewrite (kind_of_node _ _ _ Hy) in Hkr.
  - intros n y' (y & Hy & Hky & Hs)%Hn Hd. rewrite Hky in Hd. specialize (Hs Hd).
    pose proof (to_size _ Hok _ _ Hy Hd). lia.
Qed.

Lemma root_no_name d nm : plain nm -> ent T d nm <> Some root_ino.
Proof.
  intros Hp He. destruct (to_root _ Hok) as [Hk _]. unfold kind_at in Hk.
  destruct (T !! root_ino) as [x|] eqn:Ex; [|done]. simpl in Hk.
  destruct (to_names _ Hok _ _ Ex) as (R & HR & Hs). unfold name_count in Hs.
  rewrite !decide_True in Hs by done.
  assert (R = ∅) as -> by (apply leibniz_equiv, size_empty_inv; lia).
  assert (Hin : (d, nm) ∈ (∅ : gset (Z * bytes))) by (by apply HR). by apply elem_of_empty in Hin.
Qed.

(** [step_link] *)
Lemma ok_link dir name x m y t a :
  T !! dir = Some x -> nd_kind x = Some Directory -> T !! m = Some y -> nd_kind y <> Some Directory ->
  nd_entries x !! name = None -> plain name ->
  st_mode a = st_mode (nd_stat y) -> st_nlink a = st_nlink (nd_stat y) + 1 ->
  tree_ok (mkFs (<[m := with_stat a y]>
    (<[dir := dir_update 1 t (<[name := m]> (nd_entries x)) x]> T)) c f).
Proof.
  intros Hx Hkx Hy Hky Hfree Hp Hma Hla. set (x' := dir_update _ _ _ _).
  assert (Hmd : m <> dir) by congruence.
  assert (Hkm : nd_kind (with_stat a y) = nd_kind y) by (unfold nd_kind; simpl; by rewrite Hma).
  assert (Hent : forall d nm, ent (<[m := with_stat a y]> (<[dir := x']> T)) d nm =
    if decide ((d, nm) = (dir, name)) then Some m else ent T d nm).
  { intros d nm. rewrite !ent_insert. case_decide as Hd; [subst d|case_decide as Hd2; [subst d|]].
    - rewrite decide_False by congruence. by rewrite (ent_at _ _ _ _ Hy).
    - cbn [x' dir_update nd_entries]. rewrite lookup_insert, (ent_at _ _ _ _ Hx).
      repeat case_decide; congruence.
    - by rewrite decide_False by congruence. }
  assert (Hkd : forall d, kind_at (<[m := with_stat a y]> (<[dir := x']> T)) d = kind_at T d).
  { intros d. rewrite !kind_insert. repeat case_decide; subst; [|by rewrite (kind_of_node _ _ _ Hx)|done].
    by rewrite Hkm, (kind_of_node _ _ _ Hy). }
  assert (Hfr : ent T dir name = None) by (by rewrite (ent_at _ _ _ _ Hx)).
  assert (Hsome : forall n, is_Some (T !! n) -> is_Some (<[m := with_stat a y]> (<[dir := x']> T) !! n)).
  { intros n Hn. rewrite !lookup_insert. repeat case_decide; eauto. }
  apply ok_change.
  - intros n y'. rewrite !lookup_insert. repeat case_decide; subst.
    + intros [= <-]. by exists y.
    + intros [= <-]. exists x. split; [done|]. split; [done|]. intros _.
      cbn [x' dir_update nd_stat nd_entries set_mtime set_ctime set_size st_size].
      rewrite size_insert_new by done. lia.
    + intros Hn. exists y'. split; [done|]. split; [done|]. lia.
  - intros d nm n. rewrite Hent, Hkd. case_decide as Hd.
    + intros [= <-]. injection Hd as -> ->. rewrite (kind_of_node _ _ _ Hx). split; [done|].
      apply Hsome. by rewrite Hy.
    + intros He. split; [by eapply ent_dir|]. by apply Hsome, (to_exists _ Hok _ _ _ He).
  - intros n _. rewrite Hent, decide_False; [done|]. intros [= _ <-]. by apply plain_dot.
  - intros n d0 nm0 _ _ He Hp0 He0. exists d0, nm0. rewrite !Hent.
    rewrite decide_False by (intros [= _ <-]; by apply plain_dotdot).
    by rewrite decide_False by (intros [= -> ->]; congruence).
  - apply Hsome. destruct (to_root _ Hok) as [Hk _]. unfold kind_at in Hk. by destruct (T !! root_ino).
  - rewrite Hent, decide_False by (intros [= _ <-]; by apply plain_dotdot). by apply to_root.
  - intros n y' Hy'.
    assert (Hadd : forall k, named (ent T) n k ->
      named (ent (<[m := with_stat a y]> (<[dir := x']> T))) n (k + if decide (n = m) then 1 else 0)).
    { intros k. apply named_added with dir name; [done..|]. intros d nm _. apply Hent. }
    rewrite !lookup_insert in Hy'. repeat case_decide; simplify_eq.
    + specialize (Hadd _ (to_names _ Hok _ _ Hy)). unfold name_count in *. rewrite Hkm.
      rewrite decide_False in Hadd |- * by done. cbn [with_stat nd_stat]. by rewrite Hla.
    + specialize (Hadd _ (to_names _ Hok _ _ Hx)). by rewrite Z.add_0_r in Hadd.
    + specialize (Hadd _ (to_names _ Hok _ _ Hy')). by rewrite Z.add_0_r in Hadd.
Qed.

Lemma root_exists : is_Some (T !! root_ino).
Proof. destruct (to_root _ Hok) as [Hk _]. unfold kind_at in Hk. by destruct (T !! root_ino). Qed.

(** A step that only takes the name [name] out of [dir] and, if it was the
    last one, the node [m], whose entries go with it. *)
Lemma ok_remove (T' : Tree) dir name m :
  ent T dir name = Some m -> plain name ->
  (forall n y', T' !! n = Some y' -> exists y, T !! n = Some y /\ nd_kind y' = nd_kind y /\
     name_count n y' = name_count n y - (if decide (n = m) then 1 else 0) /\
     (nd_kind y = Some Directory -> st_size (nd_stat y') - st_size (nd_stat y) =
        Z.of_nat (size (nd_entries y')) - Z.of_nat (size (nd_entries y)))) ->
  (forall n, n <> m -> is_Some (T !! n) -> is_Some (T' !! n)) ->
  (T' !! m = None -> forall d nm, (d, nm) <> (dir, name) -> ent T d nm = Some m -> d = m) ->
  (T' !! m = None -> forall nm, plain nm -> ent T m nm = None) ->
  kind_at T' m <> Some Directory ->
  (forall d nm, ent T' d nm =
     if decide ((d, nm) = (dir, name)) then None
     else if decide (T' !! d = None) then None else ent T d nm) ->
  tree_ok (mkFs T' c f).
Proof.
  intros Hold Hp Hn Hstay Hlast Hempty Hmk Hent. apply ok_change.
  - intros n y' (y & ? & ? & _ & ?)%Hn. eauto.
  - intros d nm n. rewrite Hent. case_decide as H1; [done|]. case_decide as H2; [done|]. intros He.
    split.
    + destruct (T' !! d) as [y'|] eqn:Ey; [|done]. destruct (Hn _ _ Ey) as (y & Hy & Hk & _).
      rewrite (kind_of_node _ _ _ Ey), Hk, <- (kind_of_node _ _ _ Hy). by eapply ent_dir.
    + destruct (decide (n = m)) as [->|Hnm]; [|by apply Hstay, (to_exists _ Hok _ _ _ He)].
      destruct (T' !! m) eqn:Em; [done|]. rewrite (Hlast eq_refl d nm H1 He) in H2. done.
  - intros n Hk. rewrite Hent, decide_False by (intros [= _ <-]; by apply plain_dot).
    rewrite decide_False; [done|]. intros Hnone. unfold kind_at in Hk. by rewrite Hnone in Hk.
  - intros n d0 nm0 Hk Hr He Hp0 He0. exists d0, nm0.
    assert (Hnm : n <> m) by (by intros ->).
    rewrite !Hent, decide_False by (intros [= _ <-]; by apply plain_dotdot).
    rewrite decide_False by (intros Hnone; unfold kind_at in Hk; by rewrite Hnone in Hk).
    rewrite decide_False by (intros [= -> ->]; congruence). split; [done|]. split; [done|].
    rewrite decide_False; [done|]. intros Hnone.
    destruct (decide (d0 = m)) as [->|Hd]; [by rewrite Hempty in He0|].
    destruct (Hstay d0 Hd) as [? ?]; [|congruence]. unfold ent in He0. by destruct (T !! d0).
  - apply Hstay; [|apply root_exists]. intros <-. by eapply root_no_name.
  - rewrite Hent, decide_False by (intros [= _ <-]; by apply plain_dotdot).
    case_decide; [done|]. by apply to_root.
  - intros n y' (y & Hy & _ & -> & _)%Hn. eapply (named_removed (ent T) _ dir name); [done..| |by apply to_names].
    intros d nm Hpn. rewrite Hent. case_decide; [done|]. case_decide as Hnone; [|done].
    destruct (decide (d = m)) as [->|Hd]; [by rewrite Hempty|].
    unfold ent. destruct (T !! d) eqn:Ed; [|done]. destruct (Hstay d Hd) as [? ?]; [done|congruence].
Qed.

(** A node with one name. *)
Lemma one_name m y d nm d' nm' :
  T !! m = Some y -> name_count m y = 1 -> plain nm -> plain nm' ->
  ent T d nm = Some m -> ent T d' nm' = Some m -> (d', nm') = (d, nm).
Proof.
  intros Hy Hc Hp Hp' He He'. destruct (to_names _ Hok _ _ Hy) as (R & HR & Hs). rewrite Hc in Hs.
  destruct (size_1_elem_of R) as [z Hz]; [lia|].
  assert (H1 : (d, nm) ∈ R) by (by apply HR). assert (H2 : (d', nm') ∈ R) by (by apply HR).
  rewrite Hz, elem_of_singleton in H1, H2. congruence.
Qed.

(** An empty directory has no names in it. *)
Lemma empty_dir m y nm :
  T !! m = Some y -> nd_kind y = Some Directory -> m <> root_ino -> st_size (nd_stat y) <= 2 ->
  plain nm -> ent T m nm = None.
Proof.
  intros Hy Hk Hr Hs [Hp1 Hp2]. destruct (ent T m nm) as [n|] eqn:He; [|done]. exfalso.
  assert (Hkm : kind_at T m = Some Directory) by (by rewrite (kind_of_node _ _ _ Hy)).
  pose proof (to_dot _ Hok m Hkm) as Hd. destruct (to_dotdot _ Hok m Hkm Hr) as (d & _ & Hdd & _).
  rewrite (ent_at _ _ _ _ Hy) in Hd. rewrite (ent_at _ _ _ _ Hy) in Hdd.
  rewrite (ent_at _ _ _ _ Hy) in He. rewrite (to_size _ Hok _ _ Hy Hk) in Hs.
  assert (Hsub : ({[dot; dotdot; nm]} : gset bytes) ⊆ dom (nd_entries y)).
  { intros k. rewrite !elem_of_union, !elem_of_singleton, elem_of_dom.
    intros [[-> | ->] | ->]; by rewrite ?Hd, ?Hdd, ?He. }
  apply subseteq_size in Hsub. rewrite size_dom in Hsub.
  rewrite !size_union, !size_singleton in Hsub by set_solver. lia.
Qed.

Lemma size_dir_remove x name m t :
  nd_entries x !! name = Some m ->
  st_size (nd_stat (dir_update (-1) t (delete name (nd_entries x)) x)) - st_size (nd_stat x) =
  Z.of_nat (size (nd_entries (dir_update (-1) t (delete name (nd_entries x)) x)))
    - Z.of_nat (size (nd_entries x)).
Proof.
  intros He. cbn [dir_update nd_stat nd_entries set_mtime set_ctime set_size st_size].
  rewrite (size_delete_old _ _ m) by done. lia.
Qed.

(** The nodes of a tree in which [dir] has lost the entry [name]. *)
Lemma removed_nodes dir x name m t n y' :
  T !! dir = Some x -> nd_entries x !! name = Some m ->
  <[dir := dir_update (-1) t (delete name (nd_entries x)) x]> T !! n = Some y' ->
  exists y, T !! n = Some y /\ nd_kind y' = nd_kind y /\ name_count n y' = name_count n y /\
    (nd_kind y = Some Directory -> st_size (nd_stat y') - st_size (nd_stat y) =
       Z.of_nat (size (nd_entries y')) - Z.of_nat (size (nd_entries y))).
Proof.
  intros Hx He. rewrite lookup_insert. case_decide as Hn.
  - intros [= <-]. subst n. exists x. split; [done|]. split; [done|]. split; [done|].
    intros _. by eapply size_dir_remove.
  - intros Hy. exists y'. split; [done|]. split; [done|]. split; [done|]. lia.
Qed.
Lemma removed_ent dir x name m t d nm :
  T !! dir = Some x -> nd_entries x !! name = Some m ->
  ent (<[dir := dir_update (-1) t (delete name (nd_entries x)) x]> T) d nm =
  if decide ((d, nm) = (dir, name)) then None else ent T d nm.
Proof.
  intros Hx He. rewrite ent_insert. case_decide as Hd.
  - subst d. cbn [dir_update nd_entries]. rewrite lookup_delete, (ent_at _ _ _ _ Hx).
    repeat case_decide; congruence.
  - by rewrite decide_False by congruence.
Qed.

(** [step_unlink] *)
Lemma ok_unlink dir name x m y t a :
  T !! dir = Some x -> nd_kind x = Some Directory -> nd_entries x !! name = Some m -> plain name ->
  T !! m = Some y -> nd_kind y <> Some Directory ->
  st_mode a = st_mode (nd_stat y) -> st_nlink a = st_nlink (nd_stat y) - 1 ->
  let T1 := <[dir := dir_update (-1) t (delete name (nd_entries x)) x]> T in
  tree_ok (mkFs (if st_nlink (nd_stat y) =? 1 then delete m T1 else <[m := with_stat a y]> T1) c f).
Proof.
  intros Hx Hkx He Hp Hy Hky Hma Hla T1. assert (Hmd : m <> dir) by congruence.
  assert (Hkm : nd_kind (with_stat a y) = nd_kind y) by (unfold nd_kind; simpl; by rewrite Hma).
  assert (Hme : nd_entries y = ∅) by (by eapply to_file).
  assert (Hc : forall n, name_count n y = st_nlink (nd_stat y)) by (intros; unfold name_count; by rewrite decide_False).
  assert (Hold : ent T dir name = Some m) by (by rewrite (ent_at _ _ _ _ Hx)).
  apply (ok_remove _ dir name m Hold Hp).
  - intros n y' Hy'. destruct (decide (n = m)) as [->|Hn].
    + destruct (st_nlink (nd_stat y) =? 1); [by rewrite lookup_delete_eq in Hy'|].
      rewrite lookup_insert_eq in Hy'. injection Hy' as <-. exists y. split; [done|]. split; [done|].
      split; [|done]. rewrite Hc. unfold name_count. rewrite Hkm, decide_False by done. exact Hla.
    + assert (Hy1 : T1 !! n = Some y').
      { destruct (st_nlink (nd_stat y) =? 1); [by rewrite lookup_delete_ne in Hy'|].
        by rewrite lookup_insert_ne in Hy'. }
      destruct (removed_nodes _ _ _ _ _ _ _ Hx He Hy1) as (z & ? & ? & ? & ?).
      exists z. rewrite Z.sub_0_r. auto.
  - intros n Hn Hs. assert (is_Some (T1 !! n)) as Hs1.
    { unfold T1. rewrite lookup_insert. case_decide; eauto. }
    case_match; [by rewrite lookup_delete_ne|by rewrite lookup_insert_ne].
  - intros Hnone d nm Hne He'. exfalso. apply Hne. destruct (ent_cases _ _ _ _ Hok He') as [Hpn|Hk].
    + eapply one_name; [exact Hy| |done..]. rewrite Hc.
      destruct (Z.eqb_spec (st_nlink (nd_stat y)) 1); [done|]. by rewrite lookup_insert_eq in Hnone.
    + by rewrite (kind_of_node _ _ _ Hy) in Hk.
  - intros _ nm _. by rewrite (ent_at _ _ _ _ Hy), Hme, lookup_empty.
  - case_match; [rewrite kind_delete|rewrite kind_insert]; rewrite decide_True by done; [done|].
    by rewrite Hkm.
  - intros d nm. pose proof (removed_ent dir x name m t d nm Hx He) as Hent. fold T1 in Hent.
    destruct (decide (d = m)) as [->|Hd].
    + rewrite (decide_False (P := (m, nm) = _)) by congruence.
      rewrite (ent_at _ _ _ _ Hy), Hme, lookup_empty.
      assert (Hz : forall b : bool, ent (if b then delete m T1 else <[m := with_stat a y]> T1) m nm = None).
      { intros []; [rewrite ent_delete|rewrite ent_insert]; rewrite decide_True by done; [done|].
        cbn [with_stat nd_entries]. by rewrite Hme. }
      rewrite Hz. match goal with |- context [decide ?P] => by destruct (decide P) end.
    + assert (HT1 : T1 !! d = None -> T !! d = None).
      { unfold T1. rewrite lookup_insert. by destruct (decide (dir = d)). }
      assert (Hz : forall b : bool, ent (if b then delete m T1 else <[m := with_stat a y]> T1) d nm = ent T1 d nm
        /\ (if b then delete m T1 else <[m := with_stat a y]> T1) !! d = T1 !! d).
      { intros []; [rewrite ent_delete, lookup_delete_ne by done|rewrite ent_insert, lookup_insert_ne by done];
          by rewrite decide_False by done. }
      destruct (Hz (st_nlink (nd_stat y) =? 1)) as [-> ->]. rewrite Hent. clear Hent.
      case_decide; [done|]. case_decide as Hn; [|done]. apply HT1 in Hn. unfold ent. by rewrite Hn.
Qed.

(** [step_rmdir] *)
Lemma ok_rmdir dir name x m y t :
  T !! dir = Some x -> nd_kind x = Some Directory -> nd_entries x !! name = Some m -> plain name ->
  m <> dir -> T !! m = Some y -> nd_kind y = Some Directory -> st_size (nd_stat y) <= 2 ->
  tree_ok (mkFs (delete m (<[dir := dir_update (-1) t (delete name (nd_entries x)) x]> T)) c f).
Proof.
  intros Hx Hkx He Hp Hmd Hy Hky Hsz.
  assert (Hold : ent T dir name = Some m) by (by rewrite (ent_at _ _ _ _ Hx)).
  assert (Hr : m <> root_ino) by (intros ->; by eapply root_no_name).
  assert (Hempty : forall nm, plain nm -> ent T m nm = None) by (intros; by eapply empty_dir).
  assert (Hc : name_count m y = 1).
  { unfold name_count. by rewrite decide_True, decide_False. }
  apply (ok_remove _ dir name m Hold Hp).
  - intros n y'. rewrite lookup_delete. case_decide as Hn; [done|]. intros Hy1.
    destruct (removed_nodes _ _ _ _ _ _ _ Hx He Hy1) as (z & ? & ? & ? & ?).
    exists z. rewrite decide_False, Z.sub_0_r by done. auto.
  - intros n Hn Hs. rewrite lookup_delete_ne, lookup_insert by done. case_decide; eauto.
  - intros _ d nm Hne He'. destruct (decide (nm = dot)) as [->|H1].
    { rewrite (to_dot _ Hok d) in He' by (by eapply ent_dir). congruence. }
    destruct (decide (nm = dotdot)) as [->|H2].
    { exfalso. pose proof (ent_dir _ _ _ _ Hok He') as Hkd. destruct (decide (d = root_ino)) as [->|Hdr].
      - by rewrite (proj2 (to_root _ Hok)) in He'.
      - destruct (to_dotdot _ Hok d Hkd Hdr) as (m' & nm' & Hm' & Hp' & Hd'). simplify_eq.
        by rewrite Hempty in Hd'. }
    exfalso. apply Hne. by eapply (one_name m y).
  - intros _. exact Hempty.
  - by rewrite kind_delete, decide_True.
  - intros d nm. rewrite ent_delete, (removed_ent dir x name m t d nm Hx He), lookup_delete.
    repeat case_decide; simplify_eq; try done.
    rewrite lookup_insert in *. repeat case_decide; simplify_eq.
    unfold ent. by match goal with H : T !! _ = None |- _ => rewrite H end.
Qed.

(** A step that moves the name [old_name] of [old_dir] to [new_name] of
    [new_dir]; a directory that is moved has the new one as its [..]. *)
Lemma ok_move (T' : Tree) old_dir old_name new_dir new_name m :
  ent T old_dir old_name = Some m -> plain old_name ->
  ent T new_dir new_name = None -> plain new_name -> kind_at T new_dir = Some Directory ->
  (forall n y', T' !! n = Some y' -> exists y, T !! n = Some y /\ nd_kind y' = nd_kind y /\
     name_count n y' = name_count n y /\
     (nd_kind y = Some Directory -> st_size (nd_stat y') - st_size (nd_stat y) =
        Z.of_nat (size (nd_entries y')) - Z.of_nat (size (nd_entries y)))) ->
  (forall n, is_Some (T !! n) -> is_Some (T' !! n)) ->
  (forall d nm, ent T' d nm =
     if decide ((d, nm) = (new_dir, new_name)) then Some m
     else if decide ((d, nm) = (old_dir, old_name)) then None
     else if decide (kind_at T m = Some Directory /\ (d, nm) = (m, dotdot)) then Some new_dir
     else ent T d nm) ->
  tree_ok (mkFs T' c f).
Proof.
  intros Hold Hpo Hnew Hpn Hkn Hn Hstay Hent.
  assert (Hkd : forall n, is_Some (T !! n) -> kind_at T' n = kind_at T n).
  { intros n Hs. destruct (Hstay n Hs) as [y' Hy']. destruct (Hn _ _ Hy') as (y & Hy & Hk & _).
    by rewrite (kind_of_node _ _ _ Hy'), (kind_of_node _ _ _ Hy). }
  assert (Hdir : forall d, kind_at T d = Some Directory -> is_Some (T !! d)).
  { intros d. unfold kind_at. by destruct (T !! d). }
  assert (Hdots : forall n nm, ~ plain nm -> n <> m \/ nm <> dotdot -> ent T' n nm = ent T n nm).
  { intros n nm Hp Hnm. rewrite Hent. rewrite !decide_False; [done|..].
    - intros [_ [= -> ->]]. by destruct Hnm.
    - by intros [= _ ->].
    - by intros [= _ ->]. }
  apply ok_change.
  - intros n y' (y & ? & ? & _ & ?)%Hn. eauto.
  - intros d nm n He. assert (kind_at T d = Some Directory /\ is_Some (T !! n)) as [H1 H2].
    { rewrite Hent in He. clear Hent Hdots.
      case_decide as D1; [injection D1 as -> ->; injection He as <-; split; [done|by eapply to_exists]|].
      case_decide as D2; [done|].
      case_decide as D3; [|split; [by eapply ent_dir|by eapply to_exists]].
      destruct D3 as [? [= -> ->]]. injection He as <-. auto. }
    rewrite Hkd by auto. auto.
  - intros n _. apply Hdots; [by apply plain_dot|by right].
  - intros n d0 nm0 Hk Hr He Hp0 He0. destruct (decide (n = m)) as [->|Hnm].
    + exists new_dir, new_name. rewrite !Hent. rewrite (decide_True (P := (new_dir, _) = _)) by done.
      rewrite (decide_False (P := (m, dotdot) = (new_dir, _))) by (intros [= _ <-]; by apply plain_dotdot).
      rewrite (decide_False (P := (m, dotdot) = (old_dir, _))) by (intros [= _ <-]; by apply plain_dotdot).
      rewrite decide_True; [done|]. split; [|done]. rewrite <- Hkd; [done|]. by eapply to_exists.
    + exists d0, nm0. rewrite Hdots by (apply plain_dotdot || by left). split; [done|]. split; [done|].
      rewrite Hent, !decide_False; [done|..].
      * intros [_ [= _ ->]]. by apply plain_dotdot.
      * intros [= -> ->]. congruence.
      * intros [= -> ->]. congruence.
  - apply Hstay, root_exists.
  - rewrite Hdots; [by apply to_root|apply plain_dotdot|]. left. intros <-. exact (root_no_name _ _ Hpo Hold).
  - intros n y' (y & Hy & _ & -> & _)%Hn.
    set (e1 := fun d nm => if decide ((d, nm) = (old_dir, old_name)) then None else ent T d nm).
    assert (H1 : named e1 n (name_count n y - if decide (n = m) then 1 else 0)).
    { eapply (named_removed (ent T) _ old_dir old_name); [done..|by apply to_names]. }
    eapply (named_added e1 (ent T') new_dir new_name m) in H1; [|done|..].
    + by replace (name_count n y) with
        (name_count n y - (if decide (n = m) then 1 else 0) + (if decide (n = m) then 1 else 0)) by lia.
    + unfold e1. rewrite decide_False; [done|]. intros [= -> ->]. congruence.
    + intros d nm Hp. rewrite Hent. clear Hent Hdots. unfold e1. destruct (decide ((d, nm) = (new_dir, new_name))); [done|].
      destruct (decide ((d, nm) = (old_dir, old_name))); [done|].
      rewrite decide_False; [done|]. intros [_ [= _ ->]]. by apply plain_dotdot.
Qed.

(** The node that is moved keeps its kind, its names and its size. *)
Lemma moved_node m z dir t :
  T !! m = Some z -> m <> root_ino ->
  nd_kind (move_node dir t z) = nd_kind z /\ name_count m (move_node dir t z) = name_count m z /\
  (nd_kind z = Some Directory -> st_size (nd_stat (move_node dir t z)) - st_size (nd_stat z) =
     Z.of_nat (size (nd_entries (move_node dir t z))) - Z.of_nat (size (nd_entries z))).
Proof.
  intros Hz Hr. split; [done|]. split; [done|]. intros Hk. unfold move_node. rewrite decide_True by done.
  cbn [nd_stat nd_entries set_ctime st_size].
  destruct (to_dotdot _ Hok m) as (d & _ & Hd & _); [by rewrite (kind_of_node _ _ _ Hz)|done|].
  rewrite (ent_at _ _ _ _ Hz) in Hd. rewrite map_size_insert_Some by (by rewrite Hd). lia.
Qed.

Lemma ent_move_node m z dir t nm :
  T !! m = Some z ->
  nd_entries (move_node dir t z) !! nm =
  if decide (kind_at T m = Some Directory /\ nm = dotdot) then Some dir else ent T m nm.
Proof.
  intros Hz. rewrite (kind_of_node _ _ _ Hz), (ent_at _ _ _ _ Hz). unfold move_node. cbn [nd_entries].
  destruct (decide (nd_kind z = Some Directory)) as [Hk|Hk].
  - rewrite lookup_insert. destruct (decide (dotdot = nm)) as [<-|Hn].
    + by rewrite decide_True.
    + rewrite decide_False; [done|]. by intros [_ ->].
  - rewrite decide_False; [done|]. by intros [? _].
Qed.

(** [step_rename_across] *)
Lemma ok_rename_across old_dir old_name new_dir new_name x y z m t :
  T !! old_dir = Some x -> T !! new_dir = Some y -> nd_kind y = Some Directory ->
  T !! m = Some z -> old_dir <> new_dir -> m <> old_dir -> m <> new_dir ->
  nd_entries x !! old_name = Some m -> plain old_name ->
  nd_entries y !! new_name = None -> plain new_name ->
  tree_ok (mkFs (<[m := move_node new_dir t z]>
    (<[new_dir := dir_update 1 t (<[new_name := m]> (nd_entries y)) y]>
      (<[old_dir := dir_update (-1) t (delete old_name (nd_entries x)) x]> T))) c f).
Proof.
  intros Hx Hy Hky Hz Hne Hm1 Hm2 Hold Hpo Hnew Hpn.
  assert (He : ent T old_dir old_name = Some m) by (by rewrite (ent_at _ _ _ _ Hx)).
  assert (Hr : m <> root_ino) by (intros ->; exact (root_no_name _ _ Hpo He)).
  apply (ok_move _ old_dir old_name new_dir new_name m); try done.
  - by rewrite (ent_at _ _ _ _ Hy).
  - by rewrite (kind_of_node _ _ _ Hy).
  - intros n y' Hn. destruct (decide (n = m)) as [->|Hnm].
    { rewrite lookup_insert_eq in Hn. injection Hn as <-. exists z. split; [done|]. by apply moved_node. }
    rewrite lookup_insert_ne in Hn by done. destruct (decide (n = new_dir)) as [->|Hnd].
    + rewrite lookup_insert_eq in Hn. injection Hn as <-. exists y. split; [done|]. split; [done|].
      split; [done|]. intros _. cbn [dir_update nd_stat nd_entries set_mtime set_ctime set_size st_size].
      rewrite size_insert_new by done. lia.
    + rewrite lookup_insert_ne in Hn by done. exact (removed_nodes _ _ _ _ _ _ _ Hx Hold Hn).
  - intros n Hn. rewrite !lookup_insert. repeat case_decide; eauto.
  - intros d nm. rewrite ent_insert. destruct (decide (d = m)) as [->|Hd].
    { rewrite (ent_move_node _ _ _ _ _ Hz).
      rewrite (decide_False (P := (m, nm) = (new_dir, _))), (decide_False (P := (m, nm) = (old_dir, _))) by congruence.
      apply decide_ext. split; [by intros [? ->]|by intros [? [= ->]]]. }
    rewrite (decide_False (P := _ /\ (d, nm) = (m, _))) by (intros [_ [= ? _]]; done).
    rewrite ent_insert. destruct (decide (d = new_dir)) as [->|Hdn].
    + rewrite (decide_False (P := (new_dir, nm) = (old_dir, _))) by congruence.
      cbn [dir_update nd_entries]. rewrite lookup_insert, (ent_at _ _ _ _ Hy).
      destruct (decide (new_name = nm)) as [<-|]; [by rewrite decide_True|by rewrite decide_False by congruence].
    + rewrite (decide_False (P := (d, nm) = (new_dir, _))) by congruence. by rewrite (removed_ent _ _ _ m).
Qed.

(** [step_rename_within] *)
Lemma ok_rename_within dir old_name new_name x z m t :
  T !! dir = Some x -> nd_kind x = Some Directory -> T !! m = Some z -> m <> dir ->
  nd_entries x !! old_name = Some m -> plain old_name ->
  nd_entries x !! new_name = None -> plain new_name ->
  tree_ok (mkFs (<[m := move_node dir t z]>
    (<[dir := dir_update 0 t (<[new_name := m]> (delete old_name (nd_entries x))) x]> T)) c f).
Proof.
  intros Hx Hkx Hz Hm Hold Hpo Hnew Hpn.
  assert (He : ent T dir old_name = Some m) by (by rewrite (ent_at _ _ _ _ Hx)).
  assert (Hr : m <> root_ino) by (intros ->; exact (root_no_name _ _ Hpo He)).
  apply (ok_move _ dir old_name dir new_name m); try done.
  - by rewrite (ent_at _ _ _ _ Hx).
  - by rewrite (kind_of_node _ _ _ Hx).
  - intros n y' Hn. destruct (decide (n = m)) as [->|Hnm].
    { rewrite lookup_insert_eq in Hn. injection Hn as <-. exists z. split; [done|]. by apply moved_node. }
    rewrite lookup_insert_ne, lookup_insert in Hn by done. destruct (decide (dir = n)) as [<-|Hd].
    + injection Hn as <-. exists x. split; [done|]. split; [done|]. split; [done|]. intros _.
      cbn [dir_update nd_stat nd_entries set_mtime set_ctime set_size st_size].
      rewrite size_insert_new, (size_delete_old _ _ m) by (done || by rewrite lookup_delete_ne by congruence).
      lia.
    + exists y'. split; [done|]. split; [done|]. split; [done|]. lia.
  - intros n Hn. rewrite !lookup_insert. repeat case_decide; eauto.
  - intros d nm. rewrite ent_insert. destruct (decide (d = m)) as [->|Hd].
    { rewrite (ent_move_node _ _ _ _ _ Hz).
      rewrite !(decide_False (P := (m, nm) = (dir, _))) by congruence.
      apply decide_ext. split; [by intros [? ->]|by intros [? [= ->]]]. }
    rewrite (decide_False (P := _ /\ (d, nm) = (m, _))) by (intros [_ [= ? _]]; done).
    rewrite ent_insert. destruct (decide (d = dir)) as [->|Hdn].
    + cbn [dir_update nd_entries]. rewrite lookup_insert, lookup_delete, (ent_at _ _ _ _ Hx).
      destruct (decide (new_name = nm)) as [<-|]; [by rewrite decide_True|].
      rewrite (decide_False (P := (dir, nm) = (dir, new_name))) by congruence.
      destruct (decide (old_name = nm)) as [<-|]; [by rewrite decide_True|by rewrite decide_False by congruence].
    + by rewrite !decide_False by congruence.
Qed.
End Keep.

(** ** Every step keeps the invariant *)

Lemma tree_step_ok `{Config} F call r F' : tree_ok F -> tree_step F call r F' -> tree_ok F'.
Proof.
  intros Hok Hs. destruct Hs; try done.
  - eapply (ok_create (mkFs T c f) Hok); try done.
    + unfold a, new_stat. cbn [st_mode]. rewrite file_type_new_inode_mode. by apply file_type_bits.
    + edestruct new_params_bits as [_ Hk]; [eassumption..|].
      unfold a, new_stat. cbn [st_size st_nlink]. by destruct kind; destruct Hk.
  - by apply (ok_next (mkFs T c f)).
  - match goal with H : stat_ok (nd_stat x) kx, H' : stat_ok (nd_stat y) ky |- _ =>
      destruct H as [Hkx _]; destruct H' as [Hky _] end.
    eapply (ok_link (mkFs T c f) Hok); try done; unfold nd_kind; rewrite ?Hkx, ?Hky; congruence.
  - eapply (ok_unlink (mkFs T c f) Hok); eauto.
  - eapply (ok_rmdir (mkFs T c f) Hok); eauto.
  - eapply (ok_rename_across (mkFs T c f) Hok); eauto.
  - eapply (ok_rename_within (mkFs T c f) Hok); eauto.
  - eapply (ok_attrs (mkFs T c f) Hok); try done. congruence.
  - match goal with H : stat_ok (nd_stat x) k |- _ => pose proof (proj1 H) as Hk end.
    eapply (ok_attrs (mkFs T c f) Hok); try done; unfold a, with_stat, nd_kind; cbn [nd_stat].
    + by rewrite chmod_kind, Hk.
    + intros _. unfold chmod_stat. by case_match.
    + unfold chmod_stat. by case_match.
  - eapply (ok_attrs (mkFs T c f) Hok); try done. apply chown_kind.
  - by eapply (ok_attrs (mkFs T c f) Hok).
  - match goal with H : stat_ok (nd_stat x) _ |- _ => pose proof (proj1 H) as Hk end.
    eapply (ok_attrs (mkFs T c f) Hok); try done; [apply trunc_kind|unfold nd_kind; congruence].
  - match goal with H : stat_ok (nd_stat x) _ |- _ => pose proof (proj1 H) as Hk end.
    eapply (ok_attrs (mkFs T c f) Hok); try done; [apply trunc_kind|unfold nd_kind; congruence].
  - eapply (ok_attrs (mkFs T c f) Hok); try done.
    + by unfold nd_kind, with_stat, falloc_stat; cbn [nd_stat]; case_match.
    + congruence.
    + by unfold with_stat, falloc_stat; cbn [nd_stat]; case_match.
  - by eapply (ok_attrs (mkFs T c f) Hok).
Qed.
