(* ===== verification/TreeRefine.v ===== *)
(** * DBFS implements the tree

    The relation between a database and a tree, and the refinement: a call that
    the specification of [Tree] defines returns what the specification says
    and leads to a database that represents the next tree. *)

From S2P Require Import Prelude Jammdb Effects Run RustStd Common Buckets Slices Access Inode Create.
From S2P Require Import FsType Link Truncate File Rename Attr Safe Typed Samples Namespace Moves Data.
From S2P Require Import Metadata Refusals Xattrs System Tree TreeInv.

(** ** The calls *)

Section Calls.
Context `{Config}.

Definition tree_exec (call : TCall) : Prog DbfsError TResult :=
  match call with
  | TGetattr n => a ← dbfs_common_attr n; ret (RAttr a)
  | TLookup dir name => a ← dbfs_common_lookup dir name; ret (RAttr a)
  | TCreate dir name uid gid t permission target =>
      a ← dbfs_common_create dir name uid gid t permission target None; ret (RAttr a)
  | TLink uid gid m dir name t => a ← dbfs_common_link uid gid m dir name t; ret (RAttr a)
  | TUnlink uid gid dir name t => dbfs_common_unlink uid gid dir name None t;; ret RUnit
  | TRmdir uid gid dir name t => dbfs_common_rmdir uid gid dir name t;; ret RUnit
  | TRename uid gid old_dir old_name new_dir new_name t =>
      dbfs_common_rename uid gid old_dir old_name new_dir new_name 0 t;; ret RUnit
  | TWrite n buf offset => k ← dbfs_common_write n buf offset; ret (RCount k)
  | TRead n buf offset => r ← dbfs_common_read n buf offset; ret (RData r.1 r.2)
  | TChmod uid gid n mode t => a ← dbfs_common_chmod uid gid n mode t; ret (RAttr a)
  | TChown uid gid n owner group t =>
      a ← dbfs_common_chown uid gid n owner group t; ret (RAttr a)
  | TUtimens uid gid n atime mtime t =>
      a ← dbfs_common_utimens uid gid n atime mtime t; ret (RAttr a)
  | TOpen n uid gid mask => dbfs_common_open n uid gid mask;; ret RUnit
  | TReadlink n buf => r ← dbfs_common_readlink n buf; ret (RData r.1 r.2)
  | TTruncate uid gid n t size => a ← dbfs_common_truncate uid gid n t size; ret (RAttr a)
  | TFallocate uid gid n offset size mode t =>
      dbfs_common_fallocate uid gid n offset size mode t;; ret RUnit
  | TSetxattr uid gid n key value t => dbfs_common_setxattr uid gid n key value t;; ret RUnit
  | TGetxattr uid gid n key buf =>
      r ← dbfs_common_getxattr uid gid n key buf; ret (RData r.1 r.2)
  end.

(** A sequence of calls; an error is a result like any other. *)
Fixpoint tree_exec_all (calls : list TCall) : Prog DbfsError (list TResult) :=
  match calls with
  | [] => ret []
  | call :: calls =>
      r ← attempt (tree_exec call);
      rs ← tree_exec_all calls;
      ret (match r with inl e => RErr e | inr r => r end :: rs)
  end.

(** ** Representation *)

(** The bucket [b] holds the node [x]. *)
Record node_rep (b : bucket) (x : Node) : Prop := {
  nr_stat : stat_of b = Some (nd_stat x);
  nr_entries : forall name, entry b name = nd_entries x !! name;
  nr_bytes : nd_kind x <> Some Directory ->
    forall p, 0 <= p < 2 ^ 32 * SLICE_SIZE -> byte_at b p = nd_bytes x p;
  nr_target : nd_kind x = Some Symlink -> fkv b k_data = nd_target x;
  nr_xattrs : forall key, xattr_key key -> fkv b key = nd_xattrs x !! key
}.

(** The view [V] holds the nodes of [T], and a super block with [f] bytes. *)
Record repr (V : view) (T : Tree) (f : Z) : Prop := {
  rp_node : forall n x, T !! n = Some x -> u64 n /\ exists b, V !! ipath n = Some b /\ node_rep b x;
  rp_none : forall n, u64 n -> T !! n = None -> V !! ipath n = None;
  rp_free : exists sb, sb_at V sb f
}.

(** The state [s] of DBFS represents [F]. *)
Record sim (s : AState) (F : FsState) : Prop := {
  sm_txs : a_txs s = [];
  sm_next : a_ino s = fs_next F;
  sm_u64 : u64 (a_ino s);
  sm_typed : typed_view (a_db s);
  sm_repr : repr (a_db s) (fs_tree F) (fs_free F);
  sm_ok : tree_ok F
}.

Lemma repr_ext V V' T f :
  (forall n, u64 n -> V' !! ipath n = V !! ipath n) -> V' !! sb_path = V !! sb_path ->
  repr V T f -> repr V' T f.
Proof.
  intros He Hsb [H1 H2 [sb H3]]. split; [..|exists sb; by eapply sb_at_ext].
  - intros n x Hx. destruct (H1 n x Hx) as (Hn & b & Hb & Hr). split; [done|]. exists b.
    by rewrite He.
  - intros n Hn Hx. rewrite He by done. auto.
Qed.

Lemma repr_insert V T f n b x :
  repr V T f -> u64 n -> node_rep b x -> repr (<[ipath n := b]> V) (<[n := x]> T) f.
Proof.
  intros [H1 H2 [sb H3]] Hn Hr.
  split; [..|exists sb; eapply sb_at_ext, H3; by rewrite lookup_insert_ne by apply ipath_sb].
  - intros m y. rewrite lookup_insert. case_decide as Hm.
    + intros [= <-]. subst m. split; [done|]. exists b. by rewrite lookup_insert_eq.
    + intros Hy. destruct (H1 m y Hy) as (Hm64 & b' & Hb' & Hr'). split; [done|]. exists b'.
      by rewrite lookup_insert_ne by (by apply ipath_ne).
  - intros m Hm. rewrite lookup_insert. case_decide as Hmn; [done|]. intros Hy.
    rewrite lookup_insert_ne by (by apply ipath_ne). auto.
Qed.

Lemma ino_key_sb n : ino_key n <> k_super_blk.
Proof. intros Hk. apply (ipath_sb n). by rewrite <- Hk. Qed.

Lemma repr_delete V T f n : repr V T f -> u64 n -> repr (drop_inode n V) (delete n T) f.
Proof.
  intros [H1 H2 [sb H3]] Hn.
  assert (Hne : forall m, u64 m -> m <> n -> drop_inode n V !! ipath m = V !! ipath m).
  { intros m Hm Hmn. apply lookup_drop_inode_ne. intros Hk. by apply Hmn, ino_key_inj. }
  split; [..|exists sb; eapply sb_at_ext, H3; by apply lookup_drop_inode_ne, not_eq_sym, ino_key_sb].
  - intros m y. rewrite lookup_delete. case_decide as Hm; [done|]. intros Hy.
    destruct (H1 m y Hy) as (Hm64 & b' & Hb' & Hr'). split; [done|]. exists b'. by rewrite Hne.
  - intros m Hm. rewrite lookup_delete. case_decide as Hmn.
    + intros _. subst m. apply lookup_drop_inode_eq.
    + intros Hy. rewrite Hne by done. auto.
Qed.

(** A view that a rule describes by its touched buckets. *)
Lemma frame_insert_view V V' n b l :
  frame (ino_key n :: l) V V' -> V' !! ipath n = Some b ->
  frame l (<[ipath n := b]> V) V'.
Proof.
  intros Hf Hb k Hk. destruct (decide (k = ino_key n)) as [->|Hn].
  - by rewrite Hb, lookup_insert_eq.
  - rewrite lookup_insert_ne by congruence. apply Hf. rewrite list.elem_of_cons. tauto.
Qed.
Lemma repr_frame V V' T f : frame [] V V' -> repr V T f -> repr V' T f.
Proof. intros Hf. apply repr_ext; [intros n _|]; apply Hf; by apply not_elem_of_nil. Qed.
(** The free space is in the super block only. *)
Lemma repr_sb V V' T f f' sb :
  frame [k_super_blk] V V' -> sb_at V' sb f' -> repr V T f -> repr V' T f'.
Proof.
  intros Hf Hsb [H1 H2 _].
  assert (He : forall n, V' !! ipath n = V !! ipath n).
  { intros n. apply Hf. rewrite list_elem_of_singleton. apply ino_key_sb. }
  split; [..|by exists sb].
  - intros n x Hx. rewrite He. auto.
  - intros n Hn Hx. rewrite He. auto.
Qed.

(** ** Typed buckets *)

Lemma typed_kvb b : typed_bucket b -> kvb b.
Proof. intros Hb k Hk. destruct (Hb _ _ Hk) as (v & ? & _). congruence. Qed.
Lemma typed_slices b : typed_bucket b -> slices_ok b.
Proof.
  intros Hb k d Hk Hz. destruct (Hb _ _ Hk) as (v & -> & Hv).
  destruct (tv_slice _ _ Hv Hz) as (i & Hi & -> & Hl). by exists i, v.
Qed.
Lemma typed_free b name : typed_bucket b -> entry b name = None -> fkv b (generate_data_key name) = None.
Proof.
  intros Hb He. unfold entry, fkv in *. destruct (b !! _) as [[v|]|] eqn:Ev; try done. simpl in He.
  destruct (Hb _ _ Ev) as (v' & [= <-] & Hv).
  destruct (tv_entry _ _ Hv ltac:(by eexists)) as [n Hn]. congruence.
Qed.

(** Typing is kept by every run. *)
Lemma wp_typed {E A} rel (p : Prog E A) Q D n tb :
  tsafe p Q -> typed_view D -> u64 n ->
  wp rel p (fun _ s' => typed_view (a_db s')) (mkS D [] n tb).
Proof.
  intros Hp HD Hn K w _ Hw. unfold st in Hw. injection Hw as Hdb Htx Hino Htb.
  assert (Hww : typed_world w).
  { split; [by rewrite Hdb| |by rewrite Hino]. by destruct (w_txs w). }
  pose proof (tsafe_run p Q w Hp Hww) as Hr. destruct (run p w) as [o w']. apply Hr.
Qed.

(** ** Nodes of a state *)

Section Sim.
Context (D : view) (c : Z) (tb : gmap Z ReadDirInfo) (F : FsState).
Hypothesis Hsim : sim (mkS D [] c tb) F.

Lemma sim_node n x :
  fs_tree F !! n = Some x ->
  u64 n /\ exists b, inode_at D n b (nd_stat x) /\ slices_ok b /\ node_rep b x /\ typed_bucket b.
Proof.
  intros Hx. destruct (rp_node _ _ _ (sm_repr _ _ Hsim) n x Hx) as (Hn & b & Hb & Hr). split; [done|].
  assert (Ht : typed_bucket b) by (by eapply (sm_typed _ _ Hsim)).
  exists b. split; [|auto using typed_slices]. split; [done|by apply typed_kvb|apply Hr].
Qed.
End Sim.

(** ** Updated buckets *)

(** Keys that are neither entries nor slices nor the target of a link nor
    extended attributes. *)
Definition attr_only (b b' : bucket) : Prop :=
  (forall k, bs "data:" `prefix_of` k \/ bs "zdata:" `prefix_of` k \/ k = k_data -> b' !! k = b !! k) /\
  same_xattrs b b'.

(** [attr_only] of a bucket whose other keys [Hother] keeps. *)
Ltac only_attrs Hother :=
  split; [intros k0 Hk0; apply Hother; intros ->; destruct Hk0 as [[? [=]]|[[? [=]]|[=]]]|];
  intros key Hkey; unfold fkv; rewrite Hother; [done|..];
  intros ->; revert Hkey; by apply (not_xattr _ NotSupported).

Lemma rep_attrs b b' x a :
  node_rep b x -> attr_only b b' -> stat_of b' = Some a -> file_type_of_perm (st_mode a) = nd_kind x ->
  node_rep b' (with_stat a x).
Proof.
  intros [H1 H2 H3 H4 H5] [Ha Hx] Hs Hm.
  split; [done|..|intros key Hkey; cbn [with_stat nd_xattrs]; rewrite Hx by done; auto].
  - intros name. cbn [with_stat nd_entries]. rewrite <- H2. unfold entry, fkv. rewrite Ha; [done|].
    left. by eexists.
  - unfold nd_kind in *. cbn [with_stat nd_stat nd_bytes]. rewrite Hm. intros Hk p Hp.
    rewrite <- H3 by done. apply other_byte_at. auto.
  - unfold nd_kind in *. cbn [with_stat nd_stat nd_target]. rewrite Hm. intros Hk. rewrite <- H4 by done.
    unfold fkv. by rewrite Ha by auto.
Qed.

(** A directory: its data is not looked at. *)
Lemma rep_dir b x : stat_of b = Some (nd_stat x) -> nd_kind x = Some Directory ->
  (forall name, entry b name = nd_entries x !! name) ->
  (forall key, xattr_key key -> fkv b key = nd_xattrs x !! key) -> node_rep b x.
Proof. intros Hs Hk He Hx. split; [done|done|done|congruence|done]. Qed.

Lemma rep_bytes b b' x a bytes' :
  node_rep b x -> (forall k, bs "data:" `prefix_of` k \/ k = k_data -> b' !! k = b !! k) ->
  same_xattrs b b' ->
  stat_of b' = Some a -> (forall p, 0 <= p < 2 ^ 32 * SLICE_SIZE -> byte_at b' p = bytes' p) ->
  file_type_of_perm (st_mode a) = nd_kind x ->
  node_rep b' (with_stat a (with_bytes bytes' x)).
Proof.
  intros [H1 H2 H3 H4 H5] Hk Hx Hs Hb Hm.
  split; [done| |auto| |intros key Hkey; cbn [with_stat with_bytes nd_xattrs]; rewrite Hx by done; auto].
  - intros name. cbn [with_stat with_bytes nd_entries]. rewrite <- H2.
    unfold entry, fkv. rewrite Hk; [done|left; by eexists].
  - unfold nd_kind in *. cbn [with_stat with_bytes nd_stat nd_target]. rewrite Hm. intros Hl.
    rewrite <- H4 by done. unfold fkv. by rewrite Hk by auto.
Qed.

(** A truncated file. *)
Lemma touch_file_other size t mode b k :
  k <> k_size -> k <> k_ctime -> k <> k_mtime -> k <> k_mode -> touch_file size t mode b !! k = b !! k.
Proof. intros. unfold touch_file. by rewrite !lookup_insert_ne. Qed.
Lemma touch_file_xattrs size t mode b : same_xattrs b (touch_file size t mode b).
Proof. unfold touch_file. xattrs. Qed.

Lemma trim_cut b old size p :
  slices_ok b -> 0 <= size -> size / SLICE_SIZE <= old / SLICE_SIZE < 2 ^ 32 ->
  0 <= p < 2 ^ 32 * SLICE_SIZE ->
  byte_at (trim (size / SLICE_SIZE) (size `mod` SLICE_SIZE) (old / SLICE_SIZE) b) p
  = cut old size (byte_at b) p.
Proof.
  intros Hok Hs Ho Hp. pose proof SLICE_SIZE_range. pose proof (pos_split size) as [Hp1 Hp2].
  assert (0 <= size / SLICE_SIZE) by (apply Z.div_pos; lia).
  assert (Hs32 : u32 (size / SLICE_SIZE)) by (unfold u32; lia). unfold cut.
  destruct (decide (p / SLICE_SIZE <= old / SLICE_SIZE)) as [Hin|Hout].
  - rewrite trim_byte by (done || lia). rewrite <- Hp1. repeat case_decide; done.
  - pose proof (pos_split p) as [Hq1 Hq2]. assert (Hi : u32 (p / SLICE_SIZE)).
    { unfold u32. split; [apply Z.div_pos; lia|apply Z.div_lt_upper_bound; lia]. }
    unfold byte_at. rewrite trim_slice by (done || lia). rewrite !(decide_False (P := _ < _ <= _)) by lia.
    rewrite (decide_False (P := _ = _)) by lia. rewrite decide_False by nia. by rewrite decide_False by nia.
Qed.

Lemma rep_truncated b x t size :
  node_rep b x -> slices_ok b -> nd_kind x = Some RegularFile -> u64 size -> time_ok t ->
  let old := st_size (nd_stat x) in
  size / SLICE_SIZE <= old / SLICE_SIZE < 2 ^ 32 ->
  node_rep (touch_file size t (trunc_mode (nd_stat x))
              (trim (size / SLICE_SIZE) (size `mod` SLICE_SIZE) (old / SLICE_SIZE) b))
           (with_stat (trunc_stat size t (nd_stat x)) (with_bytes (cut old size (nd_bytes x)) x)).
Proof.
  intros Hr Hok Hk Hsz Ht old Ho. set (b1 := trim _ _ _ b).
  assert (Hb1 : forall k, ~ bs "zdata:" `prefix_of` k -> b1 !! k = b !! k) by (intros; by apply trim_other).
  apply (rep_bytes b); [done|..].
  - intros k Hd. rewrite touch_file_other by (intros ->; destruct Hd as [[? [=]]|[=]]).
    apply Hb1. intros [? ->]. destruct Hd as [[? [=]]|[=]].
  - intros key Hkey. rewrite touch_file_xattrs by done. unfold fkv. rewrite Hb1; [done|].
    by intros ?%not_xattr_slice.
  - apply touch_file_stat; [|done|done|by eapply trunc_mode_u16, nr_stat].
    rewrite <- (nr_stat _ _ Hr). apply stat_of_lookup. intros k' Hk'%list_elem_of_In.
    by apply Hb1, attr_key_not_slice.
  - intros p Hp. rewrite (other_byte_at b1) by (intros; by apply touch_file_slices).
    unfold b1. rewrite trim_cut by (done || unfold u64 in *; lia). unfold cut.
    rewrite (nr_bytes _ _ Hr) by (done || congruence). done.
  - apply trunc_kind.
Qed.

Lemma rep_falloc b x size mode t :
  node_rep b x -> u64 size -> time_ok t ->
  node_rep (falloc_file size mode t (nd_stat x) b) (with_stat (falloc_stat size mode t (nd_stat x)) x).
Proof.
  intros Hr Hs Ht. pose proof (nr_stat _ _ Hr) as Hst. apply (rep_attrs b); [done|..].
  - unfold falloc_file. split.
    + intros k Hk. repeat case_match; rewrite ?lookup_insert_ne; try done;
        intros <-; destruct Hk as [[? [=]]|[[? [=]]|[=]]].
    + repeat case_match; try apply same_refl; xattrs.
  - unfold falloc_file, falloc_stat. case_match; [|done].
    assert (Hst' : stat_of (<[k_mtime := KeyValue (time_to_be_bytes t)]>
      (<[k_ctime := KeyValue (time_to_be_bytes t)]> b)) = Some (set_mtime t (set_ctime t (nd_stat x)))).
    { by apply stat_put_mtime, Ht; apply stat_put_ctime. }
    destruct (Z.ltb_spec (st_size (nd_stat x)) size).
    + rewrite Z.max_r by lia. by apply stat_put_size.
    + rewrite Z.max_l by lia. exact Hst'.
  - unfold falloc_stat. by case_match.
Qed.

Lemma rep_setxattr b x key value t :
  node_rep b x -> xattr_key key -> time_ok t ->
  node_rep (<[k_ctime := KeyValue (time_to_be_bytes t)]> (<[key := KeyValue value]> b))
    (with_stat (set_ctime t (nd_stat x)) (with_xattrs (<[key := value]> (nd_xattrs x)) x)).
Proof.
  intros Hr [ns Hns] Ht. destruct (xattr_key_other _ _ Hns) as [Hka Hkc].
  assert (Hx : xattr_key key) by (by exists ns).
  assert (Hput : forall k, ~ xattr_key k -> k <> k_ctime ->
    <[k_ctime := KeyValue (time_to_be_bytes t)]> (<[key := KeyValue value]> b) !! k = b !! k).
  { intros k Hk Hc. rewrite !lookup_insert_ne; [done|by intros <-|done]. }
  split; cbn [with_stat with_xattrs nd_stat nd_entries nd_bytes nd_target nd_xattrs].
  - apply stat_put_ctime; [|done]. rewrite stat_put_other by done. apply Hr.
  - intros name. rewrite <- (nr_entries _ _ Hr). unfold entry, fkv.
    by rewrite Hput by (done || apply not_xattr_name).
  - intros Hk p Hp. rewrite <- (nr_bytes _ _ Hr) by done. apply other_byte_at. intros k Hz.
    apply Hput; [by apply not_xattr_slice|]. intros ->. by destruct Hz as [? [=]].
  - intros Hk. rewrite <- (nr_target _ _ Hr) by done. unfold fkv.
    by rewrite Hput by (done || by apply (not_xattr _ NotSupported)).
  - intros k Hk. unfold fkv. assert (k_ctime <> k) by (intros <-; revert Hk; by apply (not_xattr _ NotSupported)).
    rewrite lookup_insert_ne by done. rewrite !lookup_insert. case_decide; [done|].
    by apply (nr_xattrs _ _ Hr).
Qed.

(** A directory with other entries. *)
Lemma rep_dir_update b b' x d t es :
  node_rep b x -> nd_kind x = Some Directory ->
  stat_of b' = Some (set_mtime t (set_ctime t (set_size (st_size (nd_stat x) + d) (nd_stat x)))) ->
  (forall name, entry b' name = es !! name) -> same_xattrs b b' ->
  node_rep b' (dir_update d t es x).
Proof.
  intros Hr Hk Hs He Hx. apply rep_dir; [done..|]. intros key Hkey. rewrite Hx by done.
  by apply (nr_xattrs _ _ Hr).
Qed.

(** The entries of a directory after an addition and after a removal. *)
Lemma entries_add (b : bucket) (es : gmap bytes Z) (m : Z) (name : bytes) name' :
  (forall nm, entry b nm = es !! nm) ->
  (if decide (name' = name) then Some m else entry b name') = <[name := m]> es !! name'.
Proof. intros He. rewrite lookup_insert, He. by apply decide_ext. Qed.
Lemma entries_remove (b : bucket) (es : gmap bytes Z) (name : bytes) name' :
  (forall nm, entry b nm = es !! nm) ->
  (if decide (name' = name) then None else entry b name') = delete name es !! name'.
Proof. intros He. rewrite lookup_delete, He. by apply decide_ext. Qed.

Lemma new_bucket_bytes a isdir n dir tg p : byte_at (new_bucket a isdir n dir tg) p = None.
Proof. unfold byte_at, slice_at. by fld_new. Qed.

Lemma new_bucket_xattrs a isdir n dir tg key :
  xattr_key key -> fkv (new_bucket a isdir n dir tg) key = None.
Proof.
  intros Hk. assert (Hs : same_xattrs ∅ (new_bucket a isdir n dir tg)).
  { unfold new_bucket, put_dots, opt_put. repeat (case_match; simpl); xattrs. }
  by rewrite Hs.
Qed.

Lemma tree_isdir permission kind :
  Z.land permission Perm.S_IFMT = mode_bits kind -> tree_kind kind = true ->
  Perm.contains permission Perm.S_IFDIR = bool_decide (kind = Directory).
Proof. intros Hp Hk. rewrite (contains_bits _ _ _ Hp) by done. by destruct kind. Qed.

Lemma tree_islink permission kind :
  Z.land permission Perm.S_IFMT = mode_bits kind -> tree_kind kind = true ->
  Perm.contains permission Perm.S_IFLNK = bool_decide (kind = Symlink).
Proof. intros Hp Hk. rewrite (contains_bits _ _ _ Hp) by done. by destruct kind. Qed.

Lemma contains_lor a x y :
  Perm.contains a (Z.lor x y) = true <-> Perm.contains a x = true /\ Perm.contains a y = true.
Proof.
  rewrite !contains_spec. setoid_rewrite Z.lor_spec. split.
  - intros Hi. split; intros i H0 Hb; apply Hi; try done; by rewrite Hb, ?orb_true_r.
  - intros [Hx Hy] i H0 [?|?]%orb_true_iff; auto.
Qed.

(** The mode of a node of the tree has the directory bit only if the node is
    a directory. *)
Lemma kind_is_dir x k b :
  node_rep b x -> nd_kind x = Some k -> tree_kind k = true -> is_dir (nd_stat x) = bool_decide (k = Directory).
Proof.
  intros Hr Hk Ht. pose proof (stat_of_range _ _ (nr_stat _ _ Hr)) as (Hm & _).
  unfold is_dir. rewrite from_bits_truncate_id by done. revert Hk. unfold nd_kind, file_type_of_perm.
  set (m := st_mode (nd_stat x)).
  assert (Hs : Perm.contains m Perm.S_IFSOCK = false -> Perm.contains m Perm.S_IFREG = true ->
               Perm.contains m Perm.S_IFDIR = false).
  { intros H1 H2. apply not_true_iff_false. intros H3. apply not_true_iff_false in H1. apply H1.
    change Perm.S_IFSOCK with (Z.lor Perm.S_IFREG Perm.S_IFDIR). by apply contains_lor. }
  assert (Hl : Perm.contains m Perm.S_IFLNK = true -> Perm.contains m Perm.S_IFREG = true).
  { change Perm.S_IFLNK with (Z.lor Perm.S_IFREG Perm.S_IFCHR). by intros [? _]%contains_lor. }
  repeat case_match; intros [= <-]; try done; simpl; auto.
Qed.

(** ** Simulation of the calls *)

Definition result_of (o : outcome DbfsError TResult) : option TResult :=
  match o with Ok r => Some r | Err e => Some (RErr e) | Panic => None end.

(** The call returned what a step of the specification allows and led to a
    database that represents the state after that step. *)
Definition sim_post (F : FsState) (call : TCall) (o : outcome DbfsError TResult) (s' : AState) : Prop :=
  exists r F', result_of o = Some r /\ tree_step F call r F' /\
    a_txs s' = [] /\ a_ino s' = fs_next F' /\ repr (a_db s') (fs_tree F') (fs_free F').

(** The refusal of the specification, as the rules state it. *)
Lemma refuses_spec pa a uid gid : refuses pa a uid gid = true -> removal_refused pa a uid gid.
Proof. unfold refuses, removal_refused. intros [?%negb_true_iff|?]%orb_true_iff; auto. Qed.

Section Sims.
Context (D : view) (tb : gmap Z ReadDirInfo) (T : Tree) (c f : Z).
Let F := mkFs T c f.
Let s := mkS D [] c tb.
Hypothesis Hsim : sim s F.

Lemma sim_same call r o : result_of o = Some r -> tree_step F call r F -> sim_post F call o s.
Proof. intros Ho Hs. exists r, F. split_and!; try done. apply Hsim. Qed.

Lemma node_entry_free b x name :
  node_rep b x -> typed_bucket b -> nd_entries x !! name = None -> fkv b (generate_data_key name) = None.
Proof. intros Hr Ht He. apply typed_free; [done|]. by rewrite (nr_entries _ _ Hr). Qed.

(** The bucket of every node that is mentioned. *)
Ltac nodes :=
  repeat match goal with
  | H : T !! ?n = Some ?x |- _ =>
      lazymatch goal with
      | _ : node_rep _ x |- _ => fail
      | _ => let b := fresh "b" in
             destruct (sim_node _ _ _ _ Hsim n x H) as (? & b & ? & ? & ? & ?)
      end
  end.

Lemma sim_getattr n r F' : tree_step F (TGetattr n) r F' -> wp true (tree_exec (TGetattr n)) (sim_post F (TGetattr n)) s.
Proof.
  intros Hs. inversion Hs; subst. nodes. apply wp_bind.
  eapply wp_dbfs_common_attr; [by eapply ia_bucket|by eapply ia_stat|done| |done].
  apply wp_ret. by eapply sim_same.
Qed.

Lemma sim_lookup dir name r F' :
  tree_step F (TLookup dir name) r F' ->
  wp true (tree_exec (TLookup dir name)) (sim_post F (TLookup dir name)) s.
Proof.
  intros Hs. inversion Hs; subst; nodes; apply wp_bind.
  - eapply wp_lookup_found; [by eapply ia_bucket|by erewrite nr_entries|by eapply ia_bucket
      |by eapply ia_stat|done| |done].
    apply wp_ret. by eapply sim_same.
  - eapply wp_lookup_missing; [by eapply ia_bucket|by eapply node_entry_free| |done].
    by eapply sim_same.
Qed.

Lemma sim_key_ne n m : u64 n -> u64 m -> n <> m -> ino_key n <> ino_key m.
Proof. intros Hn Hm Hne Hk. by apply Hne, ino_key_inj. Qed.

Lemma sim_size b x : node_rep b x -> u64 (st_size (nd_stat x)) /\ u32 (st_nlink (nd_stat x)).
Proof. intros Hr. pose proof (stat_of_range _ _ (nr_stat _ _ Hr)) as (_ & ? & ? & _). done. Qed.

Lemma sim_create dir name uid gid t permission target r F' :
  let call := TCreate dir name uid gid t permission target in
  tree_step F call r F' -> wp true (tree_exec call) (sim_post F call) s.
Proof.
  intros call Hs. inversion Hs; subst; nodes; assert (Hc : u64 c) by apply (sm_u64 _ _ Hsim).
  2:{ apply wp_bind. eapply wp_create_denied; [done..| |done]. eexists _, _. split; [reflexivity|].
      split; [exact Hs|]. split; [done|]. split; [|apply Hsim].
      cbn [a_ino fs_next]. apply Z.mod_small. unfold u64 in *. lia. }
  assert (Hfree : D !! ipath c = None) by (by apply (rp_none _ _ _ (sm_repr _ _ Hsim))).
  match goal with
  | H1 : Z.land permission _ = _, H2 : tree_kind kind = true, H3 : new_inode_params _ _ _ = _ |- _ =>
      pose proof (file_type_bits _ _ H1) as Hkind; pose proof (tree_isdir _ _ H1 H2) as Hisd;
      pose proof (tree_islink _ _ H1 H2) as Hisl;
      pose proof (new_params_bits _ _ _ _ _ _ H1 H2 H3) as [_ Hpar]
  end.
  assert (Hfs : u64 fs) by (unfold u64; destruct kind; lia).
  assert (Hr : stat_range a) by (eapply new_stat_range; eauto using nr_stat).
  apply wp_bind. eapply wp_dbfs_common_create; eauto using ia_bucket, ia_stat, ia_kvb; [|done].
  apply wp_ret. eexists _, _. split; [reflexivity|]. split; [exact Hs|]. split; [done|].
  split; [cbn [a_ino fs_next]; apply Z.mod_small; unfold u64 in *; lia|].
  cbn [a_db fs_tree]. apply repr_insert; [apply repr_insert; [apply Hsim|done|]|done|].
  - eapply rep_dir_update; [done..| | |].
    + apply dir_add_stat; [by eapply nr_stat| |by eapply ca_time].
      edestruct sim_size as [Hz _]; [eassumption|]. unfold u64 in *. lia.
    + intros nm. rewrite entry_dir_add by done. by apply entries_add, nr_entries.
    + unfold dir_add. xattrs.
  - split.
    + by apply new_bucket_stat.
    + clear Hisl. intros nm. rewrite new_bucket_entry, Hisd by done. unfold new_node. cbn [nd_entries].
      case_bool_decide as Hk; [subst kind; by rewrite lookup_new_dir|].
      by destruct kind; rewrite ?lookup_empty.
    + intros _ p _. apply new_bucket_bytes.
    + intros Hl. rewrite new_bucket_target, Hisl. unfold new_node. cbn [nd_target].
      by destruct kind.
    + intros key Hkey. unfold new_node. cbn [nd_xattrs]. by rewrite new_bucket_xattrs, lookup_empty.
Qed.

(** Attributes of a node whose entries and slices are kept. *)
Lemma rep_touch_links b x nlink t :
  node_rep b x -> u32 nlink -> time_ok t ->
  node_rep (touch_links nlink t b) (with_stat (set_ctime t (set_nlink nlink (nd_stat x))) x).
Proof.
  intros Hr Hn Ht. apply (rep_attrs b); [done| |by apply touch_links_stat, Ht; [apply Hr|]|done].
  split; [|unfold touch_links; xattrs].
  intros k Hk. unfold touch_links. rewrite !lookup_insert_ne; [done|..];
    intros <-; destruct Hk as [[? [=]]|[[? [=]]|[=]]].
Qed.

Lemma sim_link uid gid m dir name t r F' :
  let call := TLink uid gid m dir name t in
  tree_step F call r F' -> wp true (tree_exec call) (sim_post F call) s.
Proof.
  intros call Hs. inversion Hs; subst; nodes.
  2:{ apply wp_bind. eapply wp_link_denied; [done..| |done]. by eapply sim_same. }
  assert (Hne : dir <> m).
  { intros <-. assert (x = y) as -> by congruence. 
    match goal with H : stat_ok _ ?k, H' : stat_ok _ Directory |- _ => destruct H, H' end. congruence. }
  pose proof (sim_size b y ltac:(done)) as [_ Hnl].
  pose proof (sim_size b0 x ltac:(done)) as [Hsz _].
  apply wp_bind. eapply wp_dbfs_common_link; eauto using sim_key_ne.
  apply wp_ret. eexists _, _. split; [reflexivity|]. split; [exact Hs|]. do 2 (split; [done|]).
  cbn [a_db fs_tree]. apply repr_insert; [apply repr_insert; [apply Hsim|done|]|done|].
  - eapply rep_dir_update; [done| |..].
    + by match goal with H : stat_ok (nd_stat x) _ |- _ => apply H end.
    + apply link_dir_stat; [by eapply nr_stat|unfold u64 in *; lia|done].
    + intros nm. rewrite entry_link_dir by done. by apply entries_add, nr_entries.
    + unfold link_dir. xattrs.
  - apply rep_touch_links; [done|unfold u32 in *; lia|done].
Qed.

Lemma sim_unlink uid gid dir name t r F' :
  let call := TUnlink uid gid dir name t in
  tree_step F call r F' -> wp true (tree_exec call) (sim_post F call) s.
Proof.
  intros call Hs. inversion Hs; subst; nodes.
  2:{ apply wp_bind. eapply wp_unlink_refused; [done|by erewrite nr_entries|done|by apply refuses_spec| |done].
      by eapply sim_same. }
  assert (Hne : dir <> m) by (intros <-; congruence).
  pose proof (sim_size b y ltac:(done)) as [_ Hnl].
  pose proof (sim_size b0 x ltac:(done)) as [Hsz _].
  assert (Hent : entry b0 name = Some m) by (by erewrite nr_entries).
  apply wp_bind. eapply wp_dbfs_common_unlink; eauto using sim_key_ne; [|done].
  apply wp_ret. eexists _, _. split; [reflexivity|]. split; [exact Hs|]. do 2 (split; [done|]).
  cbn [a_db fs_tree]. unfold unlink_view.
  assert (Hd : repr (<[ipath dir := touch_dir (st_size (nd_stat x) - 1) t
                (delete (generate_data_key name) b0)]> D) T' f).
  { apply repr_insert; [apply Hsim|done|]. eapply rep_dir_update; [done..| | |].
    + apply touch_dir_stat; [eauto using nr_stat with stat word|unfold u64 in *; lia|done].
    + intros nm. rewrite entry_touch_dir, entry_remove. by apply entries_remove, nr_entries.
    + unfold touch_dir. xattrs. }
  destruct (st_nlink (nd_stat y) =? 1).
  - by apply repr_delete.
  - apply repr_insert; [done..|]. apply rep_touch_links; [done|unfold u32 in *; lia|done].
Qed.

Lemma sim_rmdir uid gid dir name t r F' :
  let call := TRmdir uid gid dir name t in
  tree_step F call r F' -> wp true (tree_exec call) (sim_post F call) s.
Proof.
  intros call Hs. inversion Hs; subst; nodes; apply wp_bind.
  - pose proof (sim_size b0 x ltac:(done)) as [Hsz _].
    assert (Hent : entry b0 name = Some m) by (by erewrite nr_entries).
    eapply wp_dbfs_common_rmdir; eauto using sim_key_ne; [|done].
    apply wp_ret. eexists _, _. split; [reflexivity|]. split; [exact Hs|]. do 2 (split; [done|]).
    cbn [a_db fs_tree]. apply repr_delete; [|done]. apply repr_insert; [apply Hsim|done|].
    eapply rep_dir_update; [done..| | |].
    + apply (stat_put_size _ (set_ctime t (set_mtime t (nd_stat x)))); [|unfold u64 in *; lia].
      eauto 6 using nr_stat with stat word.
    + intros nm. fld. rewrite entry_remove. fld. by apply entries_remove, nr_entries.
    + xattrs.
  - assert (Hent : entry b0 name = Some m) by (by erewrite nr_entries).
    eapply wp_rmdir_not_empty; eauto using ia_bucket, ia_stat; [|done].
    by eapply sim_same.
  - eapply wp_rmdir_refused; [done|by erewrite nr_entries|done|done|by apply refuses_spec| |done].
    by eapply sim_same.
Qed.

Lemma sim_kind n x : T !! n = Some x -> exists k, nd_kind x = Some k /\ tree_kind k = true.
Proof. intros Hx. exact (to_kind _ (sm_ok _ _ Hsim) n x Hx). Qed.

(** The node that a rename moves. *)
Lemma rep_moved m z b dir t :
  T !! m = Some z -> node_rep b z -> u64 dir -> time_ok t ->
  node_rep (rename_moved (is_dir (nd_stat z)) dir t b) (move_node dir t z).
Proof.
  intros Hz Hr Hd Ht. destruct (sim_kind _ _ Hz) as (k & Hk & Htk).
  rewrite (kind_is_dir _ _ _ Hr Hk Htk). unfold move_node. rewrite Hk. split.
  - by apply rename_moved_stat; [apply Hr|].
  - intros nm. rewrite rename_moved_entry by done. cbn [nd_entries]. rewrite (nr_entries _ _ Hr).
    case_bool_decide as Hb; [subst k; rewrite decide_True by done|by rewrite decide_False by congruence].
    rewrite lookup_insert. simpl. case_bool_decide as Hn.
    + subst nm. by rewrite decide_True.
    + by rewrite decide_False by (by intros <-).
  - unfold nd_kind. cbn [nd_stat nd_bytes]. unfold nd_kind in Hk. cbn [set_ctime st_mode]. rewrite Hk.
    intros Hkd p Hp. rewrite <- (nr_bytes _ _ Hr); [|unfold nd_kind; congruence|done].
    unfold rename_moved. rewrite bool_decide_eq_false_2 by congruence.
    apply byte_at_other, attr_key_not_slice. by apply (bool_decide_unpack _).
  - unfold nd_kind in *. cbn [nd_stat nd_target set_ctime st_mode]. rewrite Hk. intros [= ->].
    rewrite <- (nr_target _ _ Hr) by done. unfold rename_moved. cbv zeta.
    rewrite bool_decide_eq_false_2 by done. by fld.
  - intros key Hkey. cbn [nd_xattrs]. rewrite <- (nr_xattrs _ _ Hr) by done. revert key Hkey.
    unfold rename_moved. fold (same_xattrs b (rename_moved (bool_decide (k = Directory)) dir t b)).
    unfold rename_moved. case_match; xattrs.
Qed.

Lemma sim_rename uid gid old_dir old_name new_dir new_name t r F' :
  let call := TRename uid gid old_dir old_name new_dir new_name t in
  tree_step F call r F' -> wp true (tree_exec call) (sim_post F call) s.
Proof.
  intros call Hs. inversion Hs; subst; nodes; apply wp_bind.
  4:{ eapply wp_rename_refused; [done|by erewrite nr_entries|done|by apply refuses_spec| |done..].
      by eapply sim_same. }
  all: unfold dbfs_common_rename; apply wp_bind.
  - assert (Hent : entry b1 old_name = Some m) by (by erewrite nr_entries).
    eapply wp_rename_read_old; eauto. apply wp_bind. eapply wp_rename_read_new; eauto using node_entry_free.
    cbv beta iota. cbn [negb Z.land Z.eqb]. cbv iota.
    eapply wp_rename_move_across; eauto using sim_key_ne.
    { destruct (sim_kind m z ltac:(done)) as (k & Hk & Htk). erewrite kind_is_dir by done.
      intros ->%bool_decide_eq_true. auto. }
    intros D' HDp HDq HDm Hfr. apply wp_ret. eexists _, _. split; [reflexivity|]. split; [exact Hs|].
    do 2 (split; [done|]). cbn [a_db fs_tree]. do 3 eapply frame_insert_view in Hfr; [|eassumption..].
    apply (repr_frame _ _ _ _ Hfr). repeat apply repr_insert; try done; [apply Hsim|..].
    + eapply rep_dir_update; [done..| | |].
      * by apply rename_src_stat; [eapply nr_stat|..].
      * intros nm. unfold rename_src. rewrite entry_touch_dir, entry_remove. by apply entries_remove, nr_entries.
      * unfold rename_src, touch_dir. xattrs.
    + eapply rep_dir_update; [done..| | |].
      * by apply rename_dst_stat; [eapply nr_stat|..].
      * intros nm. unfold rename_dst. rewrite entry_touch_dir, entry_put by done. by apply entries_add, nr_entries.
      * unfold rename_dst, touch_dir. xattrs.
    + by eapply rep_moved.
  - assert (Hent : entry b0 old_name = Some m) by (by erewrite nr_entries).
    eapply wp_rename_read_old; eauto.
    { unfold sticky_denies. match goal with H : sticky _ = false |- _ => unfold sticky in H; by rewrite H end. }
    apply wp_bind. eapply wp_rename_read_new; eauto.
    cbv beta iota. cbn [negb Z.land Z.eqb]. cbv iota. eapply wp_rename_move_within; eauto using sim_key_ne.
    intros D' qb HDp _ Hst Hqe Hqx HDm Hfr. apply wp_ret. eexists _, _. split; [reflexivity|]. split; [exact Hs|].
    do 2 (split; [done|]). cbn [a_db fs_tree]. do 2 eapply frame_insert_view in Hfr; [|eassumption..].
    apply (repr_frame _ _ _ _ Hfr). repeat apply repr_insert; try done; [apply Hsim|..].
    + eapply rep_dir_update; [done..| | |].
      * rewrite Hst, Z.add_0_r. by destruct (nd_stat x).
      * intros nm. rewrite Hqe, lookup_insert, lookup_delete, (nr_entries b0 x) by done.
        repeat case_decide; congruence.
      * intros key Hkey. unfold fkv. rewrite Hqx; [done|by intros ?%not_xattr_entry|..];
          intros ->; revert Hkey; by apply (not_xattr _ NotSupported).
    + by eapply rep_moved.
  - eapply wp_rename_read_old_missing; [by eapply ia_bucket|by eapply node_entry_free| |done].
    by eapply sim_same.
Qed.

Lemma sim_write n buf offset r F' :
  let call := TWrite n buf offset in
  tree_step F call r F' -> wp true (tree_exec call) (sim_post F call) s.
Proof.
  intros call Hs. inversion Hs; subst. nodes. pose proof SLICE_SIZE_range.
  apply wp_bind. eapply wp_dbfs_common_write; eauto. intros b' Hw.
  apply wp_ret. exists (RCount (blen buf)).
  exists (mkFs (<[n := with_stat (set_size (Z.max (st_size (nd_stat x)) (offset + blen buf)) (nd_stat x))
                         (with_bytes (byte_at b') x)]> T) c f).
  split; [done|]. split; [|split; [done|split; [done|]]].
  2:{ cbn [a_db fs_tree]. apply (repr_insert _ _ _ n _ _ (sm_repr _ _ Hsim)); [done|].
    assert (Hg : forall k, ~ bs "zdata:" `prefix_of` k -> k <> k_size ->
      grow (st_size (nd_stat x)) (offset + blen buf) b' !! k = b !! k).
    { intros k Hz Hk. unfold grow. rewrite <- (wr_other _ _ _ _ Hw) by done.
      case_match; [by rewrite lookup_insert_ne|done]. }
    eapply (rep_bytes b); [done| | | | |].
    - intros k Hk. apply Hg; [intros [? ->]|intros ->]; destruct Hk as [[? [=]]|[=]].
    - apply (same_except _ _ (fun k => bs "zdata:" `prefix_of` k \/ k = k_size)).
      + intros k [?| ->]; [by apply not_xattr_slice|by apply (not_xattr _ NotSupported)].
      + intros k Hk. apply Hg; tauto.
    - apply grow_stat; [|done|unfold u64; lia]. rewrite (written_stat _ _ _ _ Hw). by eapply nr_stat.
    - intros p _. apply byte_at_grow.
    - done. }
  econstructor; try eassumption. split.
  - apply Hw.
  - intros p y Hp Hout Hy. apply (wr_old _ _ _ _ Hw); [done..|].
    rewrite (nr_bytes b x) by (done || congruence). done.
Qed.

Lemma sim_read n buf offset r F' :
  let call := TRead n buf offset in
  tree_step F call r F' -> wp true (tree_exec call) (sim_post F call) s.
Proof.
  intros call Hs. inversion Hs; subst; nodes; pose proof SLICE_SIZE_range.
  2:{ apply wp_bind. eapply wp_read_eof; eauto using ia_bucket, ia_stat; [|done].
      apply wp_ret. by eapply sim_same. }
  assert (Hbyte : forall p, 0 <= p < 2 ^ 32 * SLICE_SIZE -> byte_at b p = nd_bytes x p).
  { intros p Hp. eapply nr_bytes; [done|congruence|done]. }
  assert (Hbase : read_base offset = offset).
  { unfold read_base. destruct (Z.ltb_spec offset SLICE_SIZE); [done|].
    pose proof (pos_split offset). lia. }
  apply wp_bind. eapply wp_dbfs_common_read; eauto using ia_bucket, ia_stat; [| |done].
  - rewrite Hbase. intros j Hj1 Hj2. set (p := Z.max offset (j * SLICE_SIZE)).
    apply (byte_at_stored b j p).
    + pose proof (pos_split offset). unfold p. nia.
    + assert (Hp : offset <= p < offset + count) by lia. rewrite Hbyte by lia. auto.
  - rewrite Hbase. intros buf0 [Hl Hn Hold].
    replace (Z.min (offset + blen buf) (st_size (nd_stat x)) - offset) with count in * by lia.
    apply wp_ret. eapply sim_same; [reflexivity|]. econstructor; eauto. intros j.
    case_decide as Hj; [rewrite Hn by done; apply Hbyte; lia|apply Hold; lia].
Qed.

(** A call that changes attributes of one node. *)
Lemma sim_attrs call n x b k a D' b' :
  T !! n = Some x -> u64 n -> node_rep b x ->
  tree_step F call (RAttr (attr_of_stat n a k)) (mkFs (<[n := with_stat a x]> T) c f) ->
  file_type_of_perm (st_mode a) = nd_kind x ->
  D' !! ipath n = Some b' -> stat_of b' = Some a -> attr_only b b' -> frame [ino_key n] D D' ->
  sim_post F call (Ok (RAttr (attr_of_stat n a k))) (mkS D' [] c tb).
Proof.
  intros Hx Hn Hr Hs Hm HD' Hs' Hother Hfr. eexists _, _. split; [reflexivity|]. split; [exact Hs|].
  do 2 (split; [done|]).
  cbn [a_db fs_tree]. apply (repr_frame _ _ _ _ (frame_insert_view _ _ _ _ _ Hfr HD')).
  apply repr_insert; [apply Hsim|done|]. by apply (rep_attrs b).
Qed.

Lemma sim_chmod uid gid n mode t r F' :
  let call := TChmod uid gid n mode t in
  tree_step F call r F' -> wp true (tree_exec call) (sim_post F call) s.
Proof.
  intros call Hs. inversion Hs; subst; nodes; apply wp_bind.
  - eapply wp_chmod_ok; eauto using chmod_mode_u16; [|done]. intros D' b' HD' _ Hs' Hother Hfr.
    apply wp_ret. eapply sim_attrs; eauto using chmod_kind.
    only_attrs Hother.
  - eapply wp_chmod_denied; eauto using ia_bucket, ia_stat; [|done]. by eapply sim_same.
Qed.

Lemma sim_chown uid gid n owner group t r F' :
  let call := TChown uid gid n owner group t in
  tree_step F call r F' -> wp true (tree_exec call) (sim_post F call) s.
Proof.
  intros call Hs. inversion Hs; subst; nodes; apply wp_bind.
  - eapply wp_chown_ok; eauto; [|done]. intros D' b' HD' _ Hs' Hother Hfr.
    apply wp_ret. eapply sim_attrs; eauto using chown_kind.
    only_attrs Hother.
  - eapply wp_chown_denied; eauto using ia_bucket, ia_stat; [|done]. by eapply sim_same.
Qed.

Lemma sim_utimens uid gid n atime mtime t r F' :
  let call := TUtimens uid gid n atime mtime t in
  tree_step F call r F' -> wp true (tree_exec call) (sim_post F call) s.
Proof.
  intros call Hs. inversion Hs; subst; nodes; apply wp_bind.
  - eapply wp_utimens_ok; eauto; [|done]. intros D' b' HD' _ Hs' Hother Hfr.
    apply wp_ret. eapply sim_attrs; eauto.
    only_attrs Hother.
  - eapply wp_utimens_denied; eauto using ia_bucket, ia_stat; [|done]. by eapply sim_same.
Qed.

Lemma sim_open n uid gid mask r F' :
  let call := TOpen n uid gid mask in
  tree_step F call r F' -> wp true (tree_exec call) (sim_post F call) s.
Proof.
  intros call Hs. inversion Hs; subst; nodes; apply wp_bind.
  all: eapply wp_mono; [eapply open_spec; eauto using ia_bucket, ia_stat|].
  all: intros o s' [-> [[-> Hg]|[-> Hg]]]; [apply wp_ret|]; eapply sim_same; try reflexivity.
  all: done || (exfalso; auto).
Qed.

Lemma sim_readlink n buf r F' :
  let call := TReadlink n buf in
  tree_step F call r F' -> wp true (tree_exec call) (sim_post F call) s.
Proof.
  intros call Hs. inversion Hs; subst. nodes. apply wp_bind.
  eapply wp_dbfs_common_readlink; [by eapply ia_bucket|by erewrite nr_target| |done].
  apply wp_ret. eapply sim_same; [reflexivity|]. cbn [fst snd].
  replace (Z.min (blen target) (blen buf)) with (Z.of_nat len) by (unfold blen; lia).
  unfold splice, slice. rewrite Z.sub_0_r, Nat2Z.id. change (Z.to_nat 0) with 0%nat. rewrite drop_0, take_0. cbn [app Nat.add].
  rewrite length_take_le by lia. by econstructor.
Qed.

(** A call that changes one file and the free space. *)
Lemma sim_file call r n x D' b' f' sb :
  u64 n -> node_rep b' x ->
  tree_step F call r (mkFs (<[n := x]> T) c f') ->
  D' !! ipath n = Some b' -> sb_at D' sb f' -> frame [ino_key n; k_super_blk] D D' ->
  forall o, result_of o = Some r -> sim_post F call o (mkS D' [] c tb).
Proof.
  intros Hn Hr Hs HD' Hsb Hfr o Ho. eexists _, _. split; [exact Ho|]. split; [exact Hs|].
  do 2 (split; [done|]). cbn [a_db fs_tree fs_free].
  eapply repr_sb; [exact (frame_insert_view _ _ _ _ _ Hfr HD')|exact Hsb|].
  apply repr_insert; [apply Hsim|done..].
Qed.

(** The super block. *)
Lemma sim_sb : exists sb, sb_at D sb f /\ u64 f.
Proof.
  destruct (rp_free _ _ _ (sm_repr _ _ Hsim)) as [sb Hsb]. exists sb. split; [done|].
  exact (fbe_range _ _ _ _ (sb_disk _ _ _ Hsb)).
Qed.

Lemma sim_truncate uid gid n t size r F' :
  let call := TTruncate uid gid n t size in
  tree_step F call r F' -> wp true (tree_exec call) (sim_post F call) s.
Proof.
  intros call Hs. inversion Hs; subst; nodes; apply wp_bind; pose proof SLICE_SIZE_range;
    destruct sim_sb as (sb & Hsb & Hf).
  - eapply wp_truncate_shrink; eauto; [unfold u64 in *; lia|lia..|]. intros D' HD' Hsb' Hfr.
    apply wp_ret.
    eapply (sim_file _ _ n); [done| |exact Hs|exact HD'|eapply sb_put; [done| |exact Hsb']|exact Hfr|done].
    + apply rep_truncated; try done. by match goal with H : stat_ok _ _ |- _ => apply H end.
    + unfold u64 in *. nia.
  - eapply wp_truncate_extend; eauto. intros D' HD' Hsb' Hfr. apply wp_ret.
    eapply (sim_file _ _ n); [done| |exact Hs|exact HD'|eapply sb_put; [done| |exact Hsb']|exact Hfr|done].
    + apply (rep_attrs b); [done| |apply touch_file_stat; eauto using nr_stat, trunc_mode_u16|apply trunc_kind].
      split; [|apply touch_file_xattrs]. intros k Hk.
      apply touch_file_other; intros ->; destruct Hk as [[? [=]]|[[? [=]]|[=]]].
    + pose proof (pos_split size). pose proof (pos_split (st_size (nd_stat x))). unfold u64 in *. nia.
  - eapply wp_truncate_nospace; eauto. by eapply sim_same.
  - eapply wp_truncate_denied; eauto using ia_bucket, ia_stat; [|done]. by eapply sim_same.
Qed.

Lemma sim_fallocate uid gid n offset size mode t r F' :
  let call := TFallocate uid gid n offset size mode t in
  tree_step F call r F' -> wp true (tree_exec call) (sim_post F call) s.
Proof.
  intros call Hs. inversion Hs; subst; nodes; apply wp_bind; destruct sim_sb as (sb & Hsb & Hf).
  - eapply wp_dbfs_common_fallocate; eauto. intros D' HD' [sb' Hsb'] Hfr. apply wp_ret.
    eapply (sim_file _ _ n); [done| |exact Hs|exact HD'|exact Hsb'|exact Hfr|done].
    apply rep_falloc; [done|unfold u64; lia|done].
  - eapply wp_fallocate_nospace; eauto; [unfold u64 in *; lia|]. by eapply sim_same.
  - eapply wp_fallocate_denied; eauto; [|done..]. by eapply sim_same.
Qed.

Lemma sim_setxattr uid gid n key value t r F' :
  let call := TSetxattr uid gid n key value t in
  tree_step F call r F' -> wp true (tree_exec call) (sim_post F call) s.
Proof.
  intros call Hs. inversion Hs; subst; nodes; apply wp_bind.
  - eapply wp_dbfs_common_setxattr; eauto; [|done]. apply wp_ret.
    eexists _, _. split; [reflexivity|]. split; [exact Hs|]. do 2 (split; [done|]).
    cbn [a_db fs_tree fs_free]. apply repr_insert; [apply Hsim|done|].
    apply rep_setxattr; [done| |done]. by eapply xattr_check_namespace.
  - eapply wp_setxattr_denied; eauto; [|done]. by eapply sim_same.
Qed.

Lemma sim_getxattr uid gid n key buf r F' :
  let call := TGetxattr uid gid n key buf in
  tree_step F call r F' -> wp true (tree_exec call) (sim_post F call) s.
Proof.
  intros call Hs. inversion Hs; subst; nodes; apply wp_bind.
  4:{ eapply wp_getxattr_denied; eauto; [|done]. by eapply sim_same. }
  all: match goal with H : xattr_allowed ?k _ _ _ _ = None |- _ =>
    assert (Hkey : xattr_key k) by (by eapply xattr_check_namespace) end.
  all: eapply wp_getxattr_answer; [done..| |done];
    match goal with Hr : node_rep _ _, H : nd_xattrs _ !! _ = _ |- _ => rewrite (nr_xattrs _ _ Hr), H by done end;
    unfold getxattr_answer.
  - destruct (Z.eqb_spec (blen buf) 0) as [Hb|Hb].
    + apply wp_ret. by eapply sim_same.
    + rewrite (proj2 (Z.ltb_ge _ _)) by lia. apply wp_ret. eapply sim_same; [reflexivity|].
      unfold splice. by change (Z.to_nat 0) with 0%nat.
  - rewrite (proj2 (Z.eqb_neq _ _)), (proj2 (Z.ltb_lt _ _)) by lia. by eapply sim_same.
  - by eapply sim_same.
Qed.

Lemma sim_call call r F' : tree_step F call r F' -> wp true (tree_exec call) (sim_post F call) s.
Proof.
  destruct call; eauto using sim_getattr, sim_lookup, sim_create, sim_link, sim_unlink, sim_rmdir,
    sim_rename, sim_write, sim_read, sim_chmod, sim_chown, sim_utimens, sim_open, sim_readlink,
    sim_truncate, sim_fallocate, sim_setxattr, sim_getxattr.
Qed.
End Sims.
End Calls.
