(* ===== verification/TreeSystem.v ===== *)
(** * The file system refines the tree

    A new file system represents the tree that has only the root; every
    sequence of calls that the specification of [Tree] defines returns results
    that the specification allows and leads to a database that represents the
    tree after them.  The invariant of the tree then holds of the database. *)

From S2P Require Import Prelude Jammdb Effects Run RustStd Common Buckets Slices Access Inode Create.
From S2P Require Import FsType Link Truncate File Rename Attr Safe Typed Samples Namespace Moves Data.
From S2P Require Import Metadata Refusals Xattrs Mount System Tree TreeInv TreeRefine.

Section Refine.
Context `{Config}.

(** ** Steps are deterministic *)

(** A write may or may not make the bytes next to the range appear. *)
Definition is_write (call : TCall) : bool := match call with TWrite _ _ _ => true | _ => false end.

Lemma stat_ok_kind a k k' : stat_ok a k -> stat_ok a k' -> k = k'.
Proof. intros [H1 _] [H2 _]. congruence. Qed.
Lemma mode_bits_kind p k k' :
  Z.land p Perm.S_IFMT = mode_bits k -> Z.land p Perm.S_IFMT = mode_bits k' -> k = k'.
Proof. intros H1%file_type_bits H2%file_type_bits. congruence. Qed.

Lemma refuses_allowed pa a uid gid :
  refuses pa a uid gid = true -> may_write pa uid gid = true ->
  sticky_denies (st_mode pa) uid (st_uid pa) (st_uid a) = false -> False.
Proof. unfold refuses. intros Hr Hw Hs. by rewrite Hw, Hs in Hr. Qed.
Lemma not_sticky pa uid x : sticky pa = false -> sticky_denies (st_mode pa) uid (st_uid pa) x = false.
Proof. unfold sticky, sticky_denies. by intros ->. Qed.

Lemma tree_step_det F call r F' r' F'' :
  is_write call = false -> tree_step F call r F' -> tree_step F call r' F'' -> r = r' /\ F' = F''.
Proof.
  intros Hw H1 H2. destruct H1; inversion H2; clear H2; subst; simplify_eq; try (split; reflexivity);
    try congruence; try (exfalso; lia);
    try match goal with
    | Hr : refuses _ _ _ _ = true |- _ =>
        exfalso; eapply refuses_allowed; [exact Hr|eassumption|eassumption || by apply not_sticky]
    end;
    repeat match goal with
    | Hk : stat_ok ?a ?k, Hk' : stat_ok ?a ?k' |- _ =>
        assert (k = k') as <- by (by eapply stat_ok_kind); clear Hk'
    | Hk : Z.land _ _ = mode_bits ?k, Hk' : Z.land _ _ = mode_bits ?k' |- _ =>
        assert (k = k') as <- by (by eapply mode_bits_kind); clear Hk'
    end; try done.
  split; [|done]. f_equal. apply list_eq. intros j.
  by match goal with H1 : forall j : nat, buf' !! j = _, H2 : forall j : nat, _ !! j = _ |- _ =>
    rewrite H1, H2 end.
Qed.

Lemma defined_cons F call r F' calls :
  is_write call = false -> tree_step F call r F' -> defined F' calls -> defined F (call :: calls).
Proof.
  intros Hw Hs Hd. split; [eauto|]. intros r1 F1 Hs1.
  by destruct (tree_step_det _ _ _ _ _ _ Hw Hs Hs1) as [_ <-].
Qed.

(** Storing a buffer is always possible. *)
Lemma stored_exists bytes offset buf : exists bytes', stored bytes bytes' offset buf.
Proof.
  exists (fun p => if decide (offset <= p < offset + blen buf) then buf !! Z.to_nat (p - offset) else bytes p).
  split.
  - intros i x Hx. pose proof (lookup_lt_Some _ _ _ Hx). rewrite decide_True by (unfold blen; lia).
    by replace (Z.to_nat _) with i by lia.
  - intros p x _ Hp Hx. by rewrite decide_False.
Qed.

(** What is written can be read back. *)
Lemma defined_write_read T c f n buf buf0 offset x :
  T !! n = Some x -> nd_kind x = Some RegularFile -> 0 <= offset -> 0 < blen buf ->
  length buf0 = length buf -> st_size (nd_stat x) <= offset + blen buf < (2 ^ 32 - 1) * SLICE_SIZE ->
  offset < SLICE_SIZE \/ offset `mod` SLICE_SIZE = 0 ->
  defined (mkFs T c f) [TWrite n buf offset; TRead n buf0 offset].
Proof.
  intros Hx Hk Ho Hb Hl Hsz Hal. pose proof SLICE_SIZE_range.
  assert (Hbl : blen buf0 = blen buf) by (unfold blen; lia). split.
  - destruct (stored_exists (nd_bytes x) offset buf) as [bytes' Hst].
    eexists _, _. eapply step_write; eauto; lia.
  - intros r F' Hs. inversion Hs; subst. simplify_eq. split; [|done].
    exists (RData (blen buf) buf). eexists. cbn [fs_tree fs_next].
    match goal with |- tree_step (mkFs (<[n := ?x']> T) c f) _ _ _ => set (y := x') end.
    assert (Hy : st_size (nd_stat y) = offset + blen buf).
    { unfold y. cbn [with_stat nd_stat set_size st_size]. lia. }
    assert (Hcount : Z.min (blen buf0) (st_size (nd_stat y) - offset) = blen buf) by lia.
    rewrite <- Hcount at 1.
    match goal with H : stored _ _ _ _ |- _ => destruct H as [Hnew _] end.
    eapply (step_read _ _ _ n buf0 offset y buf); try done; try lia; rewrite ?Hcount.
    + apply lookup_insert_eq.
    + intros p Hp. destruct (lookup_lt_is_Some_2 buf (Z.to_nat (p - offset))) as [z Hz].
      { unfold blen in *. lia. }
      exists z. cbn [y with_stat with_bytes nd_bytes]. rewrite <- (Hnew _ _ Hz). f_equal. lia.
    + intros j. case_decide as Hj.
      * destruct (lookup_lt_is_Some_2 buf j) as [z Hz]; [unfold blen in *; lia|].
        rewrite Hz. symmetry. by apply Hnew.
      * transitivity (@None byte); [|symmetry]; apply lookup_ge_None; unfold blen in *; lia.
Qed.

(** ** One call *)

Lemma step_next F call r F' : tree_step F call r F' -> u64 (fs_next F) -> u64 (fs_next F').
Proof. intros Hs Hn. destruct Hs; try done; unfold u64; cbn [fs_next]; lia. Qed.

Lemma tsafe_then {E A B} (p : Prog E A) (f : A -> Prog E B) :
  tsafe p (fun _ => True) -> (forall a, tsafe (f a) (fun _ => True)) -> tsafe (bind p f) (fun _ => True).
Proof. intros Hp Hf. apply tsafe_bind. by eapply tsafe_mono; [exact Hp|]. Qed.

Lemma tree_tsafe s F call r F' : sim s F -> tree_step F call r F' -> tsafe (tree_exec call) (fun _ => True).
Proof.
  intros Hsim Hs.
  assert (Hu : forall n x, fs_tree F !! n = Some x -> u64 n).
  { intros n x Hx. apply (rp_node _ _ _ (sm_repr _ _ Hsim) n x Hx). }
  destruct Hs; (apply tsafe_then; [|by intros; tgo]); cbn [fs_tree] in Hu;
    eauto using tsafe_attr, tsafe_lookup, tsafe_create, tsafe_link, tsafe_unlink, tsafe_rmdir,
      tsafe_rename, tsafe_write, tsafe_read, tsafe_chmod, tsafe_chown, tsafe_utimens, tsafe_open,
      tsafe_readlink, tsafe_truncate, tsafe_fallocate, tsafe_setxattr, tsafe_getxattr.
Qed.

(** A call of the specification, from a state that represents [F]. *)
Lemma wp_tree_call s F call r F' :
  sim s F -> tree_step F call r F' ->
  wp true (tree_exec call)
    (fun o s' => exists r F', result_of o = Some r /\ tree_step F call r F' /\ sim s' F') s.
Proof.
  intros Hsim Hs. pose proof Hsim as [Htx Hn Hu Ht Hr Hok]. destruct s as [D txs n tb], F as [T c].
  cbn in Htx, Hn, Hu, Ht, Hr. subst txs n.
  eapply wp_mono; [eapply wp_conj; [by eapply sim_call|by eapply wp_typed; [by eapply tree_tsafe|..]]|].
  intros o s' [(r1 & F1 & Ho & Hs1 & Htx1 & Hn1 & Hr1) Ht1]. exists r1, F1. do 2 (split; [done|]).
  split; try done; [|by eapply tree_step_ok]. rewrite Hn1. by eapply step_next.
Qed.

(** ** Sequences of calls *)

Lemma wp_tree_calls calls s F :
  sim s F -> defined F calls ->
  wp true (tree_exec_all calls)
    (fun o s' => exists rs F', o = Ok rs /\ tree_steps F calls rs F' /\ sim s' F') s.
Proof.
  revert s F. induction calls as [|call calls IH]; intros s F Hsim; cbn [tree_exec_all defined].
  - intros _. apply wp_ret. exists [], F. split; [done|]. split; [constructor|done].
  - intros [(r0 & F0 & Hs0) Hdef]. apply wp_bind, wp_attempt.
    eapply wp_mono; [by eapply wp_tree_call|]. intros o s1 (r1 & F1 & Ho & Hs1 & Hsim1).
    assert (Hgo : forall r, r1 = match r with inl e => RErr e | inr r => r end ->
      wp true (rs ← tree_exec_all calls;
               ret (match r with inl e => RErr e | inr r => r end :: rs))
        (fun o s' => exists rs F', o = Ok rs /\ tree_steps F (call :: calls) rs F' /\ sim s' F') s1).
    { intros r Hr. apply wp_bind. eapply wp_mono; [by eapply IH; [|eapply Hdef]|].
      intros o2 s2 (rs & F2 & -> & Hs2 & Hsim2). apply wp_ret. rewrite <- Hr.
      eexists _, F2. split; [done|]. split; [by econstructor|done]. }
    destruct o as [r|e|]; [..|done]; injection Ho as <-; [by apply (Hgo (inr r))|by apply (Hgo (inl e))].
Qed.

(** ** A new file system *)

(** The tree that has only the root, in [size] bytes. *)
Definition root_tree (size uid gid : Z) (t : DbfsTimeSpec) : FsState :=
  mkFs {[root_ino := mkNode (root_stat uid gid t) {[dot := root_ino]} (fun _ => None) None ∅]} 2 size.

Lemma root_tree_ok size uid gid t : tree_ok (root_tree size uid gid t).
Proof.
  assert (Hent : forall d nm, ent (fs_tree (root_tree size uid gid t)) d nm =
    if decide (d = root_ino) then if decide (nm = dot) then Some root_ino else None else None).
  { intros d nm. unfold ent. cbn [root_tree fs_tree]. rewrite lookup_singleton.
    destruct (decide (d = root_ino)) as [->|]; [rewrite decide_True by done|by rewrite decide_False].
    simpl. rewrite lookup_singleton. by apply decide_ext. }
  assert (Hkind : forall d, kind_at (fs_tree (root_tree size uid gid t)) d = Some Directory -> d = root_ino).
  { intros d. unfold kind_at. cbn [root_tree fs_tree]. rewrite lookup_singleton. by case_decide. }
  split; cbn [root_tree fs_tree fs_next].
  - intros n x [<- _]%lookup_singleton_Some. done.
  - intros n x [_ <-]%lookup_singleton_Some. by exists Directory.
  - intros n x [_ <-]%lookup_singleton_Some. done.
  - intros n ->%Hkind. by rewrite Hent.
  - by intros n ->%Hkind.
  - split; [done|]. by rewrite Hent.
  - intros n x [_ <-]%lookup_singleton_Some _. cbn [nd_entries nd_stat]. by rewrite map_size_singleton.
  - intros d nm m. rewrite Hent. repeat case_decide; try done. intros [= <-].
    by rewrite lookup_singleton_eq.
  - intros n x [<- <-]%lookup_singleton_Some. exists ∅. split; [|done].
    intros d nm. rewrite Hent, elem_of_empty. split; [done|]. intros [[Hp _] He]. by repeat case_decide.
Qed.

Lemma root_bucket_bytes uid gid t p : byte_at (root_bucket uid gid t) p = None.
Proof. unfold byte_at, slice_at, root_bucket. by fld. Qed.

Lemma root_bucket_xattrs uid gid t key : xattr_key key -> fkv (root_bucket uid gid t) key = None.
Proof.
  intros Hk. assert (Hs : same_xattrs ∅ (root_bucket uid gid t)) by (unfold root_bucket; xattrs).
  by rewrite Hs.
Qed.

Lemma new_sb_at size V : u64 size -> V !! sb_path = Some (new_sb size) -> sb_at V (new_sb size) size.
Proof.
  intros Hs HV. split; [done|unfold new_sb; eauto 6 using kvb_empty with kvb|].
  unfold new_sb. by apply (fbe_insert_eq 8).
Qed.

Lemma root_repr size uid gid t :
  u64 size -> u32 uid -> u32 gid -> time_ok t ->
  repr (<[ipath 1 := root_bucket uid gid t]> (<[sb_path := new_sb size]> ∅))
    (fs_tree (root_tree size uid gid t)) size.
Proof.
  intros Hz Hu Hg Ht. cbn [root_tree fs_tree]. apply repr_insert; [|done|].
  - split; [done| |].
    + intros n Hn _. rewrite lookup_insert_ne by (apply not_eq_sym, ipath_sb). done.
    + eexists. apply new_sb_at; [done|apply lookup_insert_eq].
  - apply rep_dir; [by apply root_bucket_stat|done|..].
    + intros nm. rewrite root_bucket_entry. cbn [nd_entries]. rewrite lookup_singleton. by apply decide_ext.
    + intros key Hkey. cbn [nd_xattrs]. by rewrite root_bucket_xattrs, lookup_empty.
Qed.

(** [mkfs] and the creation of the root on an empty database. *)
Definition new_fs (size uid gid : Z) (t : DbfsTimeSpec) : Prog DbfsError unit :=
  init_db size;; dbfs_common_root_inode uid gid t;; ret tt.

Lemma wp_new_fs size uid gid t tb :
  u64 size -> u32 uid -> u32 gid -> time_ok t ->
  wp true (new_fs size uid gid t) (fun o s' => o = Ok tt /\ sim s' (root_tree size uid gid t)) (mkS ∅ [] 1 tb).
Proof.
  intros Hz Hu Hg Ht. eapply wp_mono; [eapply wp_conj; [|eapply wp_typed; [|done..]]|].
  - apply wp_bind, wp_init_db_new; [done|]. cbv beta iota. apply wp_bind.
    eapply wp_root_inode_new; [by rewrite lookup_insert_ne by (apply not_eq_sym, ipath_sb)|]. apply wp_ret.
    instantiate (1 := fun o s' => o = Ok tt /\ a_txs s' = [] /\ a_ino s' = 2 /\
                                  repr (a_db s') (fs_tree (root_tree size uid gid t)) size).
    split_and!; try done. by apply root_repr.
  - apply tsafe_then; [apply tsafe_init_db|intros _]. apply tsafe_then; [apply tsafe_root|by intros _; tgo].
  - intros o s' [(-> & Htx & Hn & Hr) Hty]. split; [done|].
    split; try done; [by rewrite Hn|apply root_tree_ok].
Qed.

(** ** The invariant of the database *)

(** Node [n] of [V] has exactly [k] names. *)
Definition db_names (V : view) (n k : Z) : Prop :=
  exists R : gset (Z * bytes),
    (forall d name, (d, name) ∈ R <-> u64 d /\ plain name /\ dir_entry V d name = Some n) /\
    Z.of_nat (size R) = k.

Definition db_kind (V : view) (n : Z) : option DbfsFileType :=
  inode_stat V n ≫= fun a => file_type_of_perm (st_mode a).

(** The inodes form a tree of directories with links: entries are not
    dangling, link counts are right, directories have one name, a [.] and a
    [..] that leads back, and their sizes count their entries. *)
Record db_ok (V : view) : Prop := {
  db_entries : forall d name m, u64 d -> dir_entry V d name = Some m -> u64 m /\ is_Some (inode_stat V m);
  db_links : forall n a, u64 n -> inode_stat V n = Some a -> db_kind V n <> Some Directory ->
    db_names V n (st_nlink a);
  db_dirs : forall n, u64 n -> db_kind V n = Some Directory -> n <> root_ino -> db_names V n 1;
  db_root : db_kind V root_ino = Some Directory /\ db_names V root_ino 0;
  db_dot : forall n, u64 n -> db_kind V n = Some Directory -> dir_entry V n dot = Some n;
  db_dotdot : forall n, u64 n -> db_kind V n = Some Directory -> n <> root_ino ->
    exists d name, dir_entry V n dotdot = Some d /\ plain name /\ dir_entry V d name = Some n;
  db_sizes : forall n a, u64 n -> inode_stat V n = Some a -> db_kind V n = Some Directory ->
    exists es : gmap bytes Z, (forall name, dir_entry V n name = es !! name) /\
      st_size a = Z.of_nat (size es)
}.

Section Database.
Context (s : AState) (F : FsState) (Hsim : sim s F).
Abbreviation V := (a_db s).
Abbreviation T := (fs_tree F).

Lemma sim_entry d name : u64 d -> dir_entry V d name = ent T d name.
Proof.
  intros Hd. unfold dir_entry, ent. destruct (T !! d) as [x|] eqn:Ex.
  - destruct (rp_node _ _ _ (sm_repr _ _ Hsim) d x Ex) as (_ & b & -> & Hr). apply Hr.
  - by rewrite (rp_none _ _ _ (sm_repr _ _ Hsim)).
Qed.
Lemma sim_stat n : u64 n -> inode_stat V n = nd_stat <$> T !! n.
Proof.
  intros Hn. unfold inode_stat. destruct (T !! n) as [x|] eqn:Ex.
  - destruct (rp_node _ _ _ (sm_repr _ _ Hsim) n x Ex) as (_ & b & -> & Hr). apply Hr.
  - by rewrite (rp_none _ _ _ (sm_repr _ _ Hsim)).
Qed.
Lemma sim_number n x : T !! n = Some x -> u64 n.
Proof. intros Hx. apply (rp_node _ _ _ (sm_repr _ _ Hsim) n x Hx). Qed.
Lemma sim_kind_at n : u64 n -> db_kind V n = kind_at T n.
Proof. intros Hn. unfold db_kind, kind_at. rewrite sim_stat by done. by destruct (T !! n). Qed.

Lemma sim_names n k : named (ent T) n k -> db_names V n k.
Proof.
  intros (R & HR & Hs). exists R. split; [|done]. intros d name. rewrite (HR d name). split.
  - intros [Hp He]. assert (Hd : u64 d).
    { unfold ent in He. destruct (T !! d) eqn:Ed; [by eapply sim_number|done]. }
    split; [done|]. by rewrite sim_entry.
  - intros (Hd & Hp & He). by rewrite sim_entry in He.
Qed.

Lemma sim_db_ok : db_ok V.
Proof.
  pose proof (sm_ok _ _ Hsim) as Hok.
  assert (Hst : forall n a, u64 n -> inode_stat V n = Some a -> exists x, T !! n = Some x /\ nd_stat x = a).
  { intros n a Hn. rewrite sim_stat by done. intros (x & -> & Hx)%fmap_Some. by exists x. }
  assert (Hkd : forall n, u64 n -> db_kind V n = Some Directory ->
    exists x, T !! n = Some x /\ nd_kind x = Some Directory).
  { intros n Hn. rewrite sim_kind_at by done. unfold kind_at. intros (x & Hx & Hk)%bind_Some. by exists x. }
  split.
  - intros d name m Hd. rewrite sim_entry by done. intros He. destruct (to_exists _ Hok _ _ _ He) as [y Hy].
    pose proof (sim_number _ _ Hy) as Hm. split; [done|]. rewrite sim_stat, Hy by done. by eexists.
  - intros n a Hn Ha. destruct (Hst n a Hn Ha) as (x & Hx & <-). rewrite sim_kind_at by done.
    unfold kind_at. rewrite Hx. simpl. intros Hk. apply sim_names.
    pose proof (to_names _ Hok n x Hx) as Hnm. unfold name_count in Hnm. by rewrite decide_False in Hnm.
  - intros n Hn Hk Hr. destruct (Hkd n Hn Hk) as (x & Hx & Hkx). apply sim_names.
    pose proof (to_names _ Hok n x Hx) as Hnm. unfold name_count in Hnm.
    by rewrite decide_True, decide_False in Hnm.
  - destruct (to_root _ Hok) as [Hk _]. assert (Hr : db_kind V root_ino = Some Directory).
    { by rewrite sim_kind_at. }
    split; [done|]. destruct (Hkd root_ino ltac:(done) Hr) as (x & Hx & Hkx). apply sim_names.
    pose proof (to_names _ Hok _ x Hx) as Hnm. unfold name_count in Hnm. by rewrite !decide_True in Hnm.
  - intros n Hn Hk. rewrite sim_entry by done. rewrite sim_kind_at in Hk by done. by apply (to_dot _ Hok).
  - intros n Hn Hk Hr. rewrite sim_kind_at in Hk by done.
    destruct (to_dotdot _ Hok n Hk Hr) as (d & name & Hd & Hp & He). exists d, name.
    destruct (to_exists _ Hok _ _ _ Hd) as [y Hy]. rewrite !sim_entry by (done || by eapply sim_number). done.
  - intros n a Hn Ha Hk. destruct (Hst n a Hn Ha) as (x & Hx & <-).
    destruct (Hkd n Hn Hk) as (x' & Hx' & Hkx). rewrite Hx in Hx'. injection Hx' as <-. exists (nd_entries x).
    split; [|by apply (to_size _ Hok n)]. intros name. rewrite sim_entry by done. by apply ent_at.
Qed.
End Database.

(** ** The theorems *)

(** C1: every sequence of calls on a new file system that the specification
    defines runs without a panic, returns results that the specification
    allows (errors included), and leaves a database that represents the tree
    the specification arrives at. *)
Theorem dbfs_refines_tree size uid gid t tb calls :
  u64 size -> u32 uid -> u32 gid -> time_ok t -> defined (root_tree size uid gid t) calls ->
  wp true (new_fs size uid gid t;; tree_exec_all calls)
    (fun o s' => exists rs F', o = Ok rs /\ tree_steps (root_tree size uid gid t) calls rs F' /\ sim s' F')
    (mkS ∅ [] 1 tb).
Proof.
  intros Hz Hu Hg Ht Hdef. apply wp_bind. eapply wp_mono; [by apply wp_new_fs|].
  intros o s' [-> Hsim]. by apply wp_tree_calls.
Qed.

(** C4: every such sequence of calls succeeds, and after it no entry of a directory is
    dangling, the link count of every file is the number of its names, every
    directory but the root has exactly one name and a [..] that refers to the
    directory with that name, and the size of a directory is the number of its
    entries. *)
Theorem database_is_tree size uid gid t tb calls :
  u64 size -> u32 uid -> u32 gid -> time_ok t -> defined (root_tree size uid gid t) calls ->
  wp true (new_fs size uid gid t;; tree_exec_all calls)
    (fun o s' => (exists rs, o = Ok rs) /\ db_ok (a_db s')) (mkS ∅ [] 1 tb).
Proof.
  intros Hz Hu Hg Ht Hdef. apply wp_bind. eapply wp_mono; [by apply wp_new_fs|].
  intros o s' [-> Hsim]. eapply wp_mono; [by apply wp_tree_calls|].
  intros o2 s2 (rs & F' & -> & _ & Hs2). split; [by eexists|by eapply sim_db_ok].
Qed.
End Refine.

(** Find a node without computing the tree. *)
Ltac find_node :=
  repeat first [ apply lookup_insert_eq | apply lookup_singleton_eq
               | rewrite lookup_insert_ne by done | rewrite lookup_delete_ne by done ].
Ltac compute_side :=
  lazymatch goal with
  | |- plain _ => split; vm_compute; congruence
  | |- stored _ _ _ _ => assumption
  | |- access_granted _ _ _ _ _ _ => apply checkout_access_granted; vm_compute; reflexivity
  | |- ~ access_granted _ _ _ _ _ _ =>
      let H := fresh in intros H; apply checkout_access_granted in H; vm_compute in H; discriminate H
  | |- @lookup Z Node _ _ _ _ = Some _ => find_node
  | |- _ => concrete
  end.

Section Witness.
#[local] Existing Instance cfg512.

(** A directory, a file in it with a second name in the root, a failed
    lookup, a move of the second name, an [rmdir] of a directory with entries, a
    symbolic link that is read, a change of owner by root, a change of mode and
    of times by the new owner, calls of somebody else that are refused (the
    refused creation draws number 5, so that the next file has number 6), a
    write and a read of what was written. *)
Definition sample_calls : list TCall := [
  TCreate 1 (bs "sub") 0 0 t0 0x41ed None;
  TCreate 2 (bs "foo") 0 0 t0 0x81a4 None;
  TLink 0 0 3 1 (bs "bar") t1;
  TLookup 1 (bs "foo");
  TRename 0 0 1 (bs "bar") 2 (bs "baz") t1;
  TRmdir 0 0 1 (bs "sub") t1;
  TCreate 1 (bs "ln") 0 0 t0 0xa1ff (Some (bs "sub/foo"));
  TReadlink 4 (replicate 5 x00);
  TChown 0 0 3 (Some 7) (Some 7) t1;
  TChmod 7 7 3 0x1a0 t1;
  TUtimens 7 7 3 (Some t1) None t1;
  TUtimens 0 0 3 (Some t1) None t1;
  TChmod 9 9 3 0x1ff t1;
  TChown 9 9 3 (Some 9) None t1;
  TOpen 3 7 7 6;
  TOpen 3 9 9 2;
  TCreate 2 (bs "no") 9 9 t0 0x81a4 None;
  TUnlink 9 9 2 (bs "foo") t1;
  TRename 9 9 2 (bs "foo") 1 (bs "mine") t1;
  TRename 0 0 1 (bs "gone") 2 (bs "ln") t1;
  TLink 9 9 3 2 (bs "me") t1;
  TCreate 1 (bs "six") 0 0 t0 0x81a4 None;
  TGetattr 6;
  TSetxattr 0 0 3 (bs "user.note") (bs "keep") t1;
  TSetxattr 0 0 3 (bs "note") (bs "keep") t1;
  TGetxattr 7 7 3 (bs "user.note") (replicate 6 x00);
  TGetxattr 7 7 3 (bs "user.note") [];
  TGetxattr 7 7 3 (bs "user.note") [x00];
  TGetxattr 7 7 3 (bs "user.none") [];
  TTruncate 7 7 3 t1 2000;
  TTruncate 7 7 3 t1 (2 ^ 40);
  TTruncate 9 9 3 t1 0;
  TFallocate 7 7 3 0 3000 0 t1;
  TFallocate 7 7 3 0 (2 ^ 40) 0 t1;
  TFallocate 9 9 3 0 10 0 t1;
  TTruncate 7 7 3 t1 0;
  TRead 6 [] 0;
  TWrite 3 (bs "hello") 0;
  TRead 3 (replicate 5 x00) 0].

(** One call of the sequence, by the given rule. *)
Tactic Notation "next_call" uconstr(rule) :=
  eapply defined_cons;
  [done | eapply rule; compute_side | cbn [Z.eqb Pos.eqb nd_stat st_nlink] ].

Lemma sample_calls_defined : defined (root_tree (2 ^ 20) 0 0 t0) sample_calls.
Proof.
  unfold root_tree. change root_ino with 1.
  next_call (step_create _ _ _ 1 (bs "sub") 0 0 t0 0x41ed None 2 2 None Directory).
  next_call (step_create _ _ _ 2 (bs "foo") 0 0 t0 0x81a4 None 1 0 None RegularFile).
  next_call (step_link _ _ _ 0 0 3 1 (bs "bar") t1 _ _ Directory RegularFile).
  next_call step_lookup_missing.
  next_call step_rename_across.
  next_call step_rmdir_not_empty.
  next_call (step_create _ _ _ 1 (bs "ln") 0 0 t0 0xa1ff (Some (bs "sub/foo")) 1 0 None Symlink).
  next_call step_readlink.
  next_call (step_chown _ _ _ 0 0 3 _ _ t1 _ RegularFile).
  next_call (step_chmod _ _ _ 7 7 3 0x1a0 t1 _ RegularFile).
  next_call (step_utimens _ _ _ 7 7 3 _ _ t1 _ RegularFile).
  next_call (step_utimens_refused _ _ _ 0 0 3 _ _ t1 _ RegularFile PermissionDenied).
  next_call (step_chmod_denied _ _ _ 9 9 3 0x1ff t1 _ RegularFile).
  next_call (step_chown_denied _ _ _ 9 9 3 _ _ t1 _ RegularFile).
  next_call (step_open _ _ _ 3 7 7 6 _ RegularFile).
  next_call (step_open_denied _ _ _ 3 9 9 2 _ RegularFile).
  next_call step_create_denied.
  next_call step_unlink_refused.
  next_call step_rename_refused.
  next_call step_rename_missing.
  next_call (step_link_denied _ _ _ 9 9 3 2 (bs "me") t1 _ Directory).
  next_call (step_create _ _ _ 1 (bs "six") 0 0 t0 0x81a4 None 1 0 None RegularFile).
  next_call (step_getattr _ _ _ 6 _ RegularFile).
  next_call step_setxattr.
  next_call (step_setxattr_denied _ _ _ 0 0 3 _ _ t1 _ NotSupported).
  next_call step_getxattr.
  next_call step_getxattr.
  next_call step_getxattr_range.
  next_call step_getxattr_missing.
  next_call (step_truncate_extend _ _ _ 7 7 3 t1 2000 _ RegularFile).
  next_call (step_truncate_nospace _ _ _ 7 7 3 t1 (2 ^ 40) _ RegularFile).
  next_call (step_truncate_denied _ _ _ 9 9 3 t1 0 _ RegularFile).
  next_call step_fallocate.
  next_call step_fallocate_nospace.
  next_call step_fallocate_denied.
  next_call (step_truncate_shrink _ _ _ 7 7 3 t1 0 _ RegularFile).
  next_call step_read_end.
  eapply defined_write_read; compute_side.
Qed.

Lemma dbfs_refines_tree_witness :
  wp true (new_fs (2 ^ 20) 0 0 t0;; tree_exec_all sample_calls)
    (fun o s' => exists rs F', o = Ok rs /\ tree_steps (root_tree (2 ^ 20) 0 0 t0) sample_calls rs F' /\ sim s' F')
    (mkS ∅ [] 1 ∅).
Proof. apply (dbfs_refines_tree (2 ^ 20) 0 0 t0 ∅ sample_calls); [concrete..|apply sample_calls_defined]. Defined.

Lemma database_is_tree_witness :
  wp true (new_fs (2 ^ 20) 0 0 t0;; tree_exec_all sample_calls)
    (fun o s' => (exists rs, o = Ok rs) /\ db_ok (a_db s')) (mkS ∅ [] 1 ∅).
Proof. apply (database_is_tree (2 ^ 20) 0 0 t0 ∅ sample_calls); [concrete..|apply sample_calls_defined]. Defined.
End Witness.
