(* ===== verification/FuseTree.v ===== *)
(** * FUSE requests on the tree

    The specification of [Tree] one layer up: what a FUSE request asks of the
    tree ([tcall]), what the reply to it is ([reply_of]), and the step of the
    tree a request makes ([fuse_step]).  The handlers of [fuse/mod.rs]
    implement these steps: every sequence of requests that the specification
    defines, on a file system that was just mounted, is answered as it says. *)

From S2P Require Import Prelude Jammdb Effects Run RustStd Common Buckets Slices Access Inode Create.
From S2P Require Import FsType Link Truncate File Rename Attr Readdir Safe Typed Atomic Samples.
From S2P Require Import Namespace Moves Data Metadata Refusals Xattrs Mount System Fuse FuseSystem FuseEffects.
From S2P Require Import Tree TreeInv TreeRefine TreeSystem.

(** ** Times and attributes *)

Definition sys_time (t : SystemTime) : option DbfsTimeSpec :=
  if 0 <=? tv_sec t then Some (spec_of t) else None.
(** A time that [utimens] may be given. *)
Definition given_time (now : SystemTime) (t : option TimeOrNow) : option (option DbfsTimeSpec) :=
  match t with
  | None => Some None
  | Some Now => Some <$> sys_time now
  | Some (SpecificTime t) => Some <$> sys_time t
  end.

Definition system_out (t : DbfsTimeSpec) : option SystemTime :=
  let s := sec t + nsec t / NANOS_PER_SEC in
  if s <? 2 ^ 63 then Some {| tv_sec := s; tv_nsec := nsec t `mod` NANOS_PER_SEC |} else None.
Definition attr_out (a : DbfsAttr) : option FileAttr :=
  system_out (attr_atime a) ≫= fun atime =>
  system_out (attr_mtime a) ≫= fun mtime =>
  system_out (attr_ctime a) ≫= fun ctime =>
  system_out (attr_crtime a) ≫= fun crtime =>
  Some {|
    fa_ino := attr_ino a; fa_size := attr_size a; fa_blocks := attr_blocks a;
    fa_atime := atime; fa_mtime := mtime; fa_ctime := ctime; fa_crtime := crtime;
    fa_kind := fuse_file_type (attr_kind a); fa_perm := Z.land (attr_perm a) Perm.MODE_777;
    fa_nlink := attr_nlink a; fa_uid := attr_uid a; fa_gid := attr_gid a;
    fa_rdev := attr_rdev a; fa_blksize := attr_blksize a; fa_flags := 0
  |}.

(** ** Requests *)

(** Flags with an access mode, and the access they ask for; [exec]: whether
    they may ask to execute. *)
Definition access_flags (flags : Z) : bool :=
  let m := Z.land flags O_ACCMODE in (m =? O_RDONLY) || (m =? O_WRONLY) || (m =? O_RDWR).
Definition open_mask (exec : bool) (flags : Z) : option Z :=
  let m := Z.land flags O_ACCMODE in
  if m =? O_RDONLY then
    if negb (Z.land flags O_TRUNC =? 0) then None
    else Some (if exec && negb (Z.land flags FMODE_EXEC =? 0) then X_OK else R_OK)
  else if m =? O_WRONLY then Some W_OK
  else if m =? O_RDWR then Some (Z.lor R_OK W_OK)
  else None.

Section Requests.
Context `{Config}.

(** The call of the tree that a request makes; [mem] is the block of memory
    the allocator gives to a read. *)
Definition tcall (v : FuseEnv) (c : FuseCall) (mem : bytes) : option TCall :=
  let uid := req_uid (fe_req v) in
  let gid := req_gid (fe_req v) in
  let now := sys_time (fe_clock v 0%nat) in
  match c with
  | FLookup parent name =>
      if utf8_valid name && (blen name <=? MAX_PATH_LEN) then Some (TLookup parent name) else None
  | FGetattr ino => Some (TGetattr ino)
  | FSetattr ino (Some mode) _ _ _ _ _ => TChmod uid gid ino (as_u16 mode) <$> now
  | FSetattr ino None owner group size atime mtime =>
      if bool_decide (is_Some owner) || bool_decide (is_Some group)
      then TChown uid gid ino owner group <$> now
      else
        match size with
        | Some size => (fun t => TTruncate uid gid ino t size) <$> now
        | None =>
            if bool_decide (is_Some atime) || bool_decide (is_Some mtime) then
              given_time (fe_clock v 0%nat) atime ≫= fun atime =>
              given_time (fe_clock v 1%nat) mtime ≫= fun mtime =>
              TUtimens uid gid ino atime mtime <$> sys_time (fe_clock v 2%nat)
            else None
        end
  | FReadlink ino => Some (TReadlink ino (replicate (Z.to_nat MAX_PATH_LEN) x00))
  | FMkdir parent name mode =>
      if utf8_valid name then
        (fun t => TCreate parent name uid gid t
                    (Perm.insert (Perm.from_bits_truncate (as_u16 mode)) Perm.S_IFDIR) None) <$> now
      else None
  | FCreate parent name mode flags =>
      if utf8_valid name && access_flags flags then
        (fun t => TCreate parent name uid gid t (Perm.from_bits_truncate (as_u16 mode)) None) <$> now
      else None
  | FSymlink parent name link =>
      if utf8_valid name && utf8_valid link && (blen name <=? MAX_PATH_LEN) then
        (fun t => TCreate parent name uid gid t
                    (Perm.insert (Perm.from_bits_truncate Perm.MODE_777) Perm.S_IFLNK) (Some link)) <$> now
      else None
  | FUnlink parent name => if utf8_valid name then TUnlink uid gid parent name <$> now else None
  | FRmdir parent name => if utf8_valid name then TRmdir uid gid parent name <$> now else None
  | FRename parent name newparent newname flags =>
      if utf8_valid name && utf8_valid newname && (flags =? 0)
      then TRename uid gid parent name newparent newname <$> now else None
  | FLink ino newparent newname =>
      if utf8_valid newname && (blen newname <=? MAX_PATH_LEN)
      then TLink uid gid ino newparent newname <$> now else None
  | FOpen ino flags => (fun mask => TOpen ino uid gid (as_u16 mask)) <$> open_mask true flags
  | FOpendir ino flags => (fun mask => TOpen ino uid gid (as_u16 mask)) <$> open_mask false flags
  | FRead ino offset size =>
      if (0 <=? offset) && (0 <=? size) then Some (TRead ino mem (as_u64 offset)) else None
  | FWrite ino offset data =>
      if 0 <=? offset then Some (TWrite ino data (as_u64 offset)) else None
  | FFallocate ino offset length mode =>
      TFallocate uid gid ino (as_u64 offset) (as_u64 length) (as_u32 mode) <$> now
  | FSetxattr ino name value =>
      if utf8_valid name then TSetxattr uid gid ino name value <$> now else None
  | FGetxattr ino name size =>
      if utf8_valid name then Some (TGetxattr uid gid ino name (replicate (Z.to_nat size) x00)) else None
  | _ => None
  end.

(** The length of the block that a request takes from the allocator. *)
Definition block_size (c : FuseCall) : Z := match c with FRead _ _ size => size | _ => 0 end.

(** The reply to a request whose call had the result [r].  Requests that read,
    write and make directories answer every error with [ENOENT]. *)
Definition reply_of (v : FuseEnv) (c : FuseCall) (r : TResult) : option Reply :=
  match c, r with
  | (FMkdir _ _ _ | FRead _ _ _ | FWrite _ _ _), RErr _ => Some (RError ENOENT)
  | _, RErr e => Some (RError (errno e))
  | (FLookup _ _ | FMkdir _ _ _ | FSymlink _ _ _ | FLink _ _ _), Tree.RAttr a =>
      (fun fa => REntry TTL fa 0) <$> attr_out a
  | (FGetattr _ | FSetattr _ _ _ _ _ _ _), Tree.RAttr a => Fuse.RAttr TTL <$> attr_out a
  | FCreate _ _ _ _, Tree.RAttr a => (fun fa => RCreated TTL fa 0 0 0) <$> attr_out a
  | FReadlink _, Tree.RData _ buf => Some (Fuse.RData buf)
  | (FUnlink _ _ | FRmdir _ _ | FRename _ _ _ _ _ | FSetxattr _ _ _ | FFallocate _ _ _ _), RUnit => Some ROk
  | (FOpen _ _ | FOpendir _ _), RUnit => Some (ROpened 0 (open_flags (fe_direct_io v)))
  | FRead _ _ _, Tree.RData n buf =>
      if n <=? blen buf then Some (Fuse.RData (slice buf 0 n)) else None
  | FWrite _ _ _, RCount n => Some (RWritten (as_u32 n))
  | FGetxattr _ _ size, Tree.RData n buf =>
      if size =? 0 then Some (RXattrSize (as_u32 n))
      else if n <=? blen buf then Some (Fuse.RData (slice buf 0 n)) else None
  | _, _ => None
  end.

(** A request as a step of the tree. *)
Inductive fuse_step (F : FsState) (v : FuseEnv) (c : FuseCall) : Reply -> FsState -> Prop :=
  | fuse_step_intro mem call r F' rp :
      blen mem = block_size c -> tcall v c mem = Some call ->
      tree_step F call r F' -> reply_of v c r = Some rp ->
      fuse_step F v c rp F'.

Inductive fuse_steps : FsState -> list (FuseEnv * FuseCall) -> list Reply -> FsState -> Prop :=
  | fuse_nil F : fuse_steps F [] [] F
  | fuse_cons F F' F'' v c reqs rp rps :
      fuse_step F v c rp F' -> fuse_steps F' reqs rps F'' ->
      fuse_steps F ((v, c) :: reqs) (rp :: rps) F''.

(** The specification says what each request of a sequence does and that its
    reply can be sent, whatever the memory it is given and whatever the results
    of the requests before. *)
Fixpoint fuse_defined (F : FsState) (reqs : list (FuseEnv * FuseCall)) : Prop :=
  match reqs with
  | [] => True
  | (v, c) :: reqs =>
      (forall mem, blen mem = block_size c -> exists call, tcall v c mem = Some call /\
         (exists r F', tree_step F call r F') /\
         forall r F', tree_step F call r F' -> is_Some (reply_of v c r) /\ fuse_defined F' reqs) /\
      0 <= block_size c
  end.

Fixpoint serve_all (reqs : list (FuseEnv * FuseCall)) : Prog Empty_set (list Reply) :=
  match reqs with
  | [] => ret []
  | (v, c) :: reqs => rp ← serve v c; rps ← serve_all reqs; ret (rp :: rps)
  end.
End Requests.

(** ** The handlers implement the steps *)

Section Serve.
Context `{Config}.

Definition out_map {E A B} (W : A -> B) (o : outcome E A) : outcome E B :=
  match o with Ok a => Ok (W a) | Err e => Err e | Panic => Panic end.

Lemma wp_bind_ret_inv {E A B} rel (p : Prog E A) (W : A -> B) Q s :
  wp rel (a ← p; ret (W a)) Q s -> wp rel p (fun o s' => Q (out_map W o) s') s.
Proof.
  intros Hp K w HR Hs. pose proof (wp_graft_inv _ _ _ _ _ Hp K w HR Hs) as Hi.
  destruct (run p w) as [[a|e|] w']; exact Hi.
Qed.

(** The common call of a request, from a state that represents [F]. *)
Lemma wp_common {A} (p : Prog DbfsError A) (W : A -> TResult) call s F r0 F0 :
  tree_exec call = (a ← p; ret (W a)) -> sim s F -> tree_step F call r0 F0 ->
  wp true p (fun o s' => exists r F', result_of (out_map W o) = Some r /\ tree_step F call r F' /\ sim s' F') s.
Proof.
  intros He Hsim Hs.
  apply (wp_bind_ret_inv true p W
    (fun o s' => exists r F', result_of o = Some r /\ tree_step F call r F' /\ sim s' F')).
  rewrite <- He. by eapply wp_tree_call.
Qed.

Lemma wp_answer {E A} code (p : Prog E A) ok Q s :
  wp true p (fun o s' => match o with
                         | Ok a => wp true (ok a) Q s'
                         | Err e => Q (Ok (RError (code e))) s'
                         | Panic => Q Panic s'
                         end) s ->
  wp true (answer code p ok) Q s.
Proof.
  intros Hp. apply wp_bind, wp_attempt. eapply wp_mono; [exact Hp|].
  intros [a|e|] s' HQ; [done|by apply wp_ret|done].
Qed.

Lemma wp_to_str {E} name (Q : outcome E bytes -> AState -> Prop) s :
  utf8_valid name = true -> Q (Ok name) s -> wp true (to_str name) Q s.
Proof. intros Hn HQ. unfold to_str, assert_prog. rewrite Hn. by apply wp_bind, wp_ret, wp_ret. Qed.
Lemma wp_sys_time {E} t t' (Q : outcome E DbfsTimeSpec -> AState -> Prop) s :
  sys_time t = Some t' -> Q (Ok t') s -> wp true (time_of_system t) Q s.
Proof.
  unfold sys_time. destruct (Z.leb_spec 0 (tv_sec t)); [|done]. intros [= <-] HQ.
  by apply wp_time_of_system.
Qed.
Lemma wp_system_out {E} t t' (Q : outcome E SystemTime -> AState -> Prop) s :
  system_out t = Some t' -> Q (Ok t') s -> wp true (system_of_time t) Q s.
Proof.
  unfold system_out, system_of_time, assert_prog. cbv zeta. destruct (_ <? _); [|done]. intros [= <-] HQ.
  by apply wp_bind, wp_ret, wp_ret.
Qed.
Lemma wp_attr_out {E} a fa (Q : outcome E FileAttr -> AState -> Prop) s :
  attr_out a = Some fa -> Q (Ok fa) s -> wp true (file_attr a) Q s.
Proof.
  unfold attr_out, file_attr. intros Ha HQ.
  repeat (apply bind_Some in Ha as (? & ? & Ha); apply wp_bind; eapply wp_system_out; [eassumption|]; cbv beta iota).
  injection Ha as <-. by apply wp_ret.
Qed.
Lemma wp_given_time {E} now t t' (Q : outcome E (option DbfsTimeSpec) -> AState -> Prop) s :
  given_time now t = Some t' -> Q (Ok t') s -> wp true (time_or_now now t) Q s.
Proof.
  intros Ht HQ. destruct t as [[t|]|]; simpl in *; [..|injection Ht as <-; by apply wp_ret];
    apply fmap_Some in Ht as (? & Ht & ->); apply wp_bind; (eapply wp_sys_time; [exact Ht|]);
    cbv beta iota; by apply wp_ret.
Qed.

(** [c] was answered as a step of the tree allows. *)
Definition served (F : FsState) (v : FuseEnv) (c : FuseCall) (o : outcome Empty_set Reply) (s' : AState) : Prop :=
  exists rp F', o = Ok rp /\ fuse_step F v c rp F' /\ sim s' F'.

Lemma served_intro F v c mem call r F' rp s' :
  blen mem = block_size c -> tcall v c mem = Some call -> tree_step F call r F' ->
  reply_of v c r = Some rp -> sim s' F' -> served F v c (Ok rp) s'.
Proof. intros Hm Hc Hs Hr Hs'. exists rp, F'. split; [done|]. split; [by econstructor|done]. Qed.
End Serve.

(** The steps of a handler before its common call. *)
Ltac request_step :=
  lazymatch goal with
  | |- wp _ (answer _ _ _) _ _ => apply wp_answer
  | |- wp _ (bind _ _) _ _ => apply wp_bind
  | |- wp _ (map_err _ _) _ _ => apply wp_map_err
  | |- wp _ (to_str _) _ _ => apply wp_to_str; [assumption|]
  | |- wp _ (time_of_system _) _ _ => eapply wp_sys_time; [eassumption|]
  | |- wp _ (time_or_now _ _) _ _ => eapply wp_given_time; [eassumption|]
  | |- wp _ (guard_err false _) _ _ => apply wp_ret
  | |- wp _ (ret _) _ _ => apply wp_ret
  end; cbv beta iota.

(** Takes the call of a request apart. *)
Ltac call_parts Hc :=
  cbn [tcall] in Hc;
  repeat match type of Hc with
  | (if ?b then _ else None) = Some _ => destruct b eqn:?; [|discriminate Hc]
  | (_ <$> _) = Some _ => apply fmap_Some in Hc as (? & ? & Hc)
  | (_ ≫= _) = Some _ => apply bind_Some in Hc as (? & ? & Hc)
  end;
  repeat match goal with
  | Hb : _ && _ = true |- _ => apply andb_true_iff in Hb as [? ?]
  | Hb : (_ <=? _) = true |- _ => apply Z.leb_le in Hb
  end;
  first [injection Hc as <- | subst].

(** The common call and the reply; [W] is the result of the call. *)
Ltac common_call W Hs Hr :=
  eapply wp_mono; [eapply (wp_common _ W); [|eassumption|exact Hs]; reflexivity|];
  let r := fresh "r" in let F' := fresh "F'" in let Hr' := fresh in let Hrp := fresh "Hrp" in
  let Hrp' := fresh "Hrp'" in
  intros [a|e|] s' (r & F' & Hr' & Hs' & Hsim'); [..|done]; injection Hr' as <-;
  destruct (Hr _ _ Hs') as [rp Hrp]; pose proof Hrp as Hrp'; cbn [reply_of] in Hrp';
  [|by injection Hrp' as <-; eapply served_intro].

(** The reply with the attributes of the result. *)
Ltac attr_reply :=
  match goal with Hrp' : (_ <$> attr_out _) = Some _ |- _ =>
    let Hfa := fresh "Hfa" in apply fmap_Some in Hrp' as (? & Hfa & ->);
    repeat request_step; eapply wp_attr_out; [exact Hfa|]; repeat request_step
  end; by eapply served_intro.
Ltac plain_reply :=
  match goal with Hrp' : Some _ = Some _ |- _ => injection Hrp' as <- end;
  repeat request_step; by eapply served_intro.

Section Handlers.
Context `{Config} (F : FsState) (v : FuseEnv) (s : AState).
Hypothesis Hsim : sim s F.

(** The step that the specification gives for the request [c]. *)
Record ready (c : FuseCall) (mem : bytes) (call : TCall) : Prop := {
  rd_mem : blen mem = block_size c;
  rd_call : tcall v c mem = Some call;
  rd_step : exists r F', tree_step F call r F';
  rd_reply : forall r F', tree_step F call r F' -> is_Some (reply_of v c r)
}.

(** Every request that the specification defines is served as it says. *)
Definition serves (c : FuseCall) : Prop :=
  forall mem call, ready c mem call -> wp true (serve v c) (served F v c) s.

Ltac begin :=
  intros mem call [Hm Hc (r0 & F0 & Hs) Hr]; pose proof Hc as Hc'; call_parts Hc'; cbn [serve].

Lemma serve_lookup parent name : serves (FLookup parent name).
Proof.
  begin. unfold fuse_lookup, dbfs_fuse_lookup. repeat request_step.
  rewrite (proj2 (Z.ltb_ge _ _)) by lia. repeat request_step.
  common_call Tree.RAttr Hs Hr. attr_reply.
Qed.
Lemma serve_getattr ino : serves (FGetattr ino).
Proof.
  begin. unfold fuse_getattr, dbfs_fuse_getattr. repeat request_step.
  common_call Tree.RAttr Hs Hr. attr_reply.
Qed.
Lemma serve_setattr ino mode uid gid size atime mtime :
  serves (FSetattr ino mode uid gid size atime mtime).
Proof.
  intros mem call [Hm Hc (r0 & F0 & Hs) Hr]. pose proof Hc as Hc'. cbn [tcall] in Hc'. cbn [serve].
  unfold fuse_setattr, reply_attr. destruct mode as [mode|].
  - call_parts Hc'. unfold dbfs_fuse_chmod. repeat request_step. common_call Tree.RAttr Hs Hr. attr_reply.
  - destruct (bool_decide (is_Some uid) || bool_decide (is_Some gid)).
    + call_parts Hc'. unfold dbfs_fuse_chown. repeat request_step. common_call Tree.RAttr Hs Hr. attr_reply.
    + destruct size as [size|].
      * call_parts Hc'. unfold dbfs_fuse_truncate. repeat request_step. common_call Tree.RAttr Hs Hr. attr_reply.
      * call_parts Hc'. unfold dbfs_fuse_utimens. repeat request_step. common_call Tree.RAttr Hs Hr. attr_reply.
Qed.
Lemma serve_readlink ino : serves (FReadlink ino).
Proof.
  begin. unfold fuse_readlink, dbfs_fuse_readlink. repeat request_step.
  common_call (fun r : Z * bytes => Tree.RData r.1 r.2) Hs Hr. destruct a. plain_reply.
Qed.
Lemma serve_mkdir parent name mode : serves (FMkdir parent name mode).
Proof.
  begin. unfold fuse_mkdir, dbfs_fuse_mkdir. repeat request_step.
  common_call Tree.RAttr Hs Hr. attr_reply.
Qed.
Lemma serve_create parent name mode flags : serves (FCreate parent name mode flags).
Proof.
  begin. unfold fuse_create, dbfs_fuse_create. repeat request_step.
  match goal with Hf : access_flags flags = true |- _ => unfold access_flags in Hf; rewrite Hf end.
  cbn [negb]. repeat request_step. common_call Tree.RAttr Hs Hr. attr_reply.
Qed.
Lemma serve_symlink parent name link : serves (FSymlink parent name link).
Proof.
  begin. unfold fuse_symlink, dbfs_fuse_symlink, reply_entry. repeat request_step.
  rewrite (proj2 (Z.ltb_ge _ _)) by lia. repeat request_step. common_call Tree.RAttr Hs Hr. attr_reply.
Qed.
Lemma serve_link ino newparent newname : serves (FLink ino newparent newname).
Proof.
  begin. unfold fuse_link, dbfs_fuse_link, reply_entry. repeat request_step.
  rewrite (proj2 (Z.ltb_ge _ _)) by lia. repeat request_step. common_call Tree.RAttr Hs Hr. attr_reply.
Qed.
Lemma serve_unlink parent name : serves (FUnlink parent name).
Proof.
  begin. unfold fuse_unlink, dbfs_fuse_unlink, reply_ok. repeat request_step.
  common_call (fun _ : unit => RUnit) Hs Hr. plain_reply.
Qed.
Lemma serve_rmdir parent name : serves (FRmdir parent name).
Proof.
  begin. unfold fuse_rmdir, dbfs_fuse_rmdir, reply_ok. repeat request_step.
  common_call (fun _ : unit => RUnit) Hs Hr. plain_reply.
Qed.
Lemma serve_rename parent name newparent newname flags : serves (FRename parent name newparent newname flags).
Proof.
  begin. match goal with Hf : (flags =? 0) = true |- _ => apply Z.eqb_eq in Hf as -> end.
  unfold fuse_rename, dbfs_fuse_rename, reply_ok. repeat request_step.
  common_call (fun _ : unit => RUnit) Hs Hr. plain_reply.
Qed.
Lemma serve_fallocate ino offset length mode : serves (FFallocate ino offset length mode).
Proof.
  begin. unfold fuse_fallocate, dbfs_fuse_fallocate, reply_ok. repeat request_step.
  common_call (fun _ : unit => RUnit) Hs Hr. plain_reply.
Qed.
Lemma serve_setxattr ino name value : serves (FSetxattr ino name value).
Proof.
  begin. unfold fuse_setxattr, dbfs_fuse_setxattr, reply_ok. repeat request_step.
  common_call (fun _ : unit => RUnit) Hs Hr. plain_reply.
Qed.
Lemma serve_write ino offset data : serves (FWrite ino offset data).
Proof.
  begin. unfold fuse_write, dbfs_fuse_write, assert_prog. repeat request_step.
  rewrite (proj2 (Z.leb_le _ _)) by done. repeat request_step. common_call RCount Hs Hr. plain_reply.
Qed.
Lemma serve_getxattr ino name size : serves (FGetxattr ino name size).
Proof.
  begin. unfold fuse_getxattr, dbfs_fuse_getxattr, assert_prog. repeat request_step.
  common_call (fun r : Z * bytes => Tree.RData r.1 r.2) Hs Hr. destruct a as [n buf]. cbn [fst snd] in *.
  destruct (size =? 0); [plain_reply|]. destruct (n <=? blen buf); [plain_reply|done].
Qed.

(** The access mask of an open request. *)
Lemma wp_open_mask {E} exec flags (err1 err2 : E) mask (Q : outcome E Z -> AState -> Prop) s' :
  open_mask exec flags = Some mask -> Q (Ok mask) s' ->
  let m := Z.land flags O_ACCMODE in
  wp true
    (if m =? O_RDONLY then
       guard_err (negb (Z.land flags O_TRUNC =? 0)) err1;;
       ret (if exec && negb (Z.land flags FMODE_EXEC =? 0) then X_OK else R_OK)
     else if m =? O_WRONLY then ret W_OK
     else if m =? O_RDWR then ret (Z.lor R_OK W_OK)
     else throw err2) Q s'.
Proof.
  unfold open_mask. cbv zeta. intros Ho HQ. destruct (_ =? O_RDONLY).
  - unfold guard_err. destruct (negb _); [done|]. injection Ho as <-. by apply wp_bind, wp_ret, wp_ret.
  - destruct (_ =? O_WRONLY); [injection Ho as <-; by apply wp_ret|].
    destruct (_ =? O_RDWR); [injection Ho as <-; by apply wp_ret|done].
Qed.

Lemma serve_open ino flags : serves (FOpen ino flags).
Proof.
  begin. unfold fuse_open, dbfs_fuse_open. apply wp_answer, wp_bind.
  eapply (wp_open_mask true); [eassumption|]. cbv beta iota. apply wp_map_err.
  common_call (fun _ : unit => RUnit) Hs Hr. plain_reply.
Qed.
Lemma serve_opendir ino flags : serves (FOpendir ino flags).
Proof.
  begin. unfold fuse_opendir, dbfs_fuse_opendir. apply wp_answer, wp_bind.
  eapply (wp_open_mask false); [eassumption|]. cbv beta iota.
  common_call (fun _ : unit => RUnit) Hs Hr. plain_reply.
Qed.

(** The reply to a read does not depend on the memory it was given. *)
Lemma serve_read ino offset size :
  0 <= size -> (forall mem, blen mem = size -> exists call, ready (FRead ino offset size) mem call) ->
  wp true (serve v (FRead ino offset size)) (served F v (FRead ino offset size)) s.
Proof.
  intros Hsz Hready. cbn [serve]. unfold fuse_read. apply wp_bind, wp_alloc; [done..|].
  intros ptr mem Hmem. destruct (Hready mem Hmem) as [call Hrd]. clear Hready. revert call Hrd. 
  intros call [Hm Hc (r0 & F0 & Hs) Hr]. pose proof Hc as Hc'. call_parts Hc'. cbv beta iota.
  unfold dbfs_fuse_read, assert_prog. repeat request_step.
  rewrite (proj2 (Z.leb_le _ _)) by done. repeat request_step.
  eapply wp_mono; [eapply (wp_common _ (fun r : Z * bytes => Tree.RData r.1 r.2)); [|eassumption|exact Hs]; reflexivity|].
  intros [[n buf]|e|] s' (r & F' & Hr' & Hs' & Hsim'); [..|done]; injection Hr' as <-;
    destruct (Hr _ _ Hs') as [rp Hrp]; pose proof Hrp as Hrp'; cbn [reply_of fst snd] in Hrp'.
  - destruct (n <=? blen buf); [|done]. injection Hrp' as <-. repeat request_step. apply wp_dealloc.
    cbv beta iota. apply wp_ret. by eapply served_intro.
  - injection Hrp' as <-. apply wp_bind, wp_dealloc. cbv beta iota. apply wp_ret. by eapply served_intro.
Qed.

(** A request that the specification defines, whatever memory it is given. *)
Lemma serve_request c :
  0 <= block_size c -> (forall mem, blen mem = block_size c -> exists call, ready c mem call) ->
  wp true (serve v c) (served F v c) s.
Proof.
  intros Hb Hready. destruct c; try (by apply serve_read);
    destruct (Hready [] eq_refl) as [call Hrd]; try (destruct Hrd as [_ Hc _ _]; discriminate Hc); revert Hrd;
    first [ apply serve_lookup | apply serve_getattr | apply serve_setattr | apply serve_readlink
          | apply serve_mkdir | apply serve_create | apply serve_symlink | apply serve_link
          | apply serve_unlink | apply serve_rmdir | apply serve_rename | apply serve_fallocate
          | apply serve_setxattr | apply serve_write | apply serve_getxattr | apply serve_open
          | apply serve_opendir ].
Qed.
End Handlers.

(** ** Sequences of requests *)

Section Sequences.
Context `{Config}.

Lemma wp_serve_all reqs s F :
  sim s F -> fuse_defined F reqs ->
  wp true (serve_all reqs)
    (fun o s' => exists rps F', o = Ok rps /\ fuse_steps F reqs rps F' /\ sim s' F') s.
Proof.
  revert s F. induction reqs as [|[v c] reqs IH]; intros s F Hsim Hdef; cbn [serve_all].
  - apply wp_ret. exists [], F. split; [done|]. split; [constructor|done].
  - destruct Hdef as [Hdef Hb]. apply wp_bind. eapply wp_mono; [apply (serve_request F v s Hsim c Hb)|].
    { intros mem Hm. destruct (Hdef mem Hm) as (call & Hc & Hs & Hr). exists call.
      split; [done|done|done|]. intros r F' Hs'. by destruct (Hr r F' Hs'). }
    intros o s1 (rp & F1 & -> & Hs1 & Hsim1). apply wp_bind.
    assert (Hd1 : fuse_defined F1 reqs).
    { destruct Hs1 as [mem call r F1 rp Hm Hc Hs Hrp]. destruct (Hdef mem Hm) as (call' & Hc' & _ & Hd).
      assert (call' = call) as -> by congruence. by destruct (Hd r F1 Hs). }
    eapply wp_mono; [by apply (IH s1 F1)|]. intros o s2 (rps & F2 & -> & Hs2 & Hsim2). apply wp_ret.
    eexists _, F2. split; [done|]. split; [by econstructor|done].
Qed.

(** A mount of an empty database. *)
Lemma wp_fuse_init_new uid gid clock tb :
  u32 uid -> u32 gid -> clock_ok clock ->
  wp true (fuse_init uid gid clock)
    (fun o s' => o = Ok tt /\ sim s' (root_tree FILE_SIZE uid gid (spec_of (clock 0%nat)))) (mkS ∅ [] 1 tb).
Proof.
  intros Hu Hg Hc. pose proof (spec_of_ok clock 0 Hc) as Ht.
  eapply wp_mono; [eapply wp_conj; [|eapply wp_typed; [apply tsafe_fuse_init|done..]]|].
  - apply wp_bind, wp_init_db_new; [done|]. cbv beta iota. apply wp_bind, wp_time_of_system; [apply Hc|].
    cbv beta iota. apply wp_bind, wp_map_err.
    eapply wp_root_inode_new; [by rewrite lookup_insert_ne by (apply not_eq_sym, ipath_sb)|]. apply wp_ret.
    instantiate (1 := fun o s' => o = Ok tt /\ a_txs s' = [] /\ a_ino s' = 2 /\
      repr (a_db s') (fs_tree (root_tree FILE_SIZE uid gid (spec_of (clock 0%nat)))) FILE_SIZE).
    split_and!; try done. by apply root_repr.
  - intros o s' [(-> & Htx & Hn & Hr) Hty]. split; [done|].
    split; try done; [by rewrite Hn|apply root_tree_ok].
Qed.

(** C5: on a file system that was just mounted, every sequence of FUSE
    requests that the specification defines is answered without a panic, each
    with a reply that the step of the tree it stands for allows (errors as the
    error numbers of the handlers), and the database represents the tree after
    these steps. *)
Theorem fuse_refines_tree uid gid clock tb reqs :
  u32 uid -> u32 gid -> clock_ok clock ->
  fuse_defined (root_tree FILE_SIZE uid gid (spec_of (clock 0%nat))) reqs ->
  wp true (unwrap (fuse_init uid gid clock);; serve_all reqs)
    (fun o s' => exists rps F', o = Ok rps /\
       fuse_steps (root_tree FILE_SIZE uid gid (spec_of (clock 0%nat))) reqs rps F' /\ sim s' F')
    (mkS ∅ [] 1 tb).
Proof.
  intros Hu Hg Hc Hdef. apply wp_bind, wp_unwrap. eapply wp_mono; [by apply wp_fuse_init_new|].
  intros o s' [-> Hsim]. by apply wp_serve_all.
Qed.

(** ** An example *)

Lemma fuse_defined_cons F F' v c reqs (call : bytes -> TCall) (r : bytes -> TResult) :
  0 <= block_size c ->
  (forall mem, blen mem = block_size c ->
     tcall v c mem = Some (call mem) /\ is_write (call mem) = false /\
     tree_step F (call mem) (r mem) F' /\ is_Some (reply_of v c (r mem))) ->
  fuse_defined F' reqs -> fuse_defined F ((v, c) :: reqs).
Proof.
  intros Hb Hstep Hd. split; [|done]. intros mem Hm. destruct (Hstep mem Hm) as (Hc & Hw & Hs & Hr).
  exists (call mem). split; [done|]. split; [eauto|]. intros r1 F1 Hs1.
  by destruct (tree_step_det _ _ _ _ _ _ Hw Hs Hs1) as [<- <-].
Qed.

(** A write at the end of a sequence. *)
Lemma fuse_defined_write T c f v n offset data x :
  T !! n = Some x -> nd_kind x = Some RegularFile -> 0 <= offset < 2 ^ 64 -> 0 < blen data ->
  offset + blen data <= 2 ^ 32 * SLICE_SIZE ->
  fuse_defined (mkFs T c f) [(v, FWrite n offset data)].
Proof.
  intros Hx Hk Ho Hd Hmax. split; [|done]. intros mem _. exists (TWrite n data offset).
  cbn [tcall]. rewrite (proj2 (Z.leb_le _ _)) by lia. unfold as_u64. rewrite Z.mod_small by lia.
  split; [done|]. split.
  - destruct (stored_exists (nd_bytes x) offset data) as [bytes' Hst].
    eexists _, _. eapply step_write; eauto; lia.
  - intros r F' Hs. inversion Hs; subst. split; [by eexists|done].
Qed.
End Sequences.

Section Witness.
#[local] Existing Instance cfg512.

Definition fuse_env (uid : Z) : FuseEnv := {|
  fe_direct_io := false; fe_full := fun _ _ => false; fe_full_plus := fun _ _ => false;
  fe_req := {| req_uid := uid; req_gid := uid |};
  fe_clock := fun _ => {| tv_sec := 7; tv_nsec := 5 |};
  fe_rounds := 2 |}.

(** A directory, a file in it, a link that is read, a failed lookup, changes
    of the owner and the size, a request that is refused, a rename, an empty
    file that is read, an attribute that is set and read, a write. *)
Definition sample_requests : list (FuseEnv * FuseCall) := [
  (fuse_env 0, FMkdir 1 (bs "sub") 0x1ed);
  (fuse_env 0, FCreate 2 (bs "foo") 0x81a4 2);
  (fuse_env 0, FSymlink 1 (bs "ln") (bs "sub/foo"));
  (fuse_env 0, FReadlink 4);
  (fuse_env 0, FLookup 1 (bs "gone"));
  (fuse_env 0, FRead 3 0 100);
  (fuse_env 0, FSetattr 3 None (Some 7) None None None None);
  (fuse_env 7, FSetattr 3 None None None (Some 2000) None None);
  (fuse_env 9, FUnlink 2 (bs "foo"));
  (fuse_env 7, FOpen 3 2);
  (fuse_env 7, FSetxattr 3 (bs "user.k") (bs "v"));
  (fuse_env 7, FGetxattr 3 (bs "user.k") 8);
  (fuse_env 0, FRename 1 (bs "ln") 2 (bs "ln2") 0);
  (fuse_env 0, FWrite 3 0 (bs "hello"))].
Definition t7 : DbfsTimeSpec := {| sec := 7; nsec := 5 |}.

(** One request of the sequence: its call, and the rule for it. *)
Tactic Notation "next_request" uconstr(call) uconstr(rule) :=
  eapply (fuse_defined_cons _ _ _ _ _ (fun _ => call));
  [ done
  | intros mem _; split; [vm_compute; reflexivity|]; split; [reflexivity|];
    split; [eapply rule; compute_side | eexists; vm_compute; reflexivity ]
  | cbn [Z.eqb Pos.eqb nd_stat st_nlink] ].

Lemma sample_requests_defined :
  fuse_defined (root_tree FILE_SIZE 0 0 (spec_of (fe_clock (fuse_env 0) 0%nat))) sample_requests.
Proof.
  change (spec_of (fe_clock (fuse_env 0) 0%nat)) with t7. unfold root_tree. change root_ino with 1.
  next_request (TCreate 1 (bs "sub") 0 0 t7 0x41ed None)
    (step_create _ _ _ 1 (bs "sub") 0 0 t7 0x41ed None 2 2 None Directory).
  next_request (TCreate 2 (bs "foo") 0 0 t7 0x81a4 None)
    (step_create _ _ _ 2 (bs "foo") 0 0 t7 0x81a4 None 1 0 None RegularFile).
  next_request (TCreate 1 (bs "ln") 0 0 t7 0xa1ff (Some (bs "sub/foo")))
    (step_create _ _ _ 1 (bs "ln") 0 0 t7 0xa1ff (Some (bs "sub/foo")) 1 0 None Symlink).
  next_request (TReadlink 4 (replicate 255 x00)) step_readlink.
  next_request (TLookup 1 (bs "gone")) step_lookup_missing.
  eapply (fuse_defined_cons _ _ _ _ _ (fun mem => TRead 3 mem 0) (fun mem => Tree.RData 0 mem)); [done| |].
  { intros mem _. split; [done|]. split; [done|]. split; [eapply step_read_end; compute_side|].
    cbn [reply_of]. rewrite (proj2 (Z.leb_le _ _)) by apply blen_nonneg. by eexists. }
  next_request (TChown 0 0 3 (Some 7) None t7) (step_chown _ _ _ 0 0 3 (Some 7) None t7 _ RegularFile).
  next_request (TTruncate 7 7 3 t7 2000) (step_truncate_extend _ _ _ 7 7 3 t7 2000 _ RegularFile).
  next_request (TUnlink 9 9 2 (bs "foo") t7) step_unlink_refused.
  next_request (TOpen 3 7 7 6) (step_open _ _ _ 3 7 7 6 _ RegularFile).
  next_request (TSetxattr 7 7 3 (bs "user.k") (bs "v") t7) step_setxattr.
  next_request (TGetxattr 7 7 3 (bs "user.k") (replicate 8 x00)) step_getxattr.
  next_request (TRename 0 0 1 (bs "ln") 2 (bs "ln2") t7) (step_rename_across _ _ _ 0 0 1 (bs "ln") 2 (bs "ln2") t7 _ _ _ 4).
  eapply fuse_defined_write; compute_side.
Qed.

Lemma fuse_refines_tree_witness :
  wp true (unwrap (fuse_init 0 0 (fe_clock (fuse_env 0)));; serve_all sample_requests)
    (fun o s' => exists rps F', o = Ok rps /\
       fuse_steps (root_tree FILE_SIZE 0 0 (spec_of (fe_clock (fuse_env 0) 0%nat))) sample_requests rps F' /\
       sim s' F')
    (mkS ∅ [] 1 ∅).
Proof.
  apply (fuse_refines_tree 0 0 (fe_clock (fuse_env 0)) ∅ sample_requests); [concrete|concrete| |].
  - intros i. vm_compute. intuition congruence.
  - apply sample_requests_defined.
Defined.
End Witness.
