(* ===== verification/Abstract.v ===== *)
(** * What platforms can do

    The steps of a program on the abstract state, seen from both sides.
    [astep c s r s'] lists the answers a platform may give to a command: what
    any platform does is one of them ([handle_astep]), and for every sequence
    of such answers there is a platform that gives them ([oracle_step]).
    [eval] runs a program with the answers of a platform on which nothing
    fails: every reliable platform gives that result ([eval_sound]), so that a
    computation on the abstract state says what happens on all of them. *)

From stdpp Require Import relations.
From S2P Require Import Prelude Jammdb Effects Run.

(** ** Steps with any answers *)

Section AbstractSteps.
Implicit Types s : AState.

Definition tx_reads {A} (f : view -> jres A) (s : AState) (r : jres A) (s' : AState) : Prop :=
  s' = s /\ r = match a_txs s with [] => JPanic | (V, _) :: _ => f V end.
Definition tx_writes {A} (f : bool -> view -> jres A * view) (s : AState) (r : jres A)
    (s' : AState) : Prop :=
  match a_txs s with
  | [] => r = JPanic /\ s' = s
  | (V, wr) :: _ => r = (f wr V).1 /\ s' = set_tx (f wr V).2 s
  end.
Definition may_fail {A} (s : AState) (r : JError + A) (s' : AState) (ok : A -> Prop) : Prop :=
  match r with inl _ => s' = s | inr a => ok a end.

(** The answers the platform may give to a command, and the state after it. *)
Definition astep (c : Cmd) (s : AState) (r : resp c) (s' : AState) : Prop :=
  match c as c' return resp c' -> Prop with
  | CBegin wr => fun r => may_fail s r s' (fun _ => s' = push_tx wr s)
  | CEnd => fun _ => s' = pop_tx s
  | CCommit => fun r =>
      match a_txs s with
      | [] => r = inl ReadOnlyTx /\ s' = s
      | _ => may_fail s r s' (fun _ => s' = commit_tx s)
      end
  | CGetBucket p n => fun r => tx_reads (fun V => spec_get_bucket V p n) s r s'
  | CCreateBucket p n => fun r => tx_writes (fun wr V => spec_create_bucket wr V p n) s r s'
  | CDeleteBucket p n => fun r => tx_writes (fun wr V => spec_delete_bucket wr V p n) s r s'
  | CGet p k => fun r => tx_reads (fun V => spec_get V p k) s r s'
  | CPut p k v => fun r => tx_writes (fun wr V => spec_put wr V p k v) s r s'
  | CDelete p k => fun r => tx_writes (fun wr V => spec_delete wr V p k) s r s'
  | CCursor p => fun r => tx_reads (fun V => spec_cursor V p) s r s'
  | CSeek p k => fun r => tx_reads (fun V => spec_seek V p k) s r s'
  | CRange p a b => fun r => tx_reads (fun V => spec_range V p a b) s r s'
  | CInoFetchAdd n => fun r =>
      r = a_ino s /\ s' = mkS (a_db s) (a_txs s) ((a_ino s + n) `mod` 2 ^ 64) (a_tbl s)
  | CInoLoad => fun r => r = a_ino s /\ s' = s
  | CInoStore n => fun _ => s' = mkS (a_db s) (a_txs s) n (a_tbl s)
  | CTablePush ino i => fun _ => s' = mkS (a_db s) (a_txs s) (a_ino s) (<[ino := i]> (a_tbl s))
  | CTablePop ino => fun r =>
      r = a_tbl s !! ino /\ s' = mkS (a_db s) (a_txs s) (a_ino s) (delete ino (a_tbl s))
  | CTableGet ino => fun r => r = a_tbl s !! ino /\ s' = s
  | CAlloc n => fun r => s' = s /\ forall m, r = Some m -> 0 <= n -> Z.of_nat (length m.2) = n
  | CDealloc _ _ => fun _ => s' = s
  end r.

Lemma in_tx_reads `{Platform} {A} (w : World) (f : Tx -> jres A) (g : view -> jres A) r (w' : World) :
  (forall t, f t = g (tx_view t)) -> read_tx w f = (r, w') -> tx_reads g (st w) r (st w').
Proof.
  intros Hf Hr. unfold read_tx, in_tx, tx_reads, st in *. simpl.
  destruct w as [d [|t ts] i tb h]; simplify_eq/=; auto.
Qed.
Lemma in_tx_writes `{Platform} {A} (w : World) (f : Tx -> jres A * Tx) (g : bool -> view -> jres A * view) r (w' : World) :
  (forall t, ((f t).1, tx_view (f t).2) = g (tx_writable t) (tx_view t)) ->
  (forall t, tx_writable (f t).2 = tx_writable t) ->
  in_tx w f = (r, w') -> tx_writes g (st w) r (st w').
Proof.
  intros Hf Hw Hr. unfold in_tx, tx_writes, set_tx, st in *. simpl.
  destruct w as [d [|t ts] i tb h]; simplify_eq/=; auto.
  specialize (Hf t). specialize (Hw t). destruct (f t) as [r' t'] eqn:Et. simplify_eq/=.
  rewrite <- Hf. simpl. by rewrite Hw.
Qed.

(** What a platform does is one of these steps. *)
Lemma handle_astep `{Platform} c (w : World) r (w' : World) : handle c w = (r, w') -> astep c (st w) r (st w').
Proof.
  destruct c; simpl; intros Hh.
  - destruct (db_tx (w_db w) writable) as [[e|t] d] eqn:Et;
      pose proof (db_tx_keeps (w_db w) writable) as Hk; rewrite Et in Hk; simplify_eq/=;
      unfold st, push_tx; simpl; rewrite Hk; [done|].
    by apply db_tx_view in Et as [-> ->].
  - simplify_eq. unfold st, pop_tx; simpl. by destruct (w_txs w).
  - destruct (w_txs w) as [|t ts] eqn:Ew; simplify_eq/=; [done|].
    destruct (db_commit (w_db w) t) as [[e|[]] d] eqn:Ec; simplify_eq/=.
    + apply db_commit_keeps in Ec. unfold st; simpl. by rewrite Ec, Ew.
    + apply db_commit_view in Ec. unfold commit_tx, st; simpl. rewrite Ew. simpl. by rewrite Ec.
  - eapply in_tx_reads; [|done]. intros t. apply j_get_bucket_spec.
  - eapply in_tx_writes; [| |done]; intros t; [apply j_create_bucket_spec|apply j_create_bucket_writable].
  - eapply in_tx_writes; [| |done]; intros t; [apply j_delete_bucket_spec|apply j_delete_bucket_writable].
  - eapply in_tx_reads; [|done]. intros t. apply j_get_spec.
  - eapply in_tx_writes; [| |done]; intros t; [apply j_put_spec|apply j_put_writable].
  - eapply in_tx_writes; [| |done]; intros t; [apply j_delete_spec|apply j_delete_writable].
  - eapply in_tx_reads; [|done]. intros t. apply j_cursor_spec.
  - eapply in_tx_reads; [|done]. intros t. apply j_seek_spec.
  - eapply in_tx_reads; [|done]. intros t. apply j_range_spec.
  - by simplify_eq.
  - by simplify_eq.
  - by simplify_eq.
  - by simplify_eq.
  - by simplify_eq.
  - by simplify_eq.
  - destruct (heap_alloc (w_heap w) n) as [m h] eqn:Eh. simplify_eq/=. split; [done|].
    intros m -> Hn. by eapply heap_alloc_length.
  - by simplify_eq.
Qed.

(** A program and its state, one command on. *)
Definition pstep {E A} (x y : Prog E A * AState) : Prop :=
  match x.1 with
  | Done _ => False
  | Step c k => exists r, astep c x.2 r y.2 /\ y.1 = k r
  end.

(** Some answer is always possible. *)
Lemma astep_total c s : exists r s', astep c s r s'.
Proof.
  assert (Hf : forall A (ok : A -> Prop), exists r s', may_fail s r s' ok)
    by (intros; by exists (inl JIo), s).
  assert (Hr : forall A (f : view -> jres A), exists r s', tx_reads f s r s')
    by (intros; eexists _, _; by split).
  assert (Hw : forall A (f : bool -> view -> jres A * view), exists r s', tx_writes f s r s')
    by (intros; unfold tx_writes; destruct (a_txs s) as [|[]]; eauto).
  destruct c; simpl; eauto.
  - by exists (inl JIo), s.
  - by exists tt, (pop_tx s).
  - destruct (a_txs s); [by exists (inl ReadOnlyTx), s|by exists (inl JIo), s].
  - by eexists tt, _.
  - by eexists tt, _.
  - by exists None, s.
  - by exists tt, s.
Qed.
End AbstractSteps.

(** ** A platform that gives the answers of a list *)

#[refine] Definition oracle_platform : Platform := {|
  Db := view * list (option JError);
  Tx := view * bool;
  Heap := list (option (Z * bytes));
  db_view d := d.1;
  tx_view t := t.1;
  tx_writable t := t.2;
  db_tx d wr :=
    match d.2 with
    | Some e :: l => (inl e, (d.1, l))
    | l => (inr (d.1, wr), (d.1, tail l))
    end;
  db_commit d t :=
    match d.2 with
    | Some e :: l => (inl e, (d.1, l))
    | l => (inr tt, (t.1, tail l))
    end;
  j_get_bucket t p n := spec_get_bucket t.1 p n;
  j_create_bucket t p n :=
    let '(r, V) := spec_create_bucket t.2 t.1 p n in (r, (V, t.2));
  j_delete_bucket t p n :=
    let '(r, V) := spec_delete_bucket t.2 t.1 p n in (r, (V, t.2));
  j_get t p k := spec_get t.1 p k;
  j_put t p k v := let '(r, V) := spec_put t.2 t.1 p k v in (r, (V, t.2));
  j_delete t p k := let '(r, V) := spec_delete t.2 t.1 p k in (r, (V, t.2));
  j_cursor t p := spec_cursor t.1 p;
  j_seek t p k := spec_seek t.1 p k;
  j_range t p a b := spec_range t.1 p a b;
  heap_alloc h n :=
    match h with
    | Some m :: h => (if (n <? 0) || (Z.of_nat (length m.2) =? n) then Some m else None, h)
    | h => (None, tail h)
    end;
  heap_dealloc h ptr n := h
|}.
Proof.
  all: intros; simpl in *.
  all: try (repeat case_match; simplify_eq/=; auto; done).
  repeat case_match; simplify_eq/=; lia.
Defined.

Section Oracle.
#[local] Existing Instance oracle_platform.

(** The abstract state [s], with the answers to come. *)
Definition oworld (s : AState) (l : list (option JError)) (h : list (option (Z * bytes))) : World :=
  @mkW oracle_platform (a_db s, l) (a_txs s) (a_ino s) (a_tbl s) h.

Lemma oworld_reads {A} (f : view -> jres A) s r s' l h :
  tx_reads f s r s' ->
  read_tx (oworld s l h) (fun t : @Tx oracle_platform => f (t : view * bool).1) = (r, oworld s' l h).
Proof. intros [-> ->]. unfold read_tx, in_tx, oworld; simpl. by destruct s as [D [|[] T] n tb]. Qed.
Lemma oworld_writes {A} (f : bool -> view -> jres A * view) s r s' l h :
  tx_writes f s r s' ->
  in_tx (oworld s l h) (fun t : @Tx oracle_platform =>
    let '(r, V) := f (t : view * bool).2 (t : view * bool).1 in (r, (V, (t : view * bool).2)))
  = (r, oworld s' l h).
Proof.
  unfold tx_writes, in_tx, oworld, set_tx; simpl. destruct s as [D [|[V wr] T] n tb]; simpl.
  - by intros [-> ->].
  - intros [-> ->]. by destruct (f wr V).
Qed.

(** One command: the oracle starts with the answer of the step. *)
Lemma oracle_step c s r s' l' h' :
  astep c s r s' -> exists l h, handle c (oworld s l h) = (r, oworld s' l' h').
Proof.
  destruct c; simpl; intros Ha;
    try (exists l', h'; first [exact (oworld_reads _ _ _ _ l' h' Ha) | exact (oworld_writes _ _ _ _ l' h' Ha)]).
  - destruct r as [e|[]]; simpl in Ha; subst s'.
    + by exists (Some e :: l'), h'.
    + by exists (None :: l'), h'.
  - exists l', h'. subst s'. destruct r. done.
  - destruct s as [D [|[V wr] T] n tb]; simpl in Ha.
    + destruct Ha as [-> ->]. by exists l', h'.
    + destruct r as [e|[]]; simpl in Ha; subst s'.
      * by exists (Some e :: l'), h'.
      * by exists (None :: l'), h'.
  - exists l', h'. destruct Ha as [-> ->]. done.
  - exists l', h'. destruct Ha as [-> ->]. done.
  - exists l', h'. subst s'. by destruct r.
  - exists l', h'. subst s'. by destruct r.
  - exists l', h'. destruct Ha as [-> ->]. done.
  - exists l', h'. destruct Ha as [-> ->]. done.
  - destruct Ha as [-> Hm]. exists l', (r :: h'). simpl. destruct r as [m|]; [|done].
    specialize (Hm m eq_refl). simpl. destruct (n <? 0) eqn:En; [done|].
    rewrite Hm by lia. by rewrite Z.eqb_refl.
  - exists l', h'. subst s'. by destruct r.
Qed.
End Oracle.

(** ** Reliable platforms *)

(** The answer of a reliable platform and the state after it; [None] where
    platforms may differ (the contents of a block, the commit of a read
    transaction). *)
Definition reliable_answer (c : Cmd) (s : AState) : option (resp c * AState) :=
  let reads {A} (f : view -> jres A) : option (jres A * AState) :=
    Some (match a_txs s with [] => JPanic | (V, _) :: _ => f V end, s) in
  let writes {A} (f : bool -> view -> jres A * view) : option (jres A * AState) :=
    Some (match a_txs s with
          | [] => (JPanic, s)
          | (V, wr) :: _ => let '(r, V') := f wr V in (r, set_tx V' s)
          end) in
  match c as c' return option (resp c' * AState) with
  | CBegin wr => Some (inr tt, push_tx wr s)
  | CEnd => Some (tt, pop_tx s)
  | CCommit =>
      match a_txs s with
      | [] => Some (inl ReadOnlyTx, s)
      | (_, true) :: _ => Some (inr tt, commit_tx s)
      | (_, false) :: _ => None
      end
  | CGetBucket p n => reads (fun V => spec_get_bucket V p n)
  | CCreateBucket p n => writes (fun wr V => spec_create_bucket wr V p n)
  | CDeleteBucket p n => writes (fun wr V => spec_delete_bucket wr V p n)
  | CGet p k => reads (fun V => spec_get V p k)
  | CPut p k v => writes (fun wr V => spec_put wr V p k v)
  | CDelete p k => writes (fun wr V => spec_delete wr V p k)
  | CCursor p => reads (fun V => spec_cursor V p)
  | CSeek p k => reads (fun V => spec_seek V p k)
  | CRange p a b => reads (fun V => spec_range V p a b)
  | CInoFetchAdd n =>
      Some (a_ino s, mkS (a_db s) (a_txs s) ((a_ino s + n) `mod` 2 ^ 64) (a_tbl s))
  | CInoLoad => Some (a_ino s, s)
  | CInoStore n => Some (tt, mkS (a_db s) (a_txs s) n (a_tbl s))
  | CTablePush ino i => Some (tt, mkS (a_db s) (a_txs s) (a_ino s) (<[ino := i]> (a_tbl s)))
  | CTablePop ino => Some (a_tbl s !! ino, mkS (a_db s) (a_txs s) (a_ino s) (delete ino (a_tbl s)))
  | CTableGet ino => Some (a_tbl s !! ino, s)
  | CAlloc _ => None
  | CDealloc _ _ => Some (tt, s)
  end.

Fixpoint eval {E A} (p : Prog E A) (s : AState) : option (outcome E A * AState) :=
  match p with
  | Done o => Some (o, s)
  | Step c k =>
      match reliable_answer c s with
      | Some (r, s') => eval (k r) s'
      | None => None
      end
  end.

Lemma writes_answer {A} (f : bool -> view -> jres A * view) s r1 s1 r s' :
  tx_writes f s r1 s1 ->
  Some (match a_txs s with
        | [] => (JPanic, s)
        | (V, wr) :: _ => let '(r, V') := f wr V in (r, set_tx V' s)
        end) = Some (r, s') -> r1 = r /\ s1 = s'.
Proof.
  unfold tx_writes. destruct (a_txs s) as [|[V wr] T]; [|destruct (f wr V)];
    intros [-> ->] [= <- <-]; done.
Qed.

(** A reliable platform gives the answer. *)
Lemma answer_sound (K : Platform) (w : World) c r s' :
  Reliable K -> reliable_answer c (st w) = Some (r, s') -> exists w', handle c w = (r, w') /\ st w' = s'.
Proof.
  intros HR Ha. destruct (handle c w) as [r1 w1] eqn:Hh. exists w1.
  pose proof (handle_astep c w r1 w1 Hh) as Hs.
  destruct c; simpl in Ha, Hs; unfold tx_reads in Hs;
    try (simplify_eq/=; destruct_and?; subst; done).
  - destruct (db_tx_succeeds (w_db w) writable) as (t & d & Et). simpl in Hh. rewrite Et in Hh.
    simplify_eq/=. by rewrite Hs.
  - simpl in Hh. destruct (w_txs w) as [|t ts] eqn:Ew; simpl in *; [by simplify_eq|].
    destruct (tx_writable t) eqn:Ht; [|done]. destruct (db_commit_succeeds (w_db w) t Ht) as [d Ed].
    rewrite Ed in Hh. simplify_eq/=. by rewrite Hs.
  - destruct (writes_answer _ _ _ _ _ _ Hs Ha) as [-> ->]. done.
  - destruct (writes_answer _ _ _ _ _ _ Hs Ha) as [-> ->]. done.
  - destruct (writes_answer _ _ _ _ _ _ Hs Ha) as [-> ->]. done.
  - destruct (writes_answer _ _ _ _ _ _ Hs Ha) as [-> ->]. done.
Qed.

Lemma eval_sound {E A} (p : Prog E A) s o s' :
  eval p s = Some (o, s') -> wp true p (fun o' s'' => o' = o /\ s'' = s') s.
Proof.
  revert s. induction p as [o1|c k IH]; intros s He; simpl in He.
  - simplify_eq. by apply wp_done.
  - apply wp_step. intros K w HR <-. destruct (reliable_answer c (st w)) as [[r s1]|] eqn:Ea; [|done].
    destruct (answer_sound K w c r s1 (HR eq_refl) Ea) as (w' & Hh & Hs). rewrite Hh, Hs. by apply IH.
Qed.

Lemma eval_outcome {E A} (p : Prog E A) s o :
  option_map fst (eval p s) = Some o -> wp true p (fun o' _ => o' = o) s.
Proof.
  destruct (eval p s) as [[o1 s1]|] eqn:He; [|done]. intros [= <-].
  eapply wp_mono; [by apply eval_sound|]. by intros o' s' [-> _].
Qed.
