(* ===== verification/Locks.v ===== *)
(** * Transactions as locks

    The database allows one write transaction at a time: a second one waits
    until the first is committed or dropped.  A call that started a write
    transaction while it holds one would wait for itself.  [polite st p Q] says
    that the program [p], started with the open transactions [st], begins no
    transaction while it holds a write transaction, commits write transactions
    only and each at most once, and leaves open transactions that satisfy [Q],
    however it ends.  Every call is polite and leaves none open
    ([exec_orderly]). *)

From S2P Require Import Prelude Jammdb Effects Run RustStd Common Buckets Slices Access Inode.
From S2P Require Import Create FsType Link Truncate File Rename Attr Readdir System.

(** An open transaction: one that reads, one that writes, one that has been
    committed and no longer locks. *)
Inductive txstate := TRead | TWrite | TSpent.
#[global] Instance txstate_eq_dec : EqDecision txstate.
Proof. solve_decision. Defined.

Definition begun (wr : bool) : txstate := if wr then TWrite else TRead.
Definition spend (st : list txstate) : list txstate :=
  match st with TWrite :: st => TSpent :: st | st => st end.

(** [G] says which commands a program may use while it writes, apart from
    those on transactions. *)
Fixpoint polite {E A} (G : Cmd -> bool) (st : list txstate) (p : Prog E A) (Q : list txstate -> Prop) : Prop :=
  match p with
  | Done _ => Q st
  | Step c k =>
      match c as c' return (resp c' -> Prog E A) -> Prop with
      | CBegin wr => fun k =>
          (TWrite ∉ st) /\ (wr = true -> st = []) /\ (forall e, polite G st (k (inl e)) Q) /\
          polite G (begun wr :: st) (k (inr tt)) Q
      | CEnd => fun k => polite G (tail st) (k tt) Q
      | CCommit => fun k => head st = Some TWrite /\ forall r, polite G (spend st) (k r) Q
      | _ => fun k => (head st = Some TWrite -> G c = true) /\ forall r, polite G st (k r) Q
      end k
  end.

(** ** Composition *)

Section Composition.
Context (G : Cmd -> bool).

Lemma polite_graft {E A E' B} (g : outcome E A -> Prog E' B) (p : Prog E A) st Q :
  polite G st p (fun st' => forall o, polite G st' (g o) Q) -> polite G st (graft g p) Q.
Proof.
  revert st. induction p as [o|c k IH]; intros st; simpl; [auto|].
  destruct c; simpl; try (intros [H1 H2]; split; [done|]; intros r; by apply IH, H2).
  - intros (H1 & H2 & H3 & H4). split_and!; [done|done|intros e; apply IH, H3|by apply IH].
  - by intros Hk; apply IH.
Qed.

Lemma polite_mono {E A} (p : Prog E A) st (Q Q' : list txstate -> Prop) :
  polite G st p Q -> (forall st', Q st' -> Q' st') -> polite G st p Q'.
Proof.
  intros Hp HQ. revert st Hp. induction p as [o|c k IH]; intros st; simpl; [auto|].
  destruct c; simpl; try (intros [H1 H2]; split; [done|]; intros r; by apply IH, H2).
  - intros (H1 & H2 & H3 & H4). split_and!; [done|done|intros e; apply IH, H3|by apply IH].
  - by intros Hk; apply IH.
Qed.

Lemma polite_bind {E A B} (p : Prog E A) (f : A -> Prog E B) st Q :
  polite G st p (fun st' => Q st' /\ forall a, polite G st' (f a) Q) -> polite G st (bind p f) Q.
Proof.
  intros Hp. apply polite_graft. eapply polite_mono; [exact Hp|]. intros st' [HQ Hf]. by intros [].
Qed.

Lemma polite_map_err {E E' A} (f : E -> E') (p : Prog E A) st Q : polite G st p Q -> polite G st (map_err f p) Q.
Proof. intros Hp. apply polite_graft. eapply polite_mono; [exact Hp|]. by intros st' HQ []. Qed.
Lemma polite_unwrap {E E' A} (p : Prog E A) st Q : polite G st p Q -> polite G st (unwrap (E' := E') p) Q.
Proof. intros Hp. apply polite_graft. eapply polite_mono; [exact Hp|]. by intros st' HQ []. Qed.
Lemma polite_attempt {E E' A} (p : Prog E A) st Q : polite G st p Q -> polite G st (attempt (E' := E') p) Q.
Proof. intros Hp. apply polite_graft. eapply polite_mono; [exact Hp|]. by intros st' HQ []. Qed.

Lemma polite_with_tx {E A} wr onerr (body : Prog E A) st Q :
  TWrite ∉ st -> (wr = true -> st = []) -> Q st ->
  polite G (begun wr :: st) body (fun st' => Q (tail st')) -> polite G st (with_tx wr onerr body) Q.
Proof.
  intros Hw Hs HQ Hb. split_and!; [done|done|done|]. apply polite_graft.
  eapply polite_mono; [exact Hb|]. by intros st' Hst o.
Qed.

Lemma polite_commit st Q : head st = Some TWrite -> Q (spend st) -> polite G st commit Q.
Proof. intros Hh HQ. split; [done|]. by intros []. Qed.
End Composition.

(** ** Programs that use some commands only *)

Definition tx_cmd (c : Cmd) : bool :=
  match c with CBegin _ | CEnd | CCommit => true | _ => false end.

(** The commands on the buckets of the innermost transaction, on the allocator,
    on the global variables. *)
Definition bucket_cmd (c : Cmd) : bool :=
  match c with
  | CGetBucket _ _ | CCreateBucket _ _ | CDeleteBucket _ _ | CGet _ _ | CPut _ _ _ | CDelete _ _
  | CCursor _ | CSeek _ _ | CRange _ _ _ => true
  | _ => false
  end.
Definition heap_cmd (c : Cmd) : bool := match c with CAlloc _ | CDealloc _ _ => true | _ => false end.
Definition global_cmd (c : Cmd) : bool := negb (tx_cmd c || bucket_cmd c || heap_cmd c).

(** What touches nothing that is shared with other calls. *)
Definition op_cmd (c : Cmd) : bool := bucket_cmd c || heap_cmd c.

Fixpoint only {E A} (P : Cmd -> bool) (p : Prog E A) : Prop :=
  match p with
  | Done _ => True
  | Step c k => P c = true /\ forall r, only P (k r)
  end.

(** [flat]: no transaction is begun, ended or committed. *)
Abbreviation flat := (only (fun c => negb (tx_cmd c))).
Abbreviation ops := (only op_cmd).

Class Allows (P : Cmd -> bool) : Prop := allows c : bucket_cmd c = true -> P c = true.
Class AllowsHeap (P : Cmd -> bool) : Prop := allows_heap c : heap_cmd c = true -> P c = true.
Class AllowsGlobals (P : Cmd -> bool) : Prop := allows_globals c : global_cmd c = true -> P c = true.
#[export] Instance allows_ops : Allows op_cmd.
Proof. by intros []. Qed.
#[export] Instance allows_ops_heap : AllowsHeap op_cmd.
Proof. by intros []. Qed.
#[export] Instance allows_flat : Allows (fun c => negb (tx_cmd c)).
Proof. by intros []. Qed.
#[export] Instance allows_flat_heap : AllowsHeap (fun c => negb (tx_cmd c)).
Proof. by intros []. Qed.
#[export] Instance allows_flat_globals : AllowsGlobals (fun c => negb (tx_cmd c)).
Proof. by intros []. Qed.
Lemma allows_op `{!Allows P, !AllowsHeap P} c : op_cmd c = true -> P c = true.
Proof. intros [Hc|Hc]%orb_prop; [by apply allows|by apply allows_heap]. Qed.

(** What a program may do while it writes: anything, or use its own
    transaction only. *)
Definition anything (c : Cmd) : bool := true.
#[export] Instance allows_anything : Allows anything.
Proof. done. Qed.
#[export] Instance allows_anything_heap : AllowsHeap anything.
Proof. done. Qed.

Section Polite.
Context {G : Cmd -> bool} {E A : Type}.
Implicit Types (p : Prog E A) (Q : list txstate -> Prop).

Lemma flat_polite p st Q :
  flat p -> (head st = Some TWrite -> forall c, tx_cmd c = false -> G c = true) -> Q st -> polite G st p Q.
Proof.
  intros Hp HG HQ. induction p as [o|c k IH]; [done|]. destruct Hp as [Hc Hk].
  destruct c; simpl in *; try done; (split; [by intros; apply HG|auto]).
Qed.
Lemma ops_polite `{!Allows G, !AllowsHeap G} p st Q : ops p -> Q st -> polite G st p Q.
Proof.
  intros Hp HQ. induction p as [o|c k IH]; [done|]. destruct Hp as [Hc Hk].
  destruct c; simpl in *; try done; (split; [intros; by apply allows_op|auto]).
Qed.
Lemma flat_outside p st Q : flat p -> head st <> Some TWrite -> Q st -> polite G st p Q.
Proof. intros Hp Hst. apply flat_polite; [done|]. by intros ?%Hst. Qed.
End Polite.
Lemma flat_anything {E A} (p : Prog E A) st (Q : list txstate -> Prop) :
  flat p -> Q st -> polite anything st p Q.
Proof. intros Hp. by apply flat_polite. Qed.

Section Only.
Context (P : Cmd -> bool).
Lemma only_graft {E A E' B} (g : outcome E A -> Prog E' B) p :
  (forall o, only P (g o)) -> only P p -> only P (graft g p).
Proof.
  intros Hg. induction p as [o|c k IH]; simpl; [auto|]. intros [Hc Hk]. split; [done|]. auto.
Qed.
Lemma only_bind {E A B} (p : Prog E A) (f : A -> Prog E B) :
  only P p -> (forall a, only P (f a)) -> only P (bind p f).
Proof. intros Hp Hf. apply only_graft; [|done]. by intros []. Qed.
Lemma only_map_err {E E' A} (f : E -> E') (p : Prog E A) : only P p -> only P (map_err f p).
Proof. apply only_graft. by intros []. Qed.
Lemma only_unwrap {E E' A} (p : Prog E A) : only P p -> only P (unwrap (E' := E') p).
Proof. apply only_graft. by intros []. Qed.
Lemma only_attempt {E E' A} (p : Prog E A) : only P p -> only P (attempt (E' := E') p).
Proof. apply only_graft. by intros []. Qed.
End Only.

Create HintDb flat.
#[export] Hint Resolve allows_ops allows_ops_heap allows_flat allows_flat_heap allows_flat_globals
  allows_anything allows_anything_heap : flat.

(** Decide [only P p] by the shape of [p]: the commands are visible. *)
Ltac flats :=
  repeat first
    [ progress intros
    | match goal with
      | |- only _ (bind _ _) => apply only_bind
      | |- only _ (q _) => apply only_map_err
      | |- only _ (map_err _ _) => apply only_map_err
      | |- only _ (unwrap _) => apply only_unwrap
      | |- only _ (attempt _) => apply only_attempt
      | |- only _ (Done _) => exact I
      | |- only _ (ret _) => exact I
      | |- only _ (throw _) => exact I
      | |- only _ panic => exact I
      end
    | solve [eauto with flat]
    | match goal with
      | |- only _ (Step _ _) => split; [done|]
      | |- only _ (match ?x with _ => _ end) => destruct x
      end ].

Section OnlyCalls.
Context {P : Cmd -> bool} `{!Allows P}.
Ltac only_call := split; [by apply allows|]; intros []; done.

Lemma only_get_bucket p n : only P (get_bucket p n).
Proof. only_call. Qed.
Lemma only_create_bucket p n : only P (create_bucket p n).
Proof. only_call. Qed.
Lemma only_delete_bucket p n : only P (delete_bucket p n).
Proof. only_call. Qed.
Lemma only_put p k v : only P (put p k v).
Proof. only_call. Qed.
Lemma only_bdelete p k : only P (bdelete p k).
Proof. only_call. Qed.
Lemma only_cursor {E} p : only P (cursor (E := E) p).
Proof. only_call. Qed.
Lemma only_seek {E} p k : only P (seek (E := E) p k).
Proof. only_call. Qed.
Lemma only_range {E} p a b : only P (range (E := E) p a b).
Proof. only_call. Qed.
Lemma only_get_kv {E} p k : only P (get_kv (E := E) p k).
Proof. apply only_bind; [only_call|done]. Qed.
Lemma only_unwrap_option {E A} (o : option A) : only P (unwrap_option (E := E) o).
Proof. by destruct o. Qed.
Lemma only_guard_err {E} b (e : E) : only P (guard_err b e).
Proof. by destruct b. Qed.
Lemma only_assert {E} b : only P (assert_prog (E := E) b).
Proof. by destruct b. Qed.
Lemma only_wrapping `{Config} {E} bits z : only P (wrapping (E := E) bits z).
Proof. unfold wrapping. by repeat case_match. Qed.
#[local] Hint Resolve only_get_bucket only_create_bucket only_delete_bucket only_put only_bdelete
  only_cursor only_seek only_range only_get_kv only_unwrap_option only_guard_err only_assert
  only_wrapping : flat.
Lemma only_be_macro {E} w x : only P (be_macro (E := E) w x).
Proof. unfold be_macro. flats. Qed.
#[local] Hint Resolve only_be_macro : flat.
Lemma only_read_be {E} w p k : only P (read_be (E := E) w p k).
Proof. unfold read_be. flats. Qed.
Lemma only_read_time {E} p k : only P (read_time (E := E) p k).
Proof. unfold read_time. flats. Qed.
Lemma only_parse_ino {E} v : only P (parse_ino (E := E) v).
Proof. unfold parse_ino. flats. Qed.
Lemma only_kv_pairs {E} p : only P (kv_pairs (E := E) p).
Proof. unfold kv_pairs. flats. Qed.
Lemma only_for_each {E A} (l : list A) (body : A -> Prog E unit) :
  (forall x, only P (body x)) -> only P (for_each l body).
Proof. intros Hb. induction l; simpl; flats. Qed.
End OnlyCalls.
#[export] Hint Resolve only_get_bucket only_create_bucket only_delete_bucket only_put only_bdelete
  only_cursor only_seek only_range only_get_kv only_unwrap_option only_guard_err only_assert
  only_wrapping : flat.
#[export] Hint Resolve only_be_macro only_read_be only_read_time only_parse_ino only_kv_pairs : flat.

Section OnlyHeap.
Context {P : Cmd -> bool} `{!AllowsHeap P} {E : Type}.
Lemma only_alloc n : only P (alloc (E := E) n).
Proof. split; [by apply allows_heap|]. intros []; done. Qed.
Lemma only_dealloc ptr n : only P (dealloc (E := E) ptr n).
Proof. split; [by apply allows_heap|done]. Qed.
End OnlyHeap.

Section OnlyGlobals.
Context {P : Cmd -> bool} `{!AllowsGlobals P} {E : Type}.
Lemma only_ino_load : only P (ino_load (E := E)).
Proof. split; [by apply allows_globals|done]. Qed.
Lemma only_ino_fetch_add n : only P (ino_fetch_add (E := E) n).
Proof. split; [by apply allows_globals|done]. Qed.
Lemma only_ino_store n : only P (ino_store (E := E) n).
Proof. split; [by apply allows_globals|done]. Qed.
Lemma only_table_get i : only P (table_get (E := E) i).
Proof. split; [by apply allows_globals|done]. Qed.
End OnlyGlobals.
#[export] Hint Resolve only_alloc only_dealloc only_ino_load only_ino_fetch_add only_ino_store
  only_table_get : flat.

(** ** The calls *)

(** A call: it starts and ends without transactions. *)
Definition orderly {E A} (G : Cmd -> bool) (p : Prog E A) : Prop :=
  polite G [] p (fun st' => st' = []).

(** A program that only reads can also run within read transactions. *)
Definition reading {E A} (G : Cmd -> bool) (p : Prog E A) : Prop :=
  forall st, TWrite ∉ st -> polite G st p (fun st' => st' = st).

Lemma reading_orderly {E A} G (p : Prog E A) : reading G p -> orderly G p.
Proof. intros Hp. apply Hp, not_elem_of_nil. Qed.

Section Uses.
Context {G : Cmd -> bool} {E A B : Type}.
Implicit Types (Q : list txstate -> Prop).

Lemma reading_use (p : Prog E A) st Q : reading G p -> TWrite ∉ st -> Q st -> polite G st p Q.
Proof. intros Hp Hst HQ. eapply polite_mono; [by apply Hp|]. by intros ? ->. Qed.
Lemma orderly_use (p : Prog E A) Q : orderly G p -> Q [] -> polite G [] p Q.
Proof. intros Hp HQ. eapply polite_mono; [by apply Hp|]. by intros ? ->. Qed.
Lemma polite_bind_ops `{!Allows G, !AllowsHeap G} (p : Prog E A) (f : A -> Prog E B) st Q :
  ops p -> Q st -> (forall a, polite G st (f a) Q) -> polite G st (bind p f) Q.
Proof. intros Hp HQ Hf. apply polite_bind, ops_polite; auto. Qed.
End Uses.

Lemma no_write_read st : TWrite ∉ st -> TWrite ∉ TRead :: st.
Proof. rewrite list.elem_of_cons. intros H [?|?]; done. Qed.
Lemma no_write_head st : TWrite ∉ st -> head st <> Some TWrite.
Proof. destruct st; simpl; [done|]. rewrite not_elem_of_cons. intros [] [=]. congruence. Qed.
Lemma no_write_nil : TWrite ∉ [].
Proof. apply not_elem_of_nil. Qed.
#[export] Hint Resolve no_write_read no_write_head no_write_nil : flat.

Create HintDb orderly.
(** Follow the shape of a call: what it does before, in and after its
    transactions. *)
Ltac polites :=
  repeat first
    [ progress intros
    | match goal with
      | |- orderly _ _ => unfold orderly
      | |- reading _ _ => intros ? ?
      | |- polite _ (list.tail _) _ _ => progress cbn [list.tail spend begun]
      | |- polite _ _ (tx_q _ _) _ => apply polite_with_tx; [solve [eauto with flat]|done|try done|]
      | |- polite _ _ (tx_unwrap _ _) _ => apply polite_with_tx; [solve [eauto with flat]|done|try done|]
      | |- polite _ _ (with_tx _ _ _) _ => apply polite_with_tx; [solve [eauto with flat]|done|try done|]
      | |- polite _ _ commit _ => apply polite_commit; [done|try done]
      | |- polite _ _ (q _) _ => apply polite_map_err
      | |- polite _ _ (map_err _ _) _ => apply polite_map_err
      | |- polite _ _ (unwrap _) _ => apply polite_unwrap
      | |- polite _ _ (attempt _) _ => apply polite_attempt
      | |- polite _ _ (bind _ _) _ => apply polite_bind_ops; [solve [flats]|try done|]
      | |- polite _ _ ?p _ => apply ops_polite; [solve [flats]|try done]
      | |- polite _ _ ?p _ => apply flat_outside; [solve [flats]|solve [done|eauto with flat]|try done]
      | |- polite _ _ ?p _ => apply flat_anything; [solve [flats]|try done]
      | |- polite _ _ ?p _ => apply reading_use; [solve [eauto with orderly]|solve [eauto with flat]|try done]
      | |- polite _ _ ?p _ => apply orderly_use; [solve [eauto with orderly]|try done]
      | |- polite _ _ (bind _ _) _ => apply polite_bind
      | |- polite _ _ (match ?x with _ => _ end) _ => destruct x
      | |- _ /\ _ => split
      | |- _ = _ => reflexivity
      end ].

Section Calls.
Context `{Config} {G : Cmd -> bool} `{!Allows G, !AllowsHeap G}.

Lemma reading_attr ino : reading G (dbfs_common_attr ino).
Proof. unfold dbfs_common_attr, div64. polites. Qed.
#[local] Hint Resolve reading_attr : orderly.

Lemma orderly_lookup dir name : orderly G (dbfs_common_lookup dir name).
Proof. unfold dbfs_common_lookup. polites. Qed.
Lemma orderly_access uid gid ino mask : orderly G (dbfs_common_access uid gid ino mask).
Proof. unfold dbfs_common_access. polites. Qed.
Lemma orderly_open ino uid gid mask : orderly G (dbfs_common_open ino uid gid mask).
Proof. unfold dbfs_common_open. polites. Qed.
Lemma orderly_readlink ino buf : orderly G (dbfs_common_readlink ino buf).
Proof. unfold dbfs_common_readlink. polites. Qed.
Lemma orderly_statfs b m f : orderly G (dbfs_common_statfs b m f).
Proof. unfold dbfs_common_statfs, div64. polites. Qed.
Lemma orderly_getxattr uid gid ino key buf : orderly G (dbfs_common_getxattr uid gid ino key buf).
Proof. unfold dbfs_common_getxattr, check_err. polites. Qed.
Lemma orderly_setxattr uid gid ino key value t : orderly G (dbfs_common_setxattr uid gid ino key value t).
Proof. unfold dbfs_common_setxattr, check_err. polites. Qed.
Lemma orderly_listxattr ino buf : orderly G (dbfs_common_listxattr ino buf).
Proof. unfold dbfs_common_listxattr. polites. Qed.
Lemma orderly_removexattr uid gid ino key t : orderly G (dbfs_common_removexattr uid gid ino key t).
Proof. unfold dbfs_common_removexattr, check_err. polites. Qed.
Lemma orderly_chmod uid gid ino mode t : orderly G (dbfs_common_chmod uid gid ino mode t).
Proof. unfold dbfs_common_chmod. polites. Qed.
Lemma orderly_chown uid gid ino u g t : orderly G (dbfs_common_chown uid gid ino u g t).
Proof. unfold dbfs_common_chown. polites. Qed.
Lemma orderly_utimens uid gid ino a m t : orderly G (dbfs_common_utimens uid gid ino a m t).
Proof. unfold dbfs_common_utimens. polites. Qed.
Lemma orderly_unlink uid gid dir name ino t : orderly G (dbfs_common_unlink uid gid dir name ino t).
Proof. unfold dbfs_common_unlink. polites. Qed.
Lemma orderly_rmdir uid gid dir name t : orderly G (dbfs_common_rmdir uid gid dir name t).
Proof. unfold dbfs_common_rmdir. polites. Qed.
Lemma orderly_umount : orderly anything dbfs_common_umount.
Proof. unfold dbfs_common_umount. polites. Qed.
Lemma orderly_init_db {E} size : orderly G (init_db (E := E) size).
Proof. unfold init_db. polites. Qed.
Lemma orderly_root uid gid t : orderly anything (dbfs_common_root_inode uid gid t).
Proof. unfold dbfs_common_root_inode. polites. Qed.
Lemma orderly_load_super_blk : orderly G dbfs_load_super_blk.
Proof. unfold dbfs_load_super_blk. polites. Qed.
Lemma orderly_create dir name uid gid t permission target dev :
  orderly G (dbfs_common_create dir name uid gid t permission target dev).
Proof. unfold dbfs_common_create. polites. Qed.
Lemma orderly_link uid gid ino nd nn t : orderly G (dbfs_common_link uid gid ino nd nn t).
Proof. unfold dbfs_common_link. polites. Qed.

Lemma reading_readdir_loop plus es offset buf : reading G (readdir_loop plus es offset buf).
Proof.
  revert offset buf. induction es as [|[k [v|]] es IH]; intros; simpl; unfold readdir_entry; polites;
    eauto; by apply IH.
Qed.
#[local] Hint Resolve reading_readdir_loop : orderly.
Lemma orderly_readdir ino offset plus : orderly G (dbfs_common_readdir ino offset plus).
Proof. unfold dbfs_common_readdir, get_readdir_table. polites. Qed.

Lemma orderly_rename_read_old uid gid dir name : orderly G (rename_read_old uid gid dir name).
Proof. unfold rename_read_old. polites. Qed.
Lemma orderly_rename_read_new uid gid dir name : orderly G (rename_read_new uid gid dir name).
Proof. unfold rename_read_new. polites. Qed.
Lemma only_drop_target `{!Allows P0} p sz new m t : only P0 (rename_drop_target p sz new m t).
Proof. unfold rename_drop_target. flats. Qed.
#[local] Hint Resolve only_drop_target : flat.
Lemma orderly_exchange old new od nd t : orderly G (rename_exchange old new od nd t).
Proof. unfold rename_exchange. polites. Qed.
Lemma orderly_move old new uid gid od nd name t : orderly G (rename_move old new uid gid od nd name t).
Proof. unfold rename_move. polites. Qed.
#[local] Hint Resolve orderly_rename_read_old orderly_rename_read_new orderly_exchange orderly_move : orderly.
Lemma orderly_rename uid gid old_dir old_name new_dir new_name flags t :
  orderly G (dbfs_common_rename uid gid old_dir old_name new_dir new_name flags t).
Proof. unfold dbfs_common_rename. polites. Qed.

Lemma only_free_slice `{!Allows P0} p i : only P0 (free_slice p i).
Proof. unfold free_slice. flats. Qed.
Lemma only_zero_tail `{!Allows P0} p i offset : only P0 (zero_tail p i offset).
Proof. unfold zero_tail. flats. Qed.
Lemma only_read_slice `{!Allows P0} size offset i v buf bo : only P0 (read_slice size offset i v buf bo).
Proof. unfold read_slice. flats. Qed.
#[local] Hint Resolve only_free_slice only_zero_tail only_read_slice only_for_each : flat.
Lemma only_read_gap `{!Allows P0} size offset l buf bo : only P0 (read_gap size offset l buf bo).
Proof. revert buf bo. induction l; intros; simpl; flats. Qed.
#[local] Hint Resolve only_read_gap : flat.
Lemma only_read_loop `{!Allows P0} size offset es buf bo i : only P0 (read_loop size offset es buf bo i).
Proof. revert buf bo i. induction es as [|[k [v|]] es IH]; intros; simpl; flats. Qed.
Lemma only_write_slice `{!Allows P0, !AllowsHeap P0} p k buf count offset len : only P0 (write_slice p k buf count offset len).
Proof. unfold write_slice. flats. Qed.
#[local] Hint Resolve only_read_loop only_write_slice : flat.
Lemma only_write_loop `{!Allows P0, !AllowsHeap P0} fuel p buf num offset count ptrs :
  only P0 (write_loop fuel p buf num offset count ptrs).
Proof. revert num offset count ptrs. induction fuel; intros; simpl; flats. Qed.
#[local] Hint Resolve only_write_loop : flat.

Lemma orderly_truncate uid gid ino t size : orderly G (dbfs_common_truncate uid gid ino t size).
Proof. unfold dbfs_common_truncate. polites. Qed.
Lemma orderly_fallocate uid gid ino offset size mode t :
  orderly G (dbfs_common_fallocate uid gid ino offset size mode t).
Proof. unfold dbfs_common_fallocate. polites. Qed.
Lemma orderly_read ino buf offset : orderly G (dbfs_common_read ino buf offset).
Proof. unfold dbfs_common_read. polites. Qed.
Lemma orderly_write ino buf offset : orderly G (dbfs_common_write ino buf offset).
Proof. unfold dbfs_common_write. polites. Qed.
#[local] Hint Resolve orderly_read orderly_write : orderly.
Lemma orderly_copy_range src os dest od len t :
  orderly G (dbfs_common_copy_file_range src os dest od len t).
Proof. unfold dbfs_common_copy_file_range. polites. Qed.

Lemma orderly_drop {E A} (p : Prog E A) G' : orderly G' p -> orderly G' (p;; ret tt).
Proof.
  intros Hp. apply polite_bind. eapply polite_mono; [by apply Hp|]. by intros ? ->.
Qed.

(** The calls that leave the globals alone while they write: all but those of
    the mount and the unmount. *)
Definition call_local (c : Call) : bool :=
  match c with CallRoot _ _ _ | CallUmount => false | _ => true end.

Lemma exec_local c : call_local c = true -> orderly G (exec c).
Proof.
  destruct c; cbn [exec call_local]; intros Hc; try done; try apply orderly_drop;
    eauto using orderly_init_db, reading_orderly, reading_attr, orderly_lookup,
      orderly_access, orderly_open, orderly_readdir, orderly_readlink, orderly_statfs,
      orderly_create, orderly_link, orderly_unlink, orderly_rmdir, orderly_rename, orderly_read,
      orderly_write, orderly_copy_range, orderly_truncate, orderly_fallocate, orderly_setxattr,
      orderly_getxattr, orderly_listxattr, orderly_removexattr, orderly_chmod, orderly_chown,
      orderly_utimens.
Qed.
End Calls.
#[export] Hint Resolve only_drop_target only_free_slice only_zero_tail only_read_loop only_write_slice
  only_write_loop only_for_each : flat.

(** Every call is orderly. *)
Lemma exec_orderly `{Config} c : orderly anything (exec c).
Proof.
  destruct (call_local c) eqn:Hc; [by apply exec_local, Hc|].
  destruct c; try done; cbn [exec]; [apply orderly_drop, orderly_root|apply orderly_umount].
Qed.
