(* ===== verification/Concur.v ===== *)
(** * Calls that run at the same time

    A kernel calls DBFS from several threads.  The database and the globals are
    shared; every thread has its own open transactions, which see the contents
    at the time they were begun.  [tstep i s] lets thread [i] do one command of
    its current call, with the [handle] of the sequential model.  The database
    has one write lock: [DB::tx(true)] waits until it is free, and it is held
    until the transaction is committed or dropped.  Read transactions wait for
    nothing.  The counter and the readdir table are an atomic and a map behind
    a lock of their own: one command on them is one step. *)

From stdpp Require Import relations.
From S2P Require Import Prelude Jammdb Effects Run RustStd Common Safe Typed System Samples Locks.

(** ** Threads *)

Record Thread `{Platform} := mkTh {
  th_todo : list Call;                          (** calls not yet made *)
  th_prog : option (Prog DbfsError unit);       (** the rest of the current call *)
  th_txs : list Tx;                             (** its open transactions, innermost first *)
  th_done : list (outcome DbfsError unit)       (** results of the calls made *)
}.
Arguments mkTh {_} _ _ _ _.

Record CState `{Platform} := mkC {
  cs_db : Db;
  cs_ino : Z;
  cs_tbl : gmap Z ReadDirInfo;
  cs_heap : Heap;
  cs_lock : option nat;                         (** the thread that holds the write lock *)
  cs_threads : list Thread
}.
Arguments mkC {_} _ _ _ _ _ _.

Section Steps.
Context `{Config} `{Platform}.

(** What a thread sees: the shared state and its own transactions. *)
Definition solo (s : CState) (t : Thread) : World :=
  mkW (cs_db s) (th_txs t) (cs_ino s) (cs_tbl s) (cs_heap s).

(** The command has to wait for the write lock. *)
Definition waits (s : CState) (c : Cmd) : bool :=
  match c with CBegin true => bool_decide (cs_lock s <> None) | _ => false end.

Definition writing (txs : list Tx) : bool :=
  match txs with t :: _ => tx_writable t | [] => false end.

(** The lock after thread [i], whose transactions were [txs], got the answer
    [r] to [c]. *)
Definition next_lock (i : nat) (txs : list Tx) (lock : option nat) (c : Cmd) (r : resp c)
  : option nat :=
  match c as c' return resp c' -> option nat with
  | CBegin true => fun r => match r with inr _ => Some i | inl _ => lock end
  | CCommit | CEnd => fun _ =>
      if writing txs && bool_decide (lock = Some i) then None else lock
  | _ => fun _ => lock
  end r.

Definition set_thread (s : CState) (i : nat) (t : Thread) : CState :=
  mkC (cs_db s) (cs_ino s) (cs_tbl s) (cs_heap s) (cs_lock s) (<[i := t]> (cs_threads s)).

(** Thread [i] starts its next call, does a command of it, or returns from it;
    [None] when it has nothing to do or has to wait. *)
Definition tstep (i : nat) (s : CState) : option CState :=
  cs_threads s !! i ≫= fun t =>
  match th_prog t with
  | None =>
      match th_todo t with
      | [] => None
      | c :: cs => Some (set_thread s i (mkTh cs (Some (exec c)) (th_txs t) (th_done t)))
      end
  | Some (Done o) =>
      Some (set_thread s i (mkTh (th_todo t) None (th_txs t) (th_done t ++ [o])))
  | Some (Step c k) =>
      if waits s c then None
      else
        let '(r, w) := handle c (solo s t) in
        Some (mkC (w_db w) (w_ino w) (w_tbl w) (w_heap w)
                (next_lock i (th_txs t) (cs_lock s) c r)
                (<[i := mkTh (th_todo t) (Some (k r)) (w_txs w) (th_done t)]> (cs_threads s)))
  end.

Inductive cstep (s s' : CState) : Prop :=
  | cstep_at i : tstep i s = Some s' -> cstep s s'.

(** A schedule: which thread steps next.  A thread that cannot is skipped. *)
Definition schedule (l : list nat) (s : CState) : CState :=
  foldl (fun s i => default s (tstep i s)) s l.

(** No thread has begun. *)
Definition idle (t : Thread) : Prop := th_prog t = None /\ th_txs t = [] /\ th_done t = [].
Definition initial (s : CState) : Prop := cs_lock s = None /\ Forall idle (cs_threads s).

Lemma schedule_run l s : rtc cstep s (schedule l s).
Proof.
  revert s. induction l as [|i l IH]; intros s; simpl; [constructor|].
  destruct (tstep i s) as [s'|] eqn:E; simpl; [|apply IH].
  eapply rtc_l; [by econstructor|apply IH].
Qed.

(** The three kinds of step. *)
Lemma tstep_inv i s s' :
  tstep i s = Some s' -> exists t, cs_threads s !! i = Some t /\
    ((exists c cs, th_prog t = None /\ th_todo t = c :: cs /\
        s' = set_thread s i (mkTh cs (Some (exec c)) (th_txs t) (th_done t))) \/
     (exists o, th_prog t = Some (Done o) /\
        s' = set_thread s i (mkTh (th_todo t) None (th_txs t) (th_done t ++ [o]))) \/
     (exists c k r w, th_prog t = Some (Step c k) /\ waits s c = false /\
        handle c (solo s t) = (r, w) /\
        s' = mkC (w_db w) (w_ino w) (w_tbl w) (w_heap w)
               (next_lock i (th_txs t) (cs_lock s) c r)
               (<[i := mkTh (th_todo t) (Some (k r)) (w_txs w) (th_done t)]> (cs_threads s)))).
Proof.
  unfold tstep. intros Hs. apply bind_Some in Hs as (t & Ht & Hs). exists t. split; [done|].
  destruct (th_prog t) as [[o|c k]|] eqn:Ep.
  - right. left. simplify_eq. eauto.
  - right. right. destruct (waits s c) eqn:Ew; [done|].
    destruct (handle c (solo s t)) as [r w] eqn:Eh. simplify_eq. eauto 10.
  - left. destruct (th_todo t) as [|c cs]; [done|]. simplify_eq. eauto.
Qed.
End Steps.

(** ** The write lock *)

Section LockInvariant.
Context `{Config} `{Platform} (G : Cmd -> bool).

Definition twrites (x : txstate) : bool := match x with TRead => false | _ => true end.

(** The transactions of thread [i] are in the states [st]; it holds the lock
    iff the innermost one is a write transaction that is not committed. *)
Record held (lock : option nat) (i : nat) (txs : list Tx) (st : list txstate) : Prop := {
  held_txs : tx_writable <$> txs = twrites <$> st;
  held_top : TWrite ∉ tail st;
  held_lock : lock = Some i <-> head st = Some TWrite
}.

Definition call_ready (lock : option nat) (i : nat) (t : Thread) : Prop :=
  match th_prog t with
  | None => th_txs t = [] /\ lock <> Some i
  | Some p => exists st, polite G st p (fun st' => st' = []) /\ held lock i (th_txs t) st
  end.

(** The rest of the current call is polite, and so are the calls to come. *)
Definition thread_ok (lock : option nat) (i : nat) (t : Thread) : Prop :=
  call_ready lock i t /\ Forall (fun c => orderly G (exec c)) (th_todo t).

Record locks_ok (s : CState) : Prop := {
  lo_threads : forall i t, cs_threads s !! i = Some t -> thread_ok (cs_lock s) i t;
  lo_holder : forall i, cs_lock s = Some i -> (i < length (cs_threads s))%nat
}.

Lemma in_tx_writable {A} w (f : Tx -> jres A * Tx) :
  (forall t, tx_writable (f t).2 = tx_writable t) ->
  tx_writable <$> w_txs (in_tx w f).2 = tx_writable <$> w_txs w.
Proof.
  intros Hf. unfold in_tx. destruct (w_txs w) as [|t ts] eqn:E; simpl; [by rewrite E|].
  specialize (Hf t). destruct (f t); simpl in *. by rewrite Hf.
Qed.

(** Commands on buckets, globals and the allocator leave the stack of
    transactions alone. *)
Lemma handle_writable c w :
  tx_cmd c = false -> tx_writable <$> w_txs (handle c w).2 = tx_writable <$> w_txs w.
Proof.
  destruct c; simpl; intros Hc; try done; try (unfold read_tx; by apply in_tx_writable);
    try (apply in_tx_writable; intros t).
  - apply j_create_bucket_writable.
  - apply j_delete_bucket_writable.
  - apply j_put_writable.
  - apply j_delete_writable.
  - by destruct (heap_alloc (w_heap w) n).
Qed.

Lemma writing_head txs st lock i : held lock i txs st -> head st = Some TWrite -> writing txs = true.
Proof.
  intros [Ht _ _] Hh. destruct st as [|x st], txs as [|t txs]; simplify_eq/=; auto.
Qed.

(** The transactions and the lock of the thread that does a command. *)
Lemma held_step i lock txs (s : CState) t c {E A} (k : resp c -> Prog E A) r w Q st :
  cs_lock s = lock -> th_txs t = txs -> waits s c = false -> handle c (solo s t) = (r, w) ->
  polite G st (Step c k) Q -> held lock i txs st ->
  exists st', polite G st' (k r) Q /\ held (next_lock i txs lock c r) i (w_txs w) st'.
Proof.
  intros <- <- Hw Hh Hp Hst. pose proof Hst as [Htx Htop Hlock].
  destruct (tx_cmd c) eqn:Ec.
  - destruct c; try done; simpl in Hh, Hp.
    + destruct Hp as (Hno & _ & Hf & Hk).
      destruct (db_tx (cs_db s) writable) as [[e|t'] d] eqn:Et; simplify_eq/=.
      * exists st. split; [done|]. by destruct writable.
      * exists (begun writable :: st). split; [done|]. apply db_tx_view in Et as [_ Hwr].
        split; simpl.
        { change (tx_writable t' :: (tx_writable <$> th_txs t)
                  = twrites (begun writable) :: (twrites <$> st)).
          rewrite Hwr, Htx. by destruct writable. }
        { done. }
        destruct writable; simpl; [done|]. rewrite Hlock.
        split; [|done]. by intros ?%no_write_head.
    + simplify_eq/=. exists (tail st). split; [done|]. split.
      * destruct (th_txs t), st; simplify_eq/=; auto.
      * destruct st as [|x st]; [done|]. simpl in *. destruct st; [done|]. simpl.
        by apply not_elem_of_cons in Htop as [].
      * destruct (decide (head st = Some TWrite)) as [Hd|Hd].
        -- rewrite (writing_head _ _ _ _ Hst Hd). rewrite bool_decide_true by (by apply Hlock).
           simpl. split; [done|]. by intros ?%no_write_head.
        -- assert (Hl : cs_lock s <> Some i) by (by rewrite Hlock).
           rewrite (bool_decide_false _ Hl), andb_false_r.
           split; [done|]. by intros ?%no_write_head.
    + destruct Hp as [Hhd Hk]. exists (spend st). split; [done|].
      assert (Htxs : w_txs w = th_txs t).
      { destruct (th_txs t) as [|t' ts] eqn:Ets; simplify_eq/=; [by rewrite Ets|].
        destruct (db_commit (cs_db s) t'); by simplify_eq/=. }
      pose proof (writing_head _ _ _ _ Hst Hhd) as Hwr.
      split; rewrite ?Htxs.
      * destruct st as [|[] st]; simplify_eq/=. by rewrite Htx.
      * by destruct st as [|[] st]; simplify_eq/=.
      * simpl. rewrite Hwr. rewrite bool_decide_true by (by apply Hlock). simpl.
        destruct st as [|[] st]; simplify_eq/=. done.
  - exists st. split; [destruct c; simpl in Hp; try done; apply Hp|]. split.
    + pose proof (handle_writable c (solo s t) Ec) as Hx. rewrite Hh in Hx. simpl in Hx.
      by rewrite Hx.
    + done.
    + by destruct c.
Qed.

(** No other thread gets or loses the lock. *)
Lemma next_lock_other (s : CState) i j txs c r :
  i <> j -> waits s c = false ->
  next_lock i txs (cs_lock s) c r = Some j <-> cs_lock s = Some j.
Proof.
  intros Hij Hw. destruct c; simpl; try done.
  - destruct writable; [|done]. simpl in Hw. apply bool_decide_eq_false in Hw. apply dec_stable in Hw.
    rewrite Hw. destruct r; simpl; split; congruence.
  - destruct (writing txs); simpl; [|done]. case_bool_decide; [|done]. split; congruence.
  - destruct (writing txs); simpl; [|done]. case_bool_decide; [|done]. split; congruence.
Qed.

Lemma thread_ok_lock lock lock' i t :
  (lock' = Some i <-> lock = Some i) -> thread_ok lock i t -> thread_ok lock' i t.
Proof.
  intros Hl. unfold thread_ok, call_ready. destruct (th_prog t); intros [Hr Ht]; (split; [|done]).
  - destruct Hr as (st & Hp & [H1 H2 H3]). exists st. split; [done|]. split; auto. by rewrite Hl.
  - destruct Hr as [? Hn]. split; [done|]. by rewrite Hl.
Qed.

(** The threads after thread [i] became [t']. *)
Lemma threads_ok_insert (s : CState) lock i t' :
  (forall j, i <> j -> lock = Some j <-> cs_lock s = Some j) ->
  locks_ok s -> thread_ok lock i t' ->
  forall j t, <[i := t']> (cs_threads s) !! j = Some t -> thread_ok lock j t.
Proof.
  intros Hl [Hts _] Ht' j t. destruct (decide (i = j)) as [<-|Hij].
  - intros Hj. by apply list_lookup_insert_Some in Hj as [(_ & <- & _)|[? _]].
  - rewrite list_lookup_insert_ne by done. intros Hj. eapply thread_ok_lock; [by apply Hl|eauto].
Qed.

Lemma locks_ok_step s s' : locks_ok s -> cstep s s' -> locks_ok s'.
Proof.
  intros Hs [i Hi]. pose proof Hs as [Hts Hh].
  apply tstep_inv in Hi as (t & Ht & [(c & cs & Hp & Hc & ->)|[(o & Hp & ->)|(c & k & r & w & Hp & Hw & Hr & ->)]]);
    pose proof (Hts i t Ht) as [Hok Htd]; unfold call_ready in Hok; rewrite Hp in Hok.
  - split; simpl; [|intros j; rewrite length_insert; apply Hh].
    apply threads_ok_insert; [done|done|]. destruct Hok as [-> Hl].
    rewrite Hc in Htd. apply list.Forall_cons in Htd as [Hcall Htd]. split; [|done].
    exists []. split; [exact Hcall|]. split; simpl; [done|apply not_elem_of_nil|]. by split.
  - split; simpl; [|intros j; rewrite length_insert; apply Hh].
    apply threads_ok_insert; [done|done|]. split; [|done]. unfold call_ready; simpl.
    destruct Hok as (st & Hst & [H1 _ H3]). simpl in Hst. subst st. destruct (th_txs t); [|done].
    split; [done|]. rewrite H3. done.
  - destruct Hok as (st & Hst & Hheld).
    destruct (held_step i _ _ s t c k r w _ st eq_refl eq_refl Hw Hr Hst Hheld) as (st' & Hst' & Hheld').
    assert (Hl : forall j, i <> j -> next_lock i (th_txs t) (cs_lock s) c r = Some j <-> cs_lock s = Some j)
      by (intros; by apply next_lock_other).
    split; simpl.
    + apply threads_ok_insert; [done|done|]. split; [|done]. unfold call_ready; simpl. eauto.
    + intros j Hj. rewrite length_insert. destruct (decide (i = j)) as [<-|Hij].
      * by apply lookup_lt_Some in Ht.
      * by apply Hh, Hl.
Qed.

(** All the calls of the threads are orderly. *)
Definition calls_orderly (s : CState) : Prop :=
  Forall (fun t => Forall (fun c => orderly G (exec c)) (th_todo t)) (cs_threads s).

Lemma locks_ok_initial s : initial s -> calls_orderly s -> locks_ok s.
Proof.
  intros [Hl Hts] Hc. split; rewrite Hl; [|done]. intros i t Ht.
  apply (Forall_lookup_1 _ _ i t) in Hts as (Hp & Htx & _); [|done].
  split; [|by apply (Forall_lookup_1 _ _ i t Hc)]. unfold call_ready. by rewrite Hp.
Qed.

Lemma locks_ok_reach s s' : initial s -> calls_orderly s -> rtc cstep s s' -> locks_ok s'.
Proof.
  intros Hi Hc Hr. apply locks_ok_initial in Hi; [clear Hc|done].
  induction Hr as [|s s1 s2 Hs _ IH]; [done|]. apply IH. by eapply locks_ok_step.
Qed.

(** ** Progress *)

(** A thread that is in a call, and does not wait, can step. *)
Lemma tstep_runs s i t p :
  cs_threads s !! i = Some t -> th_prog t = Some p ->
  (forall c k, p = Step c k -> waits s c = false) -> exists s', tstep i s = Some s'.
Proof.
  intros Ht Hp Hw. unfold tstep. rewrite Ht. simpl. rewrite Hp. destruct p as [o|c k]; [eauto|].
  rewrite (Hw c k eq_refl). destruct (handle c (solo s t)). eauto.
Qed.

(** The holder of the lock does not wait. *)
Lemma holder_runs s i : locks_ok s -> cs_lock s = Some i -> exists s', tstep i s = Some s'.
Proof.
  intros [Hts Hh] Hl. destruct (lookup_lt_is_Some_2 _ _ (Hh i Hl)) as [t Ht].
  pose proof (Hts i t Ht) as [Hok _]. unfold call_ready in Hok. rewrite Hl in Hok.
  destruct (th_prog t) as [p|] eqn:Ep; [|by destruct Hok].
  destruct Hok as (st & Hp & [_ _ H3]). apply (tstep_runs s i t p); auto.
  intros c k ->. destruct c; try done. destruct writable; [|done].
  destruct Hp as (Hno & _). exfalso. apply (no_write_head _ Hno). by apply H3.
Qed.

(** A state in which nothing can happen has no call left to make or to end. *)
Lemma stuck_finished s :
  locks_ok s -> nf cstep s ->
  cs_lock s = None /\ Forall (fun t => th_todo t = [] /\ th_prog t = None /\ th_txs t = []) (cs_threads s).
Proof.
  intros Hs Hnf. assert (Hno : forall i s', tstep i s <> Some s').
  { intros i s' Hi. apply Hnf. exists s'. by econstructor. }
  assert (Hl : cs_lock s = None).
  { destruct (cs_lock s) as [i|] eqn:El; [|done].
    destruct (holder_runs s i Hs El) as [s' Hs']. by destruct (Hno i s'). }
  split; [done|]. apply Forall_lookup_2. intros i t Ht.
  pose proof (lo_threads s Hs i t Ht) as [Hok _]. unfold call_ready in Hok.
  destruct (th_prog t) as [p|] eqn:Ep.
  - destruct (tstep_runs s i t p Ht Ep) as [s' Hs']; [|by destruct (Hno i s')].
    intros c k _. destruct c; try done. destruct writable; [|done]. simpl. by rewrite Hl.
  - destruct (th_todo t) as [|c cs] eqn:Ec; [by destruct Hok|].
    exfalso. eapply (Hno i). unfold tstep. rewrite Ht. simpl. by rewrite Ep, Ec.
Qed.
End LockInvariant.

(** ** Termination *)

Section Termination.
Context `{Config} `{Platform}.

(** [p'] is what is left of [p] after its first command. *)
Definition child {E A} (p' p : Prog E A) : Prop :=
  match p with Done _ => False | Step c k => exists r, p' = k r end.

Inductive thread_step : Thread -> Thread -> Prop :=
  | thread_start c cs txs dn p : thread_step (mkTh (c :: cs) None txs dn) (mkTh cs (Some p) txs dn)
  | thread_return cs p o txs dn : thread_step (mkTh cs (Some p) txs dn) (mkTh cs None txs (dn ++ [o]))
  | thread_cmd cs p p' txs txs' dn :
      child p' p -> thread_step (mkTh cs (Some p) txs dn) (mkTh cs (Some p') txs' dn).

Lemma thread_sn_prog cs :
  (forall txs dn, sn thread_step (mkTh cs None txs dn)) ->
  forall p txs dn, sn thread_step (mkTh cs (Some p) txs dn).
Proof.
  intros Hn p. induction p as [o|c k IH]; intros txs dn; constructor; intros t' Ht';
    inversion Ht' as [|? ? ? ? ?|? ? ? ? ? ? Hc]; simplify_eq; auto; simpl in Hc; [done|].
  destruct Hc as [r ->]. apply IH.
Qed.

(** A program has finitely many commands to go, a thread finitely many calls. *)
Lemma thread_sn t : sn thread_step t.
Proof.
  destruct t as [todo prog txs dn]. revert prog txs dn. induction todo as [|c cs IHcs].
  - assert (Hn : forall txs dn, sn thread_step (mkTh [] None txs dn))
      by (intros; constructor; intros t' Ht'; inversion Ht').
    intros [p|]; [by apply thread_sn_prog|done].
  - assert (Hn : forall txs dn, sn thread_step (mkTh (c :: cs) None txs dn))
      by (intros; constructor; intros t' Ht'; inversion Ht'; simplify_eq; apply IHcs).
    intros [p|]; [by apply thread_sn_prog|done].
Qed.

(** One of the threads steps. *)
Definition one_steps (l l' : list Thread) : Prop :=
  exists i t t', l !! i = Some t /\ thread_step t t' /\ l' = <[i := t']> l.

Lemma one_steps_sn l : sn one_steps l.
Proof.
  induction l as [|t l IH].
  - constructor. intros l' (i & t & t' & Hi & _). by rewrite lookup_nil in Hi.
  - revert t. assert (Hg : forall t, sn thread_step t -> sn one_steps (t :: l)); [|by intros; apply Hg, thread_sn].
    intros t Ht. revert t Ht. induction IH as [l _ IHl]. intros t Ht.
    induction Ht as [t Ht IHt]. constructor. intros l' ([|i] & u & u' & Hi & Hu & ->); simplify_eq/=.
    + by apply IHt.
    + apply IHl; [exists i, u, u'; auto|by constructor].
Qed.

Lemma cstep_one s s' : cstep s s' -> one_steps (cs_threads s) (cs_threads s').
Proof.
  intros [i Hi].
  apply tstep_inv in Hi as (t & Ht & [(c & cs & Hp & Hc & ->)|[(o & Hp & ->)|(c & k & r & w & Hp & Hw & Hr & ->)]]);
    destruct t as [todo prog txs dn]; simpl in *; subst; eexists i, _, _; (split_and!; [done| |done]);
    constructor. simpl. eauto.
Qed.

(** Every run of the system is finite. *)
Lemma cstep_sn s : sn cstep s.
Proof.
  pose proof (one_steps_sn (cs_threads s)) as Hl. remember (cs_threads s) as l eqn:El.
  revert s El. induction Hl as [l _ IH]. intros s ->. constructor. intros s' Hs'.
  apply (IH (cs_threads s')); [by apply cstep_one|done].
Qed.

(** ** The number of calls of a thread does not change *)

Definition calls_of (t : Thread) : nat :=
  length (th_done t) + length (th_todo t) + match th_prog t with Some _ => 1 | None => 0 end.

Lemma thread_step_calls t t' : thread_step t t' -> calls_of t' = calls_of t.
Proof. intros []; unfold calls_of; simpl; rewrite ?length_app; simpl; lia. Qed.

Lemma cstep_calls s s' : cstep s s' -> calls_of <$> cs_threads s' = calls_of <$> cs_threads s.
Proof.
  intros (i & t & t' & Ht & Hs & ->)%cstep_one. rewrite list_fmap_insert, (thread_step_calls t t' Hs).
  apply list_insert_id. by rewrite list_lookup_fmap, Ht.
Qed.

Lemma reach_calls s s' : rtc cstep s s' -> calls_of <$> cs_threads s' = calls_of <$> cs_threads s.
Proof. induction 1 as [|s s1 s2 Hs _ IH]; [done|]. rewrite IH. by apply cstep_calls. Qed.

(** C7: calls made at the same time by any number of threads never block each
    other for good.  However the threads are scheduled and whatever the
    platform answers, the run ends, and when it does every thread has a result
    for every one of its calls, no transaction is open and the write lock is
    free. *)
Theorem calls_complete s :
  initial s ->
  sn cstep s /\
  forall s', rtc cstep s s' -> nf cstep s' ->
    cs_lock s' = None /\
    Forall2 (fun t t' => th_todo t' = [] /\ th_prog t' = None /\ th_txs t' = [] /\
                         length (th_done t') = length (th_todo t))
      (cs_threads s) (cs_threads s').
Proof.
  intros Hi. split; [apply cstep_sn|]. intros s' Hr Hnf.
  assert (Hc0 : calls_orderly anything s)
    by (apply list.Forall_forall; intros; apply list.Forall_forall; intros; apply exec_orderly).
  destruct (stuck_finished anything s' (locks_ok_reach _ s s' Hi Hc0 Hr) Hnf) as [Hl Hts]. split; [done|].
  destruct Hi as [_ Hidle]. pose proof (reach_calls s s' Hr) as Hc.
  apply Forall2_same_length_lookup_2.
  { apply (f_equal length) in Hc. by rewrite !length_fmap in Hc. }
  intros i t t' Ht Ht'. apply (Forall_lookup_1 _ _ i t') in Hts as (H1 & H2 & H3); [|done].
  apply (Forall_lookup_1 _ _ i t) in Hidle as (G1 & G2 & G3); [|done].
  apply (f_equal (.!! i)) in Hc. rewrite !list_lookup_fmap, Ht, Ht' in Hc. simpl in Hc.
  injection Hc as Hc. unfold calls_of in Hc. rewrite H1, H2, G1, G3 in Hc. simpl in Hc.
  split_and!; auto. lia.
Qed.
End Termination.

(** ** Types *)

Section ConcurrentTypes.
Context `{Config} `{Platform}.

Record typed_thread (t : Thread) : Prop := {
  tt_txs : Forall (fun x => typed_view (tx_view x)) (th_txs t);
  tt_prog : forall p, th_prog t = Some p -> tsafe p (fun _ => True);
  tt_todo : Forall call_ok (th_todo t)
}.
Record typed_cstate (s : CState) : Prop := {
  tc_db : typed_view (db_view (cs_db s));
  tc_ino : u64 (cs_ino s);
  tc_threads : Forall typed_thread (cs_threads s)
}.

Lemma typed_set_thread s i t : typed_cstate s -> typed_thread t -> typed_cstate (set_thread s i t).
Proof. intros [H1 H2 H3] Ht. split; simpl; auto using Forall_insert. Qed.

Lemma typed_cstep s s' : typed_cstate s -> cstep s s' -> typed_cstate s'.
Proof.
  intros Hs [i Hi]. pose proof Hs as [Hdb Hino Hts].
  apply tstep_inv in Hi as (t & Ht & [(c & cs & Hp & Hc & ->)|[(o & Hp & ->)|(c & k & r & w & Hp & Hw & Hr & ->)]]);
    pose proof (Forall_lookup_1 _ _ i t Hts Ht) as [Htx Hpr Htd].
  - rewrite Hc in Htd. apply list.Forall_cons in Htd as [Hok Htd].
    apply typed_set_thread; [done|]. split; simpl; auto. intros p [= <-]. by apply exec_tsafe.
  - by apply typed_set_thread.
  - destruct (Hpr _ Hp) as [Hreq Hk].
    assert (Hsolo : typed_world (solo s t)) by (by split).
    pose proof (typed_handle c (solo s t) Hreq Hsolo) as Hh. rewrite Hr in Hh.
    destruct Hh as [[W1 W2 W3] Hens]. split; simpl; auto. apply Forall_insert; [done|].
    split; simpl; auto. intros p [= <-]. by apply Hk.
Qed.

(** C20: the values in the database keep their types when calls run at the same
    time: in every state that any number of threads can reach, in the middle
    of their calls and in any interleaving, every stored value has the type of
    its key. *)
Theorem concurrent_typed s s' :
  initial s -> typed_view (db_view (cs_db s)) -> u64 (cs_ino s) ->
  Forall (fun t => Forall call_ok (th_todo t)) (cs_threads s) ->
  rtc cstep s s' -> typed_view (db_view (cs_db s')).
Proof.
  intros [_ Hidle] Hdb Hino Hok Hr. assert (Hs : typed_cstate s).
  { split; auto. rewrite list.Forall_forall in Hidle, Hok |- *. intros t Ht.
    destruct (Hidle t Ht) as (Hp & Hx & _). split; [by rewrite Hx|by rewrite Hp|by apply Hok]. }
  assert (Hs' : typed_cstate s'); [|apply Hs'].
  clear -Hr Hs. induction Hr as [|s s1 s2 H1 _ IH]; [done|]. apply IH. by eapply typed_cstep.
Qed.
End ConcurrentTypes.

(** ** Two threads *)

Section ConcurWitness.
#[local] Existing Instance cfg512.
#[local] Existing Instance map_platform.

Definition start_threads (w : World) (todo : list (list Call)) : CState :=
  mkC (w_db w) (w_ino w) (w_tbl w) (w_heap w) None ((fun cs => mkTh cs None [] []) <$> todo).

Lemma start_initial w todo : initial (start_threads w todo).
Proof. split; [done|]. simpl. apply list.Forall_forall. intros t (cs & -> & _)%list_elem_of_fmap. done. Qed.

(** One thread creates a file in the root while another removes one. *)
Definition two_threads : CState :=
  start_threads sample_world
    [[CallCreate 1 (bs "bar") 0 0 t1 (Z.lor Perm.S_IFREG 0x1a4) None None];
     [CallUnlink 0 0 1 (bs "foo") None t1; CallLookup 1 (bs "bar")]].

Lemma calls_complete_witness :
  sn cstep two_threads /\
  forall s', rtc cstep two_threads s' -> nf cstep s' ->
    cs_lock s' = None /\
    Forall2 (fun t t' => th_todo t' = [] /\ th_prog t' = None /\ th_txs t' = [] /\
                         length (th_done t') = length (th_todo t))
      (cs_threads two_threads) (cs_threads s').
Proof. apply calls_complete. apply start_initial. Defined.

(** One thread makes and mounts a file system, another tries to use it. *)
Definition mkfs_threads : CState :=
  start_threads blank [[CallMkfs (2 ^ 20); CallRoot 0 0 t0];
    [CallCreate 1 (bs "foo") 0 0 t1 (Z.lor Perm.S_IFREG 0x1a4) None None]].

Lemma concurrent_typed_witness :
  typed_view (db_view (cs_db (schedule (concat (replicate 70 [0; 1]%nat)) mkfs_threads))).
Proof.
  apply (concurrent_typed mkfs_threads); [apply start_initial| | | |apply schedule_run].
  - intros p b. simpl. by rewrite lookup_empty.
  - unfold u64. simpl. lia.
  - simpl. repeat constructor; simpl; unfold u64; lia.
Defined.
End ConcurWitness.
