(* ===== verification/Serial.v ===== *)
(** * Calls that run at the same time are serialized

    However the commands of the threads interleave, the committed contents go
    through a log of commits, each by one thread.  A call goes through the log
    ([work]): while it holds its write transaction no other thread commits, so
    that its commit replaces the contents the transaction began with; at other
    times the log moves on by commits of others.  [calls_serialize] says that
    every thread makes its calls in order along one and the same log, with the
    results it records, and that the commits of the thread in the log are those
    of its calls: none is made twice, overwritten unseen or lost.  A call with
    one transaction takes place at one moment of the log, as if it were
    alone.

    [alone n p V o V'] says that the program [p], run by itself from the
    committed contents [V], ends with [o] and leaves [V'].  The proof turns the
    steps a thread does between those of others into such a run, on the
    platform that gives the same answers ([oracle_platform]). *)

From stdpp Require Import relations.
From S2P Require Import Prelude Jammdb Effects Run RustStd Common Buckets Slices Access Inode.
From S2P Require Import Create FsType Link Truncate File Rename Attr Readdir Atomic System Samples.
From S2P Require Import Abstract Locks Concur.

(** ** A program by itself *)

(** On some platform, the program [p] alone, started with the counter at [n],
    ends with [o] and takes the committed contents from [V] to [V']. *)
Definition alone {E A} (n : Z) (p : Prog E A) (V : view) (o : outcome E A) (V' : view) : Prop :=
  exists (K : Platform) (w : World),
    db_view (w_db w) = V /\ w_txs w = [] /\ w_ino w = n /\
    (run p w).1 = o /\ db_view (w_db (run p w).2) = V'.

(** The steps of a program are those of a run of it. *)
Lemma psteps_run {E A} (x y : Prog E A * AState) :
  rtc pstep x y -> forall l' h', exists l h,
    @run oracle_platform E A x.1 (oworld x.2 l h) = @run oracle_platform E A y.1 (oworld y.2 l' h').
Proof.
  induction 1 as [x|x y z Hs _ IH]; intros l' h'; [eauto|].
  destruct (IH l' h') as (l1 & h1 & Hr). destruct x as [[o|c k] s], y as [p s']; [done|].
  destruct Hs as (r & Ha & Hp). simpl in *. subst p.
  destruct (oracle_step c s r s' l1 h1 Ha) as (l & h & Hh). exists l, h. by rewrite Hh.
Qed.

Lemma psteps_alone {E A} (p : Prog E A) V n tb o V' T n' tb' :
  rtc pstep (p, mkS V [] n tb) (Done o, mkS V' T n' tb') -> alone n p V o V'.
Proof.
  intros Hr. destruct (psteps_run _ _ Hr [] []) as (l & h & He).
  exists oracle_platform, (oworld (mkS V [] n tb) l h). simpl in He. rewrite He. split_and!; done.
Qed.

Lemma astep_db c s r s' : is_commit c = false -> astep c s r s' -> a_db s' = a_db s.
Proof.
  intros Hc Ha. destruct c; try done; simpl in Ha;
    unfold may_fail, tx_reads, tx_writes, set_tx in Ha; repeat case_match; destruct_and?; simplify_eq/=; auto.
Qed.

(** A command on a bucket does not depend on what is outside its transaction. *)
Lemma astep_local c s r s' :
  op_cmd c = true -> astep c s r s' ->
  forall D n tb, astep c (mkS D (a_txs s) n tb) r (mkS D (a_txs s') n tb).
Proof.
  intros Hc Ha D n tb. destruct s as [D0 T n0 tb0].
  destruct c; try done; simpl in *; unfold tx_reads, tx_writes, set_tx in *; simpl in *;
    repeat case_match; destruct_and?; simplify_eq/=; auto.
Qed.

(** ** A call in the log of commits *)

(** An entry of the log: the thread that commits and the contents it leaves. *)
Record Commit := mkCommit { cm_thread : nat; cm_view : view }.

(** Where a call is: the number of commits made so far, whether it holds a
    write transaction that is not yet committed, its open transactions, the
    rest of it. *)
Record Point (E A : Type) := mkPt {
  pt_pos : nat;
  pt_holds : bool;
  pt_txs : list (view * bool);
  pt_prog : Prog E A
}.
Arguments mkPt {E A} _ _ _ _.
Arguments pt_pos {E A} _.
Arguments pt_holds {E A} _.
Arguments pt_txs {E A} _.
Arguments pt_prog {E A} _.

(** The call holds a write transaction after the answer [r] to [c]. *)
Definition holds (c : Cmd) (r : resp c) (b : bool) : bool :=
  match c as c' return resp c' -> bool with
  | CBegin true => fun r => match r with inr _ => true | inl _ => b end
  | CCommit | CEnd => fun _ => false
  | _ => fun _ => b
  end r.

(** The command is a commit that succeeds. *)
Definition commits (c : Cmd) (r : resp c) : bool :=
  match c as c' return resp c' -> bool with
  | CCommit => fun r => match r with inr _ => true | inl _ => false end
  | _ => fun _ => false
  end r.

Section Work.
Context (V0 : view) (log : list Commit) (i : nat).

(** The contents after the first [k] commits. *)
Definition contents (k : nat) : view :=
  match k with O => V0 | S m => from_option cm_view V0 (log !! m) end.
(** The commit at [m] is one of thread [i]. *)
Definition mine (m : nat) : Prop := cm_thread <$> log !! m = Some i.
(** From [k] to [k'] only others commit. *)
Definition others (k k' : nat) : Prop :=
  (k <= k')%nat /\ (k' <= length log)%nat /\ forall m, (k <= m < k')%nat -> ~ mine m.

(** A step of a call of thread [i]: others commit, while the call holds no write
    transaction; or the call does a command, on its transactions and on the
    contents of the moment, and a commit of it is the next of the log. *)
Inductive work {E A} : Point E A -> Point E A -> Prop :=
  | work_others k k' T p :
      others k k' -> work (mkPt k false T p) (mkPt k' false T p)
  | work_cmd k k' b T n tb c next r s' :
      astep c (mkS (contents k) T n tb) r s' ->
      a_db s' = contents k' ->
      (if commits c r then mine k /\ k' = S k else k' = k) ->
      work (mkPt k b T (Step c next)) (mkPt k' (holds c r b) (a_txs s') (next r)).

(** The call [c] takes place between the commits [k] and [k'] and ends with
    [o]. *)
Definition performed `{Config} (c : Call) (o : outcome DbfsError unit) (k k' : nat) : Prop :=
  rtc work (mkPt k false [] (exec c)) (mkPt k' false [] (Done o)).

(** The calls [cs], one after the other, with the results [os]. *)
Inductive performs `{Config} : list Call -> list (outcome DbfsError unit) -> nat -> nat -> Prop :=
  | performs_nil k : performs [] [] k k
  | performs_snoc cs os c o k1 k2 k3 :
      performs cs os k1 k2 -> performed c o k2 k3 -> performs (cs ++ [c]) (os ++ [o]) k1 k3.

(** The call takes place at one moment [m] between [k] and [k'], as if it were
    alone: it makes the commit there and no other, or it makes none and
    leaves the contents as they are. *)
Definition at_once `{Config} (c : Call) (o : outcome DbfsError unit) (k k' : nat) : Prop :=
  exists m n, (k <= m <= k')%nat /\
    ((mine m /\ others k m /\ others (S m) k' /\ alone n (exec c) (contents m) o (contents (S m))) \/
     (others k k' /\ alone n (exec c) (contents m) o (contents m))).

Lemma others_refl k : (k <= length log)%nat -> others k k.
Proof. split; [done|]. split; [done|lia]. Qed.
Lemma others_trans k1 k2 k3 : others k1 k2 -> others k2 k3 -> others k1 k3.
Proof.
  intros (? & ? & H1) (? & ? & H2). split; [lia|]. split; [done|]. intros m Hm.
  destruct (decide (m < k2)%nat); [apply H1|apply H2]; lia.
Qed.
Lemma mine_length m : mine m -> (m < length log)%nat.
Proof.
  intros Hm. apply lookup_lt_is_Some. unfold mine in Hm. by destruct (log !! m).
Qed.

Lemma work_pos {E A} (x y : Point E A) :
  work x y -> (pt_pos x <= length log)%nat -> (pt_pos x <= pt_pos y <= length log)%nat.
Proof.
  destruct 1 as [k k' T p (? & ? & _)|k k' b T n tb c next r s' Ha Hd Hc]; simpl; [done|].
  destruct (commits c r); [destruct Hc as [?%mine_length ->]|subst k']; lia.
Qed.
Lemma works_pos {E A} (x y : Point E A) :
  rtc work x y -> (pt_pos x <= length log)%nat -> (pt_pos x <= pt_pos y <= length log)%nat.
Proof.
  induction 1 as [|x x1 y Hw _ IH]; intros Hx; [done|].
  apply work_pos in Hw; [|done]. destruct IH; lia.
Qed.
End Work.

(** ** The log grows at its end *)

Section Grow.
Context (V0 : view) (log : list Commit) (x : Commit).

Lemma contents_app k : (k <= length log)%nat -> contents V0 (log ++ [x]) k = contents V0 log k.
Proof. intros Hk. destruct k; [done|]. simpl. by rewrite lookup_app_l by lia. Qed.
Lemma mine_app i m : (m < length log)%nat -> mine (log ++ [x]) i m <-> mine log i m.
Proof. intros Hm. unfold mine. by rewrite lookup_app_l by lia. Qed.
Lemma others_app i k k' : others log i k k' -> others (log ++ [x]) i k k'.
Proof.
  intros (? & ? & Ho). split; [done|]. split; [rewrite length_app; simpl; lia|].
  intros m Hm. rewrite mine_app by lia. by apply Ho.
Qed.
Lemma others_end i : cm_thread x <> i -> others (log ++ [x]) i (length log) (S (length log)).
Proof.
  intros Hx. split; [lia|]. split; [rewrite length_app; simpl; lia|].
  intros m Hm. assert (m = length log) as -> by lia. unfold mine.
  rewrite lookup_app_r, Nat.sub_diag by lia. simpl. congruence.
Qed.

Lemma work_app {E A} i (a b : Point E A) :
  work V0 log i a b -> (pt_pos a <= length log)%nat -> work V0 (log ++ [x]) i a b.
Proof.
  intros Hw Ha. pose proof (work_pos _ _ _ _ _ Hw Ha) as Hb.
  destruct Hw as [k k' T p Ho|k k' b T n tb c next r s' Hs Hd Hc]; simpl in *.
  - by apply work_others, others_app.
  - apply (work_cmd _ _ _ _ k' _ _ n tb); rewrite ?contents_app by lia; [done|done|].
    destruct (commits c r); [|done]. destruct Hc as [Hm ->]. rewrite mine_app by lia. done.
Qed.
Lemma works_app {E A} i (a b : Point E A) :
  rtc (work V0 log i) a b -> (pt_pos a <= length log)%nat ->
  rtc (work V0 (log ++ [x]) i) a b /\ (pt_pos a <= pt_pos b <= length log)%nat.
Proof.
  induction 1 as [a|a b c Hw _ IH]; intros Ha; [by split; [constructor|]|].
  pose proof (work_pos _ _ _ _ _ Hw Ha) as Hb. destruct IH as [IH1 IH2]; [lia|].
  split; [|lia]. eapply rtc_l; [by apply work_app|done].
Qed.
Lemma performs_app `{Config} i cs os k k' :
  performs V0 log i cs os k k' -> (k <= length log)%nat ->
  performs V0 (log ++ [x]) i cs os k k' /\ (k <= k' <= length log)%nat.
Proof.
  induction 1 as [k|cs os c o k1 k2 k3 _ IH Hp]; intros Hk; [by split; [constructor|]|].
  destruct IH as [IH1 IH2]; [done|]. apply works_app in Hp as [Hp ?]; [|simpl; lia].
  simpl in *. split; [|lia]. by econstructor.
Qed.
End Grow.

(** ** The threads along the log *)

Section Serialize.
Context `{Config} `{Platform}.

Abbreviation cview := (fun s : CState => db_view (cs_db s)).
Definition tviews (txs : list Tx) : list (view * bool) := (fun t => (tx_view t, tx_writable t)) <$> txs.

(** The thread [t], [t0] at the start, has made the first of its calls along the
    log, with the results it has recorded, and is in the middle of the next
    one at the end of the log, or between two. *)
Definition thread_history (V0 : view) (log : list Commit) (lock : option nat) (i : nat) (t0 t : Thread) : Prop :=
  exists cs cur k,
    th_todo t0 = cs ++ cur ++ th_todo t /\ performs V0 log i cs (th_done t) 0 k /\
    match th_prog t with
    | None => cur = [] /\ others log i k (length log)
    | Some p => exists c, cur = [c] /\
        rtc (work V0 log i) (mkPt k false [] (exec c))
          (mkPt (length log) (bool_decide (lock = Some i)) (tviews (th_txs t)) p)
    end.

(** The log accounts for the committed contents and for every thread. *)
Record explained (s0 : CState) (log : list Commit) (s : CState) : Prop := {
  ex_contents : contents (cview s0) log (length log) = cview s;
  ex_threads : forall i t0 t, cs_threads s0 !! i = Some t0 -> cs_threads s !! i = Some t ->
    thread_history (cview s0) log (cs_lock s) i t0 t
}.

(** The lock is held when [holds] says so. *)
Lemma holds_lock s i t c {E A} (k : resp c -> Prog E A) r st Q :
  polite anything st (Step c k) Q -> held (cs_lock s) i (th_txs t) st ->
  holds c r (bool_decide (cs_lock s = Some i))
  = bool_decide (next_lock i (th_txs t) (cs_lock s) c r = Some i).
Proof.
  intros Hp Hh. destruct c; try done; simpl.
  - destruct writable; [|done]. destruct r; [done|]. by rewrite bool_decide_true.
  - destruct (decide (cs_lock s = Some i)) as [Hl|Hl].
    + rewrite (writing_head _ _ _ _ Hh) by (by apply Hh). by rewrite (bool_decide_true _ Hl).
    + rewrite (bool_decide_false _ Hl), andb_false_r. by rewrite bool_decide_false.
  - destruct Hp as [Hhd _]. rewrite (writing_head _ _ _ _ Hh Hhd).
    apply Hh in Hhd. by rewrite (bool_decide_true _ Hhd).
Qed.

(** Only a successful commit changes the contents; the thread that makes it
    holds the lock. *)
Lemma handle_db c (w : World) r (w' : World) :
  handle c w = (r, w') -> commits c r = false -> db_view (w_db w') = db_view (w_db w).
Proof.
  intros Hh Hc. apply handle_astep in Hh. destruct (is_commit c) eqn:Ec.
  - destruct c; try done. destruct r as [e|[]]; [|done]. simpl in Hh.
    assert (Hs : st w' = st w) by (destruct (w_txs w); simpl in Hh; by destruct_and?).
    by apply (f_equal a_db) in Hs.
  - by apply (astep_db _ _ _ _ Ec) in Hh.
Qed.
Lemma commits_lock s i t c {E A} (k : resp c -> Prog E A) r st Q :
  polite anything st (Step c k) Q -> held (cs_lock s) i (th_txs t) st -> commits c r = true ->
  cs_lock s = Some i.
Proof. intros Hp Hh Hc. destruct c; try done. destruct Hp as [Hhd _]. by apply Hh in Hhd. Qed.

(** A thread that does nothing, when another commits or not. *)
Lemma history_same V0 log lock lock' i t0 t :
  (lock' = Some i <-> lock = Some i) -> thread_history V0 log lock i t0 t -> thread_history V0 log lock' i t0 t.
Proof. intros Hl. unfold thread_history. by rewrite (bool_decide_ext _ _ Hl). Qed.
Lemma history_other V0 log lock x i t0 t :
  lock <> Some i -> cm_thread x <> i ->
  thread_history V0 log lock i t0 t -> thread_history V0 (log ++ [x]) lock i t0 t.
Proof.
  intros Hl Hx (cs & cur & k & Htd & Hp & Ht). exists cs, cur, k. split; [done|].
  apply (performs_app V0 log x) in Hp as [Hp Hk]; [|lia]. split; [done|].
  assert (Hlen : length (log ++ [x]) = S (length log)) by (rewrite length_app; simpl; lia).
  pose proof (others_end log x i Hx) as He. rewrite Hlen. destruct (th_prog t) as [p|].
  - destruct Ht as (c & -> & Hw). exists c. split; [done|].
    apply (works_app V0 log x) in Hw as [Hw _]; [|simpl; lia].
    rewrite bool_decide_false in Hw |- * by done. eapply rtc_r; [exact Hw|]. by apply work_others.
  - destruct Ht as [-> Ho]. split; [done|]. eapply others_trans; [by apply others_app|done].
Qed.

(** The thread that starts a call, does a command, or returns. *)
Lemma history_start V0 log lock i t0 t c cs :
  th_prog t = None -> th_todo t = c :: cs -> th_txs t = [] -> lock <> Some i ->
  thread_history V0 log lock i t0 t ->
  thread_history V0 log lock i t0 (mkTh cs (Some (exec c)) (th_txs t) (th_done t)).
Proof.
  intros Hp Hc Htx Hl (cs0 & cur & k & Htd & Hps & Ht). rewrite Hp in Ht. destruct Ht as [-> Ho].
  exists cs0, [c], k. simpl. rewrite Htd, Hc. split_and!; [done|done|]. exists c. split; [done|].
  rewrite Htx, bool_decide_false by done. apply rtc_once. by apply work_others.
Qed.
Lemma history_return V0 log lock i t0 t o :
  th_prog t = Some (Done o) -> th_txs t = [] -> lock <> Some i ->
  thread_history V0 log lock i t0 t ->
  thread_history V0 log lock i t0 (mkTh (th_todo t) None (th_txs t) (th_done t ++ [o])).
Proof.
  intros Hp Htx Hl (cs & cur & k & Htd & Hps & Ht). rewrite Hp in Ht. destruct Ht as (c & -> & Hw).
  exists (cs ++ [c]), [], (length log). simpl. rewrite Htd, <- app_assoc. split; [done|].
  rewrite Htx, bool_decide_false in Hw by done. split; [by econstructor|]. split; [done|].
  by apply others_refl.
Qed.
Lemma history_cmd V0 log s i t0 t c k r w st :
  contents V0 log (length log) = cview s -> th_prog t = Some (Step c k) ->
  handle c (solo s t) = (r, w) -> commits c r = false ->
  polite anything st (Step c k) (fun st' => st' = []) -> held (cs_lock s) i (th_txs t) st ->
  thread_history V0 log (cs_lock s) i t0 t ->
  thread_history V0 log (next_lock i (th_txs t) (cs_lock s) c r) i t0
    (mkTh (th_todo t) (Some (k r)) (w_txs w) (th_done t)).
Proof.
  intros Hv Hp Hh Hc Hpol Hheld (cs & cur & k0 & Htd & Hps & Ht). rewrite Hp in Ht.
  destruct Ht as (c0 & -> & Hw). exists cs, [c0], k0. split_and!; [done|done|]. exists c0. split; [done|].
  eapply rtc_r; [exact Hw|]. rewrite <- (holds_lock _ _ _ _ _ r _ _ Hpol Hheld).
  pose proof (handle_astep _ _ _ _ Hh) as Ha. pose proof (handle_db _ _ _ _ Hh Hc) as Hd.
  apply (work_cmd _ _ _ _ _ _ _ (cs_ino s) (cs_tbl s) c k r (Run.st w)).
  - by rewrite Hv.
  - simpl. by rewrite Hd, Hv.
  - by rewrite Hc.
Qed.
Lemma history_commit V0 log s i t0 t c k r w st :
  contents V0 log (length log) = cview s -> th_prog t = Some (Step c k) ->
  handle c (solo s t) = (r, w) -> commits c r = true ->
  polite anything st (Step c k) (fun st' => st' = []) -> held (cs_lock s) i (th_txs t) st ->
  thread_history V0 log (cs_lock s) i t0 t ->
  thread_history V0 (log ++ [mkCommit i (db_view (w_db w))])
    (next_lock i (th_txs t) (cs_lock s) c r) i t0
    (mkTh (th_todo t) (Some (k r)) (w_txs w) (th_done t)).
Proof.
  intros Hv Hp Hh Hc Hpol Hheld (cs & cur & k0 & Htd & Hps & Ht). rewrite Hp in Ht.
  destruct Ht as (c0 & -> & Hw). set (x := mkCommit i (db_view (w_db w))).
  apply (performs_app V0 log x) in Hps as [Hps Hk]; [|lia].
  apply (works_app V0 log x) in Hw as [Hw _]; [|simpl; lia].
  assert (Hlen : length (log ++ [x]) = S (length log)) by (rewrite length_app; simpl; lia).
  exists cs, [c0], k0. split_and!; [done|done|]. exists c0. split; [done|].
  eapply rtc_r; [exact Hw|]. rewrite Hlen, <- (holds_lock _ _ _ _ _ r _ _ Hpol Hheld).
  pose proof (handle_astep _ _ _ _ Hh) as Ha.
  apply (work_cmd _ _ _ _ _ _ _ (cs_ino s) (cs_tbl s) c k r (Run.st w)).
  - by rewrite contents_app, Hv by done.
  - simpl. by rewrite lookup_app_r, Nat.sub_diag by lia.
  - rewrite Hc. split; [|done]. unfold mine. by rewrite lookup_app_r, Nat.sub_diag by lia.
Qed.

(** The log after a step: the same, or longer by a commit of the thread. *)
Lemma explained_step s0 log s s' :
  locks_ok anything s -> length (cs_threads s0) = length (cs_threads s) ->
  explained s0 log s -> cstep s s' -> exists log', explained s0 log' s'.
Proof.
  intros Hl Hlen [Hv Hts] [i Hi].
  apply tstep_inv in Hi as (t & Ht & [(c & cs & Hp & Hc & ->)|[(o & Hp & ->)|(c & k & r & w & Hp & Hw & Hr & ->)]]);
    destruct (lookup_lt_is_Some_2 (cs_threads s0) i) as [t0 Ht0];
    [rewrite Hlen; by eapply lookup_lt_Some| |rewrite Hlen; by eapply lookup_lt_Some|
     |rewrite Hlen; by eapply lookup_lt_Some|];
    destruct (lo_threads _ s Hl i t Ht) as [Hok _]; unfold call_ready in Hok; rewrite Hp in Hok;
    pose proof (Hts i t0 t Ht0 Ht) as Hist.
  - exists log. split; [done|]. intros j u0 u Hu0 Hu. simpl in Hu.
    apply list_lookup_insert_Some in Hu as [(<- & <- & _)|[_ Hu]]; [|by apply Hts].
    simplify_eq. destruct Hok as [Htx Hn]. by eapply history_start.
  - destruct Hok as (ss & Hss & Hh). simpl in Hss. subst ss. destruct Hh as [Htx _ Hn].
    exists log. split; [done|]. intros j u0 u Hu0 Hu. simpl in Hu.
    apply list_lookup_insert_Some in Hu as [(<- & <- & _)|[_ Hu]]; [|by apply Hts].
    simplify_eq. apply history_return; [done|by destruct (th_txs t)|by rewrite Hn|done].
  - destruct Hok as (ss & Hpol & Hheld).
    assert (Hnl : forall j, i <> j -> next_lock i (th_txs t) (cs_lock s) c r = Some j <-> cs_lock s = Some j)
      by (intros; by apply next_lock_other).
    destruct (commits c r) eqn:Hcm.
    + exists (log ++ [mkCommit i (db_view (w_db w))]). split; simpl.
      { rewrite length_app, Nat.add_1_r. simpl. by rewrite lookup_app_r, Nat.sub_diag by lia. }
      intros j u0 u Hu0 Hu.
      apply list_lookup_insert_Some in Hu as [(<- & <- & _)|[Hij Hu]]; simplify_eq;
        [by eapply history_commit|].
      pose proof (commits_lock _ _ _ _ _ _ _ _ Hpol Hheld Hcm) as Hlk.
      apply (history_same _ _ (cs_lock s)); [by apply Hnl|].
      apply history_other; [congruence|done|by apply Hts].
    + exists log. split; simpl; [by rewrite Hv, (handle_db _ _ _ _ Hr Hcm)|]. intros j u0 u Hu0 Hu.
      apply list_lookup_insert_Some in Hu as [(<- & <- & _)|[Hij Hu]]; simplify_eq;
        [by eapply history_cmd|].
      apply (history_same _ _ (cs_lock s)); [by apply Hnl|by apply Hts].
Qed.

Lemma explained_initial s : initial s -> explained s [] s.
Proof.
  intros [_ Hidle]. split; [done|]. intros i t0 t Ht0 Ht. simplify_eq.
  rewrite list.Forall_forall in Hidle.
  destruct (Hidle t0 (list_elem_of_lookup_2 _ _ _ Ht0)) as (Hp & _ & Hd).
  exists [], [], 0%nat. rewrite Hp, Hd. split_and!; [done|constructor|done|]. by apply others_refl.
Qed.

Lemma explained_reach s s' : initial s -> rtc cstep s s' -> exists log, explained s log s'.
Proof.
  intros Hi Hr. assert (Hc : calls_orderly anything s)
    by (apply list.Forall_forall; intros; apply list.Forall_forall; intros; apply exec_orderly).
  revert s' Hr. apply (rtc_ind_r (R := cstep) (fun s' => exists log, explained s log s') s);
    [|intros s1 s2 Hr1 Hs [log Hlog]].
  - exists []. by apply explained_initial.
  - eapply explained_step; [by eapply locks_ok_reach| |done|done].
    apply reach_calls in Hr1. apply (f_equal length) in Hr1. by rewrite !length_fmap in Hr1.
Qed.
End Serialize.

(** ** Calls with one transaction *)

(** The commands of a program that begins no transaction and leaves the global
    variables alone. *)
Definition solo_cmd (c : Cmd) : bool :=
  match c with CBegin _ => false | CEnd | CCommit => true | _ => op_cmd c end.
#[export] Instance allows_solo : Allows solo_cmd.
Proof. by intros []. Qed.
#[export] Instance allows_solo_heap : AllowsHeap solo_cmd.
Proof. by intros []. Qed.

(** The program begins with its transaction and does nothing else. *)
Definition opens {E A} (p : Prog E A) : Prop :=
  match p with
  | Step (CBegin _) k => forall r, only solo_cmd (k r)
  | _ => False
  end.
(** [create] takes a number first. *)
Definition direct {E A} (p : Prog E A) : Prop :=
  opens p \/
  match p with
  | Step (CInoFetchAdd _) k => forall m, opens (k m)
  | _ => False
  end.

Section OneTransaction.
Context (V0 : view) (log : list Commit) (i : nat) {E A : Type}.
Implicit Types (p : Prog E A) (x y : Point E A).

Abbreviation work' := (@work V0 log i E A).
Abbreviation contents' := (contents V0 log).

(** A call that holds no write transaction, and begins none, does not depend on
    what is committed meanwhile. *)
Lemma works_idle x y o :
  rtc work' x y -> pt_holds x = false -> pt_prog y = Done o -> (pt_pos x <= length log)%nat ->
  forall ss, only solo_cmd (pt_prog x) -> polite op_cmd ss (pt_prog x) (fun ss' => ss' = []) ->
  TWrite ∉ ss ->
  others log i (pt_pos x) (pt_pos y) /\
  forall D n tb, rtc pstep (pt_prog x, mkS D (pt_txs x) n tb) (Done o, mkS D (pt_txs y) n tb).
Proof.
  induction 1 as [x|x x1 y Hw _ IH]; intros Hb Hy Hk ss Hs Hp Hss.
  { rewrite Hy. split; [by apply others_refl|constructor]. }
  pose proof (work_pos _ _ _ _ _ Hw Hk) as Hk1. destruct Hw as [k k' T p Ho|k k' b T n0 tb0 c next r s' Ha Hd Hc]; simpl in *.
  - destruct (IH eq_refl Hy (proj2 Hk1) ss Hs Hp Hss) as [IH1 IH2]. split; [|done].
    by eapply others_trans.
  - subst b. destruct Hs as [Hsc Hs].
    assert (Hcm : commits c r = false).
    { destruct c; try done. destruct Hp as [Hh _]. by apply no_write_head in Hh. }
    rewrite Hcm in Hc. subst k'.
    assert (Hgo : forall ss1, holds c r false = false -> polite op_cmd ss1 (next r) (fun ss' => ss' = []) ->
      TWrite ∉ ss1 -> (forall D n tb, astep c (mkS D T n tb) r (mkS D (a_txs s') n tb)) ->
      others log i k (pt_pos y) /\
      forall D n tb, rtc pstep (Step c next, mkS D T n tb) (Done o, mkS D (pt_txs y) n tb)).
    { intros ss1 Hh1 Hp1 Hss1 Hst. destruct (IH Hh1 Hy Hk ss1 (Hs r) Hp1 Hss1) as [IH1 IH2].
      split; [done|]. intros D n tb. eapply rtc_l; [|apply IH2]. exists r. split; [apply Hst|done]. }
    destruct (op_cmd c) eqn:Eo.
    + apply (Hgo ss); [by destruct c|by destruct c; try done; apply Hp|done|].
      exact (astep_local c _ r s' Eo Ha).
    + destruct c; try done; simpl in Ha; subst.
      * destruct r. apply (Hgo (list.tail ss)); [done|exact Hp| |done].
        destruct ss; [done|]. simpl. by apply not_elem_of_cons in Hss as [].
      * destruct Hp as [Hh _]. by apply no_write_head in Hh.
Qed.

(** A call in its write transaction: the contents stay the same up to its
    commit, if it makes one. *)
Lemma works_holding x y o :
  rtc work' x y -> pt_holds x = true -> pt_prog y = Done o -> (pt_pos x <= length log)%nat ->
  forall ss, only solo_cmd (pt_prog x) -> polite op_cmd ss (pt_prog x) (fun ss' => ss' = []) ->
  head ss = Some TWrite -> TWrite ∉ list.tail ss ->
  (mine log i (pt_pos x) /\ others log i (S (pt_pos x)) (pt_pos y) /\
   forall n tb, rtc pstep (pt_prog x, mkS (contents' (pt_pos x)) (pt_txs x) n tb)
                  (Done o, mkS (contents' (S (pt_pos x))) (pt_txs y) n tb)) \/
  (others log i (pt_pos x) (pt_pos y) /\
   forall n tb, rtc pstep (pt_prog x, mkS (contents' (pt_pos x)) (pt_txs x) n tb)
                  (Done o, mkS (contents' (pt_pos x)) (pt_txs y) n tb)).
Proof.
  induction 1 as [x|x x1 y Hw Hwy IH]; intros Hb Hy Hk ss Hs Hp Hss Htl.
  { right. rewrite Hy. split; [by apply others_refl|constructor]. }
  pose proof (work_pos _ _ _ _ _ Hw Hk) as Hk1. destruct Hw as [k k' T p Ho|k k' b T n0 tb0 c next r s' Ha Hd Hc]; simpl in *.
  { done. }
  subst b. destruct Hs as [Hsc Hs]. destruct (op_cmd c) eqn:Eo.
  - assert (k' = k) as -> by (by destruct c).
    destruct (IH (ltac:(by destruct c)) Hy Hk ss (Hs r) (ltac:(by destruct c; try done; apply Hp)) Hss Htl)
      as [(IH1 & IH2 & IH3)|[IH1 IH2]]; [left|right].
    + split_and!; [done|done|]. intros n tb. eapply rtc_l; [|apply IH3]. exists r. split; [|done].
      exact (astep_local c _ r s' Eo Ha _ n tb).
    + split; [done|]. intros n tb. eapply rtc_l; [|apply IH2]. exists r. split; [|done].
      exact (astep_local c _ r s' Eo Ha _ n tb).
  - destruct c; try done; simpl in *.
    + subst k' s'. destruct r. right.
      destruct (works_idle _ _ o Hwy eq_refl Hy Hk (list.tail ss) (Hs tt) Hp Htl) as [H1 H2].
      split; [done|]. intros n tb. eapply rtc_l; [|apply H2]. by exists tt.
    + destruct Hp as [_ Hp].
      assert (Hsp : TWrite ∉ spend ss).
      { destruct ss as [|[] ss]; simplify_eq/=. apply not_elem_of_cons. by split. }
      destruct (works_idle _ _ o Hwy eq_refl Hy (proj2 Hk1) (spend ss) (Hs r) (Hp r) Hsp) as [H1 H2].
      destruct r as [e|[]].
      * subst k'. right. split; [done|]. intros n tb. eapply rtc_l; [|apply H2]. exists (inl e).
        split; [|done]. simpl. destruct T; simpl in *; [by destruct Ha as [[= ->] ->]|by subst s'].
      * destruct Hc as [Hm ->]. left. split_and!; [done|done|]. intros n tb.
        eapply rtc_l; [|apply H2]. exists (inr tt). split; [|done]. simpl.
        destruct T as [|[V wr] T]; simpl in *; [by destruct Ha|].
        rewrite <- Hd, Ha. done.
Qed.

(** A program that begins with its only transaction: the moment is the one the
    transaction begins at. *)
Lemma works_opens k k' p o :
  rtc work' (mkPt k false [] p) (mkPt k' false [] (Done o)) -> (k <= length log)%nat ->
  opens p -> orderly op_cmd p ->
  exists m, (k <= m <= k')%nat /\
  ((mine log i m /\ others log i k m /\ others log i (S m) k' /\
    forall n tb, rtc pstep (p, mkS (contents' m) [] n tb) (Done o, mkS (contents' (S m)) [] n tb)) \/
   (others log i k k' /\
    forall n tb, rtc pstep (p, mkS (contents' m) [] n tb) (Done o, mkS (contents' m) [] n tb))).
Proof.
  intros Hw Hk Ho Hp. remember (mkPt k false [] p) as x eqn:Ex.
  remember (mkPt k' false [] (Done o)) as y eqn:Ey. revert k Ex Hk.
  induction Hw as [x|x x1 y Hw Hwy IH]; intros k -> Hk; [by injection Ey as _ ->|]. subst y.
  pose proof (work_pos _ _ _ _ _ Hw Hk) as Hk1.
  inversion Hw as [k0 k1 T p0 Hoth E1 E2|k0 k1 b T n0 tb0 c next r s' Ha Hd Hc E1 E2]; subst; simpl in Hk1.
  - destruct (IH eq_refl k1 eq_refl (proj2 Hk1)) as (m & Hm & Hcase). exists m. split; [lia|].
    destruct Hcase as [(H1 & H2 & H3 & H4)|[H1 H2]]; [left|right];
      (split_and!; try done; by eapply others_trans).
  - destruct c; try done. simpl in Hc. subst k1. exists k.
    pose proof (works_pos _ _ _ _ _ Hwy Hk) as Hkk. simpl in Hkk.
    split; [lia|]. destruct Hp as (_ & _ & Hpe & Hpb).
    assert (Hidle : forall ss, holds (CBegin writable) r false = false -> polite op_cmd ss (next r) (fun ss' => ss' = []) ->
      TWrite ∉ ss -> (forall n tb, astep (CBegin writable) (mkS (contents' k) [] n tb) r (mkS (contents' k) (a_txs s') n tb)) ->
      others log i k k' /\ forall n tb, rtc pstep (Step (CBegin writable) next, mkS (contents' k) [] n tb)
        (Done o, mkS (contents' k) [] n tb)).
    { intros ss Hh Hpol Hss Hst. rewrite Hh in Hwy.
      destruct (works_idle _ _ o Hwy eq_refl eq_refl Hk ss (Ho r) Hpol Hss) as [H1 H2].
      split; [done|]. intros n tb. eapply rtc_l; [|apply H2]. exists r. split; [apply Hst|done]. }
    destruct r as [e|[]]; simpl in Ha; subst s'.
    + right. apply (Hidle []); [by destruct writable|apply Hpe|apply not_elem_of_nil|done].
    + destruct writable; [|right; apply (Hidle [TRead]); [done|done|by apply no_write_read, no_write_nil|done]].
      destruct (works_holding _ _ o Hwy eq_refl eq_refl Hk [TWrite] (Ho _) Hpb eq_refl (not_elem_of_nil _))
        as [(H1 & H2 & H3)|[H1 H2]]; [left|right].
      * split_and!; [done|by apply others_refl|done|]. intros n tb. eapply rtc_l; [|apply H3]. by exists (inr tt).
      * split; [done|]. intros n tb. eapply rtc_l; [|apply H2]. by exists (inr tt).
Qed.
End OneTransaction.

Lemma direct_at_once `{Config} V0 log i c o k k' :
  direct (exec c) -> orderly op_cmd (exec c) -> (k <= length log)%nat ->
  performed V0 log i c o k k' -> at_once V0 log i c o k k'.
Proof.
  unfold performed, at_once. intros [Hd|Hd] Hp Hk Hw.
  - destruct (works_opens _ _ _ _ _ _ _ Hw Hk Hd Hp) as (m & Hm & Hcase). exists m, 0. split; [done|].
    destruct Hcase as [(H1 & H2 & H3 & H4)|[H1 H2]]; [left|right]; (split_and!; try done);
      by eapply (psteps_alone _ _ 0 ∅).
  - revert Hd Hp Hw. generalize (exec c). intros p Hd Hp Hw.
    remember (mkPt k false [] p) as x eqn:Ey. revert k Hk Ey.
    remember (mkPt k' false [] (Done o)) as y eqn:Ez.
    induction Hw as [x|x x1 y Hw Hwy IH]; intros k Hk ->; [by injection Ez as _ ->|]. subst y.
    pose proof (work_pos _ _ _ _ _ Hw Hk) as Hk1.
    inversion Hw as [k0 k1 T p0 Hoth E1 E2|k0 k1 b T n0 tb0 c1 next r s' Ha Hdb Hc E1 E2]; subst; simpl in Hk1.
    + destruct (IH eq_refl k1 (proj2 Hk1) eq_refl) as (m & q & Hm & Hcase). exists m, q. split; [lia|].
      destruct Hcase as [(H1 & H2 & H3 & H4)|[H1 H2]]; [left|right];
        (split_and!; try done; by eapply others_trans).
    + destruct c1; try done. destruct Hp as [_ Hp]. simpl in Hc, Ha. subst k1.
      destruct Ha as [-> ->]. cbn [a_ino a_txs holds] in Hwy.
      destruct (works_opens _ _ _ _ _ _ _ Hwy Hk (Hd _) (Hp _)) as (m & Hm & Hcase). exists m, n0.
      split; [done|].
      assert (Hfirst : forall D, pstep (Step (CInoFetchAdd n) next, mkS D [] n0 ∅)
        (next n0, mkS D [] ((n0 + n) `mod` 2 ^ 64) ∅)) by (intros D; by exists n0).
      destruct Hcase as [(H1 & H2 & H3 & H4)|[H1 H2]]; [left|right]; (split_and!; try done);
        eapply (psteps_alone _ _ _ ∅); (eapply rtc_l; [apply Hfirst|]); eauto.
Qed.

Lemma solo_with_tx {E A} wr onerr (body : Prog E A) : only solo_cmd body -> opens (with_tx wr onerr body).
Proof. intros Hb [e|[]]; [done|]. apply only_graft; [|done]. intros o. by split. Qed.
Lemma solo_commit : only solo_cmd commit.
Proof. split; [done|]. by intros []. Qed.
#[local] Hint Resolve solo_commit allows_solo allows_solo_heap : flat.

Lemma opens_bind {E A B} (p : Prog E A) (f : A -> Prog E B) :
  opens p -> (forall a, only solo_cmd (f a)) -> opens (bind p f).
Proof. intros Hp Hf. destruct p as [o|[] k]; try done. intros r. by apply only_bind. Qed.

Ltac opens :=
  repeat first
    [ progress flats
    | progress cbv zeta
    | match goal with
      | |- opens (bind _ _) => apply opens_bind
      | |- opens (tx_q _ _) => apply solo_with_tx
      | |- opens (tx_unwrap _ _) => apply solo_with_tx
      end ].

Section DirectCalls.
Context `{Config}.

(** The calls with one transaction: those that read all they need in the
    transaction they write in, and those that read in one.  The others read in
    one transaction and write in another, or are made of several calls. *)
Definition one_transaction (c : Call) : bool :=
  match c with
  | CallMkfs _ | CallCreate _ _ _ _ _ _ _ _ | CallUnlink _ _ _ _ _ _ | CallRmdir _ _ _ _ _
  | CallWrite _ _ _ | CallFallocate _ _ _ _ _ _ _ | CallSetxattr _ _ _ _ _ _
  | CallRemovexattr _ _ _ _ _ | CallAttr _ | CallRead _ _ _ | CallReadlink _ _
  | CallGetxattr _ _ _ _ _ | CallListxattr _ _ => true
  | _ => false
  end.

Lemma opens_drop {E A} (p : Prog E A) : opens p -> direct (p;; ret tt).
Proof. intros Hp. left. by apply opens_bind. Qed.

(** [create]: the number is taken before the transaction. *)
Lemma direct_fetch_add {E A B} n (f : Z -> Prog E A) (g : A -> Prog E B) :
  (forall m, opens (f m)) -> (forall a, only solo_cmd (g a)) ->
  direct (bind (bind (ino_fetch_add n) f) g).
Proof. intros Hf Hg. right. intros m. by apply (opens_bind (f m) g). Qed.

Lemma direct_create dir name uid gid t permission target dev :
  direct (dbfs_common_create dir name uid gid t permission target dev;; ret tt).
Proof. apply direct_fetch_add; opens. Qed.
Lemma opens_init_db {E} size : opens (init_db (E := E) size).
Proof. unfold init_db. opens. Qed.
Lemma opens_write ino buf offset : opens (dbfs_common_write ino buf offset).
Proof. unfold dbfs_common_write. opens. Qed.
Lemma opens_unlink uid gid dir name ino t : opens (dbfs_common_unlink uid gid dir name ino t).
Proof. unfold dbfs_common_unlink. opens. Qed.
Lemma opens_rmdir uid gid dir name t : opens (dbfs_common_rmdir uid gid dir name t).
Proof. unfold dbfs_common_rmdir. opens. Qed.
Lemma opens_fallocate uid gid ino offset size mode t :
  opens (dbfs_common_fallocate uid gid ino offset size mode t).
Proof. unfold dbfs_common_fallocate. opens. Qed.
Lemma opens_setxattr uid gid ino key value t : opens (dbfs_common_setxattr uid gid ino key value t).
Proof. unfold dbfs_common_setxattr, check_err. opens. Qed.
Lemma opens_removexattr uid gid ino key t : opens (dbfs_common_removexattr uid gid ino key t).
Proof. unfold dbfs_common_removexattr, check_err. opens. Qed.
Lemma opens_attr ino : opens (dbfs_common_attr ino).
Proof. unfold dbfs_common_attr, div64. opens. Qed.
Lemma opens_readlink ino buf : opens (dbfs_common_readlink ino buf).
Proof. unfold dbfs_common_readlink. opens. Qed.
Lemma opens_read ino buf offset : opens (dbfs_common_read ino buf offset).
Proof. unfold dbfs_common_read. opens. Qed.
Lemma opens_getxattr uid gid ino key buf : opens (dbfs_common_getxattr uid gid ino key buf).
Proof. unfold dbfs_common_getxattr, check_err. opens. Qed.
Lemma opens_listxattr ino buf : opens (dbfs_common_listxattr ino buf).
Proof. unfold dbfs_common_listxattr. opens. Qed.

Lemma exec_direct c : one_transaction c = true -> direct (exec c) /\ call_local c = true.
Proof.
  destruct c; cbn [exec one_transaction]; intros Hc; try done; (split; [|done]);
    first [ apply direct_create
          | left; solve [eauto using opens_init_db, opens_unlink, opens_rmdir, opens_fallocate,
              opens_setxattr, opens_removexattr]
          | apply opens_drop; solve [eauto using opens_write, opens_attr, opens_readlink, opens_read,
              opens_getxattr, opens_listxattr] ].
Qed.
End DirectCalls.

Section SerialCalls.
Context `{Config} `{Platform}.

(** C6: concurrent calls are serialized.  In every state that threads reach by
    making calls at the same time there is a log of commits, from the contents
    at the start to the committed contents, such that every thread has made
    its calls one after the other along this log, with the results it has
    recorded.  Each commit of the log is made by one call of its thread, at
    its place among the commands of that call, and replaces the contents the
    transaction of the call began with; a thread has no other commits in the
    log.  So no update is lost, repeated or made on contents that have changed
    since.  A call with one transaction ([create], [unlink], [rmdir], [write],
    [fallocate], [setxattr], [removexattr], the reads of attributes and data)
    takes place at one moment of the log: it has the result, and makes the one
    commit, that it has when it runs alone on the contents of that moment. *)
Theorem calls_serialize s s' :
  initial s -> rtc cstep s s' ->
  exists log : list Commit,
    contents (db_view (cs_db s)) log (length log) = db_view (cs_db s') /\
    (forall i t t', cs_threads s !! i = Some t -> cs_threads s' !! i = Some t' ->
       thread_history (db_view (cs_db s)) log (cs_lock s') i t t') /\
    (forall i c o k k', (k <= length log)%nat -> one_transaction c = true ->
       performed (db_view (cs_db s)) log i c o k k' -> at_once (db_view (cs_db s)) log i c o k k').
Proof.
  intros Hi Hr. destruct (explained_reach s s' Hi Hr) as [log [Hv Hts]].
  exists log. split_and!; [done|done|]. intros i c o k k' Hk [Hd Hl]%exec_direct Hp.
  apply direct_at_once; [done|by apply exec_local|done|done].
Qed.
End SerialCalls.

(** ** Witnesses *)

Section SerialWitness.
#[local] Existing Instance cfg512.
#[local] Existing Instance map_platform.

Lemma calls_serialize_witness :
  let s' := schedule (replicate 20 0%nat ++ replicate 90 1%nat) two_threads in
  exists log : list Commit,
    contents sample_view log (length log) = db_view (cs_db s') /\
    (forall i t t', cs_threads two_threads !! i = Some t -> cs_threads s' !! i = Some t' ->
       thread_history sample_view log (cs_lock s') i t t') /\
    (forall i c o k k', (k <= length log)%nat -> one_transaction c = true ->
       performed sample_view log i c o k k' -> at_once sample_view log i c o k k').
Proof. apply (calls_serialize two_threads); [apply start_initial|apply schedule_run]. Defined.

(** ** A call with two transactions *)

(** One thread empties [foo] while another writes 600 bytes, two slices, to it. *)
Definition race : CState :=
  start_threads sample_world [[CallTruncate 0 0 2 t1 0]; [CallWrite 2 (replicate 600 x41) 0]].

(** The first thread gets as far as reading the attributes of the file, the
    second makes its call, the first goes on. *)
Definition race_end : CState :=
  schedule (replicate 10 0%nat ++ replicate 60 1%nat ++ replicate 60 0%nat) race.

(** The size of [foo], and whether its slice [1] is stored. *)
Definition foo_size (V : view) : option Z := fbe 8 (bucket_of V 2) k_size.
Definition foo_slice1 (V : view) : bool :=
  bool_decide (is_Some (bucket_of V 2 !! generate_data_key_with_number 1)).

(** The contents after the two calls, one after the other. *)
Definition one_by_one (a b : Call) : view := db_view (w_db (run (exec a;; exec b) sample_world).2).

(** [truncate] finds out the size of the file in a transaction of its own,
    before the one that frees the slices.  When another thread writes to the
    file between the two, both calls succeed and leave a state that they leave
    in neither order one after the other: the file is empty but a slice of it
    is still stored, and shows again when the file is extended. *)
Theorem truncate_write_race :
  rtc cstep race race_end /\
  th_done <$> cs_threads race_end = [[Ok tt]; [Ok tt]] /\
  (foo_size (cs_db race_end) = Some 0 /\ foo_slice1 (cs_db race_end) = true) /\
  (foo_size (one_by_one (CallTruncate 0 0 2 t1 0) (CallWrite 2 (replicate 600 x41) 0)) = Some 600) /\
  (let V := one_by_one (CallWrite 2 (replicate 600 x41) 0) (CallTruncate 0 0 2 t1 0) in
   foo_size V = Some 0 /\ foo_slice1 V = false) /\
  (run (dbfs_common_truncate 0 0 2 t1 600;; dbfs_common_read 2 (replicate 600 x00) 0)
     (mkW (cs_db race_end) [] 6 ∅ 0)).1
  = Ok (600, replicate 512 x00 ++ replicate 88 x41).
Proof. split; [apply schedule_run|]. split_and!; vm_compute; done. Qed.
End SerialWitness.
