(* ===== verification/Buffers.v ===== *)
(** * The blocks of the write buffer

    [dbfs_common_write] takes a block from the buffer allocator for every slice
    it writes only in part and gives the blocks back after its commit.
    [run_blocks] keeps the blocks a run holds, by address and size.  A call that
    succeeds holds none at its end and gives back no block that it does not
    hold, or with another size; the blocks of a write that fails are lost. *)

From S2P Require Import Prelude Jammdb Effects Run RustStd Common Buckets Slices Access Inode.
From S2P Require Import Create FsType Link Truncate File Rename Attr Readdir System Samples.
From S2P Require Import Abstract Locks.

(** ** The blocks held *)

(** Give a block back: the blocks held without it. *)
Fixpoint give_back (b : Z * Z) (held : list (Z * Z)) : option (list (Z * Z)) :=
  match held with
  | [] => None
  | x :: held => if decide (x = b) then Some held else (x ::.) <$> give_back b held
  end.

Lemma give_back_Permutation b held l :
  held ≡ₚ b :: l -> exists held', give_back b held = Some held' /\ held' ≡ₚ l.
Proof.
  revert l. induction held as [|x held IH]; intros l Hp; [by apply Permutation_nil_cons in Hp|].
  simpl. case_decide as Hx; [subst x; exists held; split; [done|]; by eapply Permutation_cons_inv|].
  assert (Hin : b ∈ held).
  { assert (Hb : b ∈ x :: held) by (rewrite Hp; left). by inversion Hb. }
  apply elem_of_Permutation in Hin as [m Hm].
  destruct (IH m Hm) as (held' & -> & Hh). exists (x :: held'). split; [done|].
  rewrite Hh. apply (Permutation_cons_inv (a := b)). rewrite <- Hp, Hm. constructor.
Qed.

(** [run], with the blocks held, their addresses and sizes; [None] when a block
    is given back that is not held. *)
Fixpoint run_blocks `{Platform} {E A} (p : Prog E A) (w : World) (held : list (Z * Z))
  : option (outcome E A * list (Z * Z)) :=
  match p with
  | Done o => Some (o, held)
  | Step c k =>
      let '(r, w') := handle c w in
      match c as c' return resp c' -> (resp c' -> Prog E A) -> option (outcome E A * list (Z * Z)) with
      | CAlloc n => fun r k =>
          run_blocks (k r) w' (match r with Some (ptr, _) => (ptr, n) :: held | None => held end)
      | CDealloc ptr n => fun r k =>
          match give_back (ptr, n) held with
          | None => None
          | Some held => run_blocks (k r) w' held
          end
      | _ => fun r k => run_blocks (k r) w' held
      end r k
  end.

(** Holding the blocks [held], [p] gives back only blocks it holds and ends with
    an outcome and blocks that satisfy [Q], whatever the answers. *)
Fixpoint blocks {E A} (held : list (Z * Z)) (p : Prog E A) (Q : outcome E A -> list (Z * Z) -> Prop)
  : Prop :=
  match p with
  | Done o => Q o held
  | Step c k =>
      match c as c' return (resp c' -> Prog E A) -> Prop with
      | CAlloc n => fun k =>
          (forall ptr m, blocks ((ptr, n) :: held) (k (Some (ptr, m))) Q) /\ blocks held (k None) Q
      | CDealloc ptr n => fun k =>
          match give_back (ptr, n) held with None => False | Some held => blocks held (k tt) Q end
      | _ => fun k => forall r, blocks held (k r) Q
      end k
  end.

Lemma blocks_run `{Platform} {E A} (p : Prog E A) n Q (w : World) :
  blocks n p Q -> exists n', run_blocks p w n = Some ((run p w).1, n') /\ Q (run p w).1 n'.
Proof.
  revert n w. induction p as [o|c k IH]; intros n w Hp; [by exists n|].
  cbn [run run_blocks]. destruct (handle c w) as [r w'].
  destruct c; simpl in Hp; try (by apply IH).
  - destruct Hp as [H1 H2]. destruct r as [[ptr m]|]; by apply IH.
  - destruct (give_back _ n) as [held|]; [|done]. destruct r. by apply IH.
Qed.

Lemma blocks_graft {E A E' B} (g : outcome E A -> Prog E' B) (p : Prog E A) n Q :
  blocks n p (fun o n' => blocks n' (g o) Q) -> blocks n (graft g p) Q.
Proof.
  revert n. induction p as [o|c k IH]; intros n; simpl; [done|].
  destruct c; simpl; try (by intros Hk r; apply IH, Hk).
  - intros [H1 H2]. split; [intros ptr m; by apply IH|by apply IH].
  - destruct (give_back _ n); [apply IH|done].
Qed.
Lemma blocks_mono {E A} (p : Prog E A) n (Q Q' : outcome E A -> list (Z * Z) -> Prop) :
  blocks n p Q -> (forall o n', Q o n' -> Q' o n') -> blocks n p Q'.
Proof.
  intros Hp HQ. revert n Hp. induction p as [o|c k IH]; intros n; simpl; [auto|].
  destruct c; simpl; try (by intros Hk r; apply IH, Hk).
  - intros [H1 H2]. split; [intros ptr m; by apply IH|by apply IH].
  - destruct (give_back _ n); [apply IH|done].
Qed.
Lemma blocks_bind {E A B} (p : Prog E A) (f : A -> Prog E B) n Q :
  blocks n p (fun o n' =>
    match o with Ok a => blocks n' (f a) Q | Err e => Q (Err e) n' | Panic => Q Panic n' end) ->
  blocks n (bind p f) Q.
Proof. intros Hp. apply blocks_graft. eapply blocks_mono; [exact Hp|]. by intros [] n'. Qed.

(** ** Programs without buffers *)

Definition no_heap (c : Cmd) : bool := negb (heap_cmd c).
#[export] Instance allows_no_heap : Allows no_heap.
Proof. by intros []. Qed.
#[export] Instance allows_no_heap_globals : AllowsGlobals no_heap.
Proof. by intros []. Qed.
#[local] Hint Resolve allows_no_heap allows_no_heap_globals : flat.

Lemma no_heap_blocks {E A} (p : Prog E A) n (Q : outcome E A -> list (Z * Z) -> Prop) :
  only no_heap p -> (forall o, Q o n) -> blocks n p Q.
Proof.
  intros Hp HQ. induction p as [o|c k IH]; simpl; [done|]. destruct Hp as [Hc Hk].
  destruct c; try done; simpl; auto.
Qed.

Lemma nh_with_tx {E A} wr onerr (body : Prog E A) :
  only no_heap body -> only no_heap (with_tx wr onerr body).
Proof. intros Hb. split; [done|]. intros [e|[]]; [done|]. apply only_graft; [|done]. intros o. by split. Qed.
Lemma nh_commit : only no_heap commit.
Proof. split; [done|]. by intros []. Qed.
#[local] Hint Resolve nh_commit : flat.

Ltac nhs :=
  repeat first
    [ progress flats
    | progress cbv zeta
    | match goal with
      | |- only _ (tx_q _ _) => apply nh_with_tx
      | |- only _ (tx_unwrap _ _) => apply nh_with_tx
      | |- only _ (with_tx _ _ _) => apply nh_with_tx
      end ].

Section Calls.
Context `{Config}.

Lemma nh_attr ino : only no_heap (dbfs_common_attr ino).
Proof. unfold dbfs_common_attr, div64. nhs. Qed.
#[local] Hint Resolve nh_attr : flat.
Lemma nh_readdir_loop plus es offset buf : only no_heap (readdir_loop plus es offset buf).
Proof. revert offset buf. induction es as [|[k [v|]] es IH]; intros; simpl; unfold readdir_entry; nhs. Qed.
#[local] Hint Resolve nh_readdir_loop : flat.

(** The calls that write no file data use no buffer. *)
Definition writes_data (c : Call) : bool :=
  match c with CallWrite _ _ _ | CallCopyRange _ _ _ _ _ _ => true | _ => false end.

Lemma nh_readdir ino offset plus : only no_heap (dbfs_common_readdir ino offset plus).
Proof. unfold dbfs_common_readdir, get_readdir_table. nhs. Qed.
Lemma nh_read ino buf offset : only no_heap (dbfs_common_read ino buf offset).
Proof. unfold dbfs_common_read. nhs. Qed.
Lemma nh_rename uid gid od on nd nn flags t : only no_heap (dbfs_common_rename uid gid od on nd nn flags t).
Proof.
  unfold dbfs_common_rename, rename_read_old, rename_read_new, rename_exchange, rename_move. nhs.
Qed.
Lemma nh_truncate uid gid ino t size : only no_heap (dbfs_common_truncate uid gid ino t size).
Proof. unfold dbfs_common_truncate. nhs. Qed.

Lemma nh_init_db {E} size : only no_heap (init_db (E := E) size).
Proof. unfold init_db. nhs. Qed.
Lemma nh_root uid gid t : only no_heap (dbfs_common_root_inode uid gid t).
Proof. unfold dbfs_common_root_inode. nhs. Qed.
Lemma nh_umount : only no_heap (dbfs_common_umount).
Proof. unfold dbfs_common_umount. nhs. Qed.
Lemma nh_lookup dir name : only no_heap (dbfs_common_lookup dir name).
Proof. unfold dbfs_common_lookup. nhs. Qed.
Lemma nh_access uid gid ino mask : only no_heap (dbfs_common_access uid gid ino mask).
Proof. unfold dbfs_common_access. nhs. Qed.
Lemma nh_open ino uid gid mask : only no_heap (dbfs_common_open ino uid gid mask).
Proof. unfold dbfs_common_open. nhs. Qed.
Lemma nh_readlink ino buf : only no_heap (dbfs_common_readlink ino buf).
Proof. unfold dbfs_common_readlink. nhs. Qed.
Lemma nh_statfs b m f : only no_heap (dbfs_common_statfs b m f).
Proof. unfold dbfs_common_statfs, div64. nhs. Qed.
Lemma nh_create dir name uid gid t permission target dev :
  only no_heap (dbfs_common_create dir name uid gid t permission target dev).
Proof. unfold dbfs_common_create. nhs. Qed.
Lemma nh_link uid gid ino nd name t : only no_heap (dbfs_common_link uid gid ino nd name t).
Proof. unfold dbfs_common_link. nhs. Qed.
Lemma nh_unlink uid gid dir name ino t : only no_heap (dbfs_common_unlink uid gid dir name ino t).
Proof. unfold dbfs_common_unlink. nhs. Qed.
Lemma nh_rmdir uid gid dir name t : only no_heap (dbfs_common_rmdir uid gid dir name t).
Proof. unfold dbfs_common_rmdir. nhs. Qed.
Lemma nh_fallocate uid gid ino offset size mode t :
  only no_heap (dbfs_common_fallocate uid gid ino offset size mode t).
Proof. unfold dbfs_common_fallocate. nhs. Qed.
Lemma nh_setxattr uid gid ino key value t :
  only no_heap (dbfs_common_setxattr uid gid ino key value t).
Proof. unfold dbfs_common_setxattr, check_err. nhs. Qed.
Lemma nh_getxattr uid gid ino key buf : only no_heap (dbfs_common_getxattr uid gid ino key buf).
Proof. unfold dbfs_common_getxattr, check_err. nhs. Qed.
Lemma nh_listxattr ino buf : only no_heap (dbfs_common_listxattr ino buf).
Proof. unfold dbfs_common_listxattr. nhs. Qed.
Lemma nh_removexattr uid gid ino key t : only no_heap (dbfs_common_removexattr uid gid ino key t).
Proof. unfold dbfs_common_removexattr, check_err. nhs. Qed.
Lemma nh_chmod uid gid ino mode t : only no_heap (dbfs_common_chmod uid gid ino mode t).
Proof. unfold dbfs_common_chmod. nhs. Qed.
Lemma nh_chown uid gid ino u g t : only no_heap (dbfs_common_chown uid gid ino u g t).
Proof. unfold dbfs_common_chown. nhs. Qed.
Lemma nh_utimens uid gid ino a m t : only no_heap (dbfs_common_utimens uid gid ino a m t).
Proof. unfold dbfs_common_utimens. nhs. Qed.

Lemma exec_no_heap c : writes_data c = false -> only no_heap (exec c).
Proof.
  destruct c; cbn [exec writes_data]; intros Hc; try done;
    lazymatch goal with |- only _ (bind _ _) => apply only_bind; [|done] | _ => idtac end;
    eauto using nh_attr, nh_readdir, nh_read, nh_rename, nh_truncate, nh_init_db, nh_root, nh_umount, nh_lookup, nh_access, nh_open, nh_readlink, nh_statfs,
      nh_create, nh_link, nh_unlink, nh_rmdir, nh_fallocate, nh_setxattr, nh_getxattr,
      nh_listxattr, nh_removexattr, nh_chmod, nh_chown, nh_utimens.
Qed.

(** ** Writing *)

(** A bind whose first part uses no buffer. *)
Lemma blocks_bind_nh {E A B} (p : Prog E A) (f : A -> Prog E B) n (Q : outcome E B -> list (Z * Z) -> Prop) :
  only no_heap p -> (forall a, blocks n (f a) Q) -> (forall e, Q (Err e) n) -> Q Panic n ->
  blocks n (bind p f) Q.
Proof. intros Hp Hf He HP. apply blocks_bind, no_heap_blocks; [done|]. by intros []. Qed.

(** When the result is good, the blocks [count] says are held. *)
Definition holding {E A} (count : A -> list (Z * Z)) (o : outcome E A) (held : list (Z * Z)) : Prop :=
  match o with Ok a => held ≡ₚ count a | _ => True end.

(** The blocks of one slice at some addresses. *)
Definition slice_blocks (ptrs : list Z) : list (Z * Z) := (fun ptr => (ptr, SLICE_SIZE)) <$> ptrs.

Lemma blocks_write_slice held bucket key buf count offset len :
  blocks held (write_slice bucket key buf count offset len) (holding (fun r => slice_blocks r.2 ++ held)).
Proof.
  unfold write_slice. case_match; [by simpl|]. apply blocks_bind_nh; [nhs| |done|done]. intros kv.
  apply blocks_bind. split; [|done]. intros ptr m. destruct kv; [|by simpl].
  apply blocks_bind_nh; [nhs|by simpl|done|done].
Qed.

Lemma blocks_write_loop fuel bucket buf num offset count ptrs held :
  held ≡ₚ slice_blocks ptrs ->
  blocks held (write_loop fuel bucket buf num offset count ptrs) (holding (fun r => slice_blocks r.2)).
Proof.
  revert num offset count ptrs held. induction fuel as [|fuel IH]; intros num offset count ptrs held Hh;
    simpl; [done|].
  apply blocks_bind. eapply blocks_mono; [apply blocks_write_slice|].
  intros [[data p]|e|] held' Hn; [|done|done]. simpl in Hn.
  assert (Hp : held' ≡ₚ slice_blocks (ptrs ++ p))
    by (unfold slice_blocks in *; by rewrite fmap_app, Hn, Hh, Permutation_app_comm).
  apply blocks_bind_nh; [nhs| |done|done]. intros _.
  apply blocks_bind_nh; [nhs| |done|done]. intros num'. case_match; [exact Hp|]. by apply IH.
Qed.

Lemma blocks_deallocs {E} ptrs held :
  held ≡ₚ slice_blocks ptrs ->
  blocks held (for_each ptrs (fun ptr => dealloc (E := E) ptr SLICE_SIZE)) (holding (fun _ => [])).
Proof.
  revert held. induction ptrs as [|ptr ptrs IH]; intros held Hh; simpl; [exact Hh|].
  apply give_back_Permutation in Hh as (held' & -> & Hp). by apply IH.
Qed.

Lemma blocks_with_tx {E A} wr onerr (body : Prog E A) n (Q : outcome E A -> list (Z * Z) -> Prop) :
  (forall e, Q (onerr e) n) -> blocks n body Q -> blocks n (with_tx wr onerr body) Q.
Proof.
  intros He Hb [e|[]]; simpl; [apply He|]. apply blocks_graft. eapply blocks_mono; [exact Hb|].
  intros o n' HQ []. exact HQ.
Qed.

Lemma blocks_write ino buf offset : blocks [] (dbfs_common_write ino buf offset) (holding (fun _ => [])).
Proof.
  unfold dbfs_common_write. apply blocks_with_tx; [done|].
  apply blocks_bind_nh; [nhs| |done|done]. intros bucket.
  apply blocks_bind_nh; [nhs| |done|done]. intros size. cbv zeta.
  apply blocks_bind. eapply blocks_mono; [by apply (blocks_write_loop _ _ _ _ _ _ [])|].
  intros [[count ptrs]|e|] n' Hn; [|done|done]. simpl in Hn.
  apply blocks_bind_nh; [nhs| |done|done]. intros end_.
  apply blocks_bind_nh; [nhs| |done|done]. intros _.
  apply blocks_bind_nh; [nhs| |done|done]. intros _.
  apply blocks_bind. eapply blocks_mono; [by apply blocks_deallocs|]. by intros [[]|e|] m Hm.
Qed.

Lemma blocks_copy_range src os dest od len t :
  blocks [] (dbfs_common_copy_file_range src os dest od len t) (holding (fun _ => [])).
Proof.
  unfold dbfs_common_copy_file_range. apply blocks_bind_nh; [nhs| |done|done]. intros size. cbv zeta.
  apply blocks_bind_nh; [apply nh_read| |done|done]. intros [rs buf].
  apply blocks_bind. eapply blocks_mono; [apply blocks_write|].
  intros [ws|e|] n' Hn; [|done|done]. simpl in Hn.
  apply Permutation_nil_r in Hn as ->. apply blocks_bind_nh; [nhs|intros []; by simpl|done|done].
Qed.

Lemma exec_blocks c : blocks [] (exec c) (holding (fun _ => [])).
Proof.
  destruct (writes_data c) eqn:Hc.
  - destruct c; try done; cbn [exec]; apply blocks_bind;
      (eapply blocks_mono; [apply blocks_write || apply blocks_copy_range|]); by intros [] n' Hn.
  - apply no_heap_blocks; [by apply exec_no_heap|]. intros [[]| |]; by simpl.
Qed.

(** C21: on any platform and with any arguments, a call gives back only blocks of
    the write buffer that it holds, by their address and with the size they were
    taken with, each once, and when it succeeds it has given back all that it
    took. *)
Theorem calls_return_blocks `{Platform} c (w : World) :
  exists held, run_blocks (exec c) w [] = Some ((run (exec c) w).1, held) /\
            ((run (exec c) w).1 = Ok tt -> held = []).
Proof.
  destruct (blocks_run (exec c) [] _ w (exec_blocks c)) as (held & Hr & Hn). exists held. split; [done|].
  intros Ho. rewrite Ho in Hn. by apply Permutation_nil_r.
Qed.
End Calls.

(** ** A write that fails *)

Section Leak.
#[local] Existing Instance cfg512.
#[local] Existing Instance oracle_platform.

(** The sample file system; the transaction is begun, the commit fails. *)
Definition failing_world : World := oworld sample_state [None; Some JIo] [Some (4096, replicate 512 x00)].

(** A write whose commit fails keeps its block: the allocator does not get it
    back. *)
Lemma failed_write_leaks :
  run_blocks (exec (CallWrite 2 (bs "hello") 0)) failing_world [] = Some (Err (from_jerror JIo), [(4096, 512)]).
Proof. vm_compute. reflexivity. Qed.
End Leak.
