(* ===== verification/Examples.v ===== *)
(** * The example programs

    [examples/operate.rs] uses the operations on user buckets from end to end;
    [examples/test.rs] measures the database by itself; [examples/fuse.rs]
    builds the mount options; every example that mounts DBFS has a copy of the
    function that writes the super block.  The programs are closed, so what
    they do is computed, with [eval], for every reliable platform at once. *)

From S2P Require Import Prelude Jammdb Effects Run RustStd Common Buckets Access Inode Create Extend FsType Truncate.
From S2P Require Import Attr Samples Namespace Mount Abstract.

(** [Tx::get_or_create_bucket] and [Bucket::get_or_create_bucket] *)
Definition get_or_create_bucket (p : path) (n : bytes) : Prog JError path :=
  r ← attempt (get_bucket p n);
  match r with
  | inr b => ret b
  | inl BucketMissing => create_bucket p n
  | inl e => throw e
  end.

(** ** The super block of the examples *)

(** The body the copies of [init_db] share. *)
Definition put_super_blk `{Config} {E} (disk_size : Z) : Prog E unit :=
  tx_unwrap true (
    bucket ← unwrap (get_or_create_bucket [] (bs "super_blk"));
    unwrap (put bucket (bs "continue_number") (to_be 8 1));;
    unwrap (put bucket (bs "magic") (to_be 4 1111));;
    unwrap (put bucket (bs "blk_size") (to_be 4 SLICE_SIZE));;
    unwrap (put bucket (bs "disk_size") (to_be 8 disk_size));;
    unwrap commit).

Definition link_init_db `{Config} {E} : Prog E unit := put_super_blk (1024 * 1024 * 16).
Definition rwt_init_db `{Config} {E} : Prog E unit := put_super_blk (1024 * 1024 * 16).
Definition dbfs2_init_db `{Config} {E} : Prog E unit := put_super_blk (1024 * 1024 * 16).
Definition hugewrite_init_db `{Config} {E} : Prog E unit := put_super_blk (1024 * 1024 * 1024 * 20).

(** ** [examples/operate.rs] *)

Section Operate.
Context `{Config} {E : Type}.

Definition operate_init_db : Prog E unit := put_super_blk (1024 * 1024 * 16).

(** The first set of operations of [main]; [buf] is the address of the buffer
    of 20 bytes. *)
Definition addkey_operate : Operate :=
  AddKey [(bs "name", bs "hello"); (bs "data1", bs "world"); (bs "data2", bs "world")].
Definition read_operate (buf : Z) : Operate := Read [bs "name"; bs "data1"; bs "data2"] buf 20.
Definition add_operate : Operate :=
  AddKey [(bs "uid", bs "111"); (bs "gid", bs "222"); (bs "mode", bs "333")].
Definition add_bucket1 : Operate := AddBucket (bs "dir2") None.
Definition add_bucket : Operate :=
  AddBucket (bs "dir1") (Some (mkOperateSet [add_operate; add_bucket1])).
Definition operate_set (buf : Z) : OperateSet :=
  mkOperateSet [addkey_operate; add_bucket; read_operate buf].

(** The second set. *)
Definition rename_operate : Operate := RenameKey (bs "dir1") (bs "dir2").
Definition delete_operate : Operate := DeleteKey [bs "mode"].
Definition step_into_operate : Operate := StepInto (bs "dir2") (Some (mkOperateSet [delete_operate])).
Definition operate_set2 : OperateSet := mkOperateSet [rename_operate; step_into_operate].

(** [main], from the opened database on; the result is what is written to the
    buffer.  The buckets are nested two deep below the one renamed. *)
Definition operate_main (buf : Z) : Prog E (list (Z * bytes)) :=
  operate_init_db;;
  unwrap (extend_create_global_bucket (bs "test"));;
  out ← execute_operate 3 (bs "test") (operate_set buf);
  out2 ← execute_operate 3 (bs "test") operate_set2;
  ret (out ++ out2).

(** [buf[start..start + min_].copy_from_slice(&v.value()[..min_])] *)
Definition copy_value (bucket : path) (key buf : bytes) (start : Z) : Prog E (bytes * Z) :=
  v ← get_kv bucket key;
  v ← unwrap_option v;
  let min_ := Z.min (blen v) (blen buf - start) in
  ret (splice buf start (slice v 0 min_), start + min_).

(** [equal]: what the first set means, written out.  The transaction is not
    committed. *)
Definition equal_body (buf : bytes) : Prog E bytes :=
  bucket ← unwrap (get_bucket [] (bs "test"));
  unwrap (put bucket (bs "name") (bs "hello"));;
  unwrap (put bucket (bs "data1") (bs "world"));;
  unwrap (put bucket (bs "data2") (bs "world"));;
  '(buf, start) ← copy_value bucket (bs "name") buf 0;
  '(buf, start) ← copy_value bucket (bs "data1") buf start;
  '(buf, _) ← copy_value bucket (bs "data2") buf start;
  dir ← unwrap (create_bucket bucket (bs "dir1"));
  unwrap (put dir (bs "uid") (bs "111"));;
  unwrap (put dir (bs "gid") (bs "222"));;
  unwrap (put dir (bs "mode") (bs "333"));;
  unwrap (create_bucket dir (bs "dir2"));;
  ret buf.
Definition equal (buf : bytes) : Prog E bytes := tx_unwrap true (equal_body buf).
End Operate.

(** ** The super block *)

Section SuperBlock.
Context `{Config} {E : Type}.

Lemma wp_put_super_blk size D n tb :
  D !! sb_path = None ->
  wp true (put_super_blk (E := E) size)
    (fun o s => o = Ok tt /\ s = mkS (<[sb_path := new_sb size]> D) [] n tb) (mkS D [] n tb).
Proof.
  intros HD. unfold put_super_blk, get_or_create_bucket. apply wp_tx_unwrap; [done|]. wnorm.
  apply wp_bind, wp_unwrap, wp_bind, wp_attempt.
  eapply wp_get_bucket_missing; [reflexivity|exact HD|]. wnorm.
  eapply wp_create_bucket_ok; [reflexivity|exact HD|]. wnorm. wgo.
  eapply wp_commit; [reflexivity|done|]. wnorm. done.
Qed.

(** On a new database the function the examples use to make a file system does
    what [mkfs] does: both write the same super block and nothing else. *)
Lemma example_init_db_is_mkfs size D n tb :
  D !! sb_path = None ->
  let made := fun (o : outcome E unit) s => o = Ok tt /\ s = mkS (<[sb_path := new_sb size]> D) [] n tb in
  wp true (put_super_blk size) made (mkS D [] n tb) /\ wp true (FsType.init_db size) made (mkS D [] n tb).
Proof. intros HD made. split; [by apply wp_put_super_blk|by apply wp_init_db_new]. Qed.
End SuperBlock.

(** ** [operate.rs] *)

(** The bucket [test] and what is in it, beside a super block [sb]. *)
Definition test_keys : bucket :=
  {[ bs "name" := KeyValue (bs "hello"); bs "data1" := KeyValue (bs "world");
     bs "data2" := KeyValue (bs "world") ]}.
Definition test_dir : bucket := {[ bs "uid" := KeyValue (bs "111"); bs "gid" := KeyValue (bs "222") ]}.

Definition before_set1 (sb : bucket) : view := {[ [bs "super_blk"] := sb; [bs "test"] := ∅ ]}.
Definition after_set1 (sb : bucket) : view :=
  {[ [bs "super_blk"] := sb;
     [bs "test"] := <[bs "dir1" := Bucket]> test_keys;
     [bs "test"; bs "dir1"] := <[bs "mode" := KeyValue (bs "333")]> (<[bs "dir2" := Bucket]> test_dir);
     [bs "test"; bs "dir1"; bs "dir2"] := ∅ ]}.
Definition after_main (sb : bucket) : view :=
  {[ [bs "super_blk"] := sb;
     [bs "test"] := <[bs "dir2" := Bucket]> test_keys;
     [bs "test"; bs "dir2"] := <[bs "dir2" := Bucket]> test_dir;
     [bs "test"; bs "dir2"; bs "dir2"] := ∅ ]}.

Section OperateResult.
Context `{Config} {E : Type}.

(** The three parts of [main], by computation. *)
Ltac compute_eval :=
  lazymatch goal with |- _ = ?r => vm_cast_no_check (@eq_refl _ r) end.

Lemma eval_create_test sb n tb :
  eval (unwrap (E' := E) (extend_create_global_bucket (bs "test"))) (mkS {[ [bs "super_blk"] := sb ]} [] n tb)
  = Some (Ok tt, mkS (before_set1 sb) [] n tb).
Proof. compute_eval. Qed.
Lemma eval_first sb buf n tb :
  eval (execute_operate (E := E) 3 (bs "test") (operate_set buf)) (mkS (before_set1 sb) [] n tb)
  = Some (Ok [(buf, bs "helloworldworld")], mkS (after_set1 sb) [] n tb).
Proof. compute_eval. Qed.
Lemma eval_second sb n tb :
  eval (execute_operate (E := E) 3 (bs "test") operate_set2) (mkS (after_set1 sb) [] n tb)
  = Some (Ok [], mkS (after_main sb) [] n tb).
Proof. compute_eval. Qed.
Lemma eval_equal sb n tb :
  eval (equal_body (E := E) (replicate 20 x00)) (mkS (before_set1 sb) [(before_set1 sb, true)] n tb)
  = Some (Ok (bs "helloworldworld" ++ replicate 5 x00), mkS (before_set1 sb) [(after_set1 sb, true)] n tb).
Proof. compute_eval. Qed.

(** The example program, on a new database and on any platform on which
    nothing fails: the client's bucket is made, filled and read back
    ([helloworldworld]), and the second set of operations moves the nested
    bucket [dir1], with the bucket in it, to [dir2] and deletes a key there.
    The super block is as it was made. *)
Theorem operate_example_result buf n tb :
  wp true (operate_main (E := E) buf)
    (fun o s => o = Ok [(buf, bs "helloworldworld")] /\
                s = mkS (after_main (new_sb (16 * 1024 * 1024))) [] n tb)
    (mkS ∅ [] n tb).
Proof.
  unfold operate_main. apply wp_bind. eapply wp_mono; [apply wp_put_super_blk; apply lookup_empty|].
  intros o s [-> ->]. rewrite insert_empty. cbv beta iota. apply wp_bind.
  eapply wp_mono; [eapply eval_sound, eval_create_test|]. intros o s [-> ->]. cbv beta iota. apply wp_bind.
  eapply wp_mono; [eapply eval_sound, eval_first|]. intros o s [-> ->]. cbv beta iota. apply wp_bind.
  eapply wp_mono; [eapply eval_sound, eval_second|]. intros o s [-> ->]. cbv beta iota.
  apply wp_ret. done.
Qed.

(** [equal], the first set of operations written out by hand, agrees with
    [execute_operate]: the transaction of the one has the contents the other
    commits, and the buffer the same bytes.  But [equal] does not commit: the
    database is as it was. *)
Theorem equal_is_operate sb buf n tb :
  wp true (execute_operate (E := E) 3 (bs "test") (operate_set buf))
    (fun o s => o = Ok [(buf, bs "helloworldworld")] /\ s = mkS (after_set1 sb) [] n tb)
    (mkS (before_set1 sb) [] n tb) /\
  wp true (equal_body (E := E) (replicate 20 x00))
    (fun o s => o = Ok (bs "helloworldworld" ++ replicate 5 x00) /\ a_txs s = [(after_set1 sb, true)])
    (push_tx true (mkS (before_set1 sb) [] n tb)) /\
  wp true (equal (E := E) (replicate 20 x00))
    (fun o s => s = mkS (before_set1 sb) [] n tb) (mkS (before_set1 sb) [] n tb).
Proof.
  split_and!.
  - apply eval_sound, eval_first.
  - eapply wp_mono; [eapply eval_sound, eval_equal|]. by intros o s [-> ->].
  - unfold equal. apply wp_tx_unwrap; [done|].
    eapply wp_mono; [eapply eval_sound, eval_equal|]. by intros o s [-> ->].
Qed.
End OperateResult.

(** ** [examples/fuse.rs]: the mount options *)

(** The command line, as parsed. *)
Record Args := {
  arg_mount_point : bytes; arg_auto_unmount : bool; arg_allow_other : bool; arg_direct_io : bool;
  arg_suid : bool; arg_other : list bytes
}.

(** [fuser::MountOption], the constructors used *)
Inductive MountOption :=
  | FSName (n : bytes) | AutoUnmount | AllowOther | DefaultPermissions | RW | Async | CUSTOM (o : bytes).
#[export] Instance MountOption_eq_dec : EqDecision MountOption.
Proof. solve_decision. Defined.

(** [l.join(sep)] *)
Fixpoint join (sep : bytes) (l : list bytes) : bytes :=
  match l with
  | [] => []
  | [s] => s
  | s :: l => s ++ sep ++ join sep l
  end.

(** The characters that [str::trim] removes: those with the Unicode property
    [White_Space], in UTF-8. *)
Definition white_space : list bytes :=
  ((fun b => [b]) <$> [x09; x0a; x0b; x0c; x0d; x20]) ++
  [[xc2; x85]; [xc2; xa0]; [xe1; x9a; x80]] ++
  ((fun b => [xe2; x80; b]) <$> [x80; x81; x82; x83; x84; x85; x86; x87; x88; x89; x8a; xa8; xa9; xaf]) ++
  [[xe2; x81; x9f]; [xe3; x80; x80]].

(** Drop the strings of [ws] from the front, [fuel] of them at most. *)
Fixpoint strip (ws : list bytes) (fuel : nat) (s : bytes) : bytes :=
  match fuel with
  | O => s
  | S fuel =>
      match List.find (fun w => starts_with w s) ws with
      | Some w => strip ws fuel (drop (length w) s)
      | None => s
      end
  end.

(** [s.trim()] *)
Definition str_trim (s : bytes) : bytes :=
  let s := strip white_space (length s) s in
  rev (strip (@rev byte <$> white_space) (length s) (rev s)).

Definition mount_options (args : Args) : list MountOption :=
  let options := [FSName (bs "dbfs")] in
  let options := options ++ (if arg_auto_unmount args then [AutoUnmount] else []) in
  let options := options ++ (if arg_allow_other args then [AllowOther] else []) in
  let options := options ++ [DefaultPermissions; RW; Async] in
  let other := str_trim (join (bs " ") (arg_other args)) in
  if bool_decide (other = []) then options else options ++ [CUSTOM other].

(** [DbfsFuse::new], called with the two flags *)
Record DbfsFuse := { fs_direct_io : bool; fs_suid_support : bool }.
Definition DbfsFuse_new (direct_io suid_support : bool) : DbfsFuse :=
  {| fs_direct_io := direct_io; fs_suid_support := false |}.

Section MountOptions.
Example trim_examples :
  str_trim (bs "  a b ") = bs "a b" /\ str_trim (bs "   ") = [] /\ str_trim [xe2; x80; x89; x61; xc2; xa0] = bs "a".
Proof. by vm_compute. Qed.

(** The file system is always mounted for reading and writing, with the checks
    of the kernel on; each flag adds its option and no other. *)
Lemma mount_options_spec args :
  FSName (bs "dbfs") ∈ mount_options args /\ RW ∈ mount_options args /\
  DefaultPermissions ∈ mount_options args /\
  (AutoUnmount ∈ mount_options args <-> arg_auto_unmount args = true) /\
  (AllowOther ∈ mount_options args <-> arg_allow_other args = true) /\
  (forall o, CUSTOM o ∈ mount_options args <-> o = str_trim (join (bs " ") (arg_other args)) /\ o <> []).
Proof.
  unfold mount_options. destruct (arg_auto_unmount args), (arg_allow_other args); case_bool_decide as Ho;
    simpl; set_unfold; intuition (subst; congruence).
Qed.
End MountOptions.

(** ** [examples/test.rs]: the database by itself *)

Section Bench.
Context `{Config} {E : Type}.

Definition BENCH_PER_SIZE : Z := 1024 * 32.
Definition BENCH_FILE_SIZE : Z := 1024 * 1024 * 1024 * 2.
Definition BENCH_WRITE_BK : Z := 1024 * 1024.
Definition BUCKET_DATA_SIZE : Z := 128 * 1024 * 1024.

(** The bucket of the measurements, made if it is not there. *)
Definition bench_setup : Prog E unit :=
  tx_unwrap true (
    bucket ← attempt (get_bucket [] (bs "inode1"));
    (match bucket with
     | inl _ =>
         new_inode ← unwrap (create_bucket [] (bs "inode1"));
         unwrap (put new_inode (bs "size") (to_be 8 1));;
         unwrap (put new_inode (bs "hard_links") (to_be 8 1));;
         unwrap (put new_inode (bs "uid") (to_be 8 1));;
         unwrap (put new_inode (bs "gid") (to_be 8 1));;
         unwrap (put new_inode (bs "atime") (to_be 8 1));;
         unwrap (put new_inode (bs "mtime") (to_be 8 1));;
         unwrap (put new_inode (bs "ctime") (to_be 8 1));;
         unwrap (put new_inode (bs "block_size") (to_be 4 SLICE_SIZE))
     | inr _ => ret tt
     end);;
    unwrap commit).

(** The inner loop of the reads: one transaction per [BENCH_WRITE_BK] bytes, until
    the bucket [i] is read; [fuel] bounds the number of transactions. *)
Fixpoint bench_read_bucket (fuel : nat) (i start count : Z) : Prog E Z :=
  match fuel with
  | O => panic
  | S fuel =>
      tx_unwrap false (
        new_inode ← unwrap (get_bucket [] (bs "inode1"));
        bucket ← unwrap (get_bucket new_inode (to_be 8 i));
        for_each (seqZ start (BENCH_WRITE_BK / BENCH_PER_SIZE)) (fun i =>
          value ← get_kv bucket (to_be 8 i);
          value ← unwrap_option value;
          assert_prog (blen value =? BENCH_PER_SIZE)));;
      let start := start + BENCH_WRITE_BK / BENCH_PER_SIZE in
      if start - count =? BUCKET_DATA_SIZE / BENCH_PER_SIZE then ret start
      else bench_read_bucket fuel i start count
  end.

(** [for i in 0..BENCH_FILE_SIZE / BUCKET_DATA_SIZE]; the result is [count]. *)
Fixpoint bench_read_buckets (l : list Z) (count : Z) : Prog E Z :=
  match l with
  | [] => ret count
  | i :: l =>
      start ← bench_read_bucket (Z.to_nat (BUCKET_DATA_SIZE / BENCH_WRITE_BK)) i count count;
      bench_read_buckets l start
  end.

(** [main] without the blocks for the feature [write1], which the package does
    not declare. *)
Definition bench_main : Prog E (list (bytes * Data)) :=
  bench_setup;;
  count ← bench_read_buckets (seqZ 0 (BENCH_FILE_SIZE / BUCKET_DATA_SIZE)) 0;
  assert_prog (count =? BENCH_FILE_SIZE / BENCH_PER_SIZE);;
  tx_unwrap false (
    bucket ← unwrap (get_bucket [] (bs "inode1"));
    cursor bucket).
End Bench.

Section BenchResult.
#[local] Existing Instance cfg512.

(** The block that reads is not left out when the blocks that write are: on a
    new database the program makes its bucket and then panics. *)
Lemma bench_panics {E} n tb :
  wp true (bench_main (E := E)) (fun o _ => o = Panic) (mkS ∅ [] n tb).
Proof.
  apply eval_outcome. vm_compute. reflexivity.
Qed.
End BenchResult.
